(* ===== verification/_CoqProject ===== *)
-Q . S2P
Prelude.v
GoBytes.v
Helper.v
GoNet.v
IPText.v
GoCrypto.v
GoTime.v
Bencode.v
BencodeFacts.v
BencodeRoundtrip.v
BencodeThms.v
Codec.v
BencodeStruct.v
BencodeIface.v
BencodeTyped.v
Hash.v
MetaAddr.v
KrpcAddr.v
CodecThms.v
RoutingTable.v
RoutingTableThms.v
Krpc.v
KrpcThms.v
KrpcTyped.v
DhtManagers.v
DhtManagersThms.v
DhtServer.v
DhtServerThms.v
DhtNetThms.v
DhtLife.v
DhtLifeThms.v
DhtSearchThms.v
TableStore.v
PeerMessage.v
PeerMessageThms.v
PeerConn.v
PeerConnThms.v
PeerExtThms.v
PeerServer.v
PeerServerThms.v
BlockHandler.v
UdpTracker.v
UdpTrackerThms.v
UdpLife.v
UdpLifeThms.v
UdpConn.v
Info.v
InfoThms.v
TorrentIO.v
TorrentIOThms.v
Downloader.v
DownloaderThms.v
FilePath.v
MakeInfo.v
MakeInfoThms.v
GoURL.v
Torrent.v
TorrentThms.v
HttpTracker.v
HttpTrackerThms.v
Tracker.v
TrackerThms.v
