(* ===== verification/Prelude.v ===== *)
(** * go-bt: a verification development

    go-bt (module [github.com/xgfone/go-bt]) is a BitTorrent library: the bencode
    serialization, torrent metadata, the DHT (KRPC messages, routing table, server), the peer
    wire protocol, the trackers and a small downloader.  This library translates the core
    of it into executable definitions and proves what makes it correct; where the code does
    something else than its comments or the protocol say, the theorem states what it does.

    ** The parts and their files

    - Go itself.  [Prelude] (this file): results and panics ([res]), fixed-width integers,
      bytes, blocks of a list, tactics and hints.  [GoBytes]: big-endian integers, the order
      of strings, integers as text.  [GoNet]: [net.IP], its text and [ParseIP];
      [IPText]: parsing inverts printing.  [Helper] (internal/helper/string.go): random strings.  [GoCrypto]: SHA-1,
      hexadecimal, base32.  [GoTime]: times, durations, [sort.Search].
    - Package bencode ([src/bencode]: decode.go, encode.go, tag.go, raw.go).  [Bencode] is the
      model over reflected values ([gval]) and types ([gtype]): [decodeInto] and its loops,
      [encodeValue], [readStruct].  [BencodeFacts]: what each decoding function does to the
      reader.  [BencodeRoundtrip]: the canonical encoding.  [BencodeThms]: round trip,
      independence of map order, totality, exactness of [RawMessage].  [BencodeStruct]: how typed
      values are written and read (strings, integers, slices, maps, structs, pointers, types
      with methods), from which the round trips of messages are put together; [BencodeIface]:
      the same for what is behind an [interface{}] or a [RawMessage].  [BencodeTyped]: decoding
      arbitrary bytes into a typed value keeps its type, and does not panic when the methods of
      the types do not: [Decode] recovers from nothing, so the panic of an [UnmarshalBencode] is its own.
    - Codecs.  [Codec]: the class [FixedCodec] of types with a binary form of fixed size, whose
      lists are proved once.  [Hash] (metainfo/infohash.go), [MetaAddr]
      (metainfo/addr_compact.go), [KrpcAddr] (krpc/addr.go, krpc/node.go) are its clients.
      [CodecThms]: round trips of hashes and of compact lists, and which inputs are refused.
    - The DHT.  [RoutingTable] (dht/routing_table.go), with the wrapped nodes in a store,
      because buckets share pointers to them; [RoutingTableThms]: the metric, the buckets,
      [Closest], the invariant of every reachable table, each outcome of [AddNode] and the two
      places where the code loses it.  [Krpc] (krpc/message.go): messages as structs with
      bencode tags, encoded by the model of package bencode; [KrpcThms]: the round trip of a
      whole message; [KrpcTyped]: what arbitrary bytes can be decoded to, and how many nodes.
      [DhtManagers] (dht/blacklist.go, token_manager.go, peer_manager.go, transaction_manager.go), with the class [Blacklist] the
      server is written against; [DhtManagersThms].  [DhtServer] (dht/dht_server.go): the
      handlers in a monad of state, events and panics; [DhtServerThms]: what is answered to
      whom, what is ignored, and that searches end.  [DhtNetThms]: two servers, where the
      packets one sends are those the other reads: a ping is answered and both learn the
      other, and bootstrapping asks the addresses it was given.  [DhtLife] ([Run], [Close],
      [Sync] of the server, [Start] and [Stop] of its managers): the goroutines as actions in any
      order; [DhtLifeThms]: the invariant of the server, with which no packet and no tick makes
      it panic, that nothing takes an address out of the blacklist but the blacklist itself, and the
      negative [RespTimeout] that makes a ticker panic.  A request is two steps: the packet goes out within
      the action that sends it ([tm_sent]), and the transaction is added by an action of its own ([TransAdd]), so that a
      response can come before it ([early_pong_lost]).  [DhtSearchThms]: how many queries a search for peers can make a server send,
      whatever it is told.  [TableStore] (dht/routing_table_storage.go): the storage of the routing tables as
      an interface, and what a table is after the server has been stopped and started again.
    - The peer protocol.  [PeerMessage] (peerprotocol/message.go, protocol.go): messages, bit
      fields, piece lists; [PeerMessageThms]: round trip, decoding accepts nothing but
      encodings, bit fields as sets.  [PeerConn] (handshake.go, extension.go, fastset.go,
      peerconn.go): handshake, connection, message dispatch; [PeerConnThms]: two peers agree,
      the first-message rule, extensions are gated, the
      allowed fast set.  [PeerExtThms]: the extended handshake from one peer to the other,
      "ut_metadata" payloads, and the text form of [CompactIP].  [PeerServer] (server.go,
      noop_handler.go): accepting, the message loop, closing, and the no-op handlers with the
      embedding of a handler in another; [PeerServerThms]: the life of a connection whatever
      the peer sends, and that a handler gets the messages a peer has sent, in their order.
      [BlockHandler] (downloader/block_handler.go): a handler that embeds the no-op ones.
    - The UDP tracker.  [UdpTracker] (tracker/udptracker): binary forms, server, client;
      [UdpTrackerThms]: round trips, connection ids authenticate addresses, announce and scrape
      end to end.  [UdpLife] (udp_server.go: [Run], [handleRequest], [cleanConnectionID], [Close]):
      the goroutines of the server, each at a stage, with the lock they share; an uninterrupted
      goroutine is [handlePacket] of [UdpTracker].  [UdpLifeThms]: ids authenticate under every
      interleaving, every request is answered and nothing blocks for good, who holds the lock,
      and the two packets that end the server.  [UdpConn] (udp_client.go: [NewClientByDial],
      [Close], [readResp]): the socket with its read deadline, contexts, and what a context that
      ends does to the requests behind it.
    - Torrents.  [Info] (metainfo/info.go, file.go, piece.go, internal/helper/io.go): files,
      offsets, pieces of a file, blocks, merging, piece hashes.  [InfoThms]: offsets and files
      agree, pieces and blocks cover exactly what they should, merging keeps every byte, the
      generated hashes are the hashes of the pieces.  [TorrentIO] (reader.go, writer.go):
      reading and writing over a file system; [TorrentIOThms]: both refine one flat sequence of
      bytes.  [FilePath]: facts on paths.  [MakeInfo] (the rest of info.go): walking a directory
      and making the info of a torrent from it; [MakeInfoThms]: such a torrent verifies against the
      files it was made from.  [GoURL]: query strings.  [Torrent] (metainfo.go, addr_host.go, magnet.go): torrent
      files, host addresses, magnet links; [TorrentThms]: their round trips.
    - The downloader.  [Downloader] (downloader/torrent.go): dialling, the two handshakes and
      the loop that puts the "info" part together; [DownloaderThms]: its invariant, that only
      bytes with the requested hash are delivered, that a peer that serves every piece gets the
      download done, and the sizes for which it never is.
    - The HTTP tracker and the common client.  [HttpTracker] (tracker/httptracker): requests as
      query strings, peers and responses as bencode, client; [HttpTrackerThms]: round trips,
      announce and scrape end to end.  [Tracker] (tracker/tracker.go, get_peers.go): the class
      [Client] with an HTTP and a UDP instance; [TrackerThms]: both are the same client of one
      abstract tracker.

    ** How the parts interact

    Everything that goes over a wire is bytes: the theorems between two parties feed the output
    of the one's model to the other's ([DhtNetThms], [PeerServerThms], [UdpTrackerThms],
    [HttpTrackerThms], [TrackerThms]).  Within a party, clients are proved against interfaces:
    the codecs against [FixedCodec], the DHT server against [Blacklist] and its storage
    against the class [Keeps], a connection against its [Handler], the common tracker client against [Client].

    ** How the code is represented

    A Go struct is a record, an interface a class or a record of functions.  A call that can
    fail returns [res] (value, error, panic) or, with a pointer receiver, the new receiver and
    an [outcome].  Integers are in [Z] with their width written out ([u8] ... [i64]).  A [[]byte] or
    [string] is a list of bytes.  State is passed explicitly; a method that runs under a lock is
    one step, and a loop of tickers is the step of one tick; only in [UdpLife] is the lock itself
    part of the state.  Arguments of the model:
    [time.Now()], random values, map iteration order, sockets, handlers, [sort.Sort], the
    transport of HTTP ([do]), name resolution ([LookupIP]), dialling and listening ([dial], [Listen]), when a context ends
    ([Ctx]) and what a read left behind still takes ([late]), what [net/url]
    says about the authority of a URL ([hier]), what is on disk ([lstat]), which calls of the file
    system fail ([faults], [lstat_fault], [readdir_fault]),
    and the functions of a user ([OnBlock], [ReqBlock], [open]).

    Loops that are not structural take fuel: [Decode] [3 * len + 5] steps ([decode_total] shows
    that it never runs out), [loopRun] of a connection and [download_loop] of the downloader
    one step per unread byte and one more ([server_session] and [download_completes] show that
    it is enough: every message takes at least one byte),
    [Blocks] one per 16 KiB, [generate_loop] and [decodeExts] one per byte (their theorems show the
    results, so the fuel is enough); [fastset_loop] takes its fuel as an argument, because the
    code's loop need not end ([allowed_fast_set]).

    ** What is not modelled

    Locks and what could happen inside a method (each method is atomic) outside the server of the
    UDP tracker and the two steps of a request of the DHT, logs, timers as such, and the network and file system themselves.  What the
    deadlines of a connection of the peer protocol do to its reads, the request objects of HTTP, and
    the copy of [isZero] for Go before 1.13.
    Examples and tests of the repository are not part of the model. *)

From Stdlib Require Export ZArith Lia.
From Stdlib Require Strings.Byte Strings.String.
From stdpp Require Export prelude gmap list sorting strings.
Export Corelib.Init.Byte (byte(..)).
Export (notations) Stdlib.Strings.Byte.


#[global] Open Scope Z_scope.
#[global] Set Default Goal Selector "!".

(** ** Automation *)

Create HintDb gobt.
Create Rewrite HintDb gobt_simpl.

(** [zdiv] turns on the treatment of [/] and [mod] inside [lia]. *)
Ltac zdiv := Z.to_euclidean_division_equations; lia.

(** [split_if]: case analysis on every boolean or decidable test of the goal. *)
Ltac split_if :=
  repeat match goal with
         | |- context [if ?b then _ else _] => destruct b eqn:?
         end.

(** ** Errors and results *)

(** Go [error] values the code distinguishes; [Errorf] is every other error, with the
    text it is built from. *)
Inductive error : Type :=
  | EOF | ErrUnexpectedEOF | ErrShortBuffer | ErrShortWrite
  | Errorf (msg : String.string).

#[export] Instance error_eq_dec : EqDecision error.
Proof. solve_decision. Defined.

(** The outcome of a Go call: a value, a returned error, or a run-time panic. *)
Inductive res (A : Type) : Type :=
  | Ok (a : A)
  | Err (e : error)
  | Panic.
Arguments Ok {A} a.
Arguments Err {A} e.
Arguments Panic {A}.

#[export] Instance res_eq_dec {A} `{EqDecision A} : EqDecision (res A).
Proof. solve_decision. Defined.

Definition res_bind {A B} (m : res A) (k : A -> res B) : res B :=
  match m with Ok a => k a | Err e => Err e | Panic => Panic end.

Definition res_map {A B} (f : A -> B) (m : res A) : res B :=
  match m with Ok a => Ok (f a) | Err e => Err e | Panic => Panic end.

Declare Scope go_scope.
Delimit Scope go_scope with go.
Notation "'let!' x := m 'in' k" := (res_bind m (fun x => k))
  (at level 10, x name, m at level 100, k at level 200) : go_scope.
Notation "'let!' ' p := m 'in' k" := (res_bind m (fun x => match x with p => k end))
  (at level 10, p pattern, m at level 100, k at level 200) : go_scope.
#[global] Open Scope go_scope.

Definition is_panic {A} (m : res A) : bool :=
  match m with Panic => true | _ => false end.

#[export] Instance Ok_inj A : Inj (=) (=) (@Ok A).
Proof. by intros a b [= ->]. Qed.

Lemma res_bind_Ok {A B} (m : res A) (k : A -> res B) b :
  res_bind m k = Ok b <-> exists a, m = Ok a /\ k a = Ok b.
Proof. destruct m as [a| |]; simpl; (split; [intros|intros (? & [=] & ?)]); naive_solver. Qed.

(** ** Fixed-width integers *)

Definition u8 (z : Z) : Z := z mod 2 ^ 8.
Definition u16 (z : Z) : Z := z mod 2 ^ 16.
Definition u32 (z : Z) : Z := z mod 2 ^ 32.
Definition u64 (z : Z) : Z := z mod 2 ^ 64.
Definition i32 (z : Z) : Z := (z + 2 ^ 31) mod 2 ^ 32 - 2 ^ 31.
Definition i64 (z : Z) : Z := (z + 2 ^ 63) mod 2 ^ 64 - 2 ^ 63.

Definition is_u8 (z : Z) : Prop := 0 <= z < 2 ^ 8.
Definition is_u16 (z : Z) : Prop := 0 <= z < 2 ^ 16.
Definition is_u32 (z : Z) : Prop := 0 <= z < 2 ^ 32.
Definition is_u64 (z : Z) : Prop := 0 <= z < 2 ^ 64.
Definition is_i32 (z : Z) : Prop := - 2 ^ 31 <= z < 2 ^ 31.
Definition is_i64 (z : Z) : Prop := - 2 ^ 63 <= z < 2 ^ 63.

Lemma u8_id z : is_u8 z -> u8 z = z.
Proof. apply Z.mod_small. Qed.
Lemma u16_id z : is_u16 z -> u16 z = z.
Proof. apply Z.mod_small. Qed.
Lemma u32_id z : is_u32 z -> u32 z = z.
Proof. apply Z.mod_small. Qed.
Lemma u64_id z : is_u64 z -> u64 z = z.
Proof. apply Z.mod_small. Qed.
Lemma i32_id z : is_i32 z -> i32 z = z.
Proof. unfold is_i32, i32. intros. rewrite Z.mod_small; lia. Qed.
Lemma i64_id z : is_i64 z -> i64 z = z.
Proof. unfold is_i64, i64. intros. rewrite Z.mod_small; lia. Qed.

Lemma u8_range z : is_u8 (u8 z).
Proof. apply Z.mod_pos_bound. lia. Qed.
Lemma u16_range z : is_u16 (u16 z).
Proof. apply Z.mod_pos_bound. lia. Qed.
Lemma u32_range z : is_u32 (u32 z).
Proof. apply Z.mod_pos_bound. lia. Qed.
Lemma u64_range z : is_u64 (u64 z).
Proof. apply Z.mod_pos_bound. lia. Qed.

(** Reading back a signed value written as an unsigned one of the same width. *)
Lemma i32_u32 z : is_i32 z -> i32 (u32 z) = z.
Proof. unfold is_i32, i32, u32. intros. rewrite Zplus_mod_idemp_l. rewrite Z.mod_small; lia. Qed.
Lemma i64_u64 z : is_i64 z -> i64 (u64 z) = z.
Proof. unfold is_i64, i64, u64. intros. rewrite Zplus_mod_idemp_l. rewrite Z.mod_small; lia. Qed.

#[export] Hint Resolve u8_range u16_range u32_range u64_range : gobt.
#[export] Hint Rewrite u8_id u16_id u32_id u64_id i32_id i64_id using assumption : gobt_simpl.

(** ** Bytes *)

(** A Go [string] or [[]byte]: a sequence of bytes. *)
Abbreviation bytes := (list byte).

#[export] Instance byte_eq_dec : EqDecision byte := Byte.byte_eq_dec.
#[export] Program Instance byte_countable : Countable byte :=
  inj_countable Byte.to_N Byte.of_N _.
Next Obligation. apply Byte.of_to_N. Qed.

(** String literals. *)
Definition B (s : String.string) : bytes := String.list_byte_of_string s.
Arguments B s%_stdpp.

Definition b2z (b : byte) : Z := Z.of_N (Byte.to_N b).
(** Conversion [byte(z)]: truncation to eight bits. *)
Definition z2b (z : Z) : byte :=
  match Byte.of_N (Z.to_N (z mod 256)) with Some b => b | None => x00 end.

Lemma b2z_range b : 0 <= b2z b < 256.
Proof. unfold b2z. pose proof (Byte.to_N_bounded b). lia. Qed.

Lemma b2z_z2b z : b2z (z2b z) = z mod 256.
Proof.
  unfold b2z, z2b. pose proof (Z.mod_pos_bound z 256 ltac:(lia)).
  destruct (Byte.of_N (Z.to_N (z mod 256))) as [b|] eqn:E.
  - apply Byte.to_of_N in E. rewrite E. lia.
  - apply Byte.of_N_None_iff in E. lia.
Qed.

Lemma z2b_b2z b : z2b (b2z b) = b.
Proof.
  unfold z2b. pose proof (b2z_range b).
  rewrite Z.mod_small by lia. unfold b2z. rewrite N2Z.id, Byte.of_to_N. done.
Qed.

#[export] Instance b2z_inj : Inj (=) (=) b2z.
Proof. intros a b H. rewrite <- (z2b_b2z a), <- (z2b_b2z b), H. done. Qed.

Definition byte_xor (a b : byte) : byte := z2b (Z.lxor (b2z a) (b2z b)).
Definition byte_and (a b : byte) : byte := z2b (Z.land (b2z a) (b2z b)).

Lemma Zlxor_bound n a b :
  0 <= n -> 0 <= a < 2 ^ n -> 0 <= b < 2 ^ n -> 0 <= Z.lxor a b < 2 ^ n.
Proof.
  intros Hn Ha Hb. assert (0 <= Z.lxor a b) by (apply Z.lxor_nonneg; lia).
  split; [done|]. destruct (decide (Z.lxor a b = 0)) as [->|]; [lia|].
  apply Z.log2_lt_pow2; [lia|].
  pose proof (Z.log2_lxor a b ltac:(lia) ltac:(lia)).
  assert (Hlog : forall c, 0 <= c < 2 ^ n -> Z.log2 c < n \/ c = 0).
  { intros c Hc. destruct (decide (c = 0)); [by right|]. left. apply Z.log2_lt_pow2; lia. }
  pose proof (Z.log2_nonneg a). pose proof (Z.log2_nonneg b).
  destruct (Hlog a Ha) as [?| ->], (Hlog b Hb) as [?| ->];
    rewrite ?Z.lxor_0_l, ?Z.lxor_0_r in *; simpl in *; try done; lia.
Qed.

Lemma b2z_xor a b : b2z (byte_xor a b) = Z.lxor (b2z a) (b2z b).
Proof.
  unfold byte_xor. rewrite b2z_z2b. apply Z.mod_small.
  change 256 with (2 ^ 8). apply Zlxor_bound; [lia|apply b2z_range..].
Qed.

(** ** Lists *)

(** Go slicing [l[i:j]]: defined when [0 <= i <= j <= len(l)] (for a slice whose
    capacity is its length). *)
Definition go_slice {A} (l : list A) (i j : nat) : option (list A) :=
  if decide (i <= j <= length l)%nat then Some (take (j - i) (drop i l)) else None.

(** The blocks of [n] consecutive elements of [l]; a shorter rest is dropped. *)
Fixpoint chunks_aux {A} (fuel n : nat) (l : list A) : list (list A) :=
  match fuel with
  | O => []
  | S f => if (n <=? length l)%nat then take n l :: chunks_aux f n (drop n l) else []
  end.
Definition chunks {A} (n : nat) (l : list A) : list (list A) :=
  chunks_aux (length l) n l.

Lemma take_drop_app_exact {A} (l k : list A) n :
  length l = n -> take n (l ++ k) = l /\ drop n (l ++ k) = k.
Proof. intros <-. rewrite take_app_length, drop_app_length. done. Qed.

Lemma chunks_aux_concat {A} (n : nat) (ls : list (list A)) fuel :
  (0 < n)%nat -> Forall (fun l => length l = n) ls -> (length ls <= fuel)%nat ->
  chunks_aux fuel n (concat ls) = ls.
Proof.
  intros Hn H. revert fuel. induction H as [|l ls Hl H IH]; intros fuel Hf; simpl.
  - destruct fuel; simpl; [done|]. destruct n; [lia|done].
  - destruct fuel as [|fuel]; simpl in *; [lia|].
    destruct (take_drop_app_exact l (concat ls) n Hl) as [-> ->].
    rewrite length_app, Hl. destruct (n <=? n + length (concat ls))%nat eqn:E.
    + f_equal. apply IH. lia.
    + apply Nat.leb_gt in E. lia.
Qed.

Lemma length_concat_const {A} (n : nat) (ls : list (list A)) :
  Forall (fun l => length l = n) ls -> length (concat ls) = (n * length ls)%nat.
Proof. induction 1; simpl; [lia|]. rewrite length_app. lia. Qed.

Lemma chunks_concat {A} (n : nat) (ls : list (list A)) :
  (0 < n)%nat -> Forall (fun l => length l = n) ls -> chunks n (concat ls) = ls.
Proof.
  intros Hn H. apply chunks_aux_concat; [done..|].
  rewrite (length_concat_const n) by done. nia.
Qed.

Lemma concat_chunks_aux {A} (n : nat) fuel (l : list A) :
  (0 < n)%nat -> (length l <= fuel)%nat -> (n | length l)%nat ->
  concat (chunks_aux fuel n l) = l /\ Forall (fun c => length c = n) (chunks_aux fuel n l).
Proof.
  intros Hn. revert l. induction fuel as [|f IH]; intros l Hl [k Hk]; simpl.
  - destruct l; [done|simpl in *; lia].
  - destruct (n <=? length l)%nat eqn:E.
    + apply Nat.leb_le in E.
      destruct (IH (drop n l)) as [Hc Hf].
      { rewrite length_drop. lia. }
      { exists (k - 1)%nat. rewrite length_drop. nia. }
      split; simpl.
      * rewrite Hc. apply take_drop.
      * constructor; [rewrite length_take; lia|done].
    + apply Nat.leb_gt in E. destruct l; [done|].
      assert (k = 0)%nat by nia. subst. simpl in *. lia.
Qed.

Lemma concat_chunks {A} (n : nat) (l : list A) :
  (0 < n)%nat -> (n | length l)%nat ->
  concat (chunks n l) = l /\ Forall (fun c => length c = n) (chunks n l).
Proof. intros. apply concat_chunks_aux; auto. Qed.

(** [mapM] in the result type: the [for] loops that decode a block at a time and
    return at the first error. *)
Fixpoint res_mapM {A B} (f : A -> res B) (l : list A) : res (list B) :=
  match l with
  | [] => Ok []
  | x :: l => let! y := f x in let! ys := res_mapM f l in Ok (y :: ys)
  end.

Lemma res_mapM_map {A B C} (f : B -> res C) (g : A -> B) (h : A -> C) l :
  (forall x, x ∈ l -> f (g x) = Ok (h x)) -> res_mapM f (map g l) = Ok (map h l).
Proof.
  induction l as [|x l IH]; intros H; simpl; [done|].
  rewrite H by set_solver. simpl. rewrite IH by set_solver. done.
Qed.

Lemma res_mapM_Forall2 {A B} (f : A -> res B) l k :
  res_mapM f l = Ok k <-> Forall2 (fun x y => f x = Ok y) l k.
Proof.
  revert k. induction l as [|x l IH]; intros k; simpl.
  - split; [intros [= <-]; constructor|intros H; inv H; done].
  - rewrite res_bind_Ok. setoid_rewrite res_bind_Ok. split.
    + intros (y & Hy & ys & Hys & [= <-]). constructor; [done|]. by apply IH.
    + intros H. inv H. eexists; split; [done|]. eexists; split; [by apply IH|done].
Qed.

Lemma length_omap_le {A B} (f : A -> option B) l : (length (omap f l) <= length l)%nat.
Proof. induction l as [|x l IH]; csimpl; [done|]. destruct (f x); csimpl; lia. Qed.

Lemma StronglySorted_lookup_lt {A} (R : relation A) l i j x y :
  StronglySorted R l -> (i < j)%nat -> l !! i = Some x -> l !! j = Some y -> R x y.
Proof.
  intros Hs. revert i j. induction Hs as [|z l Hs IH Hz]; intros i j Hij Hi Hj; [done|].
  destruct j as [|j]; [lia|]. destruct i as [|i]; simpl in *.
  - injection Hi as <-. by eapply Forall_lookup_1 in Hz.
  - apply (IH i j); [lia|done..].
Qed.

Lemma StronglySorted_take {A} (R : relation A) n l :
  StronglySorted R l -> StronglySorted R (take n l).
Proof. intros H. rewrite <- (take_drop n l) in H. by apply StronglySorted_app_1_l in H. Qed.
