(* ===== verification/GoBytes.v ===== *)
(** * The parts of Go's standard library that go-bt computes with

    [encoding/binary] big-endian integers, [bytes.Compare] (the order of Go
    strings), [strconv] integer formatting and parsing.  Everything here is language or standard library; nothing of it maps to
    a line of the repository. *)

From S2P Require Import Prelude.

(** ** Big-endian integers ([encoding/binary]) *)

(** [binary.BigEndian.Uint16/32/64] on the whole of [l]. *)
Definition be_decode (l : bytes) : Z :=
  foldl (fun acc b => acc * 256 + b2z b) 0 l.

(** [binary.BigEndian.PutUint16/32/64], [binary.Write(_, BigEndian, z)] on [n] bytes:
    the low [8 n] bits of [z] (two's complement for a negative [z]). *)
Fixpoint be_encode (n : nat) (z : Z) : bytes :=
  match n with
  | O => []
  | S n => be_encode n (z / 256) ++ [z2b z]
  end.

Lemma length_be_encode n z : length (be_encode n z) = n.
Proof. revert z. induction n; intros; simpl; [done|]. rewrite length_app, IHn. simpl. lia. Qed.

Lemma be_decode_snoc l b : be_decode (l ++ [b]) = be_decode l * 256 + b2z b.
Proof. unfold be_decode. by rewrite foldl_app. Qed.

Lemma be_decode_range l : 0 <= be_decode l < 256 ^ Z.of_nat (length l).
Proof.
  induction l as [|b l IH] using rev_ind; [unfold be_decode; simpl; lia|].
  rewrite be_decode_snoc, length_app. simpl. pose proof (b2z_range b).
  replace (Z.of_nat (length l + 1)) with (Z.succ (Z.of_nat (length l))) by lia.
  rewrite Z.pow_succ_r by lia. lia.
Qed.

Lemma be_decode_encode n z : be_decode (be_encode n z) = z mod 256 ^ Z.of_nat n.
Proof.
  revert z. induction n as [|n IH]; intros z; simpl be_encode.
  - change (256 ^ Z.of_nat 0) with 1. rewrite Z.mod_1_r. done.
  - rewrite be_decode_snoc, IH, b2z_z2b.
    rewrite Nat2Z.inj_succ, Z.pow_succ_r by lia.
    rewrite (Z.rem_mul_r z 256 (256 ^ Z.of_nat n)) by lia. lia.
Qed.

Lemma be_encode_decode l : be_encode (length l) (be_decode l) = l.
Proof.
  induction l as [|b l IH] using rev_ind; [done|].
  rewrite length_app, Nat.add_comm, be_decode_snoc. cbn [length Nat.add be_encode].
  pose proof (b2z_range b).
  rewrite (Z.add_comm (_ * _)), Z.div_add, (Z.div_small (b2z b)), Z.add_0_l by lia.
  rewrite IH. do 2 f_equal. apply b2z_inj. rewrite b2z_z2b, Z.mod_add by lia.
  apply Z.mod_small. done.
Qed.

Lemma be_decode_cons b l :
  be_decode (b :: l) = b2z b * 256 ^ Z.of_nat (length l) + be_decode l.
Proof.
  induction l as [|c l IH] using rev_ind; [unfold be_decode; simpl; lia|].
  rewrite app_comm_cons, !be_decode_snoc, IH, length_app. simpl.
  replace (Z.of_nat (length l + 1)) with (Z.succ (Z.of_nat (length l))) by lia.
  rewrite Z.pow_succ_r by lia. lia.
Qed.

(** Reading back an integer of a given width. *)
Lemma be_decode_encode_small n z :
  0 <= z < 256 ^ Z.of_nat n -> be_decode (be_encode n z) = z.
Proof. intros. rewrite be_decode_encode. apply Z.mod_small. done. Qed.

Lemma be16_roundtrip z : is_u16 z -> be_decode (be_encode 2 z) = z.
Proof. intros H. apply be_decode_encode_small. exact H. Qed.
Lemma be32_roundtrip z : is_u32 z -> be_decode (be_encode 4 z) = z.
Proof. intros H. apply be_decode_encode_small. exact H. Qed.
Lemma be64_roundtrip z : is_u64 z -> be_decode (be_encode 8 z) = z.
Proof. intros H. apply be_decode_encode_small. exact H. Qed.

Lemma be_decode_is_u32 l : length l = 4%nat -> is_u32 (be_decode l).
Proof. intros H. pose proof (be_decode_range l) as R. rewrite H in R. exact R. Qed.
Lemma be_decode_is_u16 l : length l = 2%nat -> is_u16 (be_decode l).
Proof. intros H. pose proof (be_decode_range l) as R. rewrite H in R. exact R. Qed.

#[export] Hint Rewrite length_be_encode : gobt_simpl.

(** ** The order of strings ([bytes.Compare]) *)

Fixpoint bytes_compare (a b : bytes) : comparison :=
  match a, b with
  | [], [] => Eq
  | [], _ => Lt
  | _, [] => Gt
  | x :: a, y :: b =>
      match b2z x ?= b2z y with Eq => bytes_compare a b | c => c end
  end.

(** Go's [<] on strings. *)
Definition bytes_ltb (a b : bytes) : bool :=
  match bytes_compare a b with Lt => true | _ => false end.
Definition bytes_lt (a b : bytes) : Prop := bytes_compare a b = Lt.

Lemma bytes_compare_eq a b : bytes_compare a b = Eq <-> a = b.
Proof.
  revert b. induction a as [|x a IH]; intros [|y b]; simpl; try done.
  destruct (Z.compare_spec (b2z x) (b2z y)) as [H|H|H].
  - apply b2z_inj in H. subst. rewrite IH. naive_solver.
  - split; [done|]. intros [= -> ->]. lia.
  - split; [done|]. intros [= -> ->]. lia.
Qed.

Lemma bytes_compare_refl a : bytes_compare a a = Eq.
Proof. by apply bytes_compare_eq. Qed.

Lemma bytes_compare_antisym a b : bytes_compare b a = CompOpp (bytes_compare a b).
Proof.
  revert b. induction a as [|x a IH]; intros [|y b]; simpl; try done.
  rewrite (Z.compare_antisym (b2z x)). destruct (b2z x ?= b2z y); simpl; auto.
Qed.

Lemma bytes_lt_trans a b c : bytes_lt a b -> bytes_lt b c -> bytes_lt a c.
Proof.
  unfold bytes_lt. revert b c.
  induction a as [|x a IH]; intros [|y b] [|z c]; simpl; try done.
  destruct (Z.compare_spec (b2z x) (b2z y)), (Z.compare_spec (b2z y) (b2z z)),
    (Z.compare_spec (b2z x) (b2z z)); intros; try done; try lia; eauto.
Qed.

Lemma bytes_lt_irrefl a : ~ bytes_lt a a.
Proof. unfold bytes_lt. rewrite bytes_compare_refl. done. Qed.

Lemma bytes_ltb_lt a b : bytes_ltb a b = true <-> bytes_lt a b.
Proof. unfold bytes_ltb, bytes_lt. destruct (bytes_compare a b); naive_solver. Qed.

Definition bytes_le (a b : bytes) : Prop := bytes_compare a b <> Gt.

#[export] Instance bytes_le_dec : RelDecision bytes_le.
Proof. intros a b. unfold bytes_le. apply _. Defined.

#[export] Instance bytes_le_total : Total bytes_le.
Proof.
  intros a b. unfold bytes_le. rewrite (bytes_compare_antisym a b).
  destruct (bytes_compare a b); simpl; naive_solver.
Qed.

#[export] Instance bytes_le_trans : Transitive bytes_le.
Proof.
  unfold bytes_le. intros a b c H1 H2.
  destruct (bytes_compare a b) eqn:E1; [|destruct (bytes_compare b c) eqn:E2|done].
  - apply bytes_compare_eq in E1. by subst.
  - apply bytes_compare_eq in E2. subst. by rewrite E1.
  - change (bytes_lt a b) in E1. change (bytes_lt b c) in E2.
    rewrite (bytes_lt_trans _ _ _ E1 E2). done.
  - done.
Qed.

#[export] Instance bytes_le_antisymm : AntiSymm (=) bytes_le.
Proof.
  intros a b H1 H2. unfold bytes_le in *. rewrite (bytes_compare_antisym a b) in H2.
  destruct (bytes_compare a b) eqn:E; simpl in *; [|done..].
  by apply bytes_compare_eq.
Qed.

(** On strings of the same length the order is that of the big-endian integers. *)
Lemma bytes_compare_be a b :
  length a = length b -> bytes_compare a b = (be_decode a ?= be_decode b).
Proof.
  revert b. induction a as [|x a IH]; intros [|y b] H; simpl in H; try done.
  injection H as H. simpl. rewrite !be_decode_cons, H, IH by done.
  pose proof (be_decode_range a) as Ra. pose proof (be_decode_range b) as Rb.
  rewrite H in Ra. set (p := 256 ^ Z.of_nat (length b)) in *.
  destruct (Z.compare_spec (b2z x) (b2z y)) as [E|E|E].
  - rewrite E. destruct (Z.compare_spec (be_decode a) (be_decode b));
      symmetry; [apply Z.compare_eq_iff|apply Z.compare_lt_iff|apply Z.compare_gt_iff]; lia.
  - symmetry. apply Z.compare_lt_iff. nia.
  - symmetry. apply Z.compare_gt_iff. nia.
Qed.

(** ** Integers as text ([strconv], [fmt] verb [%d]) *)

Definition digit (d : Z) : byte := z2b (if d <? 10 then 48 + d else 87 + d).
Definition digit_val (b : byte) : Z := if b2z b <? 58 then b2z b - 48 else b2z b - 87.
Definition is_digit (b : byte) : bool := (48 <=? b2z b) && (b2z b <=? 57).

Lemma digit_val_digit d : 0 <= d < 36 -> digit_val (digit d) = d.
Proof.
  intros H. unfold digit_val, digit. rewrite !b2z_z2b.
  destruct (Z.ltb_spec d 10); rewrite Z.mod_small by lia.
  - destruct (Z.ltb_spec (48 + d) 58); lia.
  - destruct (Z.ltb_spec (87 + d) 58); lia.
Qed.

Lemma is_digit_digit d : 0 <= d < 10 -> is_digit (digit d) = true.
Proof.
  intros H. unfold is_digit, digit. rewrite b2z_z2b.
  destruct (Z.ltb_spec d 10); [|lia]. rewrite Z.mod_small by lia. lia.
Qed.

Fixpoint format_aux (fuel : nat) (base n : Z) (acc : bytes) : bytes :=
  match fuel with
  | O => acc
  | S f => let acc := digit (n mod base) :: acc in
           if n <? base then acc else format_aux f base (n / base) acc
  end.

(** [strconv.FormatUint(n, base)]: one digit at least, no leading zero. *)
Definition format_uint (base n : Z) : bytes := format_aux (S (Z.to_nat (Z.log2 n))) base n [].

(** [strconv.FormatInt(n, 10)] and [%d]. *)
Definition format_int (n : Z) : bytes :=
  if n <? 0 then "-"%byte :: format_uint 10 (- n) else format_uint 10 n.

Definition digits_val (base acc : Z) (l : bytes) : Z :=
  foldl (fun a b => a * base + digit_val b) acc l.

Lemma format_aux_val fuel base n acc :
  2 <= base <= 36 -> 0 <= n < base ^ Z.of_nat fuel -> (0 < fuel)%nat ->
  digits_val base 0 (format_aux fuel base n acc) = digits_val base n acc.
Proof.
  intros Hb. revert n acc. induction fuel as [|f IH]; intros n acc Hn Hf; [lia|].
  rewrite Nat2Z.inj_succ, Z.pow_succ_r in Hn by lia. simpl.
  pose proof (Z.mod_pos_bound n base ltac:(lia)).
  destruct (Z.ltb_spec n base) as [Hlt|Hge].
  - unfold digits_val. simpl. rewrite digit_val_digit by lia.
    rewrite Z.mod_small by lia. done.
  - assert (1 <= n / base) by (apply Z.div_le_lower_bound; lia).
    assert (n / base < base ^ Z.of_nat f) by (apply Z.div_lt_upper_bound; lia).
    rewrite IH; [|lia|destruct f; [simpl in *; lia|lia]].
    unfold digits_val. simpl. rewrite digit_val_digit by lia. f_equal.
    pose proof (Z.div_mod n base). lia.
Qed.

Lemma format_uint_val base n :
  2 <= base <= 36 -> 0 <= n -> digits_val base 0 (format_uint base n) = n.
Proof.
  intros Hb Hn. unfold format_uint. rewrite format_aux_val; [done|done| |lia].
  split; [done|]. rewrite Nat2Z.inj_succ, Z2Nat.id by apply Z.log2_nonneg.
  destruct (decide (n = 0)) as [->|]; [simpl; lia|].
  pose proof (Z.log2_spec n ltac:(lia)) as [_ H].
  eapply Z.lt_le_trans; [exact H|]. apply Z.pow_le_mono_l. lia.
Qed.

Lemma format_uint_inj base n m :
  2 <= base <= 36 -> 0 <= n -> 0 <= m -> format_uint base n = format_uint base m -> n = m.
Proof. intros Hb Hn Hm H. rewrite <- (format_uint_val base n), H by done. by apply format_uint_val. Qed.

Lemma format_aux_digits fuel n acc :
  0 <= n -> forallb is_digit acc = true -> forallb is_digit (format_aux fuel 10 n acc) = true.
Proof.
  revert n acc. induction fuel as [|f IH]; intros n acc Hn Ha; simpl; [done|].
  pose proof (Z.mod_pos_bound n 10 ltac:(lia)).
  assert (forallb is_digit (digit (n mod 10) :: acc) = true).
  { simpl. rewrite is_digit_digit by lia. done. }
  destruct (n <? 10); [done|]. apply IH; [|done]. apply Z.div_pos; lia.
Qed.

Lemma format_aux_nonempty fuel base n acc :
  acc <> [] -> format_aux fuel base n acc <> [].
Proof. revert n acc. induction fuel; simpl; intros; [done|]. destruct (n <? base); auto. Qed.

Lemma format_uint_nonempty base n : format_uint base n <> [].
Proof. unfold format_uint. simpl. destruct (n <? base); [done|]. by apply format_aux_nonempty. Qed.

Lemma format_uint_digits n : 0 <= n -> forallb is_digit (format_uint 10 n) = true.
Proof. intros. by apply format_aux_digits. Qed.

Definition errSyntax : error := Errorf "strconv: invalid syntax or value out of range".

(** [strconv.ParseUint(s, 10, bits)]. *)
Definition parse_uint (bits : Z) (s : bytes) : res Z :=
  if bool_decide (s = []) then Err errSyntax
  else if forallb is_digit s then
    let n := digits_val 10 0 s in if n <? 2 ^ bits then Ok n else Err errSyntax
  else Err errSyntax.

(** [strconv.ParseInt(s, 10, bits)]. *)
Definition parse_int (bits : Z) (s : bytes) : res Z :=
  let '(neg, ds) :=
    match s with
    | "-"%byte :: ds => (true, ds)
    | "+"%byte :: ds => (false, ds)
    | _ => (false, s)
    end in
  let! n := parse_uint 64 ds in
  if neg then if n <=? 2 ^ (bits - 1) then Ok (- n) else Err errSyntax
  else if n <? 2 ^ (bits - 1) then Ok n else Err errSyntax.

Lemma parse_format_uint bits n :
  0 <= n < 2 ^ bits -> parse_uint bits (format_uint 10 n) = Ok n.
Proof.
  intros H. unfold parse_uint.
  rewrite bool_decide_eq_false_2 by apply format_uint_nonempty.
  rewrite format_uint_digits, format_uint_val by lia.
  destruct (Z.ltb_spec n (2 ^ bits)); [done|lia].
Qed.

Lemma format_uint_no_sign n s :
  0 <= n -> format_uint 10 n <> "-"%byte :: s /\ format_uint 10 n <> "+"%byte :: s.
Proof.
  intros Hn. pose proof (format_uint_digits n Hn) as H.
  split; intros E; rewrite E in H; done.
Qed.

Lemma parse_int_unsigned bits n :
  0 <= n -> parse_int bits (format_uint 10 n) =
  let! n := parse_uint 64 (format_uint 10 n) in
  if n <? 2 ^ (bits - 1) then Ok n else Err errSyntax.
Proof.
  intros Hn. unfold parse_int. destruct (format_uint 10 n) as [|b l] eqn:E; [done|].
  destruct (format_uint_no_sign n l Hn) as [H1 H2]. rewrite E in H1, H2.
  destruct b; try done; congruence.
Qed.

Lemma parse_format_int bits n :
  0 < bits <= 64 -> - 2 ^ (bits - 1) <= n < 2 ^ (bits - 1) ->
  parse_int bits (format_int n) = Ok n.
Proof.
  intros Hb Hn.
  assert (2 ^ (bits - 1) <= 2 ^ 63) by (apply Z.pow_le_mono_r; lia).
  unfold format_int. destruct (Z.ltb_spec n 0).
  - unfold parse_int. rewrite parse_format_uint by lia. simpl res_bind.
    destruct (Z.leb_spec (- n) (2 ^ (bits - 1))); [f_equal; lia|lia].
  - rewrite parse_int_unsigned, parse_format_uint by lia. simpl res_bind.
    destruct (Z.ltb_spec n (2 ^ (bits - 1))); [done|lia].
Qed.
