(* ===== verification/Helper.v ===== *)
(** * Random strings

    internal/helper/string.go.  [crand size] is what [Read] of package crypto/rand has put into a slice of
    [size] bytes before it failed, [intn i] the number that [Intn(256)] of math/rand gives for the
    byte at [i]; the DHT makes the secrets of its tokens with it. *)

From S2P Require Import Prelude.

Section RandomString.
Variable crand : nat -> bytes.
Variable intn : nat -> Z.

(** The loop over the bytes that [Read] did not reach, [k] of them from [n]. *)
Fixpoint fill (bs : bytes) (n k : nat) : bytes :=
  match k with
  | O => bs
  | S k => fill (<[n := z2b (intn n)]> bs) (S n) k
  end.

Definition RandomString (size : Z) : res bytes :=
  if size <? 0 then Panic
  else
    let bs := replicate (Z.to_nat size) x00 in
    let p := take (Z.to_nat size) (crand (Z.to_nat size)) in
    let n := length p in
    Ok (fill (p ++ drop n bs) n (Z.to_nat size - n)).

Lemma fill_app p q n :
  n = length p -> fill (p ++ q) n (length q) = p ++ map (fun i => z2b (intn i)) (seq n (length q)).
Proof.
  revert p n. induction q as [|x q IH]; intros p n ->; cbn [length fill seq map]; [done|].
  rewrite insert_app_r_alt, Nat.sub_diag by lia. cbn [insert list_insert].
  rewrite cons_middle, app_assoc. rewrite (IH (p ++ [_])) by (rewrite length_app; simpl; lia).
  by rewrite <- app_assoc.
Qed.

(** A string of the length asked for: the bytes of crypto/rand, and behind them those of math/rand. *)
Lemma random_string size :
  0 <= size -> (length (crand (Z.to_nat size)) <= Z.to_nat size)%nat ->
  exists s, RandomString size = Ok s /\ Z.of_nat (length s) = size /\
    s = crand (Z.to_nat size) ++
        map (fun i => z2b (intn i))
          (seq (length (crand (Z.to_nat size))) (Z.to_nat size - length (crand (Z.to_nat size)))).
Proof.
  intros Hs Hc. unfold RandomString. replace (size <? 0) with false by (symmetry; apply Z.ltb_ge; lia).
  rewrite take_ge by done. set (p := crand (Z.to_nat size)) in *.
  rewrite drop_replicate. set (k := (Z.to_nat size - length p)%nat).
  pose proof (fill_app p (replicate k x00) _ eq_refl) as Hf. rewrite length_replicate in Hf.
  exists (p ++ map (fun i => z2b (intn i)) (seq (length p) k)). rewrite Hf. split; [done|]. split; [|done].
  rewrite length_app, length_map, length_seq. subst k. lia.
Qed.
End RandomString.

Example random_string_negative crand intn : RandomString crand intn (-1) = Panic.
Proof. reflexivity. Qed.
