(* ===== verification/GoNet.v ===== *)
(** * [net.IP] and host:port strings

    The methods of Go's [net] package that go-bt uses: an address is the byte slice
    it is in Go (4 or 16 bytes; [nil] and the empty slice are the empty list). *)

From S2P Require Import Prelude GoBytes.

Definition IP : Type := bytes.

Definition v4InV6Prefix : bytes := replicate 10 x00 ++ [xff; xff].

(** [IP.To4]: [nil] is the empty list. *)
Definition To4 (ip : IP) : IP :=
  if (length ip =? 4)%nat then ip
  else if (length ip =? 16)%nat && bool_decide (take 12 ip = v4InV6Prefix) then drop 12 ip
  else [].

(** [IP.To16]. *)
Definition To16 (ip : IP) : IP :=
  if (length ip =? 4)%nat then v4InV6Prefix ++ ip
  else if (length ip =? 16)%nat then ip
  else [].

(** [IP.Equal]: an IPv4 address and the same address in IPv6 form are equal. *)
Definition IP_Equal (a b : IP) : bool :=
  if (length a =? length b)%nat then bool_decide (a = b)
  else if (length a =? 4)%nat && (length b =? 16)%nat
  then bool_decide (take 12 b = v4InV6Prefix /\ a = drop 12 b)
  else if (length a =? 16)%nat && (length b =? 4)%nat
  then bool_decide (take 12 a = v4InV6Prefix /\ drop 12 a = b)
  else false.

Lemma To4_length ip : To4 ip = [] \/ length (To4 ip) = 4%nat.
Proof.
  unfold To4. destruct (Nat.eqb_spec (length ip) 4); [by right|].
  destruct (Nat.eqb_spec (length ip) 16); [|by left]. simpl.
  case_bool_decide; [right; rewrite length_drop; lia|by left].
Qed.

Lemma To16_length ip : To16 ip = [] \/ length (To16 ip) = 16%nat.
Proof.
  unfold To16. destruct (Nat.eqb_spec (length ip) 4); [right; rewrite length_app; simpl; lia|].
  destruct (Nat.eqb_spec (length ip) 16); auto.
Qed.

Lemma To4_id ip : length ip = 4%nat -> To4 ip = ip.
Proof. intros H. unfold To4. by rewrite H. Qed.

Lemma To16_id ip : length ip = 16%nat -> To16 ip = ip.
Proof. intros H. unfold To16. by rewrite H. Qed.

Lemma To4_To16 ip : length ip = 4%nat -> To4 (To16 ip) = ip.
Proof.
  intros H. unfold To16. rewrite H. simpl Nat.eqb. cbv iota.
  assert (Hp : length v4InV6Prefix = 12%nat) by done.
  unfold To4. rewrite length_app, H, Hp. simpl Nat.eqb. cbv iota.
  destruct (take_drop_app_exact v4InV6Prefix ip 12 Hp) as [-> ->].
  by rewrite bool_decide_eq_true_2.
Qed.

Lemma IP_Equal_refl a : IP_Equal a a = true.
Proof. unfold IP_Equal. rewrite Nat.eqb_refl. by apply bool_decide_eq_true_2. Qed.

(** For addresses of a legal length [Equal] is equality of the 16-byte forms. *)
Lemma IP_Equal_To16 a b :
  (length a = 4 \/ length a = 16)%nat -> (length b = 4 \/ length b = 16)%nat ->
  IP_Equal a b = bool_decide (To16 a = To16 b).
Proof.
  assert (Hp : length v4InV6Prefix = 12%nat) by done.
  assert (Hd : forall x y : bytes, length x = 4%nat -> length y = 16%nat ->
    v4InV6Prefix ++ x = y <-> take 12 y = v4InV6Prefix /\ x = drop 12 y).
  { intros x y Hx Hy. split.
    - intros <-. destruct (take_drop_app_exact v4InV6Prefix x 12 Hp) as [-> ->]. done.
    - intros [<- ->]. apply take_drop. }
  intros [Ha|Ha] [Hb|Hb]; unfold IP_Equal, To16; rewrite Ha, Hb; cbn [Nat.eqb andb]; apply bool_decide_ext.
  - split; [by intros ->|]. apply app_inv_head.
  - by rewrite Hd.
  - split.
    + intros [? ?]. symmetry. by apply Hd.
    + intros E. symmetry in E. apply Hd in E as [? ?]; auto.
  - done.
Qed.

(** ** Text forms *)

Fixpoint join (sep : bytes) (ls : list bytes) : bytes :=
  match ls with
  | [] => []
  | [l] => l
  | l :: ls => l ++ sep ++ join sep ls
  end.

Definition dotted (ip : IP) : bytes := join (B ".") (map (fun b => format_uint 10 (b2z b)) ip).

(** Length of the run of zero groups at the head of the list. *)
Fixpoint zero_run (gs : list Z) : nat :=
  match gs with 0 :: gs => S (zero_run gs) | _ => O end.

(** The first longest run of at least two zero groups, as (start, end). *)
Definition zero_span (gs : list Z) : option (nat * nat) :=
  foldl (fun best i =>
    let l := zero_run (drop i gs) in
    match best with
    | Some (s, e) => if (e - s <? l)%nat then Some (i, i + l)%nat else best
    | None => if (2 <=? l)%nat then Some (i, i + l)%nat else None
    end) None (seq 0 (length gs)).

Definition groups (ip : IP) : list Z := map be_decode (chunks 2 ip).

Definition IPv6_String (ip : IP) : bytes :=
  let gs := groups ip in
  let txt := fun l => join (B ":") (map (format_uint 16) l) in
  match zero_span gs with
  | Some (s, e) => txt (take s gs) ++ B "::" ++ txt (drop e gs)
  | None => txt gs
  end.

Definition hex_string (l : bytes) : bytes :=
  concat (map (fun b => [digit (b2z b / 16); digit (b2z b mod 16)]) l).

(** [IP.String]. *)
Definition IP_String (ip : IP) : bytes :=
  if (length ip =? 0)%nat then B "<nil>"
  else if (length ip =? 4)%nat || (length ip =? 16)%nat then
    if (length (To4 ip) =? 4)%nat then dotted (To4 ip) else IPv6_String ip
  else B "?" ++ hex_string ip.

(** [strings.IndexByte] and [strings.LastIndexByte]; [None] is -1. *)
Fixpoint IndexByte (s : bytes) (c : byte) : option nat :=
  match s with
  | [] => None
  | b :: s => if bool_decide (b = c) then Some O else option_map S (IndexByte s c)
  end.
Fixpoint LastIndexByte (s : bytes) (c : byte) : option nat :=
  match s with
  | [] => None
  | b :: s =>
      match LastIndexByte s c with
      | Some i => Some (S i)
      | None => if bool_decide (b = c) then Some O else None
      end
  end.
Definition ContainsByte (s : bytes) (c : byte) : bool :=
  match IndexByte s c with Some _ => true | None => false end.

(** [strings.HasPrefix] and [strings.HasSuffix]. *)
Fixpoint HasPrefix (s prefix : bytes) : bool :=
  match prefix, s with
  | [], _ => true
  | p :: prefix, c :: s => bool_decide (c = p) && HasPrefix s prefix
  | _, [] => false
  end.
Definition HasSuffix (s suffix : bytes) : bool := HasPrefix (rev s) (rev suffix).

(** [net.JoinHostPort] and [net.SplitHostPort]. *)
Definition JoinHostPort (host port : bytes) : bytes :=
  if ContainsByte host ":"%byte
  then B "[" ++ host ++ B "]:" ++ port
  else host ++ B ":" ++ port.

Definition addrErr (why : String.string) : res (bytes * bytes) := Err (Errorf why).
Definition SplitHostPort (hostport : bytes) : res (bytes * bytes) :=
  match LastIndexByte hostport ":"%byte with
  | None => addrErr "missing port in address"
  | Some i =>
      let finish (host : bytes) (j k : nat) : res (bytes * bytes) :=
        if ContainsByte (drop j hostport) "["%byte then addrErr "unexpected '[' in address"
        else if ContainsByte (drop k hostport) "]"%byte then addrErr "unexpected ']' in address"
        else Ok (host, drop (i + 1) hostport) in
      if bool_decide (head hostport = Some "["%byte) then
        match IndexByte hostport "]"%byte with
        | None => addrErr "missing ']' in address"
        | Some e =>
            if (e + 1 =? length hostport)%nat then addrErr "missing port in address"
            else if (e + 1 =? i)%nat then finish (take (e - 1) (drop 1 hostport)) 1%nat (e + 1)%nat
            else if bool_decide (hostport !! (e + 1)%nat = Some ":"%byte)
            then addrErr "too many colons in address"
            else addrErr "missing port in address"
        end
      else
        let host := take i hostport in
        if ContainsByte host ":"%byte then addrErr "too many colons in address" else finish host O O
  end.

Lemma IndexByte_app a c b : c ∉ a -> IndexByte (a ++ c :: b) c = Some (length a).
Proof.
  induction a as [|x a IH]; intros H; simpl.
  - by rewrite bool_decide_eq_true_2.
  - apply not_elem_of_cons in H as [Hx H]. rewrite bool_decide_eq_false_2 by done. by rewrite IH.
Qed.
Lemma IndexByte_None s c : c ∉ s -> IndexByte s c = None.
Proof.
  induction s as [|x s IH]; intros H; simpl; [done|].
  apply not_elem_of_cons in H as [Hx H]. rewrite bool_decide_eq_false_2 by done. by rewrite IH.
Qed.
Lemma ContainsByte_iff s c : ContainsByte s c = true <-> c ∈ s.
Proof.
  unfold ContainsByte. induction s as [|x s IH]; simpl; [set_solver|].
  rewrite elem_of_cons, <- IH. case_bool_decide as H; [naive_solver|].
  destruct (IndexByte s c); simpl; naive_solver.
Qed.
Lemma ContainsByte_false s c : ContainsByte s c = false <-> c ∉ s.
Proof. rewrite <- ContainsByte_iff. by destruct (ContainsByte s c). Qed.
Lemma LastIndexByte_None s c : c ∉ s -> LastIndexByte s c = None.
Proof.
  induction s as [|x s IH]; intros H; simpl; [done|].
  apply not_elem_of_cons in H as [Hx H]. rewrite IH by done. by rewrite bool_decide_eq_false_2.
Qed.
Lemma LastIndexByte_app a c b : c ∉ b -> LastIndexByte (a ++ c :: b) c = Some (length a).
Proof.
  intros H. induction a as [|x a IH]; simpl; [|by rewrite IH].
  rewrite LastIndexByte_None by done. by rewrite bool_decide_eq_true_2.
Qed.

(** Splitting takes a joined address apart again. *)
Lemma SplitHostPort_Join host port :
  "["%byte ∉ host -> "]"%byte ∉ host -> "["%byte ∉ port -> "]"%byte ∉ port -> ":"%byte ∉ port ->
  SplitHostPort (JoinHostPort host port) = Ok (host, port).
Proof.
  intros H1 H2 H3 H4 H5. unfold JoinHostPort. destruct (ContainsByte host _) eqn:Hc; unfold SplitHostPort.
  - change (B "[" ++ host ++ B "]:" ++ port) with ("["%byte :: host ++ "]"%byte :: ":"%byte :: port).
    replace ("["%byte :: host ++ "]"%byte :: ":"%byte :: port)
      with (("["%byte :: host ++ ["]"%byte]) ++ ":"%byte :: port) at 1 by (simpl; by rewrite <- app_assoc).
    rewrite LastIndexByte_app by done. rewrite bool_decide_eq_true_2 by done.
    assert (IndexByte ("["%byte :: host ++ "]"%byte :: ":"%byte :: port) "]"%byte = Some (S (length host))) as ->
      by (apply (IndexByte_app ("["%byte :: host)); by apply not_elem_of_cons).
    cbn [length]. rewrite !length_app. cbn [length].
    destruct (Nat.eqb_spec (S (length host) + 1) (S (length host + S (S (length port))))); [lia|].
    rewrite (proj2 (Nat.eqb_eq _ _)) by lia.
    replace (S (length host) - 1)%nat with (length host) by lia. cbn [drop].
    rewrite (proj2 (ContainsByte_false _ _)) by set_solver.
    assert (drop (S (length host) + 1) ("["%byte :: host ++ "]"%byte :: ":"%byte :: port) = ":"%byte :: port) as ->.
    { cbn [drop plus]. by rewrite drop_app_add. }
    rewrite (proj2 (ContainsByte_false _ _)) by set_solver.
    rewrite drop_0, take_app_length. do 2 f_equal. replace (S (length host + 1) + 1)%nat with (S (length host + 2)) by lia.
    cbn [drop]. by rewrite drop_app_add.
  - apply ContainsByte_false in Hc. change (host ++ B ":" ++ port) with (host ++ ":"%byte :: port).
    rewrite LastIndexByte_app by done.
    rewrite bool_decide_eq_false_2 by (destruct host; simpl; [done|intros [= ->]; set_solver]).
    rewrite take_app_length, (proj2 (ContainsByte_false _ _)) by done. cbn [drop].
    rewrite !(proj2 (ContainsByte_false _ _)) by set_solver. by rewrite drop_app_add.
Qed.

Example IP_String_v4 : IP_String [x7f; x00; x00; x01] = B "127.0.0.1".
Proof. vm_compute. reflexivity. Qed.
Example IP_String_v6 :
  IP_String [x20; x01; x0d; xb8; x00; x00; x00; x00; x00; x00; x00; x00; x00; x00; x00; x01]
  = B "2001:db8::1".
Proof. vm_compute. reflexivity. Qed.
Example IP_String_v6_one : IP_String (replicate 15 x00 ++ [x01]) = B "::1".
Proof. vm_compute. reflexivity. Qed.

(** ** Parsing

    [net.ParseIP], which is [netip.ParseAddr] without zones. *)

(** [parseIPv4Fields]: [start] holds at the beginning and after a dot; [fs] are the fields
    read so far, [val] and [digLen] the value and the number of digits of the current one. *)
Fixpoint parseIPv4Fields (start : bool) (val digLen : Z) (fs : list Z) (s : bytes) : option (list Z) :=
  match s with
  | [] => if (length fs <? 3)%nat then None else Some (fs ++ [val])
  | c :: s =>
      if is_digit c then
        if (digLen =? 1) && (val =? 0) then None
        else
          let val := val * 10 + digit_val c in
          if 255 <? val then None else parseIPv4Fields false val (digLen + 1) fs s
      else if bool_decide (c = "."%byte) then
        if start || (length s =? 0)%nat then None
        else if (length fs =? 3)%nat then None
        else parseIPv4Fields true 0 0 (fs ++ [val]) s
      else None
  end.
Definition parseIPv4 (s : bytes) : option bytes :=
  match parseIPv4Fields true 0 0 [] s with Some fs => Some (map z2b fs) | None => None end.

Definition hex_val (c : byte) : option Z :=
  let z := b2z c in
  if (48 <=? z) && (z <=? 57) then Some (z - 48)
  else if (97 <=? z) && (z <=? 102) then Some (z - 87)
  else if (65 <=? z) && (z <=? 70) then Some (z - 55)
  else None.

(** One group of hexadecimal digits: how many there are, their value, the rest. *)
Fixpoint hex_group (off : nat) (acc : Z) (s : bytes) : option (nat * Z * bytes) :=
  match s with
  | c :: s' =>
      match hex_val c with
      | Some d =>
          let acc := acc * 16 + d in
          if (3 <? off)%nat then None else if 65535 <? acc then None else hex_group (S off) acc s'
      | None => Some (off, acc, s)
      end
  | [] => Some (off, acc, [])
  end.

(** The loop [for i < 16] of [parseIPv6]; [ip] holds the [i] bytes read.  Each round but the
    last, which may read four, reads two bytes: eight rounds are all. *)
Fixpoint parseIPv6_loop (rounds : nat) (ip : bytes) (ellipsis : option nat) (s : bytes)
    : option (bytes * option nat * bytes) :=
  match rounds with
  | O => Some (ip, ellipsis, s)
  | S rounds =>
      match hex_group 0 0 s with
      | None | Some (O, _, _) => None
      | Some (_, acc, rest) =>
          if bool_decide (head rest = Some "."%byte) then
            if match ellipsis with None => negb (length ip =? 12)%nat | Some _ => false end then None
            else if (16 <? length ip + 4)%nat then None
            else match parseIPv4 s with Some fs => Some (ip ++ fs, ellipsis, []) | None => None end
          else
            let ip := ip ++ be_encode 2 acc in
            match rest with
            | [] => Some (ip, ellipsis, [])
            | c :: rest =>
                if negb (bool_decide (c = ":"%byte)) then None
                else
                  match rest with
                  | [] => None
                  | c :: rest' =>
                      if bool_decide (c = ":"%byte) then
                        match ellipsis, rest' with
                        | Some _, _ => None
                        | None, [] => Some (ip, Some (length ip), [])
                        | None, _ => parseIPv6_loop rounds ip (Some (length ip)) rest'
                        end
                      else parseIPv6_loop rounds ip ellipsis rest
                  end
            end
      end
  end.

(** What follows the loop: the whole string is used up, and the ellipsis is expanded. *)
Definition parseIPv6_end (x : option (bytes * option nat * bytes)) : option bytes :=
  match x with
  | Some (ip, ellipsis, []) =>
      if (length ip <? 16)%nat then
        match ellipsis with
        | None => None
        | Some e => Some (take e ip ++ replicate (16 - length ip) x00 ++ drop e ip)
        end
      else match ellipsis with None => Some ip | Some _ => None end
  | _ => None
  end.
Definition parseIPv6 (s : bytes) : option bytes :=
  match s with
  | x3a :: x3a :: [] => Some (replicate 16 x00)
  | x3a :: x3a :: s => parseIPv6_end (parseIPv6_loop 8 [] (Some O) s)
  | _ => parseIPv6_end (parseIPv6_loop 8 [] None s)
  end.

(** The first of [.], [:] and [%] decides; a zone is refused ([%] with or without a name). *)
Definition ParseIP (s : bytes) : option IP :=
  match List.find (fun c => bool_decide (c = "."%byte \/ c = ":"%byte \/ c = "%"%byte)) s with
  | Some x2e => match parseIPv4 s with Some ip => Some (v4InV6Prefix ++ ip) | None => None end
  | Some x3a => if existsb (fun c => bool_decide (c = "%"%byte)) s then None else parseIPv6 s
  | _ => None
  end.

(** [IP.MarshalText] and [IP.UnmarshalText]. *)
Definition IP_MarshalText (ip : IP) : res bytes :=
  if (length ip =? 0)%nat then Ok []
  else if negb (length ip =? 4)%nat && negb (length ip =? 16)%nat
  then Err (Errorf "invalid IP address")
  else Ok (IP_String ip).
Definition IP_UnmarshalText (ip : IP) (text : bytes) : IP * option error :=
  if (length text =? 0)%nat then ([], None)
  else match ParseIP text with
       | Some x => (x, None)
       | None => (ip, Some (Errorf "invalid IP address"))
       end.

Example ParseIP_v4 : ParseIP (B "127.0.0.1") = Some (v4InV6Prefix ++ [x7f; x00; x00; x01]).
Proof. vm_compute. reflexivity. Qed.
Example ParseIP_v6 : ParseIP (B "2001:db8::1") =
  Some [x20; x01; x0d; xb8; x00; x00; x00; x00; x00; x00; x00; x00; x00; x00; x00; x01].
Proof. vm_compute. reflexivity. Qed.
Example ParseIP_mapped : ParseIP (B "::ffff:1.2.3.4") = Some (v4InV6Prefix ++ [x01; x02; x03; x04]).
Proof. vm_compute. reflexivity. Qed.
Example ParseIP_refused :
  map ParseIP [B "1.2.3"; B "01.2.3.4"; B "1.2.3.256"; B "1..2.3"; B "1:2:3:4:5:6:7"; B "::1%eth0"; B "1::2::3"; B "12345::"]
  = replicate 8 None.
Proof. vm_compute. reflexivity. Qed.

(** *** An IPv4 address is read back from its text *)

Lemma parseIPv4Fields_octet b fs rest :
  exists k, parseIPv4Fields true 0 0 fs (format_uint 10 (b2z b) ++ rest)
            = parseIPv4Fields false (b2z b) k fs rest.
Proof. destruct b; eexists; reflexivity. Qed.

Lemma parseIPv4Fields_dot val k fs c rest :
  length fs <> 3%nat ->
  parseIPv4Fields false val k fs ("."%byte :: c :: rest)
  = parseIPv4Fields true 0 0 (fs ++ [val]) (c :: rest).
Proof. intros H. cbn -[is_digit]. by rewrite (proj2 (Nat.eqb_neq _ _) H). Qed.

Lemma format_octet_head b : exists c l, format_uint 10 (b2z b) = c :: l.
Proof.
  pose proof (format_uint_nonempty 10 (b2z b)) as H.
  destruct (format_uint 10 (b2z b)) as [|c l]; [done|]. eauto.
Qed.

Lemma parseIPv4_dotted ip : length ip = 4%nat -> parseIPv4 (dotted ip) = Some ip.
Proof.
  intros H. destruct ip as [|a [|b [|c [|d [|]]]]]; try done. unfold dotted, parseIPv4. cbn [map join].
  destruct (format_octet_head b) as (b0 & lb & Eb), (format_octet_head c) as (c0 & lc & Ec),
    (format_octet_head d) as (d0 & ld & Ed).
  assert (forall fs x y y0 ly rest, format_uint 10 (b2z y) = y0 :: ly -> length fs <> 3%nat ->
    parseIPv4Fields true 0 0 fs (format_uint 10 (b2z x) ++ B "." ++ format_uint 10 (b2z y) ++ rest)
    = parseIPv4Fields true 0 0 (fs ++ [b2z x]) (format_uint 10 (b2z y) ++ rest)) as step.
  { intros fs x y y0 ly rest Ey Hfs. destruct (parseIPv4Fields_octet x fs (B "." ++ format_uint 10 (b2z y) ++ rest)) as [k ->].
    rewrite Ey. by apply parseIPv4Fields_dot. }
  rewrite (step [] a b b0 lb) by done. rewrite (step [b2z a] b c c0 lc) by done.
  rewrite <- (app_nil_r (format_uint 10 (b2z d))). rewrite (step [b2z a; b2z b] c d d0 ld) by done.
  destruct (parseIPv4Fields_octet d ([b2z a; b2z b] ++ [b2z c]) []) as [k ->].
  cbn. by rewrite !z2b_b2z.
Qed.

Lemma ParseIP_dotted ip : length ip = 4%nat -> ParseIP (dotted ip) = Some (v4InV6Prefix ++ ip).
Proof.
  intros H. unfold ParseIP. rewrite parseIPv4_dotted by done.
  assert (List.find (fun c => bool_decide (c = "."%byte \/ c = ":"%byte \/ c = "%"%byte)) (dotted ip)
          = Some "."%byte) as ->; [|done].
  destruct ip as [|a [|b [|c [|d [|]]]]]; try done. unfold dotted. cbn [map join].
  generalize (format_uint 10 (b2z b) ++ B "." ++ format_uint 10 (b2z c) ++ B "." ++ format_uint 10 (b2z d)).
  intros rest. by destruct a.
Qed.

(** Four bytes are not the text of an IPv4 address, so without a colon they are no address. *)
Lemma parseIPv4Fields_length start val k fs s gs :
  (start = true -> s <> []) -> parseIPv4Fields start val k fs s = Some gs ->
  (7 <= length s + 2 * length fs + (if start then 0 else 1))%nat.
Proof.
  revert start val k fs. induction s as [|c s IH]; intros start val k fs Hs; cbn [parseIPv4Fields].
  - destruct (Nat.ltb_spec (length fs) 3); [done|]. destruct start; [by destruct Hs|]. simpl. lia.
  - destruct (is_digit c).
    + destruct (_ && _); [done|]. destruct (255 <? _); [done|]. intros H. apply IH in H; [|done].
      destruct start; simpl; lia.
    + case_bool_decide; [|done]. destruct start; [done|]. cbn [orb].
      destruct (Nat.eqb_spec (length s) 0); [done|]. destruct (length fs =? 3)%nat; [done|].
      intros H'. apply IH in H'; [|by destruct s]. rewrite length_app in H'. simpl in *. lia.
Qed.

Lemma ParseIP_four_bytes s : length s = 4%nat -> ":"%byte ∉ s -> ParseIP s = None.
Proof.
  intros Hl Hc. unfold ParseIP.
  destruct (List.find _ s) as [x|] eqn:E; [|done].
  apply find_some in E as [Hin Hx]. apply bool_decide_eq_true in Hx as [->|[->| ->]]; [|by rewrite <- list_elem_of_In in Hin|done].
  destruct (parseIPv4 s) eqn:P; [|done]. exfalso. unfold parseIPv4 in P.
  destruct (parseIPv4Fields true 0 0 [] s) eqn:F; [|done].
  apply parseIPv4Fields_length in F; [simpl in F; lia|]. intros _ ->. done.
Qed.
