(* ===== verification/IPText.v ===== *)
(** * The text of an address is read back

    [net.ParseIP] inverts [net.IP.String] on the addresses of four and sixteen bytes: the
    address it returns is the sixteen-byte form ([ParseIP_String]). *)

From S2P Require Import Prelude GoBytes GoNet.

(** ** Groups of hexadecimal digits *)

Definition hexdigits (ds : list Z) : Prop := Forall (fun d => 0 <= d < 16) ds.

Lemma hex_val_digit d : 0 <= d < 16 -> hex_val (digit d) = Some d.
Proof.
  intros H. unfold hex_val, digit. rewrite b2z_z2b.
  destruct (Z.ltb_spec d 10); rewrite Z.mod_small by lia.
  - destruct (Z.leb_spec 48 (48 + d)); [|lia]. destruct (Z.leb_spec (48 + d) 57); [|lia].
    simpl. f_equal. lia.
  - destruct (Z.leb_spec 48 (87 + d)); [|lia]. destruct (Z.leb_spec (87 + d) 57); [lia|].
    destruct (Z.leb_spec 97 (87 + d)); [|lia]. destruct (Z.leb_spec (87 + d) 102); [|lia].
    simpl. f_equal. lia.
Qed.

Lemma format_aux_hex fuel n k acc :
  0 <= n < 16 ^ Z.of_nat (S k) ->
  exists ds, format_aux fuel 16 n acc = map digit ds ++ acc /\ hexdigits ds /\ (length ds <= S k)%nat.
Proof.
  revert n k acc. induction fuel as [|f IH]; intros n k acc Hn.
  { exists []. split; [done|]. split; [constructor|simpl; lia]. }
  cbn [format_aux]. pose proof (Z.mod_pos_bound n 16 ltac:(lia)).
  destruct (Z.ltb_spec n 16) as [Hlt|Hge].
  - exists [n mod 16]. split; [done|]. split; [by apply Forall_singleton|simpl; lia].
  - destruct k as [|k]; [simpl in Hn; lia|]. rewrite Nat2Z.inj_succ, Z.pow_succ_r in Hn by lia.
    destruct (IH (n / 16) k (digit (n mod 16) :: acc)) as (ds & -> & Hd & Hl).
    { split; [apply Z.div_pos; lia|apply Z.div_lt_upper_bound; lia]. }
    exists (ds ++ [n mod 16]). rewrite map_app, <- app_assoc. split; [done|].
    split; [apply Forall_app; split; [done|by apply Forall_singleton]|rewrite length_app; simpl; lia].
Qed.

Lemma hex_group_digits ds off acc rest :
  hexdigits ds -> (off + length ds <= 4)%nat -> 0 <= acc < 16 ^ Z.of_nat off ->
  match rest with [] => True | c :: _ => hex_val c = None end ->
  hex_group off acc (map digit ds ++ rest)
  = Some ((off + length ds)%nat, digits_val 16 acc (map digit ds), rest).
Proof.
  intros Hd. revert off acc. induction Hd as [|d ds H _ IH]; intros off acc Hl Ha Hr.
  - simpl. rewrite Nat.add_0_r. destruct rest as [|c rest]; [done|]. cbn [hex_group]. by rewrite Hr.
  - cbn [map app hex_group]. rewrite hex_val_digit by done. cbn [length] in Hl.
    destruct (Nat.ltb_spec 3 off); [lia|].
    assert (acc * 16 + d < 16 ^ Z.of_nat (S off)) by (rewrite Nat2Z.inj_succ, Z.pow_succ_r; lia).
    assert (16 ^ Z.of_nat (S off) <= 16 ^ 4) by (apply Z.pow_le_mono_r; lia).
    destruct (Z.ltb_spec 65535 (acc * 16 + d)); [lia|].
    rewrite IH by (done || lia). cbn [length].
    replace (S off + length ds)%nat with (off + S (length ds))%nat by lia. f_equal. f_equal.
    unfold digits_val. simpl. by rewrite digit_val_digit by lia.
Qed.

Definition is_group (g : Z) : Prop := 0 <= g < 65536.

Lemma group_step g rest :
  is_group g -> match rest with [] => True | c :: _ => hex_val c = None end ->
  exists off, hex_group 0 0 (format_uint 16 g ++ rest) = Some (S off, g, rest).
Proof.
  intros Hg Hr. unfold is_group in Hg.
  destruct (format_aux_hex (S (Z.to_nat (Z.log2 g))) g 3 []) as (ds & E & Hd & Hl); [simpl; lia|].
  change (format_uint 16 g = map digit ds ++ []) in E. rewrite app_nil_r in E.
  pose proof (format_uint_val 16 g ltac:(lia) ltac:(lia)) as V. rewrite E in V |- *.
  rewrite hex_group_digits by (done || simpl; lia). rewrite V.
  destruct ds as [|d ds]; [by pose proof (format_uint_nonempty 16 g)|]. by exists (length ds).
Qed.

Lemma group_head g : is_group g -> exists c k, format_uint 16 g = c :: k /\ hex_val c <> None.
Proof.
  intros Hg. unfold is_group in Hg.
  destruct (format_aux_hex (S (Z.to_nat (Z.log2 g))) g 3 []) as (ds & E & Hd & Hl); [simpl; lia|].
  change (format_uint 16 g = map digit ds ++ []) in E. rewrite app_nil_r in E. rewrite E.
  destruct Hd as [|d ds H _]; [by pose proof (format_uint_nonempty 16 g)|].
  exists (digit d), (map digit ds). by rewrite hex_val_digit.
Qed.

(** ** Lists of groups *)

Definition txt (l : list Z) : bytes := join (B ":") (map (format_uint 16) l).
Definition enc (l : list Z) : bytes := concat (map (be_encode 2) l).

Lemma txt_cons g g' l : txt (g :: g' :: l) = format_uint 16 g ++ ":"%byte :: txt (g' :: l).
Proof. done. Qed.
Lemma length_enc l : length (enc l) = (2 * length l)%nat.
Proof.
  induction l as [|g l IH]; [done|]. unfold enc in *. cbn [map concat].
  rewrite length_app, length_be_encode, IH. simpl. lia.
Qed.

Lemma txt_head g l : is_group g -> exists c k, txt (g :: l) = c :: k /\ hex_val c <> None.
Proof.
  intros H. destruct (group_head g H) as (c & k & E & Hc). destruct l as [|g' l].
  - exists c, k. split; [exact E|done].
  - rewrite txt_cons, E. exists c, (k ++ ":"%byte :: txt (g' :: l)). by split.
Qed.

Lemma loop_last rounds ip ell g :
  is_group g ->
  parseIPv6_loop (S rounds) ip ell (format_uint 16 g) = Some (ip ++ be_encode 2 g, ell, []).
Proof.
  intros Hg. cbn [parseIPv6_loop]. destruct (group_step g [] Hg I) as [off E].
  rewrite app_nil_r in E. by rewrite E.
Qed.

Lemma loop_next rounds ip ell g c k :
  is_group g -> hex_val c <> None ->
  parseIPv6_loop (S rounds) ip ell (format_uint 16 g ++ ":"%byte :: c :: k)
  = parseIPv6_loop rounds (ip ++ be_encode 2 g) ell (c :: k).
Proof.
  intros Hg Hc. cbn [parseIPv6_loop]. destruct (group_step g (":"%byte :: c :: k) Hg eq_refl) as [off ->].
  cbn [head]. rewrite bool_decide_eq_false_2 by done. cbn [negb].
  rewrite bool_decide_eq_true_2 by done. cbn [negb]. rewrite bool_decide_eq_false_2; [done|].
  by intros ->.
Qed.

Lemma loop_groups l rounds ip ell :
  Forall is_group l -> l <> [] -> (length l <= rounds)%nat ->
  parseIPv6_loop rounds ip ell (txt l) = Some (ip ++ enc l, ell, []).
Proof.
  intros H. revert rounds ip. induction H as [|g l Hg Hl IH]; intros rounds ip Hn Hr; [done|].
  destruct rounds as [|rounds]; [simpl in Hr; lia|]. destruct l as [|g' l].
  - unfold txt, enc. cbn [map join concat]. rewrite app_nil_r. by apply loop_last.
  - pose proof (Forall_inv Hl) as Hg'. destruct (txt_head g' l Hg') as (c & k & E & Hc).
    rewrite txt_cons, E, loop_next, <- E, IH by (done || simpl in *; lia).
    unfold enc. cbn [map concat]. by rewrite <- app_assoc.
Qed.

(** A list, the ellipsis, another list. *)
Lemma loop_ellipsis l l2 rounds ip :
  Forall is_group l -> l <> [] -> Forall is_group l2 -> (length l + length l2 <= rounds)%nat ->
  parseIPv6_loop rounds ip None (txt l ++ B "::" ++ txt l2)
  = Some (ip ++ enc l ++ enc l2, Some (length (ip ++ enc l)), []).
Proof.
  intros H. revert rounds ip. induction H as [|g l Hg Hl IH]; intros rounds ip Hn H2 Hr; [done|].
  destruct rounds as [|rounds]; [simpl in Hr; lia|]. destruct l as [|g' l].
  - unfold txt at 1, enc. cbn [map join concat]. rewrite app_nil_r.
    change (B "::" ++ txt l2) with (":"%byte :: ":"%byte :: txt l2). cbn [parseIPv6_loop].
    destruct (group_step g (":"%byte :: ":"%byte :: txt l2) Hg eq_refl) as [off ->].
    cbn [head]. rewrite bool_decide_eq_false_2 by done.
    rewrite bool_decide_eq_true_2 by done. cbn [negb].
    destruct H2 as [|g2 l2 Hg2 Hl2]; [by rewrite app_nil_r|].
    destruct (txt_head g2 l2 Hg2) as (c & k & E & Hc). rewrite E, <- E.
    rewrite loop_groups; [by rewrite <- app_assoc|by constructor|done|simpl in *; lia].
  - pose proof (Forall_inv Hl) as Hg'. destruct (txt_head g' l Hg') as (c & k & E & Hc).
    rewrite txt_cons, <- app_assoc, E. change ((":"%byte :: c :: k) ++ ?x) with (":"%byte :: c :: (k ++ x)).
    rewrite loop_next by done. change (c :: (k ++ ?x)) with ((c :: k) ++ x). rewrite <- E.
    rewrite IH by (done || simpl in *; lia).
    unfold enc. cbn [map concat]. by rewrite <- !app_assoc.
Qed.

(** ** The run of zeros *)

Lemma zero_run_spec gs : gs = replicate (zero_run gs) 0 ++ drop (zero_run gs) gs.
Proof.
  induction gs as [|g gs IH]; [done|]. destruct g; [|done..]. simpl. by rewrite <- IH.
Qed.

Definition span_ok (gs : list Z) (o : option (nat * nat)) : Prop :=
  match o with
  | None => True
  | Some (s, e) => exists l, e = (s + l)%nat /\ (2 <= l)%nat /\
      gs = take s gs ++ replicate l 0 ++ drop e gs
  end.

Lemma span_here gs i : (2 <= zero_run (drop i gs))%nat -> span_ok gs (Some (i, i + zero_run (drop i gs))%nat).
Proof.
  intros H. exists (zero_run (drop i gs)). split; [done|]. split; [done|].
  rewrite <- (take_drop i gs) at 1. f_equal. rewrite (zero_run_spec (drop i gs)) at 1.
  by rewrite drop_drop.
Qed.

Lemma zero_span_ok gs : span_ok gs (zero_span gs).
Proof.
  unfold zero_span. generalize (seq 0 (length gs)). intros ixs.
  assert (forall o, span_ok gs o -> span_ok gs (foldl (fun best i =>
    let l := zero_run (drop i gs) in
    match best with
    | Some (s, e) => if (e - s <? l)%nat then Some (i, i + l)%nat else best
    | None => if (2 <=? l)%nat then Some (i, i + l)%nat else None
    end) o ixs)) as H; [|by apply H].
  induction ixs as [|i ixs IH]; intros o Ho; [done|]. cbn [foldl]. apply IH. cbv zeta.
  destruct o as [[s e]|].
  - destruct (Nat.ltb_spec (e - s) (zero_run (drop i gs))) as [Hlt|]; [|done].
    destruct Ho as (l & -> & Hl & _). apply span_here. lia.
  - destruct (Nat.leb_spec 2 (zero_run (drop i gs))); [|done]. by apply span_here.
Qed.

(** ** Whole addresses *)

Lemma enc_app l l' : enc (l ++ l') = enc l ++ enc l'.
Proof. unfold enc. by rewrite map_app, concat_app. Qed.
Lemma enc_zeros k : enc (replicate k 0) = replicate (2 * k) x00.
Proof.
  induction k as [|k IH]; [done|]. replace (2 * S k)%nat with (S (S (2 * k))) by lia.
  cbn [replicate]. rewrite <- IH. done.
Qed.

Lemma enc_pair a b : be_encode 2 (be_decode [a; b]) = [a; b].
Proof. exact (be_encode_decode [a; b]). Qed.

Lemma groups_spec ip :
  length ip = 16%nat -> length (groups ip) = 8%nat /\ Forall is_group (groups ip) /\ enc (groups ip) = ip.
Proof.
  intros H. do 16 (destruct ip as [|? ip]; [done|]). destruct ip; [|done].
  unfold groups, enc. cbn [chunks length chunks_aux Nat.leb take drop map concat app].
  split; [done|]. split.
  - repeat (apply Forall_cons; split; [match goal with |- is_group (be_decode ?l) =>
      pose proof (be_decode_range l) as Hr; unfold is_group; simpl length in Hr; lia end|]). constructor.
  - by rewrite !enc_pair.
Qed.

Lemma parseIPv6_hex c k :
  hex_val c <> None -> parseIPv6 (c :: k) = parseIPv6_end (parseIPv6_loop 8 [] None (c :: k)).
Proof. intros H. by destruct c. Qed.

Lemma parseIPv6_zeros l : l <> [] ->
  parseIPv6 (B "::" ++ l) = parseIPv6_end (parseIPv6_loop 8 [] (Some O) l).
Proof. by destruct l. Qed.

Lemma parseIPv6_String ip : length ip = 16%nat -> parseIPv6 (IPv6_String ip) = Some ip.
Proof.
  intros H. destruct (groups_spec ip H) as (Hl & Hg & He). unfold IPv6_String.
  pose proof (zero_span_ok (groups ip)) as Hs. set (gs := groups ip) in *.
  cbv zeta.
  destruct (zero_span gs) as [[s e]|].
  - destruct Hs as (l & -> & Hl2 & Egs). set (l1 := take s gs) in *. set (l2 := drop (s + l) gs) in *.
    assert (length l1 + l + length l2 = 8)%nat as Hlen.
    { rewrite <- Hl, Egs, !length_app, length_replicate. lia. }
    rewrite Egs in Hg. apply Forall_app in Hg as [Hg1 Hg2]. apply Forall_app in Hg2 as [_ Hg2].
    rewrite <- He, Egs, !enc_app, enc_zeros. fold (txt l1) (txt l2).
    clear Egs He. clearbody l1 l2. destruct l1 as [|g l1].
    + destruct l2 as [|g2 l2].
      * simpl in Hlen. replace l with 8%nat by lia. done.
      * pose proof (Forall_inv Hg2) as Hg2'. destruct (txt_head g2 l2 Hg2') as (c & k & E & Hc).
        change (txt []) with (@nil byte). cbn [app]. rewrite parseIPv6_zeros by (by rewrite E).
        rewrite loop_groups by (done || simpl in *; lia). cbn [app parseIPv6_end].
        rewrite length_enc. destruct (Nat.ltb_spec (2 * length (g2 :: l2)) 16); [|simpl in *; lia].
        cbn [take drop app length] in *.
        by replace (16 - 2 * S (length l2))%nat with (2 * l)%nat by lia.
    + pose proof (Forall_inv Hg1) as Hg'. destruct (txt_head g l1 Hg') as (c & k & E & Hc).
      rewrite E. change ((c :: k) ++ ?x) with (c :: (k ++ x)). rewrite parseIPv6_hex by done.
      change (c :: (k ++ ?x)) with ((c :: k) ++ x). rewrite <- E.
      rewrite loop_ellipsis by (done || lia). cbn [app parseIPv6_end].
      rewrite length_app, !length_enc.
      destruct (Nat.ltb_spec (2 * length (g :: l1) + 2 * length l2) 16); [|lia].
      destruct (take_drop_app_exact (enc (g :: l1)) (enc l2) (2 * length (g :: l1)) (length_enc _)) as [-> ->].
      by replace (16 - (2 * length (g :: l1) + 2 * length l2))%nat with (2 * l)%nat by lia.
  - clearbody gs. destruct gs as [|g gs]; [done|]. fold (txt (g :: gs)). pose proof (Forall_inv Hg) as Hg'.
    destruct (txt_head g gs Hg') as (c & k & E & Hc). rewrite E, parseIPv6_hex, <- E by done.
    rewrite loop_groups by (done || lia). rewrite He. cbn [app parseIPv6_end]. by rewrite H.
Qed.

Definition hex_or_colon (c : byte) : Prop := hex_val c <> None \/ c = ":"%byte.

Lemma group_chars g : is_group g -> Forall hex_or_colon (format_uint 16 g).
Proof.
  intros Hg. unfold is_group in Hg.
  destruct (format_aux_hex (S (Z.to_nat (Z.log2 g))) g 3 []) as (ds & E & Hd & _); [simpl; lia|].
  change (format_uint 16 g = map digit ds ++ []) in E. rewrite app_nil_r in E. rewrite E.
  apply Forall_map. eapply Forall_impl; [exact Hd|]. intros d H. left. by rewrite hex_val_digit.
Qed.

Lemma txt_chars l : Forall is_group l -> Forall hex_or_colon (txt l).
Proof.
  induction 1 as [|g l Hg Hl IH]; [constructor|]. destruct l as [|g' l]; [by apply group_chars|].
  rewrite txt_cons. apply Forall_app. split; [by apply group_chars|]. constructor; [by right|done].
Qed.

Lemma IPv6_String_chars ip :
  length ip = 16%nat -> Forall hex_or_colon (IPv6_String ip) /\ ":"%byte ∈ IPv6_String ip.
Proof.
  intros H. destruct (groups_spec ip H) as (Hl & Hg & _). unfold IPv6_String. cbv zeta.
  set (gs := groups ip) in *. destruct (zero_span gs) as [[s e]|].
  - fold (txt (take s gs)) (txt (drop e gs)). split; [|set_solver].
    apply Forall_app. split; [by apply txt_chars, Forall_take|]. apply Forall_app.
    split; [|by apply txt_chars, Forall_drop]. constructor; [by right|]. constructor; [by right|constructor].
  - fold (txt gs). split; [by apply txt_chars|].
    destruct gs as [|g [|g' gs]]; [done..|]. rewrite txt_cons. set_solver.
Qed.

Lemma find_colon s :
  Forall hex_or_colon s -> ":"%byte ∈ s ->
  List.find (fun c => bool_decide (c = "."%byte \/ c = ":"%byte \/ c = "%"%byte)) s = Some ":"%byte /\
  existsb (fun c => bool_decide (c = "%"%byte)) s = false.
Proof.
  intros H Hc. split.
  - induction H as [|c s Hs _ IH]; [by apply elem_of_nil in Hc|]. cbn [List.find]. case_bool_decide as D.
    + destruct Hs as [Hs| ->]; [|done]. destruct D as [->|[->| ->]]; done.
    + apply IH. apply elem_of_cons in Hc as [<-|?]; [|done]. destruct D. by auto.
  - clear Hc. induction H as [|c s Hs _ IH]; [done|]. cbn [existsb].
    rewrite bool_decide_eq_false_2; [done|]. intros ->. by destruct Hs.
Qed.

(** The address in its sixteen-byte form is read back from its text. *)
Lemma ParseIP_String ip :
  (length ip = 4 \/ length ip = 16)%nat -> ParseIP (IP_String ip) = Some (To16 ip).
Proof.
  intros Hl. unfold IP_String, To16. destruct (Nat.eqb_spec (length ip) 0); [lia|].
  assert ((length ip =? 4)%nat || (length ip =? 16)%nat = true) as -> by (by destruct Hl as [-> | ->]).
  destruct (Nat.eqb_spec (length (To4 ip)) 4) as [E4|E4].
  - rewrite ParseIP_dotted by done. unfold To4 in *. destruct Hl as [H|H]; rewrite H in *; [done|].
    cbn [Nat.eqb andb] in *. case_bool_decide as D; [|done]. rewrite <- D. by rewrite take_drop.
  - destruct Hl as [H|H]; [by rewrite To4_id in E4|]. rewrite H. cbn [Nat.eqb].
    destruct (IPv6_String_chars ip H) as [Hf Hc]. destruct (find_colon _ Hf Hc) as [F X].
    unfold ParseIP. rewrite F, X. by apply parseIPv6_String.
Qed.

(** So the text of an address determines it, up to the two forms of an IPv4 address. *)
Lemma IP_String_inj a b :
  (length a = 4 \/ length a = 16)%nat -> (length b = 4 \/ length b = 16)%nat ->
  IP_String a = IP_String b -> IP_Equal a b = true.
Proof.
  intros Ha Hb E. rewrite IP_Equal_To16 by done. apply bool_decide_eq_true.
  apply Some_inj. rewrite <- !ParseIP_String by done. by rewrite E.
Qed.

(** ** Its length *)

Lemma length_txt l : Forall is_group l -> (length (txt l) <= 5 * length l)%nat.
Proof.
  assert (forall g, is_group g -> (length (format_uint 16 g) <= 4)%nat) as Hg.
  { intros g Hg. unfold is_group in Hg.
    destruct (format_aux_hex (S (Z.to_nat (Z.log2 g))) g 3 []) as (ds & E & _ & Hl); [simpl; lia|].
    change (format_uint 16 g = map digit ds ++ []) in E. by rewrite E, app_nil_r, length_map. }
  induction 1 as [|g l H Hl IH]; [done|]. apply Hg in H. destruct l as [|g' l].
  - unfold txt. simpl. lia.
  - rewrite txt_cons, length_app. cbn [length] in *. lia.
Qed.

Lemma length_octet b : (length (format_uint 10 (b2z b)) <= 3)%nat.
Proof. by destruct b; apply Nat.leb_le. Qed.

Lemma length_IP_String ip :
  (length ip = 4 \/ length ip = 16)%nat -> (length (IP_String ip) <= 82)%nat.
Proof.
  intros Hl. unfold IP_String. destruct (Nat.eqb_spec (length ip) 0); [lia|].
  assert ((length ip =? 4)%nat || (length ip =? 16)%nat = true) as -> by (by destruct Hl as [-> | ->]).
  destruct (Nat.eqb_spec (length (To4 ip)) 4) as [E4|E4].
  - generalize (To4 ip) E4. intros x Hx. destruct x as [|a [|b [|c [|d [|]]]]]; try done.
    unfold dotted. cbn [map join]. rewrite !length_app.
    pose proof (length_octet a). pose proof (length_octet b). pose proof (length_octet c).
    pose proof (length_octet d). simpl in *. lia.
  - destruct Hl as [H|H]; [by rewrite To4_id in E4|]. destruct (groups_spec ip H) as (Hn & Hg & _).
    unfold IPv6_String. cbv zeta. set (gs := groups ip) in *. destruct (zero_span gs) as [[s e]|].
    + fold (txt (take s gs)) (txt (drop e gs)).
      pose proof (length_txt _ (Forall_take _ s _ Hg)). pose proof (length_txt _ (Forall_drop _ e _ Hg)).
      rewrite !length_app. rewrite length_take in *. rewrite length_drop in *. simpl. lia.
    + fold (txt gs). pose proof (length_txt _ Hg). lia.
Qed.
