(* ===== verification/GoCrypto.v ===== *)
(** * SHA-1, hexadecimal and base32

    The [crypto/sha1], [encoding/hex] and [encoding/base32] routines that
    [metainfo], [peerprotocol] and [downloader] call, as executable functions. *)

From S2P Require Import Prelude GoBytes GoNet.

(** ** SHA-1 ([crypto/sha1], FIPS 180-4) *)

Module Sha1.

Definition rotl (n x : Z) : Z := u32 (Z.lor (Z.shiftl x n) (Z.shiftr x (32 - n))).

Definition pad (msg : bytes) : bytes :=
  let n := Z.of_nat (length msg) in
  msg ++ [x80] ++ replicate (Z.to_nat ((55 - n) mod 64)) x00 ++ be_encode 8 (8 * n).

(** The message schedule, most recent word first. *)
Fixpoint schedule (n : nat) (rw : list Z) : list Z :=
  match n with
  | O => rw
  | S n =>
      let w i := nth i rw 0 in
      schedule n (rotl 1 (Z.lxor (Z.lxor (w 2%nat) (w 7%nat)) (Z.lxor (w 13%nat) (w 15%nat))) :: rw)
  end.

Definition round_fk (t : nat) (b c d : Z) : Z * Z :=
  if (t <? 20)%nat then (Z.lor (Z.land b c) (Z.land (2 ^ 32 - 1 - b) d), 1518500249)
  else if (t <? 40)%nat then (Z.lxor (Z.lxor b c) d, 1859775393)
  else if (t <? 60)%nat
  then (Z.lor (Z.lor (Z.land b c) (Z.land b d)) (Z.land c d), 2400959708)
  else (Z.lxor (Z.lxor b c) d, 3395469782).

Definition state : Type := Z * Z * Z * Z * Z.

Fixpoint rounds (t : nat) (ws : list Z) (s : state) : state :=
  match ws with
  | [] => s
  | w :: ws =>
      let '(a, b, c, d, e) := s in
      let '(f, k) := round_fk t b c d in
      rounds (S t) ws (u32 (rotl 5 a + f + e + k + w), a, rotl 30 b, c, d)
  end.

Definition block (s : state) (blk : bytes) : state :=
  let w := rev (schedule 64 (rev (map be_decode (chunks 4 blk)))) in
  let '(a, b, c, d, e) := rounds 0 w s in
  let '(h0, h1, h2, h3, h4) := s in
  (u32 (h0 + a), u32 (h1 + b), u32 (h2 + c), u32 (h3 + d), u32 (h4 + e)).

(** [sha1.Sum]. *)
Definition Sum (msg : bytes) : bytes :=
  let '(a, b, c, d, e) :=
    foldl block (1732584193, 4023233417, 2562383102, 271733878, 3285377520)
      (chunks 64 (pad msg)) in
  be_encode 4 a ++ be_encode 4 b ++ be_encode 4 c ++ be_encode 4 d ++ be_encode 4 e.

Lemma length_Sum msg : length (Sum msg) = 20%nat.
Proof.
  unfold Sum. destruct (foldl _ _ _) as [[[[a b] c] d] e].
  rewrite !length_app, !length_be_encode. done.
Qed.

End Sha1.

(** ** Hexadecimal ([encoding/hex]) *)

Definition unhex (b : byte) : option Z :=
  let z := b2z b in
  if (48 <=? z) && (z <=? 57) then Some (z - 48)
  else if (97 <=? z) && (z <=? 102) then Some (z - 87)
  else if (65 <=? z) && (z <=? 70) then Some (z - 55)
  else None.

(** [hex.Decode]: the bytes decoded before the end or the first bad digit, and whether
    the whole of the source was legal. *)
Fixpoint hex_decode (s : bytes) : bytes * bool :=
  match s with
  | [] => ([], true)
  | [_] => ([], false)
  | p :: q :: s =>
      match unhex p, unhex q with
      | Some a, Some b => let '(d, ok) := hex_decode s in (z2b (16 * a + b) :: d, ok)
      | _, _ => ([], false)
      end
  end.

Lemma unhex_digit d : 0 <= d < 16 -> unhex (digit d) = Some d.
Proof.
  intros H. unfold unhex, digit. rewrite b2z_z2b.
  destruct (Z.ltb_spec d 10); rewrite Z.mod_small by lia.
  - destruct (Z.leb_spec 48 (48 + d)), (Z.leb_spec (48 + d) 57); simpl; try lia. f_equal; lia.
  - destruct (Z.leb_spec 48 (87 + d)), (Z.leb_spec (87 + d) 57); simpl; try lia.
    destruct (Z.leb_spec 97 (87 + d)), (Z.leb_spec (87 + d) 102); simpl; try lia. f_equal; lia.
Qed.

(** [hex.Decode] inverts [hex.EncodeToString]. *)
Lemma hex_decode_string l : hex_decode (hex_string l) = (l, true).
Proof.
  induction l as [|b l IH]; [done|]. change (hex_string (b :: l)) with
    (digit (b2z b / 16) :: digit (b2z b mod 16) :: hex_string l).
  cbn [hex_decode]. pose proof (b2z_range b).
  rewrite !unhex_digit by (apply Z.mod_pos_bound; lia) || (split; [apply Z.div_pos|apply Z.div_lt_upper_bound]; lia).
  rewrite IH. do 2 f_equal. apply b2z_inj. rewrite b2z_z2b.
  rewrite <- Z.div_mod by lia. apply Z.mod_small. done.
Qed.

Lemma length_hex_string l : length (hex_string l) = (2 * length l)%nat.
Proof. induction l; simpl; [done|]. unfold hex_string in *. simpl. rewrite IHl. lia. Qed.

Lemma length_hex_decode s : (2 * length (hex_decode s).1 <= length s)%nat.
Proof.
  remember (length s) as n eqn:Hn. revert s Hn.
  induction n as [n IH] using (well_founded_induction lt_wf). intros [|p [|q s]] ->; simpl; try lia.
  destruct (unhex p), (unhex q); simpl; try lia.
  specialize (IH (length s) ltac:(simpl; lia) s eq_refl).
  destruct (hex_decode s) as [d ok]. simpl in *. lia.
Qed.

(** ** Base32 ([encoding/base32], standard alphabet with padding) *)

Definition unbase32 (b : byte) : option Z :=
  let z := b2z b in
  if (65 <=? z) && (z <=? 90) then Some (z - 65)
  else if (50 <=? z) && (z <=? 55) then Some (z - 24)
  else None.

(** The bytes packed from [n] base32 digits (each five bits), where the quantum is
    completed with zero digits and the incomplete last byte is dropped. *)
Definition base32_pack (ds : list Z) : bytes :=
  let v := foldl (fun a d => a * 32 + d) 0 (ds ++ replicate (8 - length ds) 0) in
  take (length ds * 5 / 8) (be_encode 5 v).

(** One quantum: its digits, the rest of the input, whether the padding ended it.
    [None] is a corrupt input. *)
Fixpoint base32_quantum (n : nat) (ds : list Z) (s : bytes) : option (list Z * bytes * bool) :=
  match n with
  | O => Some (ds, s, false)
  | S n' =>
      match s with
      | [] => None
      | b :: s =>
          if bool_decide (b = "="%byte) && (2 <=? length ds)%nat && (length s <? 8)%nat then
            if (length s + length ds <? 7)%nat then None
            else if forallb (fun c => bool_decide (c = "="%byte)) (take (7 - length ds) s)
            then if bool_decide (length ds ∈ [1; 3; 6]%nat) then None else Some (ds, s, true)
            else None
          else match unbase32 b with
               | None => None
               | Some d => base32_quantum n' (ds ++ [d]) s
               end
      end
  end.

Fixpoint base32_loop (fuel : nat) (s : bytes) : option bytes :=
  match fuel with
  | O => Some []
  | S f =>
      match s with
      | [] => Some []
      | _ =>
          match base32_quantum 8 [] s with
          | None => None
          | Some (ds, rest, fin) =>
              if fin then Some (base32_pack ds)
              else option_map (app (base32_pack ds)) (base32_loop f rest)
          end
      end
  end.

(** [base32.StdEncoding.DecodeString]: line breaks are ignored. *)
Definition base32_decode (s : bytes) : option bytes :=
  let s := List.filter (fun b => negb (bool_decide (b = x0d) || bool_decide (b = x0a))) s in
  base32_loop (S (length s)) s.

Example sha1_abc :
  hex_string (Sha1.Sum (B "abc")) = B "a9993e364706816aba3e25717850c26c9cd0d89d".
Proof. vm_compute. reflexivity. Qed.
Example sha1_empty :
  hex_string (Sha1.Sum []) = B "da39a3ee5e6b4b0d3255bfef95601890afd80709".
Proof. vm_compute. reflexivity. Qed.
Example base32_foobar : base32_decode (B "MZXW6YTBOI======") = Some (B "foobar").
Proof. vm_compute. reflexivity. Qed.
