(* ===== verification/GoTime.v ===== *)
(** * [time.Time], [time.Duration] and [sort.Search]

    A [time.Time] is the number of nanoseconds since the zero time (year 1), as an integer
    without bound; a [time.Duration] is a 64-bit number of nanoseconds.  [time.Now()] is an
    argument of the operations that read the clock. *)

From S2P Require Import Prelude.

Definition Second : Z := 1000000000.
Definition Minute : Z := 60 * Second.
Definition zeroTime : Z := 0.

Definition minDuration : Z := - 2 ^ 63.
Definition maxDuration : Z := 2 ^ 63 - 1.

(** [t.Sub(u)]: saturates at the largest and smallest durations. *)
Definition time_Sub (t u : Z) : Z := Z.max minDuration (Z.min maxDuration (t - u)).

Lemma time_Sub_lt t u c : minDuration < c <= maxDuration -> time_Sub t u < c <-> t - u < c.
Proof. unfold time_Sub, minDuration, maxDuration. lia. Qed.
Lemma time_Sub_gt t u c : minDuration <= c < maxDuration -> time_Sub t u > c <-> t - u > c.
Proof. unfold time_Sub, minDuration, maxDuration. lia. Qed.

(** [t.After(u)]. *)
Definition time_After (t u : Z) : bool := u <? t.

(** ** [sort.Search] *)

(** The loop [for i < j { h := (i+j)/2; if !f(h) { i = h+1 } else { j = h } }]. *)
Fixpoint search_loop (fuel : nat) (f : nat -> bool) (i j : nat) : nat :=
  match fuel with
  | O => i
  | S fuel =>
      if (i <? j)%nat then
        let h := ((i + j) / 2)%nat in
        if negb (f h) then search_loop fuel f (S h) j else search_loop fuel f i h
      else i
  end.
Definition Search (n : nat) (f : nat -> bool) : nat := search_loop n f 0 n.

Lemma search_loop_spec fuel f i j :
  (j - i <= fuel)%nat -> (i <= j)%nat ->
  (forall a b, i <= a <= b -> b < j -> f a = true -> f b = true)%nat ->
  let r := search_loop fuel f i j in
  (i <= r <= j)%nat /\ (forall a, i <= a < r -> f a = false)%nat /\
  (forall a, r <= a < j -> f a = true)%nat.
Proof.
  revert i j. induction fuel as [|fuel IH]; intros i j Hf Hij Hm; cbn [search_loop]; cbv zeta.
  - assert (i = j) as -> by lia. repeat split; try lia; intros; lia.
  - destruct (Nat.ltb_spec i j); [|repeat split; try lia; intros; lia].
    pose proof (Nat.div_mod (i + j) 2 ltac:(lia)). pose proof (Nat.mod_upper_bound (i + j) 2 ltac:(lia)).
    set (h := ((i + j) / 2)%nat) in *.
    destruct (f h) eqn:E; cbn [negb].
    + destruct (IH i h) as (R1 & R2 & R3); [lia|lia| |].
      { intros a b ? ?. apply Hm; lia. }
      split; [lia|]. split; [done|]. intros a Ha.
      destruct (decide (a < h)%nat); [apply R3; lia|]. eapply (Hm h); [lia|lia|done].
    + destruct (IH (S h) j) as (R1 & R2 & R3); [lia|lia| |].
      { intros a b ? ?. apply Hm; lia. }
      split; [lia|]. split; [|done]. intros a Ha.
      destruct (decide (S h <= a)%nat); [apply R2; lia|].
      destruct (f a) eqn:Ea; [|done]. rewrite (Hm a h) in E; [done|lia|lia|done].
Qed.

Lemma search_loop_le fuel f i j : (i <= j)%nat -> (search_loop fuel f i j <= j)%nat.
Proof.
  revert i j. induction fuel as [|fuel IH]; intros i j Hij; cbn [search_loop]; [done|].
  destruct (Nat.ltb_spec i j); [|done]. cbv zeta.
  pose proof (Nat.div_mod (i + j) 2 ltac:(lia)). pose proof (Nat.mod_upper_bound (i + j) 2 ltac:(lia)).
  destruct (negb _); [apply IH; lia|]. etransitivity; [apply IH|]; lia.
Qed.
(** Whatever the predicate, the index is within the range. *)
Lemma Search_le n f : (Search n f <= n)%nat.
Proof. apply search_loop_le. lia. Qed.

(** On a monotone predicate [Search] gives the least index where it holds. *)
Lemma Search_spec n f :
  (forall a b, a <= b -> b < n -> f a = true -> f b = true)%nat ->
  (Search n f <= n)%nat /\ (forall a, a < Search n f -> f a = false)%nat /\
  (forall a, Search n f <= a < n -> f a = true)%nat.
Proof.
  intros Hm. destruct (search_loop_spec n f 0 n) as (R1 & R2 & R3); [lia|lia| |].
  { intros a b ? ?. apply Hm; lia. }
  split; [apply R1|]. split; [|done]. intros a Ha. apply R2. unfold Search in Ha. lia.
Qed.
