(* ===== verification/Bencode.v ===== *)
(** * Package [bencode]: the decoder and the encoder

    The package works on [reflect.Value]s.  A reflected Go value is a [gval], its
    static type a [gtype]; the decoder returns the value its target holds afterwards,
    the encoder the bytes written.

    - [Decoder] is the struct of decode.go; the reader is the list of bytes still
      unread (an in-memory reader, whose only error is [EOF]).
    - [decodeInto], [decodeInt], [decodeString], [decodeList], [decodeDict],
      [indirect], [setStructValues] are the functions of those names; the loops of
      [decodeList] and [decodeDict] are functions of their own, mutually recursive
      with [decodeInto] on a fuel counter.  [Decode] gives [3 * len + 5] steps, which
      is always enough ([BencodeThms.decode_total]).
    - [encodeValue], [readStruct], [isEmptyValue], [parseTag], [isValidTag] model
      encode.go and tag.go.

    Conventions: a nil slice or map and an empty one are both the empty list; the
    spare capacity of a slice holds zero values; a decoding target of interface type
    holds nil, as in all callers of the repository; a map is the list of its entries
    in iteration order; struct tags are ASCII. *)

From S2P Require Import Prelude GoBytes.

(** ** Reflected values and types *)

Inductive gval : Type :=
  | VInt (z : Z)
  | VUint (z : Z)
  | VBool (b : bool)
  | VString (s : bytes)
  | VBytes (s : bytes)
  | VIface (o : option gval)
  | VSlice (l : list gval)
  | VArray (l : list gval)
  | VMap (m : list (bytes * gval))
  | VStruct (fs : list gval)
  | VPtr (o : option gval)
  | VOther.

(** [Unmarshaler], [encoding.TextUnmarshaler] (pointer receivers: old value and input
    to new value and how the call ended) and [Marshaler], [encoding.TextMarshaler]
    (value receivers).  A method that panics takes its caller with it: nothing in the
    package recovers. *)
Record methods : Type := Methods {
  UnmarshalBencode : option (gval -> bytes -> gval * res unit);
  UnmarshalText : option (gval -> bytes -> gval * res unit);
  MarshalBencode : option (gval -> res bytes);
  MarshalText : option (gval -> res bytes);
}.

(** What [reflect.StructField] tells: the name, the value of the [bencode] key of
    the tag, whether the whole tag is empty, exportedness, embedding. *)
Record field : Type := Field {
  f_name : bytes;
  f_tag : bytes;
  f_untagged : bool;
  f_exported : bool;
  f_anonymous : bool;
}.

Inductive gtype : Type :=
  | TInt (bits : Z)
  | TUint (bits : Z)
  | TBool
  | TString
  | TBytes                    (* []byte itself *)
  | TRaw                      (* RawMessage *)
  | TIface                    (* interface{} *)
  | TSlice (t : gtype)        (* any other slice type *)
  | TArray (len : nat) (t : gtype)
  | TMap (keyer : option (bytes -> res bytes)) (t : gtype)
  | TStruct (fs : list (field * gtype))
  | TPtr (t : gtype)
  | TNamed (m : methods) (t : gtype)
  | TOther.                   (* floats, channels, functions *)

(** [reflect.Zero]. *)
Fixpoint zero (t : gtype) : gval :=
  match t with
  | TInt _ => VInt 0
  | TUint _ => VUint 0
  | TBool => VBool false
  | TString => VString []
  | TBytes | TRaw => VBytes []
  | TIface => VIface None
  | TSlice _ => VSlice []
  | TArray n t => VArray (replicate n (zero t))
  | TMap _ _ => VMap []
  | TStruct fs => VStruct (map (fun p => zero (snd p)) fs)
  | TPtr _ => VPtr None
  | TNamed _ t => zero t
  | TOther => VOther
  end.

(** Truncation by [Value.SetInt] and [Value.SetUint]. *)
Definition truncInt (bits z : Z) : Z := (z + 2 ^ (bits - 1)) mod 2 ^ bits - 2 ^ (bits - 1).
Definition truncUint (bits z : Z) : Z := z mod 2 ^ bits.

(** [Value.SetMapIndex]. *)
Fixpoint setMapIndex (m : list (bytes * gval)) (k : bytes) (v : gval) : list (bytes * gval) :=
  match m with
  | [] => [(k, v)]
  | (k', v') :: m => if bool_decide (k' = k) then (k, v) :: m else (k', v') :: setMapIndex m k v
  end.

Fixpoint assoc {A} (k : bytes) (m : list (bytes * A)) : option A :=
  match m with
  | [] => None
  | (k', v) :: m => if bool_decide (k' = k) then Some v else assoc k m
  end.

(** [Value.FieldByIndex] and assignment through it. *)
Fixpoint field_get (p : list nat) (v : gval) : gval :=
  match p, v with
  | [], _ => v
  | i :: p, VStruct fs => match fs !! i with Some w => field_get p w | None => VOther end
  | _ :: _, _ => VOther
  end.
Fixpoint field_set (p : list nat) (x v : gval) : gval :=
  match p, v with
  | [], _ => x
  | i :: p, VStruct fs =>
      match fs !! i with Some w => VStruct (<[i := field_set p x w]> fs) | None => v end
  | _ :: _, _ => v
  end.

(** ** Struct tags (tag.go) *)

Fixpoint index_byte (c : byte) (s : bytes) : option nat :=
  match s with
  | [] => None
  | b :: s => if bool_decide (b = c) then Some O else option_map S (index_byte c s)
  end.

Definition parseTag (tag : bytes) : bytes * bytes :=
  match index_byte ","%byte tag with
  | Some i => (take i tag, drop (S i) tag)
  | None => (tag, [])
  end.

Fixpoint Contains_loop (fuel : nat) (s optionName : bytes) : bool :=
  match fuel with
  | O => false
  | S f =>
      match s with
      | [] => false
      | _ =>
          let '(s1, next) := match index_byte ","%byte s with
                             | Some i => (take i s, drop (S i) s)
                             | None => (s, [])
                             end in
          if bool_decide (s1 = optionName) then true else Contains_loop f next optionName
      end
  end.
Definition Contains (options optionName : bytes) : bool :=
  Contains_loop (S (length options)) options optionName.

Definition isTagChar (c : byte) : bool :=
  bool_decide (c ∈ [" "%byte; "$"%byte; "-"%byte; "_"%byte; "."%byte])
  || ((65 <=? b2z c) && (b2z c <=? 90)) || ((97 <=? b2z c) && (b2z c <=? 122)) || is_digit c.

Definition isValidTag (key : bytes) : bool :=
  if bool_decide (key = []) then false else forallb isTagChar key.

(** [reflect.Value.IsZero], for the kinds of this model. *)
Fixpoint isZero (v : gval) : bool :=
  match v with
  | VInt z | VUint z => z =? 0
  | VBool b => negb b
  | VString s | VBytes s => (length s =? 0)%nat
  | VIface None | VPtr None => true
  | VIface (Some _) | VPtr (Some _) => false
  | VSlice l => (length l =? 0)%nat
  | VMap m => (length m =? 0)%nat
  | VArray l | VStruct l => forallb isZero l
  | VOther => false
  end.

(** The value behind [t] once the names are gone. *)
Fixpoint underlying (t : gtype) : gtype :=
  match t with TNamed _ t => underlying t | _ => t end.

Definition isEmptyValue (v : gval) : bool :=
  match v with
  | VArray l | VSlice l => (length l =? 0)%nat
  | VMap m => (length m =? 0)%nat
  | VString s | VBytes s => (length s =? 0)%nat
  | VBool b => negb b
  | VInt z | VUint z => z =? 0
  | VIface o | VPtr o => match o with None => true | Some _ => false end
  | _ => isZero v
  end.

(** ** The decoder (decode.go) *)

Record Decoder : Type := mkDecoder {
  r : bytes;
  raw : bool;
  buf : bytes;
  n : Z;
  failUnordered : bool;
}.

Definition NewDecoder (input : bytes) : Decoder := mkDecoder input false [] 0 false.
Definition SetFailOnUnorderedKeys (d : Decoder) (fail : bool) : Decoder :=
  mkDecoder (r d) (raw d) (buf d) (n d) fail.
Definition BytesParsed (d : Decoder) : Z := n d.

(** The common effect of the [read*] methods: [p] was read, [rest] remains. *)
Definition consume (d : Decoder) (p rest : bytes) : Decoder :=
  mkDecoder rest (raw d) (if raw d then buf d ++ p else buf d) (n d + Z.of_nat (length p))
    (failUnordered d).

Fixpoint split_delim (delim : byte) (s : bytes) : bytes * bytes * bool :=
  match s with
  | [] => ([], [], false)
  | b :: s => if bool_decide (b = delim) then ([b], s, true)
              else let '(l, rest, ok) := split_delim delim s in (b :: l, rest, ok)
  end.

Definition readBytes (d : Decoder) (delim : byte) : Decoder * bytes * option error :=
  let '(line, rest, ok) := split_delim delim (r d) in
  (consume d line rest, line, if ok then None else Some EOF).

Definition readByte (d : Decoder) : Decoder * byte * option error :=
  match r d with
  | b :: rest => (consume d [b] rest, b, None)
  | [] => (consume d [x00] [], x00, Some EOF)
  end.

Definition readFull (d : Decoder) (l : Z) : Decoder * bytes * option error :=
  if Z.of_nat (length (r d)) <? l
  then (consume d (r d) [], r d,
        Some (if (length (r d) =? 0)%nat then EOF else ErrUnexpectedEOF))
  else let k := Z.to_nat l in (consume d (take k (r d)) (drop k (r d)), take k (r d), None).

Definition peekByte (d : Decoder) : option byte := head (r d).

(** How a decoding function returns. *)
Inductive outcome : Type := Done | Fail (e : error) | Panicked | NoFuel.
Definition of_err (e : option error) : outcome :=
  match e with None => Done | Some e => Fail e end.
(** The end of a call of a method. *)
Definition of_ret (p : res unit) : outcome :=
  match p with Ok _ => Done | Err e => Fail e | Panic => Panicked end.

Definition out : Type := Decoder * gval * outcome.

Definition decodeInt (d : Decoder) (t : option gtype) (v : gval) : out :=
  let '(d, ch, err) := readByte d in
  match err with
  | Some e => (d, v, Fail e)
  | None =>
      if negb (bool_decide (ch = "i"%byte)) then (d, v, Panicked)
      else
        let '(d, line, err) := readBytes d "e"%byte in
        match err with
        | Some e => (d, v, Fail e)
        | None =>
            if raw d then (d, v, Done)
            else
              let digits := take (length line - 1) line in
              let store (p : res Z) (f : Z -> gval) : out :=
                match p with
                | Ok z => (d, f z, Done) | Err e => (d, v, Fail e) | Panic => (d, v, Panicked)
                end in
              match t with
              | Some TIface => store (parse_int 64 digits) (fun z => VIface (Some (VInt z)))
              | Some (TInt bits) => store (parse_int 64 digits) (fun z => VInt (truncInt bits z))
              | Some (TUint bits) => store (parse_uint 64 digits) (fun z => VUint (truncUint bits z))
              | Some TBool => store (parse_uint 64 digits) (fun z => VBool (negb (z =? 0)))
              | _ => (d, v, Fail (Errorf "Cannot store int64"))
              end
        end
  end.

Definition decodeString (d : Decoder) (t : option gtype) (v : gval) : out :=
  let '(d, line, err) := readBytes d ":"%byte in
  match err with
  | Some e => (d, v, Fail e)
  | None =>
      match parse_int 32 (take (length line - 1) line) with
      | Err e => (d, v, Fail e)
      | Panic => (d, v, Panicked)
      | Ok l =>
          if l <? 0 then (d, v, Fail (Errorf "invalid negative string length"))
          else
            let '(d, s, err) := readFull d l in
            match err with
            | Some e => (d, v, Fail e)
            | None =>
                if raw d then (d, v, Done)
                else match t with
                     | Some TBytes => (d, VBytes s, Done)
                     | Some TString => (d, VString s, Done)
                     | Some TIface => (d, VIface (Some (VString s)), Done)
                     | _ => (d, v, Fail (Errorf "Cannot store string"))
                     end
            end
      end
  end.

(** The types whose underlying type is [[]byte]. *)
Definition is_byte_slice (t : gtype) : bool := match t with TBytes | TRaw => true | _ => false end.

(** What [Decoder.indirect] finds: a method set, or the value to decode into
    behind [layers] pointers. *)
Inductive target : Type :=
  | ToUnmarshaler (layers : nat) (u : gval -> bytes -> gval * res unit) (v : gval)
  | ToText (layers : nat) (u : gval -> bytes -> gval * res unit) (v : gval)
  | ToValue (layers : nat) (t : gtype) (v : gval).

Definition add_layer (x : target) : target :=
  match x with
  | ToUnmarshaler k u v => ToUnmarshaler (S k) u v
  | ToText k u v => ToText (S k) u v
  | ToValue k t v => ToValue (S k) t v
  end.

Fixpoint wrap (layers : nat) (v : gval) : gval :=
  match layers with O => v | S k => VPtr (Some (wrap k v)) end.

(** [meth]: the methods are consulted; a nil pointer is allocated by the plain
    [indirect], which looks at no method below it.  A type declared from [[]byte] keeps
    its name: [decodeString] stores into [[]byte] itself only, and [decodeInto] knows
    [RawMessage] by its name. *)
Fixpoint indirect (meth : bool) (t : gtype) (v : gval) : target :=
  match t with
  | TPtr t =>
      match v with
      | VPtr (Some w) => add_layer (indirect meth t w)
      | _ => add_layer (indirect false t (zero t))
      end
  | TNamed m t =>
      if meth then
        match UnmarshalBencode m, UnmarshalText m with
        | Some u, _ => ToUnmarshaler 0 u v
        | None, Some u => ToText 0 u v
        | None, None => if is_byte_slice t then ToValue 0 (TNamed m t) v else indirect meth t v
        end
      else if is_byte_slice t then ToValue 0 (TNamed m t) v else indirect meth t v
  | _ => ToValue 0 t v
  end.

(** [setStructValues]: the dictionary key of every field, with its index path.  The
    keys of embedded structs come first, so that the struct's own overwrite them. *)
Fixpoint map_put {A} (m : list (bytes * A)) (k : bytes) (v : A) : list (bytes * A) :=
  match m with
  | [] => [(k, v)]
  | (k', v') :: m => if bool_decide (k' = k) then (k, v) :: m else (k', v') :: map_put m k v
  end.

Fixpoint setStructValues (m : list (bytes * (list nat * gtype))) (prefix : list nat) (t : gtype)
    {struct t} : list (bytes * (list nat * gtype)) :=
  match t with
  | TNamed _ t => setStructValues m prefix t
  | TStruct fs =>
      let m :=
        (fix embedded m i (fs : list (field * gtype)) {struct fs} :=
           match fs with
           | [] => m
           | (f, ft) :: fs =>
               let m := if f_exported f && (f_anonymous f && f_untagged f)
                        then setStructValues m (prefix ++ [i]) ft else m in
               embedded m (S i) fs
           end) m O fs in
      (fix own m i (fs : list (field * gtype)) {struct fs} :=
         match fs with
         | [] => m
         | (f, ft) :: fs =>
             let m :=
               if negb (f_exported f) then m
               else
                 let '(name, _) := parseTag (f_tag f) in
                 if bool_decide (name = []) && f_anonymous f then m
                 else
                   let name := if bool_decide (name = []) then f_name f else name in
                   if isValidTag name then map_put m name (prefix ++ [i], ft) else m in
             own m (S i) fs
         end) m O fs
  | _ => m
  end.

(** The map or struct [decodeDict] fills. *)
Inductive dict : Type :=
  | DMap (keyer : option (bytes -> res bytes)) (et : gtype) (m : list (bytes * gval))
  | DStruct (vals : list (bytes * (list nat * gtype))) (v : gval).

Definition dict_val (x : dict) : gval :=
  match x with DMap _ _ m => VMap m | DStruct _ v => v end.

(** The element type and the elements of an array or slice target; [None] for the
    other kinds.  The flag says whether the sequence can grow. *)
Definition seq_view (t : gtype) (v : gval) : option (gtype * bool * list gval) :=
  match t, v with
  | TSlice et, VSlice l => Some (et, true, l)
  | TSlice et, _ => Some (et, true, [])
  | TBytes, VBytes s | TNamed _ (TBytes | TRaw), VBytes s =>
      Some (TUint 8, true, map (fun b => VUint (b2z b)) s)
  | TBytes, _ | TNamed _ (TBytes | TRaw), _ => Some (TUint 8, true, [])
  | TArray _ et, VArray l => Some (et, false, l)
  | _, _ => None
  end.
Definition seq_val (t : gtype) (l : list gval) : gval :=
  match t with
  | TBytes | TNamed _ (TBytes | TRaw) =>
      VBytes (map (fun v => match v with VUint z => z2b z | _ => x00 end) l)
  | TArray _ _ => VArray l
  | _ => VSlice l
  end.

(** [decodeList], given its two loops. *)
Definition decodeList (rawLoop : Decoder -> Decoder * outcome)
    (loop : Decoder -> gtype -> bool -> nat -> list gval -> Decoder * list gval * outcome)
    (d : Decoder) (t : option gtype) (v : gval) : out :=
  let head (k : Decoder -> out) : out :=
    let '(d, ch, err) := readByte d in
    match err with
    | Some e => (d, v, Fail e)
    | None => if negb (bool_decide (ch = "l"%byte)) then (d, v, Panicked) else k d
    end in
  if raw d then head (fun d => let '(d, o) := rawLoop d in (d, v, o))
  else
    match t with
    | Some TIface =>
        head (fun d => let '(d, l, o) := loop d TIface true O [] in
                       (d, VIface (Some (VSlice l)), o))
    | Some t =>
        match seq_view t v with
        | None => (d, v, Fail (Errorf "Cant store a []interface{}"))
        | Some (et, grows, l) =>
            head (fun d => let '(d, l, o) := loop d et grows O l in (d, seq_val t l, o))
        end
    | None => (d, v, Fail (Errorf "Cant store a []interface{}"))
    end.

(** [decodeDict], given its two loops. *)
Definition decodeDict (rawLoop : Decoder -> Decoder * outcome)
    (loop : Decoder -> dict -> option bytes -> Decoder * dict * outcome)
    (d : Decoder) (t : option gtype) (v : gval) : out :=
  let '(d, ch, err) := readByte d in
  match err with
  | Some e => (d, v, Fail e)
  | None =>
      if negb (bool_decide (ch = "d"%byte)) then (d, v, Panicked)
      else if raw d then let '(d, o) := rawLoop d in (d, v, o)
      else
        match t with
        | Some TIface =>
            let '(d, x, o) := loop d (DMap None TIface []) None in
            (d, VIface (Some (dict_val x)), o)
        | Some (TMap keyer et) =>
            let m := match v with VMap m => m | _ => [] end in
            let '(d, x, o) := loop d (DMap keyer et m) None in (d, dict_val x, o)
        | Some (TStruct fs) =>
            let '(d, x, o) := loop d (DStruct (setStructValues [] [] (TStruct fs)) v) None in
            (d, dict_val x, o)
        | _ => (d, v, Fail (Errorf "Can't store a map[string]interface{}"))
        end
  end.

(** The end of [decodeInto]: the switch on the next byte. *)
Definition dispatch (rll : Decoder -> Decoder * outcome)
    (ll : Decoder -> gtype -> bool -> nat -> list gval -> Decoder * list gval * outcome)
    (rdl : Decoder -> Decoder * outcome)
    (dl : Decoder -> dict -> option bytes -> Decoder * dict * outcome)
    (d : Decoder) (t : option gtype) (v : gval) : out :=
  match peekByte d with
  | None => (d, v, Fail EOF)
  | Some next =>
      if bool_decide (next = "i"%byte) then decodeInt d t v
      else if is_digit next then decodeString d t v
      else if bool_decide (next = "l"%byte) then decodeList rll ll d t v
      else if bool_decide (next = "d"%byte) then decodeDict rdl dl d t v
      else (d, v, Fail (Errorf "Invalid input"))
  end.

Fixpoint decodeInto (fuel : nat) (d : Decoder) (t : option gtype) (v : gval) {struct fuel} : out :=
  match fuel with
  | O => (d, v, NoFuel)
  | S f =>
      let dispatch := dispatch (rawListLoop f) (listLoop f) (rawDictLoop f) (dictLoop f) in
      match raw d, t with
      | true, _ | false, None => dispatch d t v
      | false, Some ty =>
          match indirect true ty v with
          | ToUnmarshaler k u w =>
              let '(d, x, o) := decodeInto f d (Some TRaw) (VBytes []) in
              match o, x with
              | Done, VBytes b => let '(w, p) := u w b in (d, wrap k w, of_ret p)
              | o, _ => (d, wrap k w, o)
              end
          | ToText k u w =>
              let '(d, x, o) := decodeString d (Some TBytes) (VBytes []) in
              match o, x with
              | Done, VBytes b => let '(w, p) := u w b in (d, wrap k w, of_ret p)
              | o, _ => (d, wrap k w, o)
              end
          | ToValue k TRaw w =>
              let '(d, _, o) :=
                dispatch (mkDecoder (r d) true [] (n d) (failUnordered d)) None w in
              (mkDecoder (r d) false (buf d) (n d) (failUnordered d), wrap k (VBytes (buf d)), o)
          | ToValue k ty w => let '(d, w, o) := dispatch d (Some ty) w in (d, wrap k w, o)
          end
      end
  end

(** Raw mode of [decodeList]: the values up to the end token are only read. *)
with rawListLoop (fuel : nat) (d : Decoder) {struct fuel} : Decoder * outcome :=
  match fuel with
  | O => (d, NoFuel)
  | S f =>
      match peekByte d with
      | None => (d, Fail EOF)
      | Some ch =>
          if bool_decide (ch = "e"%byte)
          then let '(d, _, err) := readByte d in (d, of_err err)
          else let '(d, _, o) := decodeInto f d None VOther in
               match o with Done => rawListLoop f d | o => (d, o) end
      end
  end

(** The [for i := 0; ; i++] loop of [decodeList] over the elements [l]. *)
with listLoop (fuel : nat) (d : Decoder) (et : gtype) (grows : bool) (i : nat) (l : list gval)
    {struct fuel} : Decoder * list gval * outcome :=
  match fuel with
  | O => (d, l, NoFuel)
  | S f =>
      match peekByte d with
      | None => (d, l, Fail EOF)
      | Some ch =>
          if bool_decide (ch = "e"%byte)
          then let '(d, _, err) := readByte d in (d, l, of_err err)
          else if (length l <=? i)%nat && negb grows then (d, l, Panicked)
          else
            let l := if (length l <=? i)%nat then l ++ [zero et] else l in
            let '(d, x, o) := decodeInto f d (Some et) (default VOther (l !! i)) in
            let l := <[i := x]> l in
            match o with Done => listLoop f d et grows (S i) l | o => (d, l, o) end
      end
  end

(** Raw mode of [decodeDict]. *)
with rawDictLoop (fuel : nat) (d : Decoder) {struct fuel} : Decoder * outcome :=
  match fuel with
  | O => (d, NoFuel)
  | S f =>
      match peekByte d with
      | None => (d, Fail EOF)
      | Some ch =>
          if bool_decide (ch = "e"%byte)
          then let '(d, _, err) := readByte d in (d, of_err err)
          else
            let '(d, _, o) := decodeString d None VOther in
            match o with
            | Done =>
                let '(d, _, o) := decodeInto f d None VOther in
                match o with Done => rawDictLoop f d | o => (d, o) end
            | o => (d, o)
            end
      end
  end

(** The [for] loop of [decodeDict]; [lastKey] is [None] while [first] holds. *)
with dictLoop (fuel : nat) (d : Decoder) (x : dict) (lastKey : option bytes)
    {struct fuel} : Decoder * dict * outcome :=
  match fuel with
  | O => (d, x, NoFuel)
  | S f =>
      match peekByte d with
      | None => (d, x, Fail EOF)
      | Some ch =>
          if bool_decide (ch = "e"%byte)
          then let '(d, _, err) := readByte d in (d, x, of_err err)
          else
            let '(d, kv, o) := decodeString d (Some TString) (VString []) in
            match o, kv with
            | Done, VString key =>
                if failUnordered d && match lastKey with
                                      | Some last => bytes_ltb key last | None => false end
                then (d, x, Fail (Errorf "unordered dictionary"))
                else
                  match x with
                  | DMap keyer et m =>
                      match match keyer with None => Ok key | Some f => f key end with
                      | Err e => (d, x, Fail e)
                      | Panic => (d, x, Panicked)
                      | Ok mkey =>
                          let '(d, w, o) := decodeInto f d (Some et) (zero et) in
                          match o with
                          | Done => dictLoop f d (DMap keyer et (setMapIndex m mkey w)) (Some key)
                          | o => (d, x, o)
                          end
                      end
                  | DStruct vals v =>
                      match assoc key vals with
                      | None =>
                          let '(d, _, o) := decodeInto f d (Some TIface) (VIface None) in
                          match o with Done => dictLoop f d x (Some key) | o => (d, x, o) end
                      | Some (p, ft) =>
                          let '(d, w, o) := decodeInto f d (Some ft) (field_get p v) in
                          let x := DStruct vals (field_set p w v) in
                          match o with Done => dictLoop f d x (Some key) | o => (d, x, o) end
                      end
                  end
            | o, _ => (d, x, o)
            end
      end
  end.

(** [Decoder.Decode] into a variable of type [t] that holds [v]. *)
Definition Decode (d : Decoder) (t : gtype) (v : gval) : out :=
  decodeInto (3 * length (r d) + 5) d (Some t) v.

(** [DecodeBytes], [DecodeString]: the value and the error. *)
Definition DecodeBytes (b : bytes) (t : gtype) (v : gval) : gval * outcome :=
  let '(_, v, o) := Decode (NewDecoder b) t v in (v, o).

(** ** The encoder (encode.go) *)

(** What was written to [w], and how the call returned. *)
Definition wout : Type := bytes * outcome.

Definition wseq (a : wout) (k : unit -> wout) : wout :=
  match a with
  | (b, Done) => let '(b', o) := k tt in (b ++ b', o)
  | _ => a
  end.
Notation "a ;;; b" := (wseq a (fun _ => b)) (at level 62, right associativity).

Definition write (b : bytes) : wout := (b, Done).

(** [fmt.Fprintf(w, "%d:%s", len(s), s)]. *)
Definition encString (s : bytes) : wout :=
  write (format_uint 10 (Z.of_nat (length s)) ++ B ":" ++ s).
Definition encInt (z : Z) : wout := write (B "i" ++ format_int z ++ B "e").

Definition isNilValue (v : gval) : bool :=
  match v with VIface None | VPtr None => true | _ => false end.

(** [sort.Sort] by key. *)
Fixpoint insert_by_key {A} (x : bytes * A) (l : list (bytes * A)) : list (bytes * A) :=
  match l with
  | [] => [x]
  | y :: l => if bytes_ltb (fst y) (fst x) then y :: insert_by_key x l else x :: y :: l
  end.
Definition sort_by_key {A} (l : list (bytes * A)) : list (bytes * A) :=
  foldr insert_by_key [] l.

(** What [indirectEncodeValue] finds. *)
Inductive source : Type :=
  | FromMarshaler (f : gval -> res bytes) (v : gval)
  | FromText (f : gval -> res bytes) (v : gval)
  | FromNil
  | FromValue (t : gtype) (v : gval).

(** The dynamic type of an interface's content: one of the kinds below, none of which
    has methods ([int64], [string], [[]interface{}] and [map[string]interface{}] from
    the decoder; integers and strings from the [[]interface{}] literals of the callers). *)
Definition dynType (v : gval) : gtype :=
  match v with
  | VInt _ => TInt 64
  | VUint _ => TUint 64
  | VBool _ => TBool
  | VString _ => TString
  | VBytes _ => TBytes
  | VSlice _ => TSlice TIface
  | VMap _ => TMap None TIface
  | _ => TOther
  end.

(** The loop of [indirectEncodeValue] followed by [indirect(v, false)]: [meth] is
    true while the loop runs; it stops at the first value that is not a pointer. *)
Fixpoint indirectEncodeValue (meth : bool) (t : gtype) (v : gval) : source :=
  match t with
  | TPtr t =>
      match v with
      | VPtr (Some w) => indirectEncodeValue meth t w
      | _ => FromNil
      end
  | TNamed m t =>
      if meth then
        match MarshalBencode m, MarshalText m with
        | Some f, _ => FromMarshaler f v
        | None, Some f => FromText f v
        | None, None => if is_byte_slice t then FromValue (TNamed m t) v else indirectEncodeValue meth t v
        end
      else if is_byte_slice t then FromValue (TNamed m t) v else indirectEncodeValue meth t v
  | TIface =>
      match v with
      | VIface (Some w) => FromValue (dynType w) w
      | _ => FromNil
      end
  | _ => FromValue t v
  end.

(** One entry of the dictionary of a struct. *)
Definition definition : Type := bytes * (gtype * gval).

(** [readStruct]: the entries of a struct in field order, the ones of embedded
    structs included. *)
Fixpoint readStruct (t : gtype) (v : gval) {struct t} : list definition :=
  match t, v with
  | TNamed _ t, v => readStruct t v
  | TStruct fs, VStruct vs =>
      (fix go (fs : list (field * gtype)) (vs : list gval) {struct fs} : list definition :=
         match fs, vs with
         | (f, ft) :: fs, fv :: vs =>
             (if negb (f_exported f) || isNilValue fv then []
              else if bool_decide (f_tag f = B "-") then []
              else
                let '(name, options) := parseTag (f_tag f) in
                if negb (bool_decide (f_tag f = [])) && Contains options (B "omitempty")
                   && isEmptyValue fv then []
                else
                  let rkey := if negb (bool_decide (f_tag f = [])) && isValidTag name
                              then name else f_name f in
                  if f_anonymous f && bool_decide (f_tag f = [])
                     && match underlying ft with TStruct _ => true | _ => false end
                  then readStruct ft fv
                  else [(rkey, (ft, fv))])
             ++ go fs vs
         | _, _ => []
         end) fs vs
  | _, _ => []
  end.

Fixpoint encodeValue (fuel : nat) (t : gtype) (v : gval) {struct fuel} : wout :=
  match fuel with
  | O => ([], NoFuel)
  | S f =>
      let of_res (p : res bytes) (k : bytes -> wout) : wout :=
        match p with Ok b => k b | Err e => ([], Fail e) | Panic => ([], Panicked) end in
      let list_of (et : gtype) (l : list gval) : wout :=
        write (B "l") ;;;
        foldr (fun x acc => encodeValue f et x ;;; acc) (write []) l ;;;
        write (B "e") in
      match indirectEncodeValue true t v with
      | FromMarshaler m v => of_res (m v) write
      | FromText m v => of_res (m v) encString
      | FromNil => write []
      | FromValue ty w =>
          match ty, w with
          | TRaw, VBytes s => write s
          | TInt _, VInt z => encInt z
          | TUint _, VUint z => encInt z
          | TBool, VBool b => encInt (if b then 1 else 0)
          | TString, VString s => encString s
          | TBytes, VBytes s =>
              (* [val.Interface().([]byte)] looks at [val], not at what is behind its pointers *)
              match t with
              | TBytes | TIface => encString s
              | _ => list_of (TUint 8) (map (fun b => VUint (b2z b)) s)
              end
          | TNamed _ (TBytes | TRaw), VBytes s =>
              list_of (TUint 8) (map (fun b => VUint (b2z b)) s)
          | TSlice et, VSlice l => list_of et l
          | TArray _ et, VArray l => list_of et l
          | TMap keyer et, VMap m =>
              let m := match keyer with None => sort_by_key m | Some _ => m end in
              write (B "d") ;;;
              foldr (fun kv acc =>
                if isNilValue (snd kv) then acc
                else encString (fst kv) ;;; encodeValue f et (snd kv) ;;; acc) (write []) m ;;;
              write (B "e")
          | TStruct fs, w =>
              write (B "d") ;;;
              foldr (fun kv acc =>
                encString (fst kv) ;;; encodeValue f (fst (snd kv)) (snd (snd kv)) ;;; acc)
                (write []) (sort_by_key (readStruct (TStruct fs) w)) ;;;
              write (B "e")
          | _, _ => ([], Fail (Errorf "Can't encode type"))
          end
      end
  end.

(** A bound on the nesting of a value: every recursive call of [encodeValue] goes one
    level down. *)
Fixpoint depth (v : gval) : nat :=
  match v with
  | VIface (Some v) | VPtr (Some v) => S (depth v)
  | VSlice l | VArray l | VStruct l => S (foldr (fun x a => Nat.max (depth x) a) O l)
  | VMap m => S (foldr (fun kv a => Nat.max (depth (snd kv)) a) O m)
  | _ => O
  end.

(** [EncodeBytes] (and [EncodeString]). *)
Definition EncodeBytes (t : gtype) (v : gval) : res bytes :=
  match encodeValue (S (depth v)) t v with
  | (b, Done) => Ok b
  | (_, Fail e) => Err e
  | (_, _) => Panic
  end.

(** [Encoder.Encode]: also what reached the writer when the call fails. *)
Definition Encode (t : gtype) (v : gval) : wout := encodeValue (S (depth v)) t v.
