(* ===== verification/BencodeFacts.v ===== *)
(** * Facts about the bencode decoder

    What every decoding function does to the reader ([adv]): it consumes a prefix of
    the input, counts it, and in raw mode copies it; on success the prefix is not
    empty.  With it [BencodeThms] shows that [Decode] always has fuel
    enough, and that a [RawMessage] receives exactly the bytes consumed. *)

From S2P Require Import Prelude GoBytes Bencode.

(** [adv d d']: [d'] is [d] after reading some prefix of its input. *)
Definition adv (d d' : Decoder) : Prop :=
  exists p, r d = p ++ r d' /\ n d' = n d + Z.of_nat (length p) /\ raw d' = raw d /\
    failUnordered d' = failUnordered d /\ (raw d = true -> buf d' = buf d ++ p).

#[export] Instance adv_refl : Reflexive adv.
Proof. intros d. exists []. rewrite app_nil_r. simpl. repeat split; lia || done. Qed.

#[export] Instance adv_trans : Transitive adv.
Proof.
  intros a b c (p & H1 & H2 & H3 & H4 & H5) (q & G1 & G2 & G3 & G4 & G5).
  exists (p ++ q). rewrite H1, G1, G2, H2, G3, H3, G4, length_app, app_assoc.
  repeat split; [lia|done|]. intros R. rewrite G5, H5, app_assoc by congruence. done.
Qed.

Lemma adv_length d d' : adv d d' -> (length (r d') <= length (r d))%nat.
Proof. intros (p & -> & _). rewrite length_app. lia. Qed.
Lemma adv_raw d d' : adv d d' -> raw d' = raw d.
Proof. intros (p & _ & _ & H & _). done. Qed.

Lemma adv_consume d p rest : r d = p ++ rest -> adv d (consume d p rest).
Proof. intros H. exists p. simpl. repeat split; [done|]. by intros ->. Qed.

(** [spec need fuel d d' o]: the reader advances, strictly on success, and [need]
    steps of fuel are enough. *)
Definition spec (need fuel : nat) (d d' : Decoder) (o : outcome) : Prop :=
  adv d d' /\ (o = Done -> (length (r d') < length (r d))%nat) /\
  ((need <= fuel)%nat -> o <> NoFuel).

Lemma spec_trans need fuel need' fuel' d d1 d2 o1 o2 :
  spec need' fuel' d d1 o1 -> o1 = Done ->
  spec need fuel d1 d2 o2 -> spec need fuel d d2 o2.
Proof.
  intros (A1 & S1 & _) H (A2 & S2 & F2). split; [etrans; done|]. split; [|done].
  intros Ho. specialize (S1 H). specialize (S2 Ho). lia.
Qed.

(** A failing or finished call that already advanced. *)
Lemma spec_stop need fuel d d' o : adv d d' -> o <> Done -> o <> NoFuel -> spec need fuel d d' o.
Proof. intros. split; [done|]. split; [done|]. auto. Qed.

Lemma spec_weaken need need' fuel fuel' d d' o :
  spec need fuel d d' o -> ((need' <= fuel')%nat -> (need <= fuel)%nat) ->
  spec need' fuel' d d' o.
Proof. intros (A & S & F) H. split; [done|]. split; [done|]. auto. Qed.

Lemma split_delim_spec delim s l rest ok :
  split_delim delim s = (l, rest, ok) -> s = l ++ rest /\ (ok = true -> l <> []).
Proof.
  revert l rest ok. induction s as [|b s IH]; simpl; intros l rest ok.
  - intros [= <- <- <-]. done.
  - case_bool_decide.
    + intros [= <- <- <-]. done.
    + destruct (split_delim delim s) as [[l' rest'] ok'] eqn:E. intros [= <- <- <-].
      destruct (IH _ _ _ eq_refl) as [-> _]. done.
Qed.

Lemma readBytes_spec d c d' line err :
  readBytes d c = (d', line, err) ->
  adv d d' /\ (err = None -> (length (r d') < length (r d))%nat).
Proof.
  unfold readBytes. destruct (split_delim c (r d)) as [[l rest] ok] eqn:E.
  intros [= <- <- <-]. apply split_delim_spec in E as [E H].
  split; [by apply adv_consume|]. simpl. rewrite E, length_app.
  destruct ok; [|done]. intros _. specialize (H eq_refl). destruct l; [done|simpl; lia].
Qed.

Lemma readByte_spec d d' b err :
  r d <> [] -> readByte d = (d', b, err) ->
  adv d d' /\ (length (r d') < length (r d))%nat /\ err = None.
Proof.
  unfold readByte. destruct (r d) as [|x rest] eqn:E; [done|]. intros _ [= <- <- <-].
  split; [by apply adv_consume|]. simpl. split; [lia|done].
Qed.

Lemma readFull_spec d l d' s err : readFull d l = (d', s, err) -> adv d d'.
Proof.
  unfold readFull. destruct (_ <? l).
  - intros [= <- <- <-]. apply adv_consume. by rewrite app_nil_r.
  - intros [= <- <- <-]. apply adv_consume. symmetry. apply take_drop.
Qed.

Lemma of_ret_NoFuel p : of_ret p <> NoFuel.
Proof. by destruct p. Qed.
Lemma of_err_NoFuel e : of_err e <> NoFuel.
Proof. by destruct e. Qed.

(** Close the cases that stop at once. *)
Ltac stop := apply spec_stop; [eauto using adv_trans, adv_refl|done..].

Lemma decodeString_spec need fuel d t v d' v' o :
  decodeString d t v = (d', v', o) -> spec need fuel d d' o.
Proof.
  unfold decodeString. destruct (readBytes d ":"%byte) as [[d1 line] err] eqn:E1.
  apply readBytes_spec in E1 as [A1 S1]. destruct err; [intros [= <- <- <-]; stop|].
  specialize (S1 eq_refl). destruct (parse_int 32 _) as [l| |]; [|intros [= <- <- <-]; stop..].
  destruct (l <? 0); [intros [= <- <- <-]; stop|].
  destruct (readFull d1 l) as [[d2 s] err] eqn:E2. apply readFull_spec in E2 as A2.
  destruct err; [intros [= <- <- <-]; stop|]. pose proof (adv_length _ _ A2).
  assert (Hok : spec need fuel d d2 Done) by (split; [by etrans|]; split; [lia|done]).
  destruct (raw d2); [by intros [= <- <- <-]|].
  destruct t as [[]|]; intros [= <- <- <-]; done || stop.
Qed.

Lemma decodeInt_spec need fuel d t v d' v' o :
  r d <> [] -> decodeInt d t v = (d', v', o) -> spec need fuel d d' o.
Proof.
  intros Hr. unfold decodeInt. destruct (readByte d) as [[d1 ch] err] eqn:E1.
  apply readByte_spec in E1 as (A1 & S1 & ->); [|done].
  destruct (negb _); [intros [= <- <- <-]; stop|].
  destruct (readBytes d1 "e"%byte) as [[d2 line] err] eqn:E2.
  apply readBytes_spec in E2 as [A2 S2]. destruct err; [intros [= <- <- <-]; stop|].
  pose proof (adv_length _ _ A2).
  assert (Hok : spec need fuel d d2 Done) by (split; [by etrans|]; split; [lia|done]).
  destruct (raw d2); [by intros [= <- <- <-]|].
  destruct t as [[]|]; try (intros [= <- <- <-]; stop);
    match goal with |- context [match ?p with Ok _ => _ | _ => _ end] => destruct p end;
    intros [= <- <- <-]; done || stop.
Qed.

(** Consuming the head token of a list or dictionary. *)
Lemma readByte_head d d1 ch err :
  r d <> [] -> readByte d = (d1, ch, err) ->
  spec 0 0 d d1 Done /\ raw d1 = raw d /\ (length (r d1) < length (r d))%nat /\ err = None.
Proof.
  intros Hr E. apply readByte_spec in E as (A & S & ->); [|done].
  split; [by split|]. split; [by apply adv_raw|done].
Qed.

Lemma decodeList_spec fuel rl ll d t v d' v' o :
  r d <> [] ->
  (forall d d' o, rl d = (d', o) -> spec (3 * length (r d) + 3) fuel d d' o) ->
  (forall d et g i l d' l' o, ll d et g i l = (d', l', o) ->
     spec (3 * length (r d) + 3) fuel d d' o) ->
  decodeList rl ll d t v = (d', v', o) -> spec (3 * length (r d)) fuel d d' o.
Proof.
  intros Hr Hrl Hll. unfold decodeList.
  destruct (readByte d) as [[d1 ch] err] eqn:E1.
  apply readByte_head in E1 as (P1 & R1 & S1 & ->); [|done].
  assert (Adv1 : adv d d1) by apply P1.
  assert (Hl : forall et g i l d2 l2 o2, ll d1 et g i l = (d2, l2, o2) ->
            spec (3 * length (r d)) fuel d d2 o2).
  { intros. eapply spec_weaken; [eapply (spec_trans _ _ 0 0); [exact P1|done|eapply Hll; done]|lia]. }
  destruct (raw d).
  - destruct (negb _); [intros [= <- <- <-]; stop|].
    destruct (rl d1) as [d2 o2] eqn:E2. intros [= <- <- <-].
    eapply spec_weaken; [eapply (spec_trans _ _ 0 0); [exact P1|done|apply Hrl; done]|lia].
  - destruct t as [t|]; [|intros [= <- <- <-]; stop].
    destruct t; try (intros [= <- <- <-]; stop);
    match goal with
    | |- context [seq_view ?t ?v] => destruct (seq_view t v) as [[[et g] l]|];
        [|intros [= <- <- <-]; stop]
    | _ => idtac
    end;
    (destruct (negb _); [intros [= <- <- <-]; stop|]);
    match goal with |- context [ll d1 ?et ?g ?i ?l] => destruct (ll d1 et g i l) as [[d2 l2] o2] eqn:E2 end;
    intros [= <- <- <-]; eapply Hl; done.
Qed.

Lemma decodeDict_spec fuel rl ll d t v d' v' o :
  r d <> [] ->
  (forall d d' o, rl d = (d', o) -> spec (3 * length (r d) + 3) fuel d d' o) ->
  (forall d x k d' x' o, ll d x k = (d', x', o) -> spec (3 * length (r d) + 3) fuel d d' o) ->
  decodeDict rl ll d t v = (d', v', o) -> spec (3 * length (r d)) fuel d d' o.
Proof.
  intros Hr Hrl Hll. unfold decodeDict.
  destruct (readByte d) as [[d1 ch] err] eqn:E1.
  apply readByte_head in E1 as (P1 & R1 & S1 & ->); [|done].
  assert (Adv1 : adv d d1) by apply P1.
  destruct (negb _); [intros [= <- <- <-]; stop|]. destruct (raw d1).
  - destruct (rl d1) as [d2 o2] eqn:E2. intros [= <- <- <-].
    eapply spec_weaken; [eapply (spec_trans _ _ 0 0); [exact P1|done|apply Hrl; done]|lia].
  - destruct t as [[]|]; try (intros [= <- <- <-]; stop);
    match goal with |- context [ll d1 ?x ?k] => destruct (ll d1 x k) as [[d2 x2] o2] eqn:E2 end;
    intros [= <- <- <-];
    (eapply spec_weaken; [eapply (spec_trans _ _ 0 0); [exact P1|done|eapply Hll; done]|lia]).
Qed.

Lemma peekByte_nonempty d c : peekByte d = Some c -> r d <> [].
Proof. unfold peekByte. by destruct (r d). Qed.

Lemma dispatch_spec fuel rll ll rdl dl d t v d' v' o :
  (forall d d' o, rll d = (d', o) -> spec (3 * length (r d) + 3) fuel d d' o) ->
  (forall d et g i l d' l' o, ll d et g i l = (d', l', o) ->
     spec (3 * length (r d) + 3) fuel d d' o) ->
  (forall d d' o, rdl d = (d', o) -> spec (3 * length (r d) + 3) fuel d d' o) ->
  (forall d x k d' x' o, dl d x k = (d', x', o) -> spec (3 * length (r d) + 3) fuel d d' o) ->
  dispatch rll ll rdl dl d t v = (d', v', o) ->
  spec (3 * length (r d) + 1) (S fuel) d d' o.
Proof.
  intros H1 H2 H3 H4. unfold dispatch. destruct (peekByte d) as [c|] eqn:Ep.
  - apply peekByte_nonempty in Ep.
    case_bool_decide; [by apply decodeInt_spec|].
    destruct (is_digit c); [by apply decodeString_spec|].
    case_bool_decide;
      [intros E; eapply spec_weaken; [eapply decodeList_spec; [done|exact H1|exact H2|exact E]|lia]|].
    case_bool_decide;
      [intros E; eapply spec_weaken; [eapply decodeDict_spec; [done|exact H3|exact H4|exact E]|lia]|].
    intros [= <- <- <-]. stop.
  - intros [= <- <- <-]. stop.
Qed.

(** The specification of all five mutually recursive functions at one fuel. *)
Definition all_spec (f : nat) : Prop :=
  (forall d t v d' v' o, decodeInto f d t v = (d', v', o) ->
     spec (3 * length (r d) + 2) f d d' o /\
     (t = Some TRaw \/ t = None -> spec (3 * length (r d) + 1) f d d' o)) /\
  (forall d d' o, rawListLoop f d = (d', o) -> spec (3 * length (r d) + 3) f d d' o) /\
  (forall d et g i l d' l' o, listLoop f d et g i l = (d', l', o) ->
     spec (3 * length (r d) + 3) f d d' o) /\
  (forall d d' o, rawDictLoop f d = (d', o) -> spec (3 * length (r d) + 3) f d d' o) /\
  (forall d x k d' x' o, dictLoop f d x k = (d', x', o) ->
     spec (3 * length (r d) + 3) f d d' o).

Lemma spec_nofuel need d : (0 < need)%nat -> spec need 0 d d NoFuel.
Proof. intros. split; [done|]. split; [done|lia]. Qed.

Lemma decodeInto_step f d t v d' v' o :
  all_spec f -> decodeInto (S f) d t v = (d', v', o) ->
  spec (3 * length (r d) + 2) (S f) d d' o /\
  (t = Some TRaw \/ t = None -> spec (3 * length (r d) + 1) (S f) d d' o).
Proof.
  intros (HD & H1 & H2 & H3 & H4). cbn [decodeInto]. cbv zeta.
  set (disp := dispatch (rawListLoop f) (listLoop f) (rawDictLoop f) (dictLoop f)).
  assert (Hd : forall d t v d' v' o, disp d t v = (d', v', o) ->
            spec (3 * length (r d) + 1) (S f) d d' o).
  { intros. eapply dispatch_spec; [exact H1|exact H2|exact H3|exact H4|done]. }
  assert (Hd' : forall d t v d' v' o, disp d t v = (d', v', o) ->
    spec (3 * length (r d) + 2) (S f) d d' o /\
    (forall P : Prop, P -> spec (3 * length (r d) + 1) (S f) d d' o)).
  { intros * E. apply Hd in E. split; [eapply spec_weaken; [done|lia]|done]. }
  clearbody disp.
  destruct (raw d) eqn:R; [intros E; apply Hd' in E; naive_solver|].
  destruct t as [t|]; [|intros E; apply Hd' in E; naive_solver].
  destruct (indirect true t v) as [k u w|k u w|k t' w] eqn:Ei.
  - destruct (decodeInto f d (Some TRaw) (VBytes [])) as [[d1 x] o1] eqn:E1.
    apply HD in E1 as [_ S1]. specialize (S1 (or_introl eq_refl)).
    intros E. assert (spec (3 * length (r d) + 2) (S f) d d' o) as HS.
    { destruct o1; try (injection E as <- <- <-; eapply spec_weaken; [exact S1|lia]).
      destruct x; try (injection E as <- <- <-; eapply spec_weaken; [exact S1|lia]).
      destruct (u w s) as [w' e]. injection E as <- <- <-. destruct S1 as (A & S & _).
      split; [done|]. split; [auto|]. intros _. apply of_ret_NoFuel. }
    split; [done|]. intros [[= ->]|?]; [|done]. done.
  - destruct (decodeString d (Some TBytes) (VBytes [])) as [[d1 x] o1] eqn:E1.
    apply (decodeString_spec 0 0) in E1 as (A & S & F).
    intros E. assert (forall need, spec need (Datatypes.S f) d d' o) as HS; [|auto].
    intros need. specialize (F ltac:(lia)).
    destruct o1; try (injection E as <- <- <-; by split).
    destruct x; try (injection E as <- <- <-; by split).
    destruct (u w s) as [w' e]. injection E as <- <- <-.
    split; [done|]. split; [auto|]. intros _. apply of_ret_NoFuel.
  - assert (forall d' v' o, (let '(d, w, o) := disp d (Some t') w in (d, wrap k w, o)) = (d', v', o) ->
      spec (3 * length (r d) + 1) (S f) d d' o) as HS.
    { intros *. destruct (disp d (Some t') w) as [[d1 w1] o1] eqn:E1.
      intros [= <- <- <-]. by apply Hd in E1. }
    assert (spec (3 * length (r d) + 1) (S f) d d' o ->
      spec (3 * length (r d) + 2) (S f) d d' o /\
      (Some t = Some TRaw ∨ Some t = None → spec (3 * length (r d) + 1) (S f) d d' o)) as HW.
    { intros. split; [eapply spec_weaken; [done|lia]|done]. }
    intros E. apply HW. destruct t'; try (eapply HS; exact E).
    destruct (disp _ None w) as [[d1 w1] o1] eqn:E1. injection E as <- <- <-.
    apply Hd in E1 as ((p & P1 & P2 & P3 & P4 & P5) & S & F). simpl in *.
    split; [exists p; simpl; repeat split; congruence|]. done.
Qed.

(** The end token of a list or dictionary. *)
Lemma end_spec need fuel d d' b err :
  r d <> [] -> readByte d = (d', b, err) -> spec need fuel d d' (of_err err).
Proof.
  intros Hr E. apply readByte_spec in E as (A & S & ->); [|done].
  split; [done|]. split; [done|]. by simpl.
Qed.

(** One element, then the rest of the loop. *)
Lemma loop_spec f d d1 d2 o1 o2 :
  spec (3 * length (r d) + 2) f d d1 o1 -> o1 = Done ->
  spec (3 * length (r d1) + 3) f d1 d2 o2 -> spec (3 * length (r d) + 3) (S f) d d2 o2.
Proof.
  intros H1 -> H2. destruct (H1) as (_ & S1 & _). specialize (S1 eq_refl).
  eapply spec_weaken; [eapply spec_trans; [exact H1|done|exact H2]|lia].
Qed.

Ltac finish :=
  match goal with
  | |- (_, _, _) = (_, _, _) -> _ => intros [= <- <- <-]
  | |- (_, _) = (_, _) -> _ => intros [= <- <-]
  end.
(** A loop that leaves with the outcome of its element. *)
Ltac leave H := finish; eapply spec_weaken; [exact H|lia].

Lemma rawListLoop_step f d d' o :
  all_spec f -> rawListLoop (S f) d = (d', o) -> spec (3 * length (r d) + 3) (S f) d d' o.
Proof.
  intros (HD & H1 & _). cbn [rawListLoop].
  destruct (peekByte d) as [c|] eqn:Ep; [|finish; stop]. apply peekByte_nonempty in Ep.
  case_bool_decide.
  - destruct (readByte d) as [[d1 b] err] eqn:E1. finish. by eapply end_spec.
  - destruct (decodeInto f d None VOther) as [[d1 x] o1] eqn:E1. apply HD in E1 as [S1 _].
    destruct o1; try leave S1. intros E. apply H1 in E. by eapply loop_spec.
Qed.

Lemma listLoop_step f d et g i l d' l' o :
  all_spec f -> listLoop (S f) d et g i l = (d', l', o) ->
  spec (3 * length (r d) + 3) (S f) d d' o.
Proof.
  intros (HD & _ & H2 & _). cbn [listLoop].
  destruct (peekByte d) as [c|] eqn:Ep; [|finish; stop]. apply peekByte_nonempty in Ep.
  case_bool_decide.
  - destruct (readByte d) as [[d1 b] err] eqn:E1. finish. by eapply end_spec.
  - destruct (_ && negb g); [finish; stop|]. cbv zeta.
    destruct (decodeInto f d (Some et) _) as [[d1 x] o1] eqn:E1. apply HD in E1 as [S1 _].
    destruct o1; try leave S1. intros E. apply H2 in E. by eapply loop_spec.
Qed.

Lemma rawDictLoop_step f d d' o :
  all_spec f -> rawDictLoop (S f) d = (d', o) -> spec (3 * length (r d) + 3) (S f) d d' o.
Proof.
  intros (HD & _ & _ & H3 & _). cbn [rawDictLoop].
  destruct (peekByte d) as [c|] eqn:Ep; [|finish; stop]. apply peekByte_nonempty in Ep.
  case_bool_decide.
  - destruct (readByte d) as [[d1 b] err] eqn:E1. finish. by eapply end_spec.
  - destruct (decodeString d None VOther) as [[d1 k] o1] eqn:E1.
    apply (decodeString_spec 0 0) in E1 as S1. destruct o1; try leave S1.
    pose proof S1 as (_ & L1 & _). specialize (L1 eq_refl).
    destruct (decodeInto f d1 None VOther) as [[d2 x] o2] eqn:E2. apply HD in E2 as [S2 _].
    assert (S12 : spec (3 * length (r d) + 2) f d d2 o2)
      by (eapply spec_weaken; [eapply spec_trans; [exact S1|done|exact S2]|lia]).
    destruct o2; try leave S12. intros E. apply H3 in E. by eapply loop_spec.
Qed.

Lemma dictLoop_step f d x k d' x' o :
  all_spec f -> dictLoop (S f) d x k = (d', x', o) ->
  spec (3 * length (r d) + 3) (S f) d d' o.
Proof.
  intros (HD & _ & _ & _ & H4). cbn [dictLoop].
  destruct (peekByte d) as [c|] eqn:Ep; [|finish; stop]. apply peekByte_nonempty in Ep.
  case_bool_decide.
  { destruct (readByte d) as [[d1 b] err] eqn:E1. finish. by eapply end_spec. }
  destruct (decodeString d (Some TString) (VString [])) as [[d1 kv] o1] eqn:E1.
  apply (decodeString_spec 0 0) in E1 as S1. destruct o1; try leave S1.
  pose proof S1 as (A1 & L1 & _). specialize (L1 eq_refl).
  destruct kv as [| | |key| | | | | | | |]; try (finish; split; [exact A1|split; [lia|done]]).
  destruct (failUnordered d1 && _); [finish; stop|].
  assert (S12 : forall t v d2 w o2, decodeInto f d1 t v = (d2, w, o2) ->
            spec (3 * length (r d) + 2) f d d2 o2).
  { intros * E2. apply HD in E2 as [S2 _].
    eapply spec_weaken; [eapply spec_trans; [exact S1|done|exact S2]|lia]. }
  destruct x as [keyer et m|vals v]; [destruct (match keyer with None => _ | _ => _ end)
    as [mkey| |]; [|finish; stop..]|destruct (assoc key vals) as [[p ft]|]];
  match goal with |- context [decodeInto f d1 ?t ?v] =>
    destruct (decodeInto f d1 t v) as [[d2 w] o2] eqn:E2 end;
  apply S12 in E2; destruct o2; try leave E2; intros E; apply H4 in E; by eapply loop_spec.
Qed.

Lemma all_spec_holds f : all_spec f.
Proof.
  induction f as [|f IH].
  - split; [intros * [= <- <- <-]; split; [|intros _]; apply spec_nofuel; lia|].
    repeat split; intros; simpl in *; simplify_eq; try done; lia.
  - split; [intros * E; by eapply decodeInto_step|].
    split; [intros * E; by apply rawListLoop_step|].
    split; [intros * E; by eapply listLoop_step|].
    split; [intros * E; by apply rawDictLoop_step|].
    intros * E. by eapply dictLoop_step.
Qed.

Lemma Decode_spec d t v d' v' o :
  Decode d t v = (d', v', o) -> spec 0 0 d d' o.
Proof.
  intros E. destruct (all_spec_holds (3 * length (r d) + 5)) as [HD _].
  apply HD in E as [(A & S & F) _]. split; [done|]. split; [done|]. intros _. apply F. lia.
Qed.

(** In raw mode nothing but the bytes is kept: the target of type [RawMessage] holds
    the prefix that was read, whether the call succeeds or not. *)
Lemma Decode_raw d v d' v' o :
  raw d = false -> Decode d TRaw v = (d', v', o) ->
  exists p, v' = VBytes p /\ r d = p ++ r d' /\ n d' = n d + Z.of_nat (length p).
Proof.
  intros R. unfold Decode. replace (3 * length (r d) + 5)%nat with (S (3 * length (r d) + 4)) by lia.
  set (f := (3 * length (r d) + 4)%nat). cbn [decodeInto indirect]. rewrite R.
  destruct (dispatch _ _ _ _ _ None v) as [[d1 w] o1] eqn:E1. intros [= <- <- <-].
  destruct (all_spec_holds f) as (_ & H1 & H2 & H3 & H4).
  eapply dispatch_spec in E1 as ((p & P1 & P2 & P3 & P4 & P5) & _);
    [|exact H1|exact H2|exact H3|exact H4].
  simpl in *. exists p. rewrite P5 by done. done.
Qed.
