(* ===== verification/BencodeRoundtrip.v ===== *)
(** * Round trip of the generic bencode values

    The values an [interface{}] holds after decoding are integers, strings, lists and
    dictionaries of such values ([generic]).  [genc] is their canonical encoding as BEP 3
    defines it, by recursion on the value; [canon] is the value with every map in
    key order.  The encoder computes [genc] ([encodeValue_generic]) and the decoder maps
    [genc w] followed by anything back to [canon w], consuming exactly [genc w]
    ([decodeInto_generic]). *)

From S2P Require Import Prelude GoBytes Bencode BencodeFacts.

(** ** Sorting by key *)

Section Sort.
Context {A : Type}.
Implicit Types l : list (bytes * A).

Lemma insert_by_key_perm x l : insert_by_key x l ≡ₚ x :: l.
Proof.
  induction l as [|y l IH]; simpl; [done|]. destruct (bytes_ltb _ _); [|done].
  rewrite IH. apply Permutation_swap.
Qed.

Lemma sort_by_key_perm l : sort_by_key l ≡ₚ l.
Proof. induction l as [|x l IH]; simpl; [done|]. rewrite insert_by_key_perm, IH. done. Qed.

Definition key_le (x y : bytes * A) : Prop := bytes_le x.1 y.1.

Lemma insert_by_key_sorted x l :
  StronglySorted key_le l -> StronglySorted key_le (insert_by_key x l).
Proof.
  induction 1 as [|y l Hs IH Hf]; simpl; [by repeat constructor|].
  destruct (bytes_ltb y.1 x.1) eqn:E.
  - constructor; [done|]. rewrite insert_by_key_perm. constructor; [|done].
    apply bytes_ltb_lt in E. unfold key_le, bytes_le. rewrite E. done.
  - assert (key_le x y).
    { unfold key_le, bytes_le. rewrite (bytes_compare_antisym y.1).
      unfold bytes_ltb in E. by destruct (bytes_compare y.1 x.1). }
    constructor; [by constructor|]. constructor; [done|].
    eapply Forall_impl; [exact Hf|]. intros z Hz. unfold key_le in *. by etrans.
Qed.

Lemma sort_by_key_sorted l : StronglySorted key_le (sort_by_key l).
Proof. induction l; simpl; [constructor|]. by apply insert_by_key_sorted. Qed.
End Sort.

(** Sorting looks at the keys only. *)
Lemma insert_by_key_map {A C} (g : A -> C) (x : bytes * A) (l : list (bytes * A)) :
  insert_by_key (x.1, g x.2) (map (fun kv => (kv.1, g kv.2)) l)
  = map (fun kv => (kv.1, g kv.2)) (insert_by_key x l).
Proof. induction l as [|y l IH]; simpl; [done|]. destruct (bytes_ltb y.1 x.1); simpl; by rewrite ?IH. Qed.

Lemma sort_by_key_map {A C} (g : A -> C) (l : list (bytes * A)) :
  sort_by_key (map (fun kv => (kv.1, g kv.2)) l) = map (fun kv => (kv.1, g kv.2)) (sort_by_key l).
Proof. induction l as [|x l IH]; simpl; [done|]. by rewrite IH, insert_by_key_map. Qed.

(** ** Generic values, their canonical encoding and their canonical form *)

Definition str (s : bytes) : bytes := format_uint 10 (Z.of_nat (length s)) ++ B ":" ++ s.

Fixpoint generic (v : gval) : Prop :=
  match v with
  | VInt z => is_i64 z
  | VString s => Z.of_nat (length s) < 2 ^ 31
  | VSlice l =>
      foldr (fun x P => match x with VIface (Some w) => generic w | _ => False end /\ P) True l
  | VMap m =>
      NoDup (map fst m) /\
      foldr (fun kv P => Z.of_nat (length kv.1) < 2 ^ 31 /\
        match kv.2 with VIface (Some w) => generic w | _ => False end /\ P) True m
  | _ => False
  end.

Fixpoint genc (v : gval) : bytes :=
  match v with
  | VInt z => B "i" ++ format_int z ++ B "e"
  | VString s => str s
  | VIface (Some w) => genc w
  | VSlice l => B "l" ++ concat (map genc l) ++ B "e"
  | VMap m =>
      B "d" ++ concat (map (fun kb => str kb.1 ++ kb.2)
                         (sort_by_key (map (fun kv => (kv.1, genc kv.2)) m))) ++ B "e"
  | _ => []
  end.

Fixpoint canon (v : gval) : gval :=
  match v with
  | VIface (Some w) => VIface (Some (canon w))
  | VSlice l => VSlice (map canon l)
  | VMap m => VMap (sort_by_key (map (fun kv => (kv.1, canon kv.2)) m))
  | v => v
  end.

(** The element of a list or the value of a dictionary. *)
Definition generic_elem (x : gval) : Prop := exists w, x = VIface (Some w) /\ generic w.

Lemma generic_slice l : generic (VSlice l) <-> Forall generic_elem l.
Proof.
  simpl. induction l as [|x l IH]; simpl; [by rewrite Forall_nil|].
  rewrite IH, Forall_cons. unfold generic_elem at 2.
  destruct x as [| | | | |[w|]| | | | | |]; naive_solver.
Qed.

Lemma generic_map m :
  generic (VMap m) <-> NoDup (map fst m) /\
    Forall (fun kv => Z.of_nat (length kv.1) < 2 ^ 31 /\ generic_elem kv.2) m.
Proof.
  cbn [generic]. apply and_iff_compat_l.
  induction m as [|[k x] m IH]; cbn [foldr]; [by rewrite Forall_nil|].
  rewrite IH, Forall_cons. unfold generic_elem at 2. cbn [fst snd].
  destruct x as [| | | | |[w|]| | | | | |]; naive_solver.
Qed.

Lemma depth_elem l x : x ∈ l -> (depth x < depth (VSlice l))%nat.
Proof. simpl. induction l; set_unfold; simpl; [done|]. intros [->|H]; [lia|]. apply IHl in H. lia. Qed.
Lemma depth_entry m kv : kv ∈ m -> (depth kv.2 < depth (VMap m))%nat.
Proof. simpl. induction m; set_unfold; simpl; [done|]. intros [->|H]; [lia|]. apply IHm in H. lia. Qed.

(** ** The encoder *)

Lemma write_foldr {A} (enc : A -> wout) (g : A -> bytes) l :
  (forall x, x ∈ l -> enc x = (g x, Done)) ->
  foldr (fun x acc => enc x ;;; acc) (write []) l = (concat (map g l), Done).
Proof.
  induction l as [|x l IH]; intros H; simpl; [done|].
  rewrite H, IH by set_solver. done.
Qed.

Lemma wseq_assoc_nil b o : (write b ;;; ([], o)) = (b, o).
Proof. simpl. by rewrite app_nil_r. Qed.

Lemma encodeValue_generic w f :
  generic w -> (depth w < f)%nat -> encodeValue f TIface (VIface (Some w)) = (genc w, Done).
Proof.
  remember (depth w) as k eqn:Hk. revert w f Hk.
  induction k as [k IH] using (well_founded_induction lt_wf). intros w f -> Hw Hf.
  destruct f as [|f]; [lia|]. cbn [encodeValue indirectEncodeValue].
  destruct w as [z| | |s| | |l| |m| | |]; try done; cbn [dynType].
  - apply generic_slice in Hw. rewrite (write_foldr _ genc); [done|].
    intros x Hx. rewrite Forall_forall in Hw. destruct (Hw x Hx) as (w & -> & Hg).
    pose proof (depth_elem _ _ Hx). cbn [depth] in *.
    cbn [genc]. eapply IH; [|done|done|]; simpl; lia.
  - apply generic_map in Hw as [_ Hw]. cbn [genc].
    rewrite sort_by_key_map, map_map.
    assert (forall l, (forall kv, kv ∈ l -> kv ∈ m) ->
      foldr (fun kv acc => if isNilValue kv.2 then acc
        else encString kv.1 ;;; encodeValue f TIface kv.2 ;;; acc) (write []) l
      = (concat (map (fun kv => str kv.1 ++ genc kv.2) l), Done)) as H.
    { intros l. induction l as [|[k x] l IHl]; intros Hl; [done|]. cbn [foldr map fst snd].
      rewrite IHl by set_solver. assert (Hx : (k, x) ∈ m) by set_solver.
      rewrite Forall_forall in Hw. destruct (Hw _ Hx) as (_ & w & Ew & Hg). cbn [snd] in Ew.
      pose proof (depth_entry _ _ Hx) as Hd. cbn [snd] in Hd. subst x.
      cbn [isNilValue].
      rewrite (IH (depth w) ltac:(simpl in *; lia) w f eq_refl Hg ltac:(simpl in *; lia)).
      unfold encString, write, str, wseq. cbn [concat genc]. by rewrite <- !app_assoc. }
    rewrite H; [done|]. intros kv. by rewrite sort_by_key_perm.
Qed.

(** ** The decoder *)

Lemma consume_consume d p q rest :
  raw d = false -> consume (consume d p (q ++ rest)) q rest = consume d (p ++ q) rest.
Proof.
  intros R. unfold consume. simpl. rewrite R, length_app. f_equal. lia.
Qed.

Lemma consume_cons d c p t rest q :
  raw d = false -> t = p ++ rest -> q = c :: p ->
  consume (consume d [c] t) p rest = consume d q rest.
Proof. intros R -> ->. by apply consume_consume. Qed.

Lemma split_delim_app c l rest :
  c ∉ l -> split_delim c (l ++ c :: rest) = (l ++ [c], rest, true).
Proof.
  induction l as [|b l IH]; intros H; simpl.
  - by rewrite bool_decide_eq_true_2.
  - rewrite bool_decide_eq_false_2 by set_solver. by rewrite IH by set_solver.
Qed.

Lemma digit_not_in (l : bytes) c :
  forallb is_digit l = true -> is_digit c = false -> c ∉ l.
Proof.
  intros H Hc Hin. rewrite forallb_forall in H. apply list_elem_of_In in Hin.
  apply H in Hin. congruence.
Qed.

Lemma take_init {A} (l : list A) x : take (length (l ++ [x]) - 1) (l ++ [x]) = l.
Proof. rewrite length_app. simpl. rewrite Nat.add_sub. apply take_app_length. Qed.

Lemma decodeInt_enc d z rest :
  is_i64 z -> raw d = false -> r d = B "i" ++ format_int z ++ B "e" ++ rest ->
  decodeInt d (Some TIface) (VIface None)
  = (consume d (B "i" ++ format_int z ++ B "e") rest, VIface (Some (VInt z)), Done).
Proof.
  intros Hz R E. unfold decodeInt, readByte. rewrite E. cbn [B String.list_byte_of_string app].
  cbn -[format_int consume parse_int]. unfold readBytes. cbn [r consume].
  assert (Hd : "e"%byte ∉ format_int z).
  { unfold format_int. destruct (Z.ltb_spec z 0).
    - apply not_elem_of_cons. split; [done|].
      by apply digit_not_in; [apply format_uint_digits; lia|].
    - apply digit_not_in; [apply format_uint_digits; lia|done]. }
  rewrite split_delim_app by done. cbn [raw consume]. rewrite R, take_init.
  rewrite parse_format_int; [|lia|exact Hz]. f_equal. f_equal.
  apply consume_cons; [done|by rewrite <- app_assoc|done].
Qed.

Lemma decodeString_enc d t v s rest :
  Z.of_nat (length s) < 2 ^ 31 -> raw d = false -> r d = str s ++ rest ->
  decodeString d t v =
  match t with
  | Some TBytes => (consume d (str s) rest, VBytes s, Done)
  | Some TString => (consume d (str s) rest, VString s, Done)
  | Some TIface => (consume d (str s) rest, VIface (Some (VString s)), Done)
  | _ => (consume d (str s) rest, v, Fail (Errorf "Cannot store string"))
  end.
Proof.
  intros Hs R E. unfold decodeString, readBytes. unfold str in E.
  rewrite <- !app_assoc in E. rewrite E.
  change (B ":" ++ s ++ rest) with (":"%byte :: (s ++ rest)).
  rewrite split_delim_app by (apply digit_not_in; [apply format_uint_digits; lia|done]).
  rewrite take_init, parse_int_unsigned, parse_format_uint by lia. simpl res_bind.
  destruct (Z.ltb_spec (Z.of_nat (length s)) (2 ^ (32 - 1))); [|lia].
  destruct (Z.ltb_spec (Z.of_nat (length s)) 0); [lia|].
  unfold readFull. cbn [r consume]. rewrite length_app.
  destruct (Z.ltb_spec (Z.of_nat (length s + length rest)) (Z.of_nat (length s))); [lia|].
  rewrite Nat2Z.id. destruct (take_drop_app_exact s rest (length s) eq_refl) as [-> ->].
  cbn [raw consume]. rewrite R.
  assert (consume (consume d (format_uint 10 (Z.of_nat (length s)) ++ [":"%byte]) (s ++ rest)) s rest
          = consume d (str s) rest) as ->.
  { rewrite consume_consume by done. unfold str. by rewrite <- app_assoc. }
  destruct t as [[]|]; done.
Qed.

Lemma str_head s : exists c l, str s = c :: l /\ is_digit c = true.
Proof.
  unfold str. pose proof (format_uint_digits (Z.of_nat (length s)) ltac:(lia)) as H.
  pose proof (format_uint_nonempty 10 (Z.of_nat (length s))) as Hn.
  destruct (format_uint 10 (Z.of_nat (length s))) as [|c l]; [done|].
  simpl in H. apply andb_prop in H as [H _]. eauto.
Qed.

Lemma digit_not_tag c :
  is_digit c = true -> c <> "e"%byte /\ c <> "i"%byte /\ c <> "l"%byte /\ c <> "d"%byte.
Proof. intros H. repeat split; intros ->; done. Qed.

Lemma genc_head w : generic w -> exists c l, genc w = c :: l /\ c <> "e"%byte.
Proof.
  destruct w as [| | |s| | | | | | | |]; try done; intros H; try (eexists _, _; split; [reflexivity|done]).
  destruct (str_head s) as (c & l & E & Hc). exists c, l. split; [exact E|].
  by apply digit_not_tag in Hc as [? _].
Qed.

Lemma genc_nonempty w : generic w -> (0 < length (genc w))%nat.
Proof. intros H. destruct (genc_head w H) as (c & l & -> & _). simpl. lia. Qed.

(** What the induction shows of each value. *)
Definition decodes (w : gval) : Prop :=
  forall fuel d rest, raw d = false -> r d = genc w ++ rest ->
    (3 * length (genc w) + 2 <= fuel)%nat ->
    decodeInto fuel d (Some TIface) (VIface None)
    = (consume d (genc w) rest, VIface (Some (canon w)), Done).

Lemma peek_app d c l rest : r d = (c :: l) ++ rest -> peekByte d = Some c.
Proof. unfold peekByte. by intros ->. Qed.

Lemma readByte_end d rest : r d = B "e" ++ rest -> readByte d = (consume d (B "e") rest, "e"%byte, None).
Proof. unfold readByte. by intros ->. Qed.

Lemma insert_snoc {A} (l : list A) x y : <[length l := x]> (l ++ [y]) = l ++ [x].
Proof. induction l; simpl; [done|]. by rewrite IHl. Qed.

Lemma listLoop_enc fuel l acc d rest :
  raw d = false -> r d = concat (map genc l) ++ B "e" ++ rest ->
  Forall generic_elem l -> (forall w, VIface (Some w) ∈ l -> decodes w) ->
  (3 * length (concat (map genc l)) + 3 <= fuel)%nat ->
  listLoop fuel d TIface true (length acc) acc
  = (consume d (concat (map genc l) ++ B "e") rest, acc ++ map canon l, Done).
Proof.
  revert fuel acc d. induction l as [|x l IH]; intros fuel acc d R E HF HD Hf.
  - destruct fuel as [|f]; [lia|]. cbn [listLoop map concat app] in *.
    rewrite (peek_app d "e"%byte [] rest) by done. rewrite bool_decide_eq_true_2 by done.
    rewrite (readByte_end d rest) by done. by rewrite app_nil_r.
  - destruct fuel as [|f]; [lia|]. apply Forall_cons in HF as [(w & -> & Hw) HF].
    cbn [map concat] in *. rewrite length_app in Hf. pose proof (genc_nonempty w Hw).
    change (genc (VIface (Some w))) with (genc w) in *.
    destruct (genc_head w Hw) as (c & k & Ek & Hc). cbn [listLoop].
    rewrite (peek_app d c (k ++ concat (map genc l)) (B "e" ++ rest))
      by (rewrite E, Ek; done).
    rewrite bool_decide_eq_false_2 by done. rewrite Nat.leb_refl. cbn [andb negb].
    rewrite list_lookup_middle by done. cbn [default].
    rewrite (HD w) with (rest := concat (map genc l) ++ B "e" ++ rest);
      [|set_solver|done|by rewrite E, <- app_assoc|lia].
    rewrite insert_snoc.
    replace (S (length acc)) with (length (acc ++ [VIface (Some (canon w))]))
      by (rewrite length_app; simpl; lia).
    rewrite IH; [|done|done|done|set_solver|lia].
    rewrite app_assoc at 1. rewrite consume_consume by done.
    cbn [canon]. by rewrite <- !app_assoc.
Qed.

Definition entry (kv : bytes * gval) : bytes := str kv.1 ++ genc kv.2.

Lemma setMapIndex_fresh m k v : k ∉ map fst m -> setMapIndex m k v = m ++ [(k, v)].
Proof.
  induction m as [|[k' v'] m IH]; simpl; intros H; [done|].
  rewrite bool_decide_eq_false_2 by set_solver. by rewrite IH by set_solver.
Qed.

Lemma dictLoop_enc fuel m acc d rest last :
  raw d = false -> r d = concat (map entry m) ++ B "e" ++ rest ->
  Forall (fun kv => Z.of_nat (length kv.1) < 2 ^ 31 /\ generic_elem kv.2) m ->
  (forall k w, (k, VIface (Some w)) ∈ m -> decodes w) ->
  NoDup (map fst acc ++ map fst m) -> StronglySorted key_le m ->
  (forall k, last = Some k -> Forall (fun kv => bytes_le k kv.1) m) ->
  (3 * length (concat (map entry m)) + 3 <= fuel)%nat ->
  dictLoop fuel d (DMap None TIface acc) last
  = (consume d (concat (map entry m) ++ B "e") rest,
     DMap None TIface (acc ++ map (fun kv => (kv.1, canon kv.2)) m), Done).
Proof.
  revert fuel acc d last. induction m as [|[key x] m IH]; intros fuel acc d last R E HF HD Hnd Hs Hl Hf.
  - destruct fuel as [|f]; [lia|]. cbn [dictLoop map concat app] in *.
    rewrite (peek_app d "e"%byte [] rest) by done. rewrite bool_decide_eq_true_2 by done.
    rewrite (readByte_end d rest) by done. by rewrite app_nil_r.
  - destruct fuel as [|f]; [lia|]. apply Forall_cons in HF as [[Hk (w & Ew & Hw)] HF].
    cbn [fst snd] in *. subst x. cbn [map concat] in *. 
    change (entry (key, VIface (Some w))) with (str key ++ genc w) in *.
    cbn [fst snd] in *. change (genc (VIface (Some w))) with (genc w) in *.
    rewrite !length_app in Hf. pose proof (genc_nonempty w Hw).
    destruct (str_head key) as (c & k & Ek & Hc). apply digit_not_tag in Hc as [Hc _].
    cbn [dictLoop].
    rewrite (peek_app d c (k ++ genc w ++ concat (map entry m)) (B "e" ++ rest))
      by (rewrite E, Ek, <- !app_assoc; cbn [app]; by rewrite <- !app_assoc).
    rewrite bool_decide_eq_false_2 by done.
    rewrite decodeString_enc with (s := key) (rest := genc w ++ concat (map entry m) ++ B "e" ++ rest);
      [|done|done|by rewrite E, <- !app_assoc].
    inv Hs.
    assert ((failUnordered (consume d (str key) (genc w ++ concat (map entry m) ++ B "e" ++ rest)) &&
      match last with Some last => bytes_ltb key last | None => false end) = false) as ->.
    { apply andb_false_intro2. destruct last as [lk|]; [|done].
      specialize (Hl lk eq_refl). apply Forall_cons in Hl as [Hl _]. cbn [fst] in Hl.
      unfold bytes_ltb. unfold bytes_le in Hl. rewrite bytes_compare_antisym.
      by destruct (bytes_compare lk key). }
    rewrite (HD key w) with (rest := concat (map entry m) ++ B "e" ++ rest);
      [|set_solver|done|done|lia].
    rewrite NoDup_app in Hnd. destruct Hnd as (Hn1 & Hn2 & Hn3).
    rewrite setMapIndex_fresh by (intros Hin; apply (Hn2 key Hin); set_solver).
    apply NoDup_cons in Hn3 as [Hn3 Hn4].
    rewrite IH; [|done|done|done|set_solver| |done| |lia].
    + rewrite consume_consume, (app_assoc (concat _)), consume_consume by done.
      cbn [canon]. by rewrite <- !app_assoc.
    + rewrite map_app. cbn [map fst]. rewrite <- app_assoc. apply NoDup_app.
      split; [done|]. split; [|by apply NoDup_cons].
      intros y Hy. specialize (Hn2 y Hy). set_solver.
    + intros ? [= <-]. done.
Qed.

Section Dispatch.
Context (rll : Decoder -> Decoder * outcome)
  (ll : Decoder -> gtype -> bool -> nat -> list gval -> Decoder * list gval * outcome)
  (rdl : Decoder -> Decoder * outcome)
  (dl : Decoder -> dict -> option bytes -> Decoder * dict * outcome).

Lemma dispatch_list d t v :
  peekByte d = Some "l"%byte -> dispatch rll ll rdl dl d t v = decodeList rll ll d t v.
Proof. unfold dispatch. by intros ->. Qed.
Lemma dispatch_dict d t v :
  peekByte d = Some "d"%byte -> dispatch rll ll rdl dl d t v = decodeDict rdl dl d t v.
Proof. unfold dispatch. by intros ->. Qed.

(** The head token of a list or dictionary decoded into an interface. *)
Lemma decodeList_iface d rest :
  raw d = false -> r d = "l"%byte :: rest ->
  decodeList rll ll d (Some TIface) (VIface None) =
  let '(d', l, o) := ll (consume d ["l"%byte] rest) TIface true O [] in
  (d', VIface (Some (VSlice l)), o).
Proof. intros R E. unfold decodeList, readByte. by rewrite R, E. Qed.
Lemma decodeDict_iface d rest :
  raw d = false -> r d = "d"%byte :: rest ->
  decodeDict rdl dl d (Some TIface) (VIface None) =
  let '(d', x, o) := dl (consume d ["d"%byte] rest) (DMap None TIface []) None in
  (d', VIface (Some (dict_val x)), o).
Proof. intros R E. unfold decodeDict, readByte. rewrite E. cbn. by rewrite R. Qed.
End Dispatch.

Lemma decodeInto_generic w : generic w -> decodes w.
Proof.
  remember (depth w) as k eqn:Hk. revert w Hk.
  induction k as [k IH] using (well_founded_induction lt_wf). intros w -> Hw fuel d rest R E Hf.
  destruct fuel as [|f]; [lia|]. cbn [decodeInto indirect]. rewrite R. cbv zeta.
  destruct w as [z| | |s| | |l| |m| | |]; try done.
  - unfold dispatch. rewrite (peek_app d "i"%byte (format_int z ++ B "e") rest) by done.
    rewrite bool_decide_eq_true_2 by done. cbn [genc] in *.
    rewrite decodeInt_enc with (z := z) (rest := rest); [done|done|done|].
    rewrite E. by rewrite <- !app_assoc.
  - unfold dispatch. cbn [genc] in *. destruct (str_head s) as (c & k & Ek & Hc).
    rewrite (peek_app d c k rest) by (by rewrite E, Ek).
    destruct (digit_not_tag c Hc) as (_ & H2 & _). rewrite bool_decide_eq_false_2, Hc by done.
    rewrite decodeString_enc with (s := s) (rest := rest); [done|done|done|done].
  - cbn [genc] in *. apply generic_slice in Hw. rewrite !length_app in Hf. cbn in Hf.
    rewrite <- app_assoc in E. cbn [B String.list_byte_of_string app] in E.
    rewrite dispatch_list by (unfold peekByte; by rewrite E).
    rewrite (decodeList_iface _ _ d _ R E).
    rewrite (listLoop_enc f l [] _ rest); [|done|cbn; by rewrite <- app_assoc|done| |lia].
    + cbn [canon app]. f_equal. f_equal. by apply consume_cons; [|rewrite <- app_assoc|].
    + intros w Hin. pose proof (depth_elem _ _ Hin). eapply IH; [|done|]; [simpl in *; lia|].
      rewrite Forall_forall in Hw. destruct (Hw _ Hin) as (w' & [= <-] & ?). done.
  - cbn [genc] in *. rewrite sort_by_key_map, map_map in *.
    change (map (fun x => str (x.1, genc x.2).1 ++ (x.1, genc x.2).2) (sort_by_key m))
      with (map entry (sort_by_key m)) in *.
    apply generic_map in Hw as [Hnd Hw]. rewrite !length_app in Hf. cbn in Hf.
    rewrite <- app_assoc in E. cbn [B String.list_byte_of_string app] in E.
    rewrite dispatch_dict by (unfold peekByte; by rewrite E).
    rewrite (decodeDict_iface _ _ d _ R E).
    rewrite (dictLoop_enc f (sort_by_key m) [] _ rest None);
      [|done|cbn; by rewrite <- app_assoc|by rewrite sort_by_key_perm| | |apply sort_by_key_sorted|done|lia].
    + cbn [dict_val app canon]. rewrite sort_by_key_map. f_equal. f_equal.
      by apply consume_cons; [|rewrite <- app_assoc|].
    + intros key w Hin. rewrite sort_by_key_perm in Hin.
      pose proof (depth_entry _ _ Hin). cbn [snd] in *.
      eapply IH; [|done|]; [simpl in *; lia|].
      rewrite Forall_forall in Hw. destruct (Hw _ Hin) as (_ & w' & Ew & ?). cbn in Ew. congruence.
    + cbn [map app]. by rewrite sort_by_key_perm.
Qed.
