(* ===== verification/BencodeThms.v ===== *)
(** * Theorems about package [bencode]

    Round trip of the generic values, independence of the encoding from the iteration
    order of maps, totality of the decoder, exactness of [RawMessage]. *)

From S2P Require Import Prelude GoBytes Bencode BencodeFacts BencodeRoundtrip.

(** [C1] Every value built from 64-bit integers, strings shorter than 2^31 bytes, lists
    and maps with distinct keys is encoded without error, and decoding the
    encoding into an [interface{}] gives the value back with its maps in key order:
    the decoder consumes the encoding, no byte of what follows it, counts it in
    [BytesParsed], and does so also when it rejects unordered keys. *)
Theorem bencode_roundtrip w rest fail :
  generic w ->
  exists b, EncodeBytes TIface (VIface (Some w)) = Ok b /\
    Decode (SetFailOnUnorderedKeys (NewDecoder (b ++ rest)) fail) TIface (VIface None)
    = (mkDecoder rest false [] (Z.of_nat (length b)) fail, VIface (Some (canon w)), Done).
Proof.
  intros Hw. exists (genc w). split.
  - unfold EncodeBytes. by rewrite encodeValue_generic by (done || (simpl; lia)).
  - unfold Decode. rewrite (decodeInto_generic w Hw) with (rest := rest); [done|done|done|].
    cbn [r SetFailOnUnorderedKeys NewDecoder]. rewrite length_app. lia.
Qed.

Definition sample : gval :=
  VMap [(B "spam", VIface (Some (VSlice [VIface (Some (VInt (-3)))])));
        (B "cow", VIface (Some (VString (B "moo"))))].

Lemma sample_generic : generic sample.
Proof.
  split; [|by repeat split].
  apply (bool_decide_unpack (NoDup (map fst _))). vm_compute. exact I.
Qed.

Lemma bencode_roundtrip_witness :
  EncodeBytes TIface (VIface (Some sample)) = Ok (B "d3:cow3:moo4:spamli-3eee") /\
  exists b, EncodeBytes TIface (VIface (Some sample)) = Ok b /\
    Decode (SetFailOnUnorderedKeys (NewDecoder (b ++ B "x")) true) TIface (VIface None)
    = (mkDecoder (B "x") false [] (Z.of_nat (length b)) true,
       VIface (Some (canon sample)), Done).
Proof.
  split; [vm_compute; reflexivity|].
  exact (bencode_roundtrip sample (B "x") true sample_generic).
Defined.

Lemma sort_by_key_unique {A} (m m' : list (bytes * A)) :
  NoDup (map fst m) -> m ≡ₚ m' -> sort_by_key m = sort_by_key m'.
Proof.
  intros Hnd Hp. eapply (StronglySorted_unique_strong key_le);
    [|apply sort_by_key_sorted..|by rewrite !sort_by_key_perm].
  intros [k1 v1] [k2 v2] H1 H2 L1 L2. rewrite sort_by_key_perm in H1, H2.
  rewrite <- Hp in H2. assert (k1 = k2) as <- by (by apply (anti_symm bytes_le)).
  f_equal. apply list_elem_of_lookup in H1 as [i Hi], H2 as [j Hj].
  assert (i = j) as <-; [|congruence].
  eapply NoDup_lookup; [exact Hnd|..]; rewrite list_lookup_fmap; [by rewrite Hi|by rewrite Hj].
Qed.

(** The encoding of a map with string keys does not depend on the order in which Go
    iterates over it: two maps with the same entries have the same bytes, although
    [MapKeys] returns the keys in any order. *)
Theorem encode_map_order m m' :
  generic (VMap m) -> m ≡ₚ m' ->
  EncodeBytes TIface (VIface (Some (VMap m))) = EncodeBytes TIface (VIface (Some (VMap m'))).
Proof.
  intros Hm Hp. assert (generic (VMap m')) as Hm'.
  { apply generic_map in Hm. apply generic_map. by rewrite <- Hp. }
  unfold EncodeBytes. rewrite !encodeValue_generic by (done || (simpl; lia)).
  cbn [genc]. rewrite !sort_by_key_map. apply generic_map in Hm as [Hnd _].
  by rewrite (sort_by_key_unique m m').
Qed.

Lemma encode_map_order_witness :
  let m := [(B "b", VIface (Some (VInt 1))); (B "a", VIface (Some (VInt 2)))] in
  EncodeBytes TIface (VIface (Some (VMap m)))
  = EncodeBytes TIface (VIface (Some (VMap (rev m)))).
Proof.
  apply encode_map_order; [|apply Permutation_rev].
  split; [|by repeat split]. apply (bool_decide_unpack (NoDup (map fst _))). vm_compute. exact I.
Defined.

(** [C2] Decoding terminates on every input and for every target type: the steps [Decode]
    is given are always enough, whatever the Unmarshaler methods do.  It consumes a
    prefix of the input, at least one byte when it succeeds, [BytesParsed] grows by the
    length of that prefix, and the decoder is back in the mode it started in. *)
Theorem decode_total d t v :
  exists d' v' o p, Decode d t v = (d', v', o) /\ o <> NoFuel /\
    r d = p ++ r d' /\ BytesParsed d' = BytesParsed d + Z.of_nat (length p) /\
    raw d' = raw d /\ (o = Done -> p <> []).
Proof.
  destruct (Decode d t v) as [[d' v'] o] eqn:E. exists d', v', o.
  apply Decode_spec in E as ((p & P1 & P2 & P3 & _) & S & F).
  exists p. repeat split; auto.
  intros Ho ->. specialize (S Ho). rewrite P1 in S. simpl in S. lia.
Qed.

(** [C3] A [RawMessage] target receives exactly the bytes the decoder consumed, so the
    value can be hashed or decoded again: the input is those bytes followed by what is
    left, and on success they are not empty. *)
Theorem rawmessage_exact d v d' v' o :
  raw d = false -> Decode d TRaw v = (d', v', o) ->
  exists p, v' = VBytes p /\ r d = p ++ r d' /\ (o = Done -> p <> []).
Proof.
  intros R E. pose proof (Decode_spec _ _ _ _ _ _ E) as (_ & S & _).
  destruct (Decode_raw d v d' v' o R E) as (p & -> & P & _). exists p. repeat split; [done|].
  intros Ho ->. specialize (S Ho). rewrite P in S. simpl in S. lia.
Qed.

Lemma rawmessage_exact_witness :
  let d := NewDecoder (B "d1:ai1e1:bl2:xyee4:tail") in
  exists p, VBytes (B "d1:ai1e1:bl2:xyee") = VBytes p /\
    r d = p ++ B "4:tail" /\ (Done = Done -> p <> []).
Proof.
  exact (rawmessage_exact (NewDecoder (B "d1:ai1e1:bl2:xyee4:tail")) (VBytes [])
    (mkDecoder (B "4:tail") false (B "d1:ai1e1:bl2:xyee") 17 false) _ _ eq_refl
    ltac:(vm_compute; reflexivity)).
Defined.
