(* ===== verification/Codec.v ===== *)
(** * Interfaces between the codecs

    [FixedCodec]: a type with a binary form of fixed size (a hash, a compact address, a
    node).  The slices of such values ([Hashes], [CompactIPv4Addrs], [CompactIPv4Nodes],
    ...) are proved once against the class.  The second part gives what clients use of
    package [bencode]: a string target gets the string that was encoded. *)

From S2P Require Import Prelude GoBytes Bencode BencodeFacts BencodeRoundtrip.

Class FixedCodec (A : Type) : Type := {
  fc_size : nat;
  fc_enc : A -> bytes;
  fc_dec : bytes -> res A;
  fc_wf : A -> Prop;
  fc_size_pos : (0 < fc_size)%nat;
  fc_enc_size : forall a, fc_wf a -> length (fc_enc a) = fc_size;
  fc_dec_enc : forall a, fc_wf a -> fc_dec (fc_enc a) = Ok a;
  fc_dec_total : forall b, length b = fc_size ->
    exists a, fc_dec b = Ok a /\ fc_wf a /\ fc_enc a = b;
}.

Section Lists.
Context {A : Type} `{!FixedCodec A}.

(** The [for i := 0; i < len(b); i += size] loop. *)
Definition list_dec (b : bytes) : res (list A) := res_mapM fc_dec (chunks fc_size b).
Definition list_enc (l : list A) : bytes := concat (map fc_enc l).

Lemma length_list_enc l : Forall fc_wf l -> length (list_enc l) = (fc_size * length l)%nat.
Proof.
  intros H. unfold list_enc. rewrite (length_concat_const fc_size), length_map; [done|].
  apply Forall_map. eapply Forall_impl; [exact H|]. apply fc_enc_size.
Qed.

Lemma list_dec_enc l : Forall fc_wf l -> list_dec (list_enc l) = Ok l.
Proof.
  intros H. unfold list_dec, list_enc. rewrite chunks_concat.
  - rewrite (res_mapM_map _ _ id); [by rewrite map_id|].
    intros x Hx. rewrite Forall_forall in H. by apply fc_dec_enc, H.
  - apply fc_size_pos.
  - apply Forall_map. eapply Forall_impl; [exact H|]. apply fc_enc_size.
Qed.

Lemma res_mapM_dec_total cs :
  Forall (fun c => length c = fc_size) cs ->
  exists l, res_mapM fc_dec cs = Ok l /\ Forall fc_wf l /\ concat (map fc_enc l) = concat cs.
Proof.
  induction 1 as [|c cs Hc _ (l & El & Hl & Ec)].
  - exists []. repeat constructor.
  - destruct (fc_dec_total c Hc) as (a & Ea & Ha & <-).
    exists (a :: l). simpl. rewrite Ea. simpl. rewrite El. simpl. rewrite Ec.
    split; [done|]. split; [by constructor|done].
Qed.

(** Every byte string whose length is a multiple of the block decodes, and encodes back
    to itself. *)
Lemma list_dec_total b :
  (fc_size | length b)%nat -> exists l, list_dec b = Ok l /\ Forall fc_wf l /\ list_enc l = b.
Proof.
  intros Hd. destruct (concat_chunks fc_size b fc_size_pos Hd) as [Hc Hf].
  destruct (res_mapM_dec_total _ Hf) as (l & El & Hl & Ec). exists l.
  split; [exact El|]. split; [done|]. by rewrite <- Hc, <- Ec.
Qed.

Lemma divide_mod (b : bytes) :
  (Z.of_nat (length b) mod Z.of_nat fc_size = 0) <-> (fc_size | length b)%nat.
Proof.
  pose proof fc_size_pos. rewrite <- Nat2Z.inj_mod.
  rewrite <- Nat.Lcm0.mod_divide. lia.
Qed.

Lemma list_enc_mod l : Forall fc_wf l -> Z.of_nat (length (list_enc l)) mod Z.of_nat fc_size = 0.
Proof.
  intros H. rewrite divide_mod, length_list_enc by done. exists (length l). lia.
Qed.
End Lists.

(** ** Strings through package [bencode] *)

Lemma EncodeBytes_bytes s : EncodeBytes TBytes (VBytes s) = Ok (str s).
Proof. done. Qed.
Lemma EncodeBytes_string s : EncodeBytes TString (VString s) = Ok (str s).
Proof. done. Qed.

Lemma decodeInto_str f d t v s rest :
  t = TBytes \/ t = TString -> Z.of_nat (length s) < 2 ^ 31 -> raw d = false ->
  r d = str s ++ rest ->
  decodeInto (S f) d (Some t) v
  = (consume d (str s) rest, match t with TBytes => VBytes s | _ => VString s end, Done).
Proof.
  intros Ht Hs R E. cbn [decodeInto]. rewrite R.
  assert (indirect true t v = ToValue 0 t v) as -> by (by destruct Ht as [-> | ->]).
  destruct (str_head s) as (c & l & Ec & Hc). destruct (digit_not_tag c Hc) as (_ & Hi & _).
  assert (forall a b e g, dispatch a b e g d (Some t) v = decodeString d (Some t) v) as Hd.
  { intros. unfold dispatch, peekByte. rewrite E, Ec. cbn [head app].
    by rewrite bool_decide_eq_false_2, Hc. }
  rewrite Hd, (decodeString_enc d _ v s rest) by done. by destruct Ht as [-> | ->].
Qed.

(** [bencode.DecodeBytes(str s, &x)] for a [[]byte] or [string] variable. *)
Lemma DecodeBytes_bytes s v :
  Z.of_nat (length s) < 2 ^ 31 -> DecodeBytes (str s) TBytes v = (VBytes s, Done).
Proof.
  intros H. unfold DecodeBytes, Decode. rewrite Nat.add_succ_r.
  rewrite (decodeInto_str _ _ TBytes v s []); [done|by left|done|done|].
  by rewrite app_nil_r.
Qed.
Lemma DecodeBytes_string s v :
  Z.of_nat (length s) < 2 ^ 31 -> DecodeBytes (str s) TString v = (VString s, Done).
Proof.
  intros H. unfold DecodeBytes, Decode. rewrite Nat.add_succ_r.
  rewrite (decodeInto_str _ _ TString v s []); [done|by right|done|done|].
  by rewrite app_nil_r.
Qed.

(** ** Methods with a pointer receiver

    [func ( *T) F(...) error] takes the old value of the receiver and returns its new value
    and how the call ended. *)
Definition recv (A : Type) : Type := A * outcome.

(** The result when the receiver is a fresh variable that is used on success only. *)
Definition to_res {A} (x : recv A) : res A :=
  match x with (a, Done) => Ok a | (_, Fail e) => Err e | (_, _) => Panic end.

(** The receiver keeps its value unless the call succeeds. *)
Definition set_on_ok {A} (old : A) (x : res A) : recv A :=
  match x with Ok a => (a, Done) | Err e => (old, Fail e) | Panic => (old, Panicked) end.

(** [copy(dst, src)] for an array [dst]. *)
Definition copy_into (dst src : bytes) : bytes := take (length dst) src ++ drop (length src) dst.

Lemma length_copy_into dst src : length (copy_into dst src) = length dst.
Proof. unfold copy_into. rewrite length_app, length_take, length_drop. lia. Qed.
Lemma copy_into_exact dst src : length src = length dst -> copy_into dst src = src.
Proof.
  intros H. unfold copy_into. rewrite <- H, firstn_all, drop_ge by lia. apply app_nil_r.
Qed.

(** [var data []byte; if err = bencode.DecodeBytes(b, &data); err == nil { err = k(data) }]:
    the body of the [UnmarshalBencode] methods of compact values, with receiver [a]. *)
Definition via_bytes {A} (a : A) (b : bytes) (k : bytes -> recv A) : recv A :=
  match DecodeBytes b TBytes (VBytes []) with
  | (VBytes data, Done) => k data
  | (_, o) => (a, o)
  end.

Lemma via_bytes_str {A} (a : A) s k :
  Z.of_nat (length s) < 2 ^ 31 -> via_bytes a (str s) k = k s.
Proof. intros H. unfold via_bytes. by rewrite DecodeBytes_bytes. Qed.

(** [if b, err = a.MarshalBinary(); err == nil { b, err = bencode.EncodeBytes(b) }]. *)
Definition enc_bytes (x : res bytes) : res bytes :=
  let! b := x in EncodeBytes TBytes (VBytes b).

Lemma enc_bytes_Ok b : enc_bytes (Ok b) = Ok (str b).
Proof. done. Qed.

(** ** Reflected types of structs and of types with methods *)

Definition exported (name tag : bytes) (t : gtype) : field * gtype := (Field name tag false true false, t).

(** A named type with both bencode methods, seen through a view of its values.  ([NoFuel] does not
    occur: the methods call [Decode] with enough fuel, [BencodeThms.decode_total].) *)
Definition bencodeT {A} (get : gval -> A) (put : A -> gval) (t : gtype)
    (unmarshal : A -> bytes -> recv A) (marshal : A -> res bytes) : gtype :=
  TNamed (Methods
    (Some (fun v b =>
       match unmarshal (get v) b with
       | (a, Done) => (put a, Ok tt)
       | (a, Fail e) => (put a, Err e)
       | (a, _) => (put a, Panic)
       end)) None
    (Some (fun v => marshal (get v))) None) t.
