(* ===== verification/BencodeStruct.v ===== *)
(** * Decoding typed values

    [dec_as t v0 e v]: the bytes [e] decode into a variable of type [t] that holds [v0], and
    it holds [v] afterwards.  Proved for strings, integers, booleans, types with an
    [UnmarshalBencode] method, slices and structs, so that the round trip of a message is
    put together from its fields.  [enc_as] is the same for the encoder. *)

From S2P Require Import Prelude GoBytes Bencode BencodeFacts BencodeRoundtrip Codec.

Definition plain (d : Decoder) : Prop := raw d = false /\ failUnordered d = false.

Definition starts (e : bytes) : Prop := exists c k, e = c :: k /\ c <> "e"%byte.

Definition dec_as (t : gtype) (v0 : gval) (e : bytes) (v : gval) : Prop :=
  starts e /\
  forall fuel d rest, plain d -> r d = e ++ rest -> (3 * length e + 2 <= fuel)%nat ->
    exists d', decodeInto fuel d (Some t) v0 = (d', v, Done) /\ plain d' /\ r d' = rest.

Lemma consume_app d p q rest : consume (consume d p (q ++ rest)) q rest = consume d (p ++ q) rest.
Proof.
  unfold consume. simpl. rewrite length_app, <- Z.add_assoc, <- Nat2Z.inj_add.
  destruct (raw d); [by rewrite <- app_assoc|done].
Qed.

Lemma plain_consume d p rest : plain d -> plain (consume d p rest).
Proof. by intros [? ?]. Qed.

Lemma starts_str s : starts (str s).
Proof.
  destruct (str_head s) as (c & k & -> & Hc). exists c, k. split; [done|].
  by apply digit_not_tag in Hc as [? _].
Qed.

(** ** Strings and integers *)

Lemma dec_as_str t v0 s :
  t = TBytes \/ t = TString -> Z.of_nat (length s) < 2 ^ 31 ->
  dec_as t v0 (str s) (match t with TBytes => VBytes s | _ => VString s end).
Proof.
  intros Ht Hs. split; [apply starts_str|]. intros fuel d rest Hp E Hf.
  destruct fuel as [|f]; [lia|]. exists (consume d (str s) rest).
  split; [by apply decodeInto_str; [..|apply Hp|]|]. split; [by apply plain_consume|done].
Qed.
Lemma dec_as_string v0 s : Z.of_nat (length s) < 2 ^ 31 -> dec_as TString v0 (str s) (VString s).
Proof. apply (dec_as_str TString). by right. Qed.

Definition int (z : Z) : bytes := B "i" ++ format_int z ++ B "e".
Lemma starts_int z : starts (int z).
Proof. by exists "i"%byte, (format_int z ++ B "e"). Qed.

Lemma e_not_in_int z : "e"%byte ∉ format_int z.
Proof.
  unfold format_int. destruct (Z.ltb_spec z 0).
  - apply not_elem_of_cons. split; [done|]. by apply digit_not_in; [apply format_uint_digits; lia|].
  - apply digit_not_in; [apply format_uint_digits; lia|done].
Qed.

(** The reading of an integer up to its end token. *)
Lemma decodeInt_read d t v z rest :
  r d = int z ++ rest ->
  decodeInt d t v =
  let d := consume d (int z) rest in
  if raw d then (d, v, Done)
  else
    let store (p : res Z) (f : Z -> gval) : out :=
      match p with Ok z => (d, f z, Done) | Err e => (d, v, Fail e) | Panic => (d, v, Panicked) end in
    match t with
    | Some TIface => store (parse_int 64 (format_int z)) (fun z => VIface (Some (VInt z)))
    | Some (TInt bits) => store (parse_int 64 (format_int z)) (fun z => VInt (truncInt bits z))
    | Some (TUint bits) => store (parse_uint 64 (format_int z)) (fun z => VUint (truncUint bits z))
    | Some TBool => store (parse_uint 64 (format_int z)) (fun z => VBool (negb (z =? 0)))
    | _ => (d, v, Fail (Errorf "Cannot store int64"))
    end.
Proof.
  intros E. unfold int in E. rewrite <- !app_assoc in E.
  unfold decodeInt, readByte. rewrite E.
  change (B "i" ++ ?x) with ("i"%byte :: x). change (B "e" ++ rest) with ("e"%byte :: rest). cbv beta iota.
  rewrite bool_decide_eq_true_2 by done. cbn [negb]. unfold readBytes. cbn [r consume].
  rewrite split_delim_app by apply e_not_in_int. rewrite take_init.
  assert (consume (consume d ["i"%byte] (format_int z ++ "e"%byte :: rest)) (format_int z ++ ["e"%byte]) rest
          = consume d (int z) rest) as ->.
  { replace (format_int z ++ "e"%byte :: rest) with ((format_int z ++ ["e"%byte]) ++ rest)
      by (by rewrite <- app_assoc). apply consume_app. }
  done.
Qed.

Lemma dec_int_step t v0 z v f d rest :
  indirect true t v0 = ToValue 0 t v0 -> t <> TRaw ->
  plain d -> r d = int z ++ rest ->
  (forall d', raw d' = false ->
     (let store (p : res Z) (g : Z -> gval) : out :=
       match p with Ok z => (d', g z, Done) | Err e => (d', v0, Fail e) | Panic => (d', v0, Panicked) end in
      match Some t with
      | Some TIface => store (parse_int 64 (format_int z)) (fun z => VIface (Some (VInt z)))
      | Some (TInt bits) => store (parse_int 64 (format_int z)) (fun z => VInt (truncInt bits z))
      | Some (TUint bits) => store (parse_uint 64 (format_int z)) (fun z => VUint (truncUint bits z))
      | Some TBool => store (parse_uint 64 (format_int z)) (fun z => VBool (negb (z =? 0)))
      | _ => (d', v0, Fail (Errorf "Cannot store int64"))
      end) = (d', v, Done)) ->
  decodeInto (S f) d (Some t) v0 = (consume d (int z) rest, v, Done).
Proof.
  intros Hi Hr [Hp Hq] E K. cbn [decodeInto]. rewrite Hp, Hi. cbv zeta.
  assert (D : dispatch (rawListLoop f) (listLoop f) (rawDictLoop f) (dictLoop f) d (Some t) v0
              = (consume d (int z) rest, v, Done)).
  { unfold dispatch. rewrite (peek_app d "i"%byte (format_int z ++ B "e") rest) by done.
    rewrite bool_decide_eq_true_2 by done. rewrite (decodeInt_read _ _ _ z rest) by done.
    cbv zeta. cbn [raw consume]. rewrite Hp. by apply K. }
  rewrite D. by destruct t.
Qed.

Lemma parse_uint_format z : 0 <= z < 2 ^ 64 -> parse_uint 64 (format_int z) = Ok z.
Proof.
  intros Hz. unfold format_int. destruct (Z.ltb_spec z 0); [lia|]. by apply parse_format_uint.
Qed.

Lemma dec_as_uint bits v0 z :
  0 < bits <= 64 -> 0 <= z < 2 ^ bits -> dec_as (TUint bits) v0 (int z) (VUint z).
Proof.
  intros Hb Hz. assert (2 ^ bits <= 2 ^ 64) by (apply Z.pow_le_mono_r; lia).
  split; [apply starts_int|]. intros fuel d rest Hp E Hf.
  destruct fuel as [|f]; [lia|]. exists (consume d (int z) rest).
  split; [|split; [by apply plain_consume|done]].
  apply dec_int_step; [done..|]. intros d' _. cbv zeta. rewrite parse_uint_format by lia.
  unfold truncUint. by rewrite Z.mod_small by lia.
Qed.

Lemma dec_as_int bits v0 z :
  0 < bits <= 64 -> - 2 ^ (bits - 1) <= z < 2 ^ (bits - 1) -> dec_as (TInt bits) v0 (int z) (VInt z).
Proof.
  intros Hb Hz. assert (2 ^ (bits - 1) <= 2 ^ 63) by (apply Z.pow_le_mono_r; lia).
  assert (2 ^ bits = 2 * 2 ^ (bits - 1)) as Eb
    by (rewrite <- Z.pow_succ_r by lia; f_equal; lia).
  split; [apply starts_int|]. intros fuel d rest Hp E Hf.
  destruct fuel as [|f]; [lia|]. exists (consume d (int z) rest).
  split; [|split; [by apply plain_consume|done]].
  apply dec_int_step; [done..|]. intros d' _. cbv zeta. rewrite parse_format_int by lia.
  unfold truncInt. rewrite Z.mod_small by lia. repeat f_equal. lia.
Qed.

Lemma dec_as_bool v0 b : dec_as TBool v0 (int (if b : bool then 1 else 0)) (VBool b).
Proof.
  split; [apply starts_int|]. intros fuel d rest Hp E Hf.
  destruct fuel as [|f]; [lia|]. eexists.
  split; [|split; [by apply plain_consume|done]].
  apply dec_int_step; [done..|]. intros d' _. cbv zeta. rewrite parse_uint_format by (destruct b; lia).
  by destruct b.
Qed.

(** ** Raw mode and [UnmarshalBencode] methods *)

Definition raw_as (e : bytes) : Prop :=
  starts e /\
  forall fuel d rest t v, raw d = true -> r d = e ++ rest -> (length e + 1 <= fuel)%nat ->
    decodeInto fuel d t v = (consume d e rest, v, Done).

Lemma decodeInto_raw f d t v :
  raw d = true ->
  decodeInto (S f) d t v
  = dispatch (rawListLoop f) (listLoop f) (rawDictLoop f) (dictLoop f) d t v.
Proof. intros R. cbn [decodeInto]. by rewrite R. Qed.

Lemma decodeString_raw d t v s rest :
  Z.of_nat (length s) < 2 ^ 31 -> raw d = true -> r d = str s ++ rest ->
  decodeString d t v = (consume d (str s) rest, v, Done).
Proof.
  intros Hs R E. unfold decodeString, readBytes. unfold str in E.
  rewrite <- !app_assoc in E. rewrite E.
  change (B ":" ++ s ++ rest) with (":"%byte :: (s ++ rest)).
  rewrite split_delim_app by (apply digit_not_in; [apply format_uint_digits; lia|done]).
  rewrite take_init, parse_int_unsigned, parse_format_uint by lia. simpl res_bind.
  destruct (Z.ltb_spec (Z.of_nat (length s)) (2 ^ (32 - 1))); [|lia].
  destruct (Z.ltb_spec (Z.of_nat (length s)) 0); [lia|].
  unfold readFull. cbn [r consume]. rewrite length_app.
  destruct (Z.ltb_spec (Z.of_nat (length s + length rest)) (Z.of_nat (length s))); [lia|].
  rewrite Nat2Z.id. destruct (take_drop_app_exact s rest (length s) eq_refl) as [-> ->].
  cbn [raw consume]. rewrite R. rewrite consume_app. unfold str. by rewrite <- app_assoc.
Qed.

Lemma raw_as_str s : Z.of_nat (length s) < 2 ^ 31 -> raw_as (str s).
Proof.
  intros Hs. split; [apply starts_str|]. intros fuel d rest t v R E Hf.
  destruct fuel as [|f]; [lia|]. rewrite decodeInto_raw by done. unfold dispatch.
  destruct (str_head s) as (c & k & Ek & Hc).
  rewrite (peek_app d c k rest) by (by rewrite E, Ek).
  destruct (digit_not_tag c Hc) as (_ & H2 & _). rewrite bool_decide_eq_false_2, Hc by done.
  by apply decodeString_raw.
Qed.

Lemma raw_as_int z : raw_as (int z).
Proof.
  split; [apply starts_int|]. intros fuel d rest t v R E Hf.
  destruct fuel as [|f]; [lia|]. rewrite decodeInto_raw by done. unfold dispatch.
  rewrite (peek_app d "i"%byte (format_int z ++ B "e") rest) by done.
  rewrite bool_decide_eq_true_2 by done. rewrite (decodeInt_read _ _ _ z rest) by done.
  cbv zeta. cbn [raw consume]. by rewrite R.
Qed.

Definition listing (es : list bytes) : bytes := B "l" ++ concat es ++ B "e".
Lemma starts_listing es : starts (listing es).
Proof. by exists "l"%byte, (concat es ++ B "e"). Qed.

Lemma starts_length e : starts e -> (1 <= length e)%nat.
Proof. intros (c & k & -> & _). simpl. lia. Qed.

Lemma rawListLoop_as fuel es d rest :
  Forall raw_as es -> raw d = true -> r d = concat es ++ B "e" ++ rest ->
  (length (concat es) + 2 <= fuel)%nat ->
  rawListLoop fuel d = (consume d (concat es ++ B "e") rest, Done).
Proof.
  intros H. revert fuel d. induction H as [|e es [Hst He] _ IH]; intros fuel d R E Hf.
  - destruct fuel as [|f]; [lia|]. cbn [rawListLoop concat app] in *.
    rewrite (peek_app d "e"%byte [] rest) by done. rewrite bool_decide_eq_true_2 by done.
    by rewrite (readByte_end d rest) by done.
  - destruct fuel as [|f]; [lia|]. cbn [rawListLoop concat] in *. rewrite length_app in Hf.
    pose proof (starts_length e Hst). destruct Hst as (c & k & Ek & Hc).
    rewrite <- app_assoc in E.
    rewrite (peek_app d c k (concat es ++ B "e" ++ rest)) by (by rewrite E, Ek).
    rewrite bool_decide_eq_false_2 by done.
    rewrite (He f d (concat es ++ B "e" ++ rest)) by (done || lia).
    rewrite IH by (done || lia). rewrite (app_assoc (concat es)), consume_app.
    by rewrite <- !app_assoc.
Qed.

Lemma raw_as_list es : Forall raw_as es -> raw_as (listing es).
Proof.
  intros H. split; [apply starts_listing|]. intros fuel d rest t v R E Hf.
  unfold listing in *. rewrite !length_app in Hf. cbn in Hf.
  destruct fuel as [|f]; [lia|]. rewrite decodeInto_raw by done.
  rewrite <- !app_assoc in E. change (B "l" ++ ?x) with ("l"%byte :: x) in *.
  rewrite dispatch_list by (unfold peekByte; by rewrite E).
  unfold decodeList, readByte. rewrite R, E. rewrite bool_decide_eq_true_2 by done. cbn [negb].
  rewrite (rawListLoop_as f es _ rest) by (done || lia). rewrite (app_assoc (concat es)).
  rewrite consume_app. done.
Qed.

(** A type with the method: the method receives exactly the bytes of the value. *)
Lemma dec_as_method m t0 u v0 e v :
  UnmarshalBencode m = Some u -> raw_as e -> u v0 e = (v, Ok tt) -> dec_as (TNamed m t0) v0 e v.
Proof.
  intros Hm [Hst He] Hu. split; [done|]. intros fuel d rest [Hp Hq] E Hf.
  destruct fuel as [|[|f]]; [lia..|].
  set (d1 := mkDecoder (r d) true [] (n d) (failUnordered d)).
  pose proof (He (S f) d1 rest None (VBytes []) eq_refl E ltac:(lia)) as D.
  rewrite decodeInto_raw in D by done.
  cbn [decodeInto indirect]. rewrite Hp, Hm. cbv zeta. fold d1. rewrite D. cbn [wrap buf r n consume d1 raw app]. rewrite Hu.
  eexists. split; [done|]. split; [done|]. done.
Qed.

(** ** Slices *)

Lemma listLoop_as et fuel es vs acc d rest :
  Forall2 (dec_as et (zero et)) es vs -> plain d -> r d = concat es ++ B "e" ++ rest ->
  (3 * length (concat es) + 3 <= fuel)%nat ->
  exists d', listLoop fuel d et true (length acc) acc = (d', acc ++ vs, Done) /\ plain d' /\ r d' = rest.
Proof.
  intros H. revert fuel acc d. induction H as [|e v es vs [Hst He] _ IH]; intros fuel acc d Hp E Hf.
  - destruct fuel as [|f]; [lia|]. cbn [listLoop concat app] in *.
    rewrite (peek_app d "e"%byte [] rest) by done. rewrite bool_decide_eq_true_2 by done.
    rewrite (readByte_end d rest) by done. rewrite app_nil_r.
    eexists. split; [done|]. split; [by apply plain_consume|done].
  - destruct fuel as [|f]; [lia|]. cbn [listLoop concat] in *. rewrite length_app in Hf.
    pose proof (starts_length e Hst). destruct Hst as (c & k & Ek & Hc). rewrite <- app_assoc in E.
    rewrite (peek_app d c k (concat es ++ B "e" ++ rest)) by (by rewrite E, Ek).
    rewrite bool_decide_eq_false_2 by done. rewrite Nat.leb_refl. cbn [andb negb].
    rewrite list_lookup_middle by done. cbn [default id].
    destruct (He f d _ Hp E ltac:(lia)) as (d1 & -> & Hp1 & E1). rewrite insert_snoc.
    replace (S (length acc)) with (length (acc ++ [v])) by (rewrite length_app; simpl; lia).
    destruct (IH f (acc ++ [v]) d1 Hp1 E1 ltac:(lia)) as (d2 & -> & Hp2 & E2).
    exists d2. by rewrite <- app_assoc.
Qed.

Lemma dec_as_slice et es vs :
  Forall2 (dec_as et (zero et)) es vs -> dec_as (TSlice et) (VSlice []) (listing es) (VSlice vs).
Proof.
  intros H. split; [apply starts_listing|]. intros fuel d rest [Hp Hq] E Hf.
  unfold listing in *. rewrite !length_app in Hf. cbn in Hf.
  destruct fuel as [|f]; [lia|]. rewrite <- !app_assoc in E.
  change (B "l" ++ ?x) with ("l"%byte :: x) in *.
  cbn [decodeInto indirect]. rewrite Hp. cbv zeta.
  rewrite dispatch_list by (unfold peekByte; by rewrite E).
  unfold decodeList, readByte. rewrite Hp, E. cbn [seq_view]. cbv beta iota.
  rewrite bool_decide_eq_true_2 by done. cbn [negb].
  destruct (listLoop_as et f es vs [] (consume d ["l"%byte] (concat es ++ B "e" ++ rest)) rest H)
    as (d1 & L & Hp1 & E1); [by apply plain_consume|done|lia|].
  cbn [length] in L. rewrite L. by exists d1.
Qed.

(** ** Structs *)

Definition keyed (ke : bytes * bytes) : bytes := str ke.1 ++ ke.2.
Definition dictionary (kes : list (bytes * bytes)) : bytes := B "d" ++ concat (map keyed kes) ++ B "e".

(** [fills vals vs kes vs']: the entries [kes] take the fields from [vs] to [vs']. *)
Inductive fills (vals : list (bytes * (list nat * gtype))) :
    list gval -> list (bytes * bytes) -> list gval -> Prop :=
  | fills_nil vs : fills vals vs [] vs
  | fills_cons vs k e i ft w0 w kes vs' :
      Z.of_nat (length k) < 2 ^ 31 -> assoc k vals = Some ([i], ft) ->
      vs !! i = Some w0 -> dec_as ft w0 e w -> fills vals (<[i := w]> vs) kes vs' ->
      fills vals vs ((k, e) :: kes) vs'.

Lemma dictLoop_fills vals vs kes vs' fuel d rest last :
  fills vals vs kes vs' -> plain d -> r d = concat (map keyed kes) ++ B "e" ++ rest ->
  (3 * length (concat (map keyed kes)) + 3 <= fuel)%nat ->
  exists d', dictLoop fuel d (DStruct vals (VStruct vs)) last = (d', DStruct vals (VStruct vs'), Done) /\
    plain d' /\ r d' = rest.
Proof.
  intros H. revert fuel d last.
  induction H as [vs|vs k e i ft w0 w kes vs' Hk Ha Hi [Hst He] _ IH]; intros fuel d last Hp E Hf.
  - destruct fuel as [|f]; [lia|]. cbn [dictLoop map concat app] in *.
    rewrite (peek_app d "e"%byte [] rest) by done. rewrite bool_decide_eq_true_2 by done.
    rewrite (readByte_end d rest) by done.
    eexists. split; [done|]. split; [by apply plain_consume|done].
  - destruct fuel as [|f]; [lia|]. cbn [map concat] in *.
    change (keyed (k, e)) with (str k ++ e) in *. rewrite !length_app in Hf.
    pose proof (starts_length e Hst). destruct (str_head k) as (c & l & Ek & Hc).
    apply digit_not_tag in Hc as [Hc _]. rewrite <- !app_assoc in E. cbn [dictLoop].
    rewrite (peek_app d c l (e ++ concat (map keyed kes) ++ B "e" ++ rest)) by (by rewrite E, Ek).
    rewrite bool_decide_eq_false_2 by done.
    rewrite (decodeString_enc d (Some TString) (VString []) k _ Hk (proj1 Hp) E).
    set (d1 := consume d (str k) _). assert (plain d1) as Hp1 by (by apply plain_consume).
    rewrite (proj2 Hp1). cbn [andb]. rewrite Ha. cbn [field_get]. rewrite Hi.
    destruct (He f d1 (concat (map keyed kes) ++ B "e" ++ rest) Hp1 eq_refl ltac:(lia))
      as (d2 & -> & Hp2 & E2).
    cbn [field_set]. rewrite Hi. apply IH; [done|done|lia].
Qed.

Lemma dec_as_struct fs vs kes vs' :
  fills (setStructValues [] [] (TStruct fs)) vs kes vs' ->
  dec_as (TStruct fs) (VStruct vs) (dictionary kes) (VStruct vs').
Proof.
  intros H. split; [by exists "d"%byte, (concat (map keyed kes) ++ B "e")|].
  intros fuel d rest Hp E Hf. unfold dictionary in *. rewrite !length_app in Hf. cbn in Hf.
  destruct fuel as [|f]; [lia|]. rewrite <- !app_assoc in E.
  change (B "d" ++ ?x) with ("d"%byte :: x) in *.
  cbn [decodeInto indirect]. rewrite (proj1 Hp). cbv zeta.
  rewrite dispatch_dict by (unfold peekByte; by rewrite E).
  unfold decodeDict, readByte. rewrite E. cbv beta iota.
  rewrite bool_decide_eq_true_2 by done. cbn [negb raw consume]. rewrite (proj1 Hp).
  destruct (dictLoop_fills _ vs kes vs' f (consume d ["d"%byte] (concat (map keyed kes) ++ B "e" ++ rest))
              rest None H) as (d1 & L & Hp1 & E1); [by apply plain_consume|done|lia|].
  rewrite L. cbn [dict_val wrap]. by exists d1.
Qed.

(** ** Maps *)

(** The keys of a map: strings, or values the type of the keys makes of strings. *)
Definition keyer_ok (keyer : option (bytes -> res bytes)) (k : bytes) : Prop :=
  match keyer with None => Ok k | Some f => f k end = Ok k.

Lemma dictLoop_keyed keyer et kes kvs acc fuel d rest last :
  Forall2 (fun ke kv => ke.1 = kv.1 /\ Z.of_nat (length ke.1) < 2 ^ 31 /\ keyer_ok keyer ke.1 /\
             dec_as et (zero et) ke.2 kv.2) kes kvs ->
  NoDup (map fst acc ++ map fst kvs) -> plain d -> r d = concat (map keyed kes) ++ B "e" ++ rest ->
  (3 * length (concat (map keyed kes)) + 3 <= fuel)%nat ->
  exists d', dictLoop fuel d (DMap keyer et acc) last = (d', DMap keyer et (acc ++ kvs), Done) /\
    plain d' /\ r d' = rest.
Proof.
  intros H. revert fuel acc d last.
  induction H as [|[k e] [k' w] kes kvs (Ek' & Hk & Hkey & Hst & He) _ IH]; intros fuel acc d last Hnd Hp E Hf.
  - destruct fuel as [|f]; [lia|]. cbn [dictLoop map concat app] in *.
    rewrite (peek_app d "e"%byte [] rest) by done. rewrite bool_decide_eq_true_2 by done.
    rewrite (readByte_end d rest) by done. rewrite app_nil_r.
    eexists. split; [done|]. split; [by apply plain_consume|done].
  - cbn [fst snd] in *. subst k'. destruct fuel as [|f]; [lia|]. cbn [map concat fst] in *.
    change (keyed (k, e)) with (str k ++ e) in *. rewrite !length_app in Hf.
    pose proof (starts_length e Hst). destruct (str_head k) as (c & l & Ek & Hc).
    apply digit_not_tag in Hc as [Hc _]. rewrite <- !app_assoc in E. cbn [dictLoop].
    rewrite (peek_app d c l (e ++ concat (map keyed kes) ++ B "e" ++ rest)) by (by rewrite E, Ek).
    rewrite bool_decide_eq_false_2 by done.
    rewrite (decodeString_enc d (Some TString) (VString []) k _ Hk (proj1 Hp) E).
    set (d1 := consume d (str k) _). assert (plain d1) as Hp1 by (by apply plain_consume).
    rewrite (proj2 Hp1). cbn [andb]. cbn [fst] in Hkey. unfold keyer_ok in Hkey. rewrite Hkey.
    destruct (He f d1 (concat (map keyed kes) ++ B "e" ++ rest) Hp1 eq_refl ltac:(lia))
      as (d2 & -> & Hp2 & E2).
    rewrite setMapIndex_fresh by (intros Hin; apply NoDup_app in Hnd as (_ & Hnd & _); by apply (Hnd k Hin); left).
    destruct (IH f (acc ++ [(k, w)]) d2 (Some k)) as (d3 & -> & Hp3 & E3);
      [by rewrite map_app, <- app_assoc|done|done|lia|].
    exists d3. by rewrite <- app_assoc.
Qed.

Lemma dictLoop_map et kes kvs acc fuel d rest last :
  Forall2 (fun ke kv => ke.1 = kv.1 /\ Z.of_nat (length ke.1) < 2 ^ 31 /\ dec_as et (zero et) ke.2 kv.2)
    kes kvs ->
  NoDup (map fst acc ++ map fst kvs) -> plain d -> r d = concat (map keyed kes) ++ B "e" ++ rest ->
  (3 * length (concat (map keyed kes)) + 3 <= fuel)%nat ->
  exists d', dictLoop fuel d (DMap None et acc) last = (d', DMap None et (acc ++ kvs), Done) /\
    plain d' /\ r d' = rest.
Proof.
  intros H. apply dictLoop_keyed. eapply Forall2_impl; [exact H|]. by intros ke kv (? & ? & ?).
Qed.

Lemma dec_as_keyed keyer et kes kvs :
  Forall2 (fun ke kv => ke.1 = kv.1 /\ Z.of_nat (length ke.1) < 2 ^ 31 /\ keyer_ok keyer ke.1 /\
             dec_as et (zero et) ke.2 kv.2) kes kvs ->
  NoDup (map fst kvs) -> dec_as (TMap keyer et) (VMap []) (dictionary kes) (VMap kvs).
Proof.
  intros H Hnd. split; [by exists "d"%byte, (concat (map keyed kes) ++ B "e")|].
  intros fuel d rest Hp E Hf. unfold dictionary in *. rewrite !length_app in Hf. cbn in Hf.
  destruct fuel as [|f]; [lia|]. rewrite <- !app_assoc in E.
  change (B "d" ++ ?x) with ("d"%byte :: x) in *.
  cbn [decodeInto indirect]. rewrite (proj1 Hp). cbv zeta.
  rewrite dispatch_dict by (unfold peekByte; by rewrite E).
  unfold decodeDict, readByte. rewrite E. cbv beta iota.
  rewrite bool_decide_eq_true_2 by done. cbn [negb raw consume]. rewrite (proj1 Hp).
  destruct (dictLoop_keyed keyer et kes kvs [] f (consume d ["d"%byte] (concat (map keyed kes) ++ B "e" ++ rest))
              rest None H) as (d1 & L & Hp1 & E1); [done|by apply plain_consume|done|lia|].
  rewrite L. cbn [dict_val wrap app]. by exists d1.
Qed.

Lemma dec_as_map et kes kvs :
  Forall2 (fun ke kv => ke.1 = kv.1 /\ Z.of_nat (length ke.1) < 2 ^ 31 /\ dec_as et (zero et) ke.2 kv.2)
    kes kvs ->
  NoDup (map fst kvs) -> dec_as (TMap None et) (VMap []) (dictionary kes) (VMap kvs).
Proof.
  intros H. apply dec_as_keyed. eapply Forall2_impl; [exact H|]. by intros ke kv (? & ? & ?).
Qed.

(** ** Text methods and pointers *)

Lemma dec_as_text m t0 u v0 s v :
  UnmarshalBencode m = None -> UnmarshalText m = Some u -> Z.of_nat (length s) < 2 ^ 31 ->
  u v0 s = (v, Ok tt) -> dec_as (TNamed m t0) v0 (str s) v.
Proof.
  intros Hb Hm Hs Hu. split; [apply starts_str|]. intros fuel d rest Hp E Hf.
  destruct fuel as [|f]; [lia|]. cbn [decodeInto indirect]. rewrite (proj1 Hp), Hb, Hm. cbv zeta.
  rewrite (decodeString_enc d (Some TBytes) (VBytes []) s rest Hs (proj1 Hp) E). rewrite Hu.
  eexists. split; [done|]. split; [by apply plain_consume|done].
Qed.

Lemma dec_as_ptr fs v0 e v :
  dec_as (TStruct fs) v0 e v -> dec_as (TPtr (TStruct fs)) (VPtr (Some v0)) e (VPtr (Some v)).
Proof.
  intros [Hst He]. split; [done|]. intros fuel d rest Hp E Hf.
  destruct (He fuel d rest Hp E Hf) as (d' & D & Hp' & E'). exists d'. split; [|done].
  destruct fuel as [|f]; [lia|]. cbn [decodeInto indirect add_layer] in *.
  rewrite (proj1 Hp) in *. cbv zeta in *. destruct (dispatch _ _ _ _ d _ v0) as [[d1 w] o].
  by injection D as -> -> ->.
Qed.

(** What [Decode] does with a whole input, and how much of it it reads. *)
Lemma Decode_as t v0 e v rest :
  dec_as t v0 e v ->
  exists d', Decode (NewDecoder (e ++ rest)) t v0 = (d', v, Done) /\ BytesParsed d' = Z.of_nat (length e).
Proof.
  intros [_ He].
  destruct (He (3 * length (r (NewDecoder (e ++ rest))) + 5)%nat (NewDecoder (e ++ rest)) rest)
    as (d' & D & Hp & E); [done|done|simpl; rewrite length_app; lia|].
  exists d'. split; [exact D|]. apply Decode_spec in D as ((p & Er & En & _) & _).
  cbn [r n NewDecoder] in *. rewrite E in Er. apply (f_equal length) in Er.
  rewrite !length_app in Er. unfold BytesParsed. lia.
Qed.

Lemma DecodeBytes_as t v0 e v : dec_as t v0 e v -> DecodeBytes e t v0 = (v, Done).
Proof.
  intros [_ He]. unfold DecodeBytes, Decode.
  destruct (He (3 * length (r (NewDecoder e)) + 5)%nat (NewDecoder e) []) as (d' & -> & _);
    [done|by rewrite app_nil_r|simpl; lia|done].
Qed.

(** ** The encoder *)

Definition enc_as (t : gtype) (v : gval) (e : bytes) : Prop :=
  forall fuel, (depth v < fuel)%nat -> encodeValue fuel t v = (e, Done).

Lemma EncodeBytes_as t v e : enc_as t v e -> EncodeBytes t v = Ok e.
Proof. intros H. unfold EncodeBytes. by rewrite H by lia. Qed.

Lemma enc_as_string s : enc_as TString (VString s) (str s).
Proof. intros [|f] Hf; [simpl in Hf; lia|done]. Qed.
Lemma enc_as_uint bits z : enc_as (TUint bits) (VUint z) (int z).
Proof. intros [|f] Hf; [simpl in Hf; lia|done]. Qed.
Lemma enc_as_bool b : enc_as TBool (VBool b) (int (if b : bool then 1 else 0)).
Proof. intros [|f] Hf; [simpl in Hf; lia|done]. Qed.
Lemma enc_as_method m t f v e : MarshalBencode m = Some f -> f v = Ok e -> enc_as (TNamed m t) v e.
Proof.
  intros Hm He [|fuel] Hf; [lia|]. cbn [encodeValue indirectEncodeValue]. rewrite Hm. cbv zeta. by rewrite He.
Qed.

Lemma enc_as_slice et es vs :
  Forall2 (fun e v => enc_as et v e) es vs -> enc_as (TSlice et) (VSlice vs) (listing es).
Proof.
  intros H [|f] Hf; [lia|]. cbn [encodeValue indirectEncodeValue]. cbv zeta.
  assert (foldr (fun x acc => encodeValue f et x ;;; acc) (write []) vs = (concat es, Done)) as ->; [|done].
  induction H as [|e v es vs He _ IH]; [done|]. cbn [foldr concat]. simpl depth in Hf.
  rewrite He by lia. rewrite IH by (simpl; lia). done.
Qed.

(** The entries of a struct, sorted, with their encodings. *)
Definition entry_as (f : nat) (x : definition) (ke : bytes * bytes) : Prop :=
  x.1 = ke.1 /\ encodeValue f x.2.1 x.2.2 = (ke.2, Done).

Lemma enc_as_struct fs v kes fuel :
  Forall2 (entry_as fuel) (sort_by_key (readStruct (TStruct fs) v)) kes ->
  encodeValue (S fuel) (TStruct fs) v = (dictionary kes, Done).
Proof.
  intros H. cbn [encodeValue indirectEncodeValue]. cbv zeta.
  assert (foldr (fun kv acc => encString kv.1 ;;; encodeValue fuel kv.2.1 kv.2.2 ;;; acc) (write [])
            (sort_by_key (readStruct (TStruct fs) v)) = (concat (map keyed kes), Done)) as ->; [|done].
  induction H as [|[k [t w]] [k' e] xs kes [E1 E2] _ IH]; [done|]. cbn [foldr map concat fst snd] in *.
  subst k'. rewrite E2, IH. unfold encString, write, wseq, keyed. cbn [fst snd].
  change (format_uint 10 (Z.of_nat (length k)) ++ B ":" ++ k) with (str k). by rewrite <- app_assoc.
Qed.

(** A map with string keys. *)
Lemma enc_as_map et m kes :
  Forall2 (fun kv ke => kv.1 = ke.1 /\ isNilValue kv.2 = false /\ enc_as et kv.2 ke.2)
    (sort_by_key m) kes ->
  enc_as (TMap None et) (VMap m) (dictionary kes).
Proof.
  intros H [|f] Hf; [lia|]. cbn [encodeValue indirectEncodeValue]. cbv zeta.
  assert (forall kv, kv ∈ sort_by_key m -> (depth kv.2 < f)%nat) as Hd.
  { intros [k v] Hin. rewrite sort_by_key_perm in Hin. apply depth_entry in Hin. simpl in *. lia. }
  assert (foldr (fun kv acc => if isNilValue kv.2 then acc
                 else encString kv.1 ;;; encodeValue f et kv.2 ;;; acc) (write []) (sort_by_key m)
          = (concat (map keyed kes), Done)) as ->; [|done].
  clear Hf. induction H as [|[k w] [k' e] xs kes (E1 & E2 & E3) _ IH]; [done|].
  cbn [foldr map concat fst snd] in *. subst k'.
  rewrite E2, E3 by (by apply (Hd (k, w)); left). rewrite IH by (intros; apply Hd; by right).
  unfold encString, write, wseq, keyed. cbn [fst snd].
  change (format_uint 10 (Z.of_nat (length k)) ++ B ":" ++ k) with (str k). by rewrite <- app_assoc.
Qed.

(** A map whose keys are not strings is written in the order of iteration. *)
Lemma enc_as_keyed f et m kes :
  Forall2 (fun kv ke => kv.1 = ke.1 /\ isNilValue kv.2 = false /\ enc_as et kv.2 ke.2) m kes ->
  enc_as (TMap (Some f) et) (VMap m) (dictionary kes).
Proof.
  intros H [|fuel] Hf; [lia|]. cbn [encodeValue indirectEncodeValue]. cbv zeta.
  assert (foldr (fun kv acc => if isNilValue (snd kv) then acc
                 else encString (fst kv) ;;; encodeValue fuel et (snd kv) ;;; acc) (write []) m
          = (concat (map keyed kes), Done)) as ->; [|done].
  cbn [depth] in Hf. induction H as [|[k v] [k' e] m kes (Ek & Hn & He) _ IH]; [done|].
  cbn [foldr fst snd] in *. rewrite Hn, He, IH by lia. subst k'. unfold keyed at 2. cbn [fst snd map concat].
  unfold encString, write, str, wseq. by rewrite <- !app_assoc.
Qed.

Lemma enc_as_text m t f v s :
  MarshalBencode m = None -> MarshalText m = Some f -> f v = Ok s -> enc_as (TNamed m t) v (str s).
Proof.
  intros Hb Hm He [|fuel] Hf; [lia|]. cbn [encodeValue indirectEncodeValue]. rewrite Hb, Hm. cbv zeta.
  by rewrite He.
Qed.
Lemma enc_as_int bits z : enc_as (TInt bits) (VInt z) (int z).
Proof. intros [|f] Hf; [simpl in Hf; lia|done]. Qed.

(** ** Optional entries *)

Definition opt {A} (skip : bool) (x : A) : list A := if skip then [] else [x].

Lemma Forall2_opt {A C} (R : A -> C -> Prop) skip x y xs ys :
  (skip = false -> R x y) -> Forall2 R xs ys -> Forall2 R (opt skip x ++ xs) (opt skip y ++ ys).
Proof. intros H Hs. destruct skip; [done|]. constructor; [by apply H|done]. Qed.

Lemma entry_enc f k t v e : enc_as t v e -> (depth v < f)%nat -> entry_as f (k, (t, v)) (k, e).
Proof. intros H Hd. split; [done|]. by apply H. Qed.

(** An omitted entry leaves the field at its zero value, which is the value it has. *)
Lemma fills_opt vals vs skip k e i ft w0 w kes vs' :
  Z.of_nat (length k) < 2 ^ 31 -> assoc k vals = Some ([i], ft) -> vs !! i = Some w0 ->
  (skip = false -> dec_as ft w0 e w) -> (skip = true -> w = w0) ->
  fills vals (<[i := w]> vs) kes vs' -> fills vals vs (opt skip (k, e) ++ kes) vs'.
Proof.
  intros Hk Ha Hi Hd Hw H. destruct skip; [|by eapply fills_cons; eauto].
  rewrite Hw, list_insert_id in H by done. done.
Qed.
Lemma fills_done vals vs vs' : vs = vs' -> fills vals vs [] vs'.
Proof. intros ->. constructor. Qed.

Ltac fill := first [eapply fills_opt; [reflexivity|reflexivity|reflexivity|intros ?|intros ?|]
                   |eapply fills_cons; [reflexivity|reflexivity|reflexivity| |]
                   |apply fills_done].

(** Leaves what each field encodes to, once its depth is seen to be within the fuel. *)
Ltac entries :=
  repeat first [apply Forall2_opt; [intros ?|]|apply Forall2_cons; split|apply Forall2_nil_2; fail];
  try done; (apply entry_enc; [|cbn [depth]; lia]).

(** A value that is left out is the zero value. *)
Ltac omitted :=
  repeat match goal with
  | H : negb ?b = true |- _ => destruct b; [discriminate H|clear H]
  | H : (?z =? 0) = true |- _ => apply Z.eqb_eq in H; rewrite H
  | H : (length ?l =? 0)%nat = true |- _ => destruct l; [clear H|discriminate H]
  end; reflexivity.

Definition short (s : bytes) : Prop := Z.of_nat (length s) < 2 ^ 31.

(** ** Types with both bencode methods *)

Lemma bencodeT_enc {A} (get : gval -> A) put t u (m : A -> res bytes) v e :
  m (get v) = Ok e -> enc_as (bencodeT get put t u m) v e.
Proof. intros H. by eapply enc_as_method. Qed.

Lemma bencodeT_dec {A} (get : gval -> A) put t (u : A -> bytes -> recv A) m v0 e a :
  raw_as e -> u (get v0) e = (a, Done) -> dec_as (bencodeT get put t u m) v0 e (put a).
Proof. intros He Hu. eapply dec_as_method; [done|done|]. cbv beta. by rewrite Hu. Qed.

(** ** The lists of strings *)

Lemma strings_enc l : enc_as (TSlice TString) (VSlice (map VString l)) (listing (map str l)).
Proof.
  apply enc_as_slice. induction l as [|s l IH]; constructor; [apply enc_as_string|done].
Qed.
Lemma strings_dec l :
  Forall short l ->
  dec_as (TSlice TString) (VSlice []) (listing (map str l)) (VSlice (map VString l)).
Proof.
  intros H. apply dec_as_slice. induction H; constructor; [by apply dec_as_string|done].
Qed.
