(* ===== verification/BencodeIface.v ===== *)
(** * Values behind [interface{}] and raw messages

    How strings, integers, lists and dictionaries are read into an [interface{}] and written
    out of one, and the same for [RawMessage] fields; the lemmas continue [BencodeStruct]. *)

From S2P Require Import Prelude GoBytes Bencode BencodeFacts BencodeRoundtrip Codec BencodeStruct.

(** ** Dictionaries in raw mode *)

Lemma rawDictLoop_as fuel kes d rest :
  Forall (fun ke => short ke.1 /\ raw_as ke.2) kes -> raw d = true ->
  r d = concat (map keyed kes) ++ B "e" ++ rest -> (length (concat (map keyed kes)) + 2 <= fuel)%nat ->
  rawDictLoop fuel d = (consume d (concat (map keyed kes) ++ B "e") rest, Done).
Proof.
  intros H. revert fuel d. induction H as [|[k e] kes (Hk & Hst & He) _ IH]; intros fuel d R E Hf.
  - destruct fuel as [|f]; [lia|]. cbn [rawDictLoop map concat app] in *.
    rewrite (peek_app d "e"%byte [] rest) by done. rewrite bool_decide_eq_true_2 by done.
    by rewrite (readByte_end d rest).
  - destruct fuel as [|f]; [lia|]. cbn [map concat fst snd] in *.
    change (keyed (k, e)) with (str k ++ e) in *. rewrite !length_app in Hf.
    pose proof (starts_length e Hst). destruct (str_head k) as (c & l & Ek & Hc).
    apply digit_not_tag in Hc as [Hc _]. rewrite <- !app_assoc in E. cbn [rawDictLoop].
    rewrite (peek_app d c l (e ++ concat (map keyed kes) ++ B "e" ++ rest)) by (by rewrite E, Ek).
    rewrite bool_decide_eq_false_2 by done. rewrite (decodeString_raw d None VOther k _ Hk R E).
    assert (1 <= length (str k))%nat by (rewrite Ek; simpl; lia).
    rewrite (He f _ (concat (map keyed kes) ++ B "e" ++ rest)) by (done || lia).
    rewrite IH by (done || lia). rewrite consume_app.
    rewrite (app_assoc (concat (map keyed kes)) (B "e") rest), consume_app. by rewrite <- !app_assoc.
Qed.

Lemma raw_as_dict kes : Forall (fun ke => short ke.1 /\ raw_as ke.2) kes -> raw_as (dictionary kes).
Proof.
  intros H. split; [by exists "d"%byte, (concat (map keyed kes) ++ B "e")|]. intros fuel d rest t v R E Hf.
  unfold dictionary in *. rewrite !length_app in Hf. cbn in Hf.
  destruct fuel as [|f]; [lia|]. rewrite decodeInto_raw by done. rewrite <- !app_assoc in E.
  change (B "d" ++ ?x) with ("d"%byte :: x) in *.
  rewrite dispatch_dict by (unfold peekByte; by rewrite E).
  unfold decodeDict, readByte. rewrite E. cbv beta iota.
  rewrite bool_decide_eq_true_2 by done. cbn [negb raw consume]. rewrite R.
  set (d1 := consume d ["d"%byte] (concat (map keyed kes) ++ B "e" ++ rest)).
  change (mkDecoder _ _ _ _ _) with d1.
  rewrite (rawDictLoop_as f kes d1 rest) by (done || lia). unfold d1.
  rewrite app_assoc, consume_app. done.
Qed.

(** ** [RawMessage] *)

Lemma dec_as_raw v0 e : raw_as e -> dec_as TRaw v0 e (VBytes e).
Proof.
  intros [Hst He]. split; [done|]. intros fuel d rest [Hp Hq] E Hf.
  destruct fuel as [|f]; [lia|].
  set (d1 := mkDecoder (r d) true [] (n d) (failUnordered d)).
  pose proof (He (S f) d1 rest None v0 eq_refl E ltac:(lia)) as D.
  rewrite decodeInto_raw in D by done. cbn [decodeInto indirect]. rewrite Hp. cbv zeta. fold d1.
  rewrite D. cbn [wrap buf r n consume d1 raw app failUnordered]. eexists. split; [done|]. by split.
Qed.

Lemma enc_as_raw e : enc_as TRaw (VBytes e) e.
Proof. intros [|f] Hf; [simpl in Hf; lia|done]. Qed.

(** ** Reading into an [interface{}] *)

Definition iface (v : gval) : gval := VIface (Some v).

Lemma iface_string v0 s : short s -> dec_as TIface v0 (str s) (iface (VString s)).
Proof.
  intros Hs. split; [apply starts_str|]. intros fuel d rest Hp E Hf.
  destruct fuel as [|f]; [lia|]. exists (consume d (str s) rest).
  split; [|split; [by apply plain_consume|done]]. cbn [decodeInto indirect]. rewrite (proj1 Hp). cbv zeta.
  destruct (str_head s) as (c & l & Ec & Hc). destruct (digit_not_tag c Hc) as (_ & Hi & _).
  unfold dispatch. rewrite (peek_app d c l rest) by (by rewrite E, Ec).
  rewrite bool_decide_eq_false_2, Hc by done.
  by rewrite (decodeString_enc d (Some TIface) v0 s rest Hs (proj1 Hp) E).
Qed.

Lemma iface_int v0 z : is_i64 z -> dec_as TIface v0 (int z) (iface (VInt z)).
Proof.
  intros Hz. split; [apply starts_int|]. intros fuel d rest Hp E Hf.
  destruct fuel as [|f]; [lia|]. exists (consume d (int z) rest).
  split; [|split; [by apply plain_consume|done]].
  apply dec_int_step; [done..|]. intros d' _. cbv zeta. unfold is_i64 in Hz. by rewrite parse_format_int by lia.
Qed.

Lemma iface_list v0 es vs :
  Forall2 (dec_as TIface (VIface None)) es vs -> dec_as TIface v0 (listing es) (iface (VSlice vs)).
Proof.
  intros H. split; [apply starts_listing|]. intros fuel d rest [Hp Hq] E Hf.
  unfold listing in *. rewrite !length_app in Hf. cbn in Hf.
  destruct fuel as [|f]; [lia|]. rewrite <- !app_assoc in E.
  change (B "l" ++ ?x) with ("l"%byte :: x) in *.
  cbn [decodeInto indirect]. rewrite Hp. cbv zeta.
  rewrite dispatch_list by (unfold peekByte; by rewrite E).
  unfold decodeList, readByte. rewrite Hp, E. cbv beta iota.
  rewrite bool_decide_eq_true_2 by done. cbn [negb].
  destruct (listLoop_as TIface f es vs [] (consume d ["l"%byte] (concat es ++ B "e" ++ rest)) rest H)
    as (d1 & L & Hp1 & E1); [by apply plain_consume|done|lia|].
  cbn [length app] in L. rewrite L. by exists d1.
Qed.

Lemma iface_dict v0 kes kvs :
  Forall2 (fun ke kv => ke.1 = kv.1 /\ short ke.1 /\ dec_as TIface (VIface None) ke.2 kv.2) kes kvs ->
  NoDup (map fst kvs) -> dec_as TIface v0 (dictionary kes) (iface (VMap kvs)).
Proof.
  intros H Hnd. split; [by exists "d"%byte, (concat (map keyed kes) ++ B "e")|].
  intros fuel d rest Hp E Hf. unfold dictionary in *. rewrite !length_app in Hf. cbn in Hf.
  destruct fuel as [|f]; [lia|]. rewrite <- !app_assoc in E.
  change (B "d" ++ ?x) with ("d"%byte :: x) in *.
  cbn [decodeInto indirect]. rewrite (proj1 Hp). cbv zeta.
  rewrite dispatch_dict by (unfold peekByte; by rewrite E).
  unfold decodeDict, readByte. rewrite E. cbv beta iota.
  rewrite bool_decide_eq_true_2 by done. cbn [negb raw consume]. rewrite (proj1 Hp).
  destruct (dictLoop_map TIface kes kvs [] f (consume d ["d"%byte] (concat (map keyed kes) ++ B "e" ++ rest))
              rest None H) as (d1 & L & Hp1 & E1); [done|by apply plain_consume|done|lia|].
  rewrite L. cbn [dict_val wrap app]. by exists d1.
Qed.

(** ** Writing what is in an [interface{}] *)

Lemma enc_iface t w e :
  dynType w = t -> (match t with TPtr _ | TNamed _ _ | TIface => False | _ => True end) ->
  enc_as t w e -> enc_as TIface (iface w) e.
Proof.
  intros Ht Hk H [|f] Hf; [lia|]. unfold iface in *. cbn [depth] in Hf.
  specialize (H (S f) ltac:(lia)). rewrite <- H. cbn [encodeValue indirectEncodeValue]. rewrite Ht.
  destruct t; done.
Qed.
