(* ===== verification/BencodeTyped.v ===== *)
(** * The decoder keeps types

    [stays L t P]: whatever at most [L] bytes are decoded into a variable of type [t], if its value
    satisfies [P], it does afterwards, also when decoding fails half way, and decoding does not panic.
    Types are read semantically, as the sets of values [P]; the rules follow the type, so that an
    invariant of a message comes from the invariants of its fields.  The number of bytes is there for
    invariants that bound the size of what is decoded. *)

From S2P Require Import Prelude GoBytes Bencode BencodeFacts Codec.

Lemma decodeInto_raw_kept fuel d t v d' v' o : decodeInto fuel d t v = (d', v', o) -> raw d' = raw d.
Proof. intros E. destruct (all_spec_holds fuel) as [H _]. apply H in E as [(A & _) _]. by apply adv_raw. Qed.

Lemma decodeString_raw_kept d t v d' v' o : decodeString d t v = (d', v', o) -> raw d' = raw d.
Proof. intros E. apply (decodeString_spec 0 0) in E as (A & _). by apply adv_raw. Qed.

Lemma readByte_raw_kept d d' c e : readByte d = (d', c, e) -> raw d' = raw d.
Proof. unfold readByte. destruct (r d); by intros [= <- _ _]. Qed.

(** ** Decoders that store, with at most [L] bytes to read *)

Section Stays.
Variable L : nat.

Definition ready (d : Decoder) : Prop := raw d = false /\ (length (r d) <= L)%nat.

Lemma adv_ready d d' : adv d d' -> ready d -> ready d'.
Proof. intros A [R H]. pose proof (adv_length _ _ A). split; [by rewrite (adv_raw _ _ A)|lia]. Qed.
Lemma decodeInto_ready fuel d t v d' v' o : decodeInto fuel d t v = (d', v', o) -> ready d -> ready d'.
Proof. intros E. destruct (all_spec_holds fuel) as [H _]. apply H in E as [(A & _) _]. by apply adv_ready. Qed.
Lemma decodeString_ready d t v d' v' o : decodeString d t v = (d', v', o) -> ready d -> ready d'.
Proof. intros E. apply (decodeString_spec 0 0) in E as (A & _). by apply adv_ready. Qed.

Definition stays_at (fuel : nat) (t : gtype) (P : gval -> Prop) : Prop :=
  forall d v d' v' o,
    ready d -> decodeInto fuel d (Some t) v = (d', v', o) -> P v -> P v' /\ o <> Panicked.
Definition stays (t : gtype) (P : gval -> Prop) : Prop := forall fuel, stays_at fuel t P.

(** ** Scalars *)

(** What [decodeInt] and [decodeString] can store. *)
Definition stored_int (t : gtype) (v : gval) : Prop :=
  match t with
  | TInt bits => exists z, v = VInt (truncInt bits z)
  | TUint bits => exists z, v = VUint (truncUint bits z)
  | TBool => exists b, v = VBool b
  | TIface => exists z, v = VIface (Some (VInt z))
  | _ => False
  end.
Definition stored_string (t : gtype) (v : gval) : Prop :=
  match t with
  | TBytes => exists s, v = VBytes s /\ (length s <= L)%nat
  | TString => exists s, v = VString s
  | TIface => exists s, v = VIface (Some (VString s))
  | _ => False
  end.

Lemma of_err_calm e : of_err e <> Panicked.
Proof. by destruct e. Qed.
Lemma of_ret_calm p : p <> Panic -> of_ret p <> Panicked.
Proof. by destruct p. Qed.
Lemma parse_uint_calm bits s : parse_uint bits s <> Panic.
Proof. unfold parse_uint. repeat case_match; done. Qed.
Lemma parse_int_calm bits s : parse_int bits s <> Panic.
Proof.
  unfold parse_int. match goal with |- (let '(_, _) := ?x in _) <> _ => destruct x as [neg ds] end.
  pose proof (parse_uint_calm 64 ds). destruct (parse_uint 64 ds); cbn [res_bind]; [|done..].
  repeat case_match; done.
Qed.

Lemma decodeInt_stores d t v d' v' o :
  peekByte d = Some "i"%byte -> decodeInt d t v = (d', v', o) ->
  o <> Panicked /\ (v' = v \/ exists ty, t = Some ty /\ stored_int ty v').
Proof.
  unfold peekByte, decodeInt, readByte. destruct (r d) as [|b rest]; [done|]. intros [= ->].
  rewrite bool_decide_eq_true_2 by done. cbn [negb].
  destruct (readBytes _ _) as [[d2 line] [e|]]; [intros [= <- <- <-]; auto|].
  destruct (raw d2); [intros [= <- <- <-]; auto|].
  destruct t as [[]|]; try (intros [= <- <- <-]; by auto);
    pose proof (parse_int_calm 64 (take (length line - 1) line));
    pose proof (parse_uint_calm 64 (take (length line - 1) line));
    destruct (parse_int _ _), (parse_uint _ _); try done;
    intros [= <- <- <-]; (split; [done|]); (by left) || (right; eexists; split; [done|]; by eexists).
Qed.

Lemma decodeString_calm d t v d' v' o : decodeString d t v = (d', v', o) -> o <> Panicked.
Proof.
  unfold decodeString. destruct (readBytes d _) as [[d1 line] [e|]]; [by intros [= <- <- <-]|].
  pose proof (parse_int_calm 32 (take (length line - 1) line)).
  destruct (parse_int 32 _); [|by intros [= <- <- <-]|done].
  destruct (_ <? 0); [by intros [= <- <- <-]|].
  destruct (readFull _ _) as [[d2 s] [e|]]; [by intros [= <- <- <-]|].
  destruct (raw d2); [by intros [= <- <- <-]|]. destruct t as [[]|]; by intros [= <- <- <-].
Qed.
Lemma decodeString_stores d t v d' v' o :
  ready d -> decodeString d t v = (d', v', o) -> v' = v \/ exists ty, t = Some ty /\ stored_string ty v'.
Proof.
  intros [R HL]. unfold decodeString.
  destruct (readBytes d _) as [[d1 line] [e|]] eqn:E1; [intros [= <- <- <-]; auto|].
  apply readBytes_spec in E1 as [A1 _]. apply adv_length in A1.
  destruct (parse_int 32 _) as [l| |]; [|intros [= <- <- <-]; by auto..].
  destruct (_ <? 0); [intros [= <- <- <-]; by auto|].
  destruct (readFull _ _) as [[d2 s] [e|]] eqn:E2; [intros [= <- <- <-]; by auto|].
  assert (length s <= L)%nat as Hs.
  { unfold readFull in E2. destruct (_ <? l); [done|]. injection E2 as _ <-. rewrite length_take. lia. }
  destruct (raw d2); [intros [= <- <- <-]; by auto|].
  destruct t as [[]|]; intros [= <- <- <-]; (by left) || (right; eexists; split; [done|]; by eexists).
Qed.

(** ** What the switch on the next byte does *)

Definition elements (t : gtype) (v : gval) : option (gtype * bool * list gval) :=
  match t with TIface => Some (TIface, true, []) | _ => seq_view t v end.
Definition elements_val (t : gtype) (l : list gval) : gval :=
  match t with TIface => VIface (Some (VSlice l)) | _ => seq_val t l end.
Definition entries (t : gtype) (v : gval) : option dict :=
  match t with
  | TIface => Some (DMap None TIface [])
  | TMap keyer et => Some (DMap keyer et match v with VMap m => m | _ => [] end)
  | TStruct fs => Some (DStruct (setStructValues [] [] (TStruct fs)) v)
  | _ => None
  end.
Definition entries_val (t : gtype) (x : dict) : gval :=
  match t with TIface => VIface (Some (dict_val x)) | _ => dict_val x end.

(** A scalar is stored, or nothing; or the elements, or the entries are read by their loop. *)
Lemma dispatch_cases rll ll rdl dl d t v d' v' o :
  ready d -> dispatch rll ll rdl dl d (Some t) v = (d', v', o) ->
  (o <> Panicked /\ (v' = v \/ stored_int t v' \/ stored_string t v')) \/
  (exists d1 et g l l', ready d1 /\ elements t v = Some (et, g, l) /\
     ll d1 et g O l = (d', l', o) /\ v' = elements_val t l') \/
  (exists d1 x x', ready d1 /\ entries t v = Some x /\ dl d1 x None = (d', x', o) /\
     v' = entries_val t x').
Proof.
  intros Hd0. pose proof (proj1 Hd0) as R. unfold dispatch.
  destruct (peekByte d) as [c|] eqn:Ep; [|intros [= <- <- <-]; left; by auto].
  case_bool_decide as Hi; [subst; intros E; left; apply (decodeInt_stores _ _ _ _ _ _ Ep) in E as [? [->|(? & [= <-] & ?)]]; by auto|].
  destruct (is_digit c).
  { intros E; left. split; [by apply decodeString_calm in E|].
    apply decodeString_stores in E as [->|(? & [= <-] & ?)]; by auto. }
  assert (exists d1, ready d1 /\ readByte d = (d1, c, None)) as (d1 & Rd1 & E1).
  { destruct Hd0 as [_ HL]. unfold ready, peekByte, readByte in *. destruct (r d) as [|b rest]; [done|].
    injection Ep as ->. exists (consume d [c] rest). simpl in *. split; [|done]. split; [done|lia]. }
  pose proof (proj1 Rd1) as R1.
  case_bool_decide as Hl; [subst c|].
  - unfold decodeList. rewrite R, E1. rewrite bool_decide_eq_true_2 by done. cbn [negb].
    intros E. destruct (elements t v) as [[[et g] l]|] eqn:El.
    + right; left. destruct (ll d1 et g O l) as [[d2 l'] o2] eqn:E2. exists d1, et, g, l, l'.
      destruct t; cbn [elements] in El; try done; try (rewrite El in E); try (injection El as <- <- <-);
        rewrite E2 in E; injection E as <- <- <-; done.
    + left. destruct t; cbn [elements] in El; try done; rewrite ?El in E; injection E as <- <- <-; by auto.
  - case_bool_decide as Hd; [subst c|intros [= <- <- <-]; left; by auto].
    unfold decodeDict. rewrite E1, R1. rewrite bool_decide_eq_true_2 by done. cbn [negb].
    intros E. destruct (entries t v) as [x|] eqn:Ex.
    + right; right. destruct (dl d1 x None) as [[d2 x'] o2] eqn:E2. exists d1, x, x'.
      destruct t; unfold entries in Ex; try done; apply (inj Some) in Ex as <-; rewrite E2 in E; injection E as <- <- <-; done.
    + left. destruct t; unfold entries in Ex; try done; injection E as <- <- <-; by auto.
Qed.

(** In raw mode nothing is stored, and nothing can panic. *)
Lemma raw_calm f :
  (forall d t v d' v' o, raw d = true -> decodeInto f d t v = (d', v', o) -> o <> Panicked) /\
  (forall d d' o, raw d = true -> rawListLoop f d = (d', o) -> o <> Panicked) /\
  (forall d d' o, raw d = true -> rawDictLoop f d = (d', o) -> o <> Panicked).
Proof.
  induction f as [|f (IHd & IHl & IHm)].
  { repeat split; intros *; simpl; intros _; naive_solver. }
  repeat split.
  - intros d t v d' v' o R. cbn [decodeInto]. rewrite R.
    unfold dispatch. destruct (peekByte d) as [c|] eqn:Ep; [|by intros [= <- <- <-]].
    case_bool_decide as Hi; [subst; intros E; by apply (decodeInt_stores _ _ _ _ _ _ Ep) in E as [? _]|].
    destruct (is_digit c); [intros E; by apply decodeString_calm in E|].
    assert (exists d1, raw d1 = true /\ readByte d = (d1, c, None)) as (d1 & R1 & E1).
    { unfold peekByte, readByte in *. destruct (r d) as [|b rest]; [done|]. injection Ep as ->. by exists (consume d [c] rest). }
    case_bool_decide as Hl; [subst c|].
    + unfold decodeList. rewrite R, E1. rewrite bool_decide_eq_true_2 by done. cbn [negb].
      destruct (rawListLoop f d1) as [d2 o2] eqn:E2. intros [= <- <- <-]. by eapply IHl.
    + case_bool_decide as Hd; [subst c|by intros [= <- <- <-]].
      unfold decodeDict. rewrite E1, R1. rewrite bool_decide_eq_true_2 by done. cbn [negb].
      destruct (rawDictLoop f d1) as [d2 o2] eqn:E2. intros [= <- <- <-]. by eapply IHm.
  - intros d d' o R. cbn [rawListLoop]. destruct (peekByte d) as [c|]; [|by intros [= <- <-]].
    case_bool_decide; [destruct (readByte d) as [[? ?] e]; intros [= <- <-]; apply of_err_calm|].
    destruct (decodeInto f d None VOther) as [[d1 x] o1] eqn:E1. pose proof (IHd _ _ _ _ _ _ R E1) as H1.
    apply decodeInto_raw_kept in E1. rewrite R in E1. destruct o1; try (by intros [= <- <-]). by apply IHl.
  - intros d d' o R. cbn [rawDictLoop]. destruct (peekByte d) as [c|]; [|by intros [= <- <-]].
    case_bool_decide; [destruct (readByte d) as [[? ?] e]; intros [= <- <-]; apply of_err_calm|].
    destruct (decodeString d None VOther) as [[d1 x] o1] eqn:E1.
    apply decodeString_calm in E1 as H1.
    apply decodeString_raw_kept in E1. rewrite R in E1. destruct o1; try (by intros [= <- <-]).
    destruct (decodeInto f d1 None VOther) as [[d2 y] o2] eqn:E2. pose proof (IHd _ _ _ _ _ _ E1 E2) as H2.
    apply decodeInto_raw_kept in E2. rewrite E1 in E2. destruct o2; try (by intros [= <- <-]). by apply IHm.
Qed.

(** What [decodeInto] does to a type without methods is its dispatch. *)
Lemma dispatch_stays_at fuel t (P : gval -> Prop) :
  (forall v, indirect true t v = ToValue 0 t v) -> t <> TRaw ->
  (forall f d v d' v' o, (f < fuel)%nat -> ready d ->
     dispatch (rawListLoop f) (listLoop f) (rawDictLoop f) (dictLoop f) d (Some t) v = (d', v', o) ->
     P v -> P v' /\ o <> Panicked) ->
  stays_at fuel t P.
Proof.
  intros Hi Hr H d v d' v' o R E Pv. destruct fuel as [|f]; [by injection E as <- <- <-|].
  cbn [decodeInto] in E. rewrite (proj1 R), Hi in E.
  assert (dispatch (rawListLoop f) (listLoop f) (rawDictLoop f) (dictLoop f) d (Some t) v = (d', v', o)) as E1.
  { destruct t; try done; cbn [wrap] in E; destruct (dispatch _ _ _ _ d _ v) as [[? ?] ?]; exact E. }
  eapply H; [|done..]. lia.
Qed.
Lemma dispatch_stays t (P : gval -> Prop) :
  (forall v, indirect true t v = ToValue 0 t v) -> t <> TRaw ->
  (forall f d v d' v' o, ready d ->
     dispatch (rawListLoop f) (listLoop f) (rawDictLoop f) (dictLoop f) d (Some t) v = (d', v', o) ->
     P v -> P v' /\ o <> Panicked) ->
  stays t P.
Proof. intros Hi Hr H fuel. apply dispatch_stays_at; [done|done|]. intros f d v d' v' o _. apply H. Qed.

Definition scalar (t : gtype) : bool :=
  match t with TInt _ | TUint _ | TBool | TString => true | _ => false end.

Lemma stays_scalar t (P : gval -> Prop) :
  scalar t = true -> (forall v, stored_int t v \/ stored_string t v -> P v) -> stays t P.
Proof.
  intros Ht HP. apply dispatch_stays; [by destruct t|by intros ->|].
  intros f d v d' v' o R E Pv. apply dispatch_cases in E; [|done].
  destruct E as [[Ho [->|H]]|[(? & ? & ? & ? & ? & _ & H & _)|(? & ? & ? & _ & H & _)]]; [done|auto|by destruct t..].
Qed.

Definition is_string (v : gval) : Prop := exists s, v = VString s.
Definition is_bool (v : gval) : Prop := exists b, v = VBool b.
Definition is_uint (bits : Z) (v : gval) : Prop := exists z, v = VUint z /\ 0 <= z < 2 ^ bits.

Lemma stays_string : stays TString is_string.
Proof. apply stays_scalar; [done|]. intros v [[]|H]. exact H. Qed.
Lemma stays_bool : stays TBool is_bool.
Proof. apply stays_scalar; [done|]. intros v [H|[]]. exact H. Qed.
Lemma stays_uint bits : 0 <= bits -> stays (TUint bits) (is_uint bits).
Proof.
  intros Hb. apply stays_scalar; [done|]. intros v [[z ->]|[]]. eexists. split; [done|].
  apply Z.mod_pos_bound. by apply Z.pow_pos_nonneg.
Qed.


(** ** Types with an [UnmarshalBencode] method *)

Lemma decodeRaw_calm f d v d' v' o :
  ready d -> decodeInto f d (Some TRaw) v = (d', v', o) ->
  o <> Panicked /\ (v' = v \/ exists b, v' = VBytes b /\ (length b <= L)%nat).
Proof.
  intros [R HL]. destruct f as [|f]; [intros [= <- <- <-]; by auto|]. cbn [decodeInto indirect]. rewrite R.
  set (dr := mkDecoder (r d) true [] (n d) (failUnordered d)).
  destruct (dispatch _ _ _ _ dr None v) as [[d1 w] o1] eqn:E. intros [= <- <- <-]. split.
  - destruct (raw_calm (S f)) as [H _]. apply (H dr None v d1 w o1); [done|]. exact E.
  - right. eexists. split; [done|]. destruct (all_spec_holds (S f)) as [H _].
    destruct (H dr None v d1 w o1 E) as [[(p & Hp & _ & _ & _ & Hb) _] _].
    rewrite Hb by done. simpl in *. rewrite Hp, length_app in HL. lia.
Qed.

(** The method must not panic either: nothing catches it. *)
Lemma stays_method m t u (P : gval -> Prop) :
  UnmarshalBencode m = Some u ->
  (forall v b, (length b <= L)%nat -> P v -> P (fst (u v b)) /\ snd (u v b) <> Panic) ->
  stays (TNamed m t) P.
Proof.
  intros Hu HP fuel d v d' v' o R E Pv. destruct fuel as [|f]; [by injection E as <- <- <-|].
  cbn [decodeInto indirect] in E. rewrite (proj1 R), Hu in E.
  destruct (decodeInto f d (Some TRaw) (VBytes [])) as [[d1 x] o1] eqn:E1.
  apply decodeRaw_calm in E1 as [Ho1 Hx]; [|done].
  destruct o1; try (injection E as <- <- <-; split; [exact Pv|done]).
  destruct x; try (injection E as <- <- <-; split; [exact Pv|done]).
  assert (length s <= L)%nat as Hs by (destruct Hx as [[= ->]|(b & [= ->] & ?)]; [simpl; lia|done]).
  destruct (HP v s Hs Pv) as [Hw Hp]. destruct (u v s) as [w p]. injection E as <- <- <-.
  split; [done|by apply of_ret_calm].
Qed.

(** ** Lists *)

Lemma listLoop_stays et (P : gval -> Prop) fuel d i l d' l' o :
  (forall f, (f < fuel)%nat -> stays_at f et P) -> P (zero et) -> ready d -> (i <= length l)%nat ->
  listLoop fuel d et true i l = (d', l', o) -> Forall P l -> Forall P l' /\ o <> Panicked.
Proof.
  intros Hs Hz. revert d i l. induction fuel as [|f IH]; intros d i l R Hi E Hl; [by injection E as <- <- <-|].
  specialize (IH (fun g Hg => Hs g (Nat.lt_lt_succ_r _ _ Hg))).
  cbn [listLoop] in E. destruct (peekByte d) as [c|]; [|by injection E as <- <- <-].
  case_bool_decide.
  { destruct (readByte d) as [[? ?] ?]. injection E as <- <- <-. split; [done|apply of_err_calm]. }
  cbn [negb] in E. rewrite andb_false_r in E.
  set (l1 := if (length l <=? i)%nat then l ++ [zero et] else l) in E.
  assert (Hl1 : Forall P l1 /\ (i < length l1)%nat).
  { subst l1. destruct (Nat.leb_spec (length l) i); [|done]. split; [by apply Forall_app; auto|].
    rewrite length_app. simpl. lia. }
  destruct Hl1 as [Hl1 Hi1]. clearbody l1.
  destruct (lookup_lt_is_Some_2 l1 i Hi1) as [w Ew]. rewrite Ew in E. change (default VOther (Some w)) with w in E.
  destruct (decodeInto f d (Some et) w) as [[d1 x] o1] eqn:E1.
  destruct (Hs f ltac:(lia) d w d1 x o1 R E1) as [Px Ho]; [by eapply Forall_lookup_1|].
  apply decodeInto_ready in E1; [|done].
  assert (Hins : Forall P (<[i:=x]> l1)) by (by apply Forall_insert).
  destruct o1; try (by injection E as <- <- <-).
  eapply IH; [exact E1| |exact E|done]. rewrite length_insert. lia.
Qed.

Definition is_slice (P : gval -> Prop) (v : gval) : Prop := exists l, v = VSlice l /\ Forall P l.

Lemma stays_slice et (P : gval -> Prop) : stays et P -> P (zero et) -> stays (TSlice et) (is_slice P).
Proof.
  intros Hs Hz. apply dispatch_stays; [done|done|]. intros f d v d' v' o R E Pv. apply dispatch_cases in E; [|done].
  destruct E as [[Ho [->|[[]|[]]]]|[(d1 & et' & g & l & l' & R1 & He & El & ->)|(? & ? & ? & _ & H & _)]]; [done| |done].
  destruct Pv as (l0 & -> & Hl). injection He as <- <- <-.
  destruct (listLoop_stays et P f d1 0 l0 d' l' o) as [Hl' Ho]; [by intros; apply Hs|done|done|lia|done|done|].
  split; [by exists l'|done].
Qed.

(** A list has no more elements than the slice had, or bytes were read. *)
Lemma listLoop_length fuel d et i l d' l' o k :
  listLoop fuel d et true i l = (d', l', o) -> (i + length (r d) <= k)%nat -> (length l <= k)%nat ->
  (length l' <= k)%nat.
Proof.
  revert d i l. induction fuel as [|f IH]; intros d i l E Hd Hl; [by injection E as _ <- _|].
  cbn [listLoop] in E. destruct (peekByte d) as [c|] eqn:Ep; [|by injection E as _ <- _].
  case_bool_decide; [destruct (readByte d) as [[? ?] ?]; by injection E as _ <- _|].
  cbn [negb] in E. rewrite andb_false_r in E.
  set (l1 := if (length l <=? i)%nat then l ++ [zero et] else l) in E.
  assert (Hl1 : (length l1 <= k)%nat).
  { subst l1. destruct (Nat.leb_spec (length l) i); [|done]. rewrite length_app. simpl.
    unfold peekByte in Ep. destruct (r d); [done|]. simpl in Hd. lia. }
  clearbody l1. destruct (decodeInto f d (Some et) _) as [[d1 x] o1] eqn:E1.
  destruct (all_spec_holds f) as [H1 _]. apply H1 in E1 as [(_ & Hs & _) _].
  destruct o1; try (injection E as _ <- _; by rewrite length_insert).
  specialize (Hs eq_refl). eapply IH; [exact E|lia|by rewrite length_insert].
Qed.

(** A [[]byte] can be read from a string, or from a list of integers. *)
Definition is_bytes (v : gval) : Prop := exists s, v = VBytes s /\ (length s <= L)%nat.
Lemma stays_bytes : stays TBytes is_bytes.
Proof.
  apply dispatch_stays; [done|done|]. intros f d v d' v' o R E (s & -> & Hs). apply dispatch_cases in E; [|done].
  destruct E as [[Ho [->|[[]|H]]]|[(d1 & et & g & l & l' & R1 & He & El & ->)|(? & ? & ? & _ & H & _)]];
    [by split; [eexists|]|done| |done].
  injection He as <- <- <-. split.
  { eexists. split; [done|]. rewrite length_map.
    eapply listLoop_length; [exact El|apply R1|by rewrite length_map]. }
  eapply (listLoop_stays (TUint 8) (fun _ => True)); [|done|exact R1| |exact El|by apply Forall_true]; [|lia].
  intros. by apply stays_scalar.
Qed.

(** ** Values behind [interface{}] *)

Lemma dictLoop_iface fuel d m last d' x' o :
  (forall f, (f < fuel)%nat -> stays_at f TIface (fun _ => True)) -> ready d ->
  dictLoop fuel d (DMap None TIface m) last = (d', x', o) -> o <> Panicked.
Proof.
  intros Hs. revert d m last. induction fuel as [|f IH]; intros d m last R E; [by injection E as <- <- <-|].
  specialize (IH (fun g Hg => Hs g (Nat.lt_lt_succ_r _ _ Hg))).
  cbn [dictLoop] in E. destruct (peekByte d) as [c|]; [|by injection E as <- <- <-].
  case_bool_decide.
  { destruct (readByte d) as [[? ?] ?]. injection E as <- <- <-. apply of_err_calm. }
  destruct (decodeString d _ _) as [[d1 kv] o1] eqn:E1. apply decodeString_calm in E1 as Ho.
  apply decodeString_ready in E1; [|done].
  destruct o1; try (by injection E as <- <- <-).
  destruct kv as [| | |key| | | | | | | |]; try (by injection E as <- <- <-).
  destruct (failUnordered d1 && _); [by injection E as <- <- <-|].
  destruct (decodeInto f d1 (Some TIface) (zero TIface)) as [[d2 w] o2] eqn:E2.
  destruct (Hs f ltac:(lia) d1 _ d2 w o2 E1 E2 I) as [_ Ho2].
  apply decodeInto_ready in E2; [|done].
  destruct o2; try (by injection E as <- <- <-). by eapply IH.
Qed.

Lemma stays_iface : stays TIface (fun _ => True).
Proof.
  intros fuel. induction fuel as [fuel IH] using lt_wf_ind.
  apply dispatch_stays_at; [done|done|]. intros f d v d' v' o Hf R E _. split; [done|].
  apply dispatch_cases in E; [|done].
  destruct E as [[Ho _]|[(d1 & et & g & l & l' & R1 & He & El & ->)|(d1 & x & x' & R1 & Hx & Ex & ->)]]; [done|..].
  - injection He as <- <- <-.
    eapply (listLoop_stays TIface (fun _ => True)); [|done|exact R1| |exact El|by apply Forall_true]; [|simpl; lia].
    intros g Hg. apply IH. lia.
  - apply (inj Some) in Hx as <-. eapply dictLoop_iface; [|exact R1|exact Ex]. intros g Hg. apply IH. lia.
Qed.

(** ** Structs *)

Definition is_struct (Ps : list (gval -> Prop)) (v : gval) : Prop :=
  exists vs, v = VStruct vs /\ Forall2 (fun P x => P x) Ps vs.

(** Every key of the struct leads to a field of its own, of a type that keeps the
    invariant of the field. *)
Definition field_stays (Ps : list (gval -> Prop)) (kv : bytes * (list nat * gtype)) : Prop :=
  exists i P, fst (snd kv) = [i] /\ Ps !! i = Some P /\ stays (snd (snd kv)) P.

Lemma assoc_elem {A} k (m : list (bytes * A)) v : assoc k m = Some v -> (k, v) ∈ m.
Proof.
  induction m as [|[k' v'] m IH]; simpl; [done|]. case_bool_decide; [intros [= ->]; subst; set_solver|].
  intros H'. apply IH in H'. set_solver.
Qed.

Lemma dictLoop_stays Ps vals fuel d v last d' x' o :
  Forall (field_stays Ps) vals -> ready d ->
  dictLoop fuel d (DStruct vals v) last = (d', x', o) -> is_struct Ps v ->
  is_struct Ps (dict_val x') /\ o <> Panicked.
Proof.
  intros Hf. revert d v last. induction fuel as [|f IH]; intros d v last R E Pv; [by injection E as <- <- <-|].
  cbn [dictLoop] in E. destruct (peekByte d) as [c|]; [|by injection E as <- <- <-].
  case_bool_decide.
  { destruct (readByte d) as [[? ?] ?]. injection E as <- <- <-. split; [done|apply of_err_calm]. }
  destruct (decodeString d _ _) as [[d1 kv] o1] eqn:E1. apply decodeString_calm in E1 as Ho.
  apply decodeString_ready in E1; [|done].
  destruct o1; try (by injection E as <- <- <-).
  destruct kv as [| | |key| | | | | | | |]; try (by injection E as <- <- <-).
  destruct (failUnordered d1 && _); [by injection E as <- <- <-|].
  destruct (assoc key vals) as [[p ft]|] eqn:Ea.
  - destruct (decodeInto f d1 (Some ft) (field_get p v)) as [[d2 w] o2] eqn:E2.
    apply assoc_elem in Ea. rewrite Forall_forall in Hf. apply Hf in Ea as (i & P & Hp & HP & Hs).
    cbn [fst snd] in Hp, Hs. subst p. destruct Pv as (vs & -> & Hvs).
    destruct (Forall2_lookup_l _ _ _ _ _ Hvs HP) as (y & Hy & Py).
    cbn [field_get field_set] in E, E2. rewrite Hy in E, E2.
    destruct (Hs f d1 y d2 w o2 E1 E2 Py) as [Pw Ho2].
    assert (Pv' : is_struct Ps (VStruct (<[i := w]> vs))).
    { eexists. split; [done|]. rewrite <- (list_insert_id Ps i P) by done. by apply Forall2_insert. }
    apply decodeInto_ready in E2; [|done].
    destruct o2; try (by injection E as <- <- <-). by eapply IH.
  - destruct (decodeInto f d1 (Some TIface) (VIface None)) as [[d2 w] o2] eqn:E2.
    destruct (stays_iface f d1 _ d2 w o2 E1 E2 I) as [_ Ho2].
    apply decodeInto_ready in E2; [|done].
    destruct o2; try (by injection E as <- <- <-). by eapply IH.
Qed.

Lemma stays_struct fs Ps :
  Forall (field_stays Ps) (setStructValues [] [] (TStruct fs)) -> stays (TStruct fs) (is_struct Ps).
Proof.
  intros Hf. apply dispatch_stays; [done|done|]. intros f d v d' v' o R E Pv. apply dispatch_cases in E; [|done].
  destruct E as [[Ho [->|[[]|[]]]]|[(? & ? & ? & ? & ? & _ & H & _)|(d1 & x & x' & R1 & Hx & Ex & ->)]]; [done..|].
  apply (inj Some) in Hx as <-. by eapply dictLoop_stays.
Qed.

Lemma DecodeBytes_stays t P b v v' o :
  stays t P -> (length b <= L)%nat -> P v -> DecodeBytes b t v = (v', o) -> P v' /\ o <> Panicked.
Proof.
  intros Hs Hb Pv. unfold DecodeBytes, Decode.
  destruct (decodeInto _ _ _ _) as [[d' w] o'] eqn:E. intros [= <- <-].
  exact (Hs _ (NewDecoder b) _ _ _ _ (conj eq_refl Hb) E Pv).
Qed.
End Stays.

Lemma DecodeBytes_fuel t b v v' o : DecodeBytes b t v = (v', o) -> o <> NoFuel.
Proof.
  unfold DecodeBytes. destruct (Decode _ _ _) as [[d' w] o'] eqn:E. intros [= <- <-].
  apply Decode_spec in E as (_ & _ & H). apply H. lia.
Qed.
