(* ===== verification/Hash.v ===== *)
(** * [metainfo.Hash] and [metainfo.Hashes] (metainfo/infohash.go)

    A [Hash] is an array of twenty bytes: a list, with its length as the type invariant
    [Hash_wf].  Methods with a pointer receiver return the new receiver and the error. *)

From S2P Require Import Prelude GoBytes GoNet GoCrypto Bencode BencodeFacts BencodeRoundtrip Codec.

Definition HashSize : nat := 20.
Definition Hash : Type := bytes.
Definition Hash_wf (h : Hash) : Prop := length h = HashSize.
Definition zeroHash : Hash := replicate HashSize x00.
(** [Read n] is what package crypto/rand has put into [n] bytes before it failed. *)
Definition NewRandomHash (Read : nat -> bytes) : Hash := copy_into zeroHash (take HashSize (Read HashSize)).

(** ** Construction *)

Definition NewHash (b : bytes) : res Hash :=
  if (length b <? HashSize)%nat then Panic else Ok (copy_into zeroHash (take HashSize b)).

Definition Hash_FromHexString (h : Hash) (s : bytes) : recv Hash :=
  if negb (length s =? 2 * HashSize)%nat then (h, Fail (Errorf "hash hex string has bad length"))
  else
    let '(d, ok) := hex_decode s in
    let h := copy_into h d in
    if negb ok then (h, Fail (Errorf "encoding/hex: invalid byte"))
    else if negb (length d =? HashSize)%nat then (h, Panicked)
    else (h, Done).

Definition Hash_FromString (h : Hash) (s : bytes) : recv Hash :=
  if (length s =? HashSize)%nat then (copy_into h s, Done)
  else if (length s =? 2 * HashSize)%nat then Hash_FromHexString h s
  else if (length s =? 32)%nat then
    match base32_decode s with
    | Some bs => (copy_into h bs, Done)
    | None => (h, Fail (Errorf "illegal base32 data"))
    end
  else (copy_into h (Sha1.Sum s), Done).

Definition NewHashFromString (s : bytes) : res Hash :=
  match Hash_FromString zeroHash s with (h, Done) => Ok h | _ => Panic end.
Definition NewHashFromHexString (s : bytes) : res Hash :=
  match Hash_FromHexString zeroHash s with (h, Done) => Ok h | _ => Panic end.
Definition NewHashFromBytes (b : bytes) : Hash := copy_into zeroHash (Sha1.Sum b).

(** ** Methods *)

Definition Hash_HexString (h : Hash) : bytes := hex_string h.
Definition Hash_IsZero (h : Hash) : bool := bool_decide (h = zeroHash).
Definition Hash_WriteBinary (h : Hash) : bytes := h.

Definition Hash_UnmarshalBinary (h : Hash) (b : bytes) : recv Hash :=
  if (length b <? HashSize)%nat then (h, Fail (Errorf "Hash.UnmarshalBinary: too few bytes"))
  else (copy_into h (take HashSize b), Done).

Definition Hash_MarshalBencode (h : Hash) : res bytes := EncodeBytes TBytes (VBytes h).

Definition Hash_UnmarshalBencode (h : Hash) (b : bytes) : recv Hash :=
  match DecodeBytes b TString (VString []) with
  | (VString s, Done) => Hash_FromString h s
  | (_, o) => (h, o)
  end.

Definition Hash_Xor (h o : Hash) : Hash := zip_with byte_xor h o.

(** [bytes.Compare] as Go's -1, 0, +1. *)
Definition cmp_int (c : comparison) : Z := match c with Lt => -1 | Eq => 0 | Gt => 1 end.
Definition Hash_Compare (h o : Hash) : Z := cmp_int (bytes_compare h o).

(** ** [Hashes] *)

Definition Hashes : Type := list Hash.
Definition Hashes_Contains (hs : Hashes) (h : Hash) : bool :=
  existsb (fun h' => bool_decide (h = h')) hs.
Definition Hashes_MarshalBencode (hs : Hashes) : res bytes :=
  EncodeBytes TBytes (VBytes (concat hs)).
Definition Hashes_UnmarshalBencode (hs : Hashes) (b : bytes) : recv Hashes :=
  via_bytes hs b (fun bs =>
    if negb (Z.of_nat (length bs) mod Z.of_nat HashSize =? 0)
    then (hs, Fail (Errorf "Hashes: invalid bytes length"))
    else (map (copy_into zeroHash) (chunks HashSize bs), Done)).

(** ** The type invariant *)

Lemma NewRandomHash_wf Read : Hash_wf (NewRandomHash Read).
Proof. unfold Hash_wf, NewRandomHash. by rewrite length_copy_into. Qed.
Lemma Hash_FromString_wf h s : Hash_wf h -> Hash_wf (Hash_FromString h s).1.
Proof.
  unfold Hash_wf, Hash_FromString, Hash_FromHexString. intros H.
  destruct (hex_decode s) as [d ok].
  repeat (case_match; simpl; rewrite ?length_copy_into; try done).
Qed.

Lemma Hash_UnmarshalBencode_wf h b : Hash_wf h -> Hash_wf (Hash_UnmarshalBencode h b).1.
Proof.
  intros H. unfold Hash_UnmarshalBencode.
  destruct (DecodeBytes _ _ _) as [[] []]; try done. by apply Hash_FromString_wf.
Qed.

Lemma NewHashFromBytes_wf b : Hash_wf (NewHashFromBytes b).
Proof. apply length_copy_into. Qed.

Lemma Hash_Xor_wf h o : Hash_wf h -> Hash_wf o -> Hash_wf (Hash_Xor h o).
Proof. unfold Hash_wf, Hash_Xor. intros. rewrite length_zip_with. lia. Qed.

#[export] Hint Resolve Hash_FromString_wf Hash_UnmarshalBencode_wf NewHashFromBytes_wf Hash_Xor_wf
  : gobt.

(** ** A hash as a fixed-size block *)

#[export] Program Instance Hash_codec : FixedCodec Hash := {|
  fc_size := HashSize;
  fc_enc := Hash_WriteBinary;
  fc_dec b := to_res (Hash_UnmarshalBinary zeroHash b);
  fc_wf := Hash_wf;
|}.
Next Obligation. unfold HashSize. lia. Qed.
Next Obligation. done. Qed.
Next Obligation.
  intros h H. unfold Hash_UnmarshalBinary, Hash_WriteBinary. rewrite H, firstn_all2 by (rewrite H; done).
  rewrite copy_into_exact by (rewrite H; done). done.
Qed.
Next Obligation.
  intros b H. exists b. unfold Hash_UnmarshalBinary. rewrite H, firstn_all2 by (rewrite H; done).
  rewrite copy_into_exact by (rewrite H; done). done.
Qed.

Lemma map_copy_into_zero cs :
  Forall (fun c => length c = HashSize) cs -> map (copy_into zeroHash) cs = cs.
Proof. induction 1 as [|c cs Hc _ IH]; simpl; [done|]. rewrite IH, copy_into_exact; done. Qed.

(** ** Round trips *)

Lemma Hash_FromString_id h s : Hash_wf h -> Hash_wf s -> Hash_FromString h s = (s, Done).
Proof.
  unfold Hash_wf, Hash_FromString. intros Hh Hs.
  rewrite Hs, copy_into_exact by congruence. done.
Qed.

Lemma Hash_FromHexString_hex h o :
  Hash_wf h -> Hash_wf o -> Hash_FromHexString h (Hash_HexString o) = (o, Done).
Proof.
  unfold Hash_wf, Hash_FromHexString, Hash_HexString. intros Hh Ho.
  rewrite length_hex_string, hex_decode_string, copy_into_exact, Ho by congruence. done.
Qed.

Lemma Hash_bencode_roundtrip h o :
  Hash_wf h -> Hash_wf o ->
  Hash_MarshalBencode o = Ok (str o) /\ Hash_UnmarshalBencode h (str o) = (o, Done).
Proof.
  intros Hh Ho. split; [done|]. unfold Hash_UnmarshalBencode.
  rewrite DecodeBytes_string by (rewrite Ho; done). by apply Hash_FromString_id.
Qed.

(** ** The XOR metric *)

Lemma length_Hash_Xor h o : length (Hash_Xor h o) = Nat.min (length h) (length o).
Proof. apply length_zip_with. Qed.

Lemma lxor_shift n a b x y :
  0 <= n -> 0 <= x < 2 ^ n -> 0 <= y < 2 ^ n ->
  Z.lxor (a * 2 ^ n + x) (b * 2 ^ n + y) = Z.lxor a b * 2 ^ n + Z.lxor x y.
Proof.
  intros Hn Hx Hy. pose proof (Zlxor_bound n x y Hn Hx Hy).
  assert (E : forall p q, 0 <= q < 2 ^ n -> p * 2 ^ n + q = Z.lxor (Z.shiftl p n) q).
  { intros p q Hq. rewrite Z.shiftl_mul_pow2 by lia. apply Z.add_nocarry_lxor.
    apply Z.bits_inj'. intros i Hi. rewrite Z.land_spec, Z.bits_0.
    destruct (Z.ltb_spec i n).
    - rewrite Z.mul_pow2_bits_low by lia. done.
    - rewrite <- (Z.mod_small q (2 ^ n)), Z.mod_pow2_bits_high by lia. apply andb_false_r. }
  rewrite !E by lia. rewrite Z.shiftl_lxor.
  rewrite !Z.lxor_assoc. f_equal. rewrite <- !Z.lxor_assoc. f_equal. apply Z.lxor_comm.
Qed.

(** The bytes of [h.Xor(o)] are the big-endian form of the XOR of the two integers. *)
Lemma be_decode_Xor h o :
  length h = length o -> be_decode (Hash_Xor h o) = Z.lxor (be_decode h) (be_decode o).
Proof.
  revert o. induction h as [|x h IH]; intros [|y o] E; simpl in E; try done.
  injection E as E. cbn [Hash_Xor zip_with]. fold (Hash_Xor h o).
  rewrite !be_decode_cons, IH, length_Hash_Xor, E, Nat.min_id, b2z_xor by done.
  pose proof (be_decode_range h) as R1. pose proof (be_decode_range o) as R2. rewrite E in R1.
  change 256 with (2 ^ 8) in *. rewrite <- Z.pow_mul_r in * by lia. symmetry. apply lxor_shift; lia.
Qed.
