(* ===== verification/MetaAddr.v ===== *)
(** * Compact addresses of package [metainfo] (metainfo/addr_compact.go)

    [CompactAddr] and the slices [CompactIPv4Addrs] and [CompactIPv6Addrs].  Writers are
    in-memory buffers, so [WriteBinary] returns the bytes it writes (its [n] is their
    number). *)

From S2P Require Import Prelude GoBytes GoNet Bencode BencodeFacts BencodeRoundtrip Codec.

(** [*net.UDPAddr] (and [*net.TCPAddr]), without a zone. *)
Record UDPAddr : Type := mkUDPAddr { ua_IP : IP; ua_Port : Z }.
#[export] Instance UDPAddr_eq_dec : EqDecision UDPAddr.
Proof. solve_decision. Defined.

Record CompactAddr : Type := mkCompactAddr { ca_IP : IP; ca_Port : Z }.
#[export] Instance CompactAddr_eq_dec : EqDecision CompactAddr.
Proof. solve_decision. Defined.

Definition NewCompactAddr (ip : IP) (port : Z) : CompactAddr := mkCompactAddr ip port.
Definition NewCompactAddrFromUDPAddr (ua : UDPAddr) : CompactAddr :=
  mkCompactAddr (ua_IP ua) (u16 (ua_Port ua)).

Definition CompactAddr_Valid (a : CompactAddr) : bool :=
  (0 <? length (ca_IP a))%nat && (0 <? ca_Port a).
Definition CompactAddr_Equal (a o : CompactAddr) : bool :=
  (ca_Port a =? ca_Port o) && IP_Equal (ca_IP a) (ca_IP o).
Definition CompactAddr_UDPAddr (a : CompactAddr) : UDPAddr := mkUDPAddr (ca_IP a) (ca_Port a).
Definition CompactAddr_String (a : CompactAddr) : bytes :=
  if ca_Port a =? 0 then IP_String (ca_IP a)
  else JoinHostPort (IP_String (ca_IP a)) (format_uint 10 (ca_Port a)).

Definition CompactAddr_WriteBinary (a : CompactAddr) : bytes :=
  ca_IP a ++ be_encode 2 (ca_Port a).
Definition CompactAddr_MarshalBinary (a : CompactAddr) : res bytes := Ok (CompactAddr_WriteBinary a).

Definition CompactAddr_UnmarshalBinary (a : CompactAddr) (data : bytes) : recv CompactAddr :=
  let _len := Z.of_nat (length data) - 2 in
  if (_len =? 4) || (_len =? 16) then
    let k := Z.to_nat _len in
    (mkCompactAddr (take k data) (be_decode (drop k data)), Done)
  else (a, Fail (Errorf "invalid compact ip-address/port info")).

Definition CompactAddr_MarshalBencode (a : CompactAddr) : res bytes :=
  enc_bytes (CompactAddr_MarshalBinary a).
Definition CompactAddr_UnmarshalBencode (a : CompactAddr) (b : bytes) : recv CompactAddr :=
  via_bytes a b (CompactAddr_UnmarshalBinary a).

(** ** Slices *)

Definition zeroCompactAddr : CompactAddr := mkCompactAddr [] 0.

Fixpoint CompactIPv4Addrs_MarshalBinary (cas : list CompactAddr) : res bytes :=
  match cas with
  | [] => Ok []
  | addr :: cas =>
      let addr := mkCompactAddr (To4 (ca_IP addr)) (ca_Port addr) in
      if (length (ca_IP addr) =? 0)%nat then CompactIPv4Addrs_MarshalBinary cas
      else
        let w := CompactAddr_WriteBinary addr in
        if negb (length w =? 6)%nat then Panic
        else let! rest := CompactIPv4Addrs_MarshalBinary cas in Ok (w ++ rest)
  end.

Definition CompactIPv4Addrs_UnmarshalBinary (cas : list CompactAddr) (b : bytes)
    : recv (list CompactAddr) :=
  if negb (Z.of_nat (length b) mod 6 =? 0)
  then (cas, Fail (Errorf "CompactIPv4Addrs: invalid addr info length"))
  else set_on_ok cas
         (res_mapM (fun c => to_res (CompactAddr_UnmarshalBinary zeroCompactAddr c)) (chunks 6 b)).

Definition CompactIPv4Addrs_MarshalBencode (cas : list CompactAddr) : res bytes :=
  enc_bytes (CompactIPv4Addrs_MarshalBinary cas).
Definition CompactIPv4Addrs_UnmarshalBencode (cas : list CompactAddr) (b : bytes)
    : recv (list CompactAddr) :=
  via_bytes cas b (CompactIPv4Addrs_UnmarshalBinary cas).

Fixpoint CompactIPv6Addrs_MarshalBinary (cas : list CompactAddr) : res bytes :=
  match cas with
  | [] => Ok []
  | addr :: cas =>
      let w := CompactAddr_WriteBinary (mkCompactAddr (To16 (ca_IP addr)) (ca_Port addr)) in
      if negb (length w =? 18)%nat then Panic
      else let! rest := CompactIPv6Addrs_MarshalBinary cas in Ok (w ++ rest)
  end.

Definition CompactIPv6Addrs_UnmarshalBinary (cas : list CompactAddr) (b : bytes)
    : recv (list CompactAddr) :=
  if negb (Z.of_nat (length b) mod 18 =? 0)
  then (cas, Fail (Errorf "CompactIPv4Addrs: invalid addr info length"))
  else set_on_ok cas
         (res_mapM (fun c => to_res (CompactAddr_UnmarshalBinary zeroCompactAddr c)) (chunks 18 b)).

Definition CompactIPv6Addrs_MarshalBencode (cas : list CompactAddr) : res bytes :=
  enc_bytes (CompactIPv6Addrs_MarshalBinary cas).
Definition CompactIPv6Addrs_UnmarshalBencode (cas : list CompactAddr) (b : bytes)
    : recv (list CompactAddr) :=
  via_bytes cas b (CompactIPv6Addrs_UnmarshalBinary cas).

(** ** One address as a block of [n + 2] bytes *)

Definition addr_wf (n : nat) (a : CompactAddr) : Prop :=
  length (ca_IP a) = n /\ is_u16 (ca_Port a).

Lemma length_WriteBinary a : length (CompactAddr_WriteBinary a) = (length (ca_IP a) + 2)%nat.
Proof. unfold CompactAddr_WriteBinary. by rewrite length_app, length_be_encode. Qed.

Lemma CompactAddr_dec_enc n a old :
  n = 4%nat \/ n = 16%nat -> addr_wf n a ->
  CompactAddr_UnmarshalBinary old (CompactAddr_WriteBinary a) = (a, Done).
Proof.
  intros Hn [Hi Hp]. unfold CompactAddr_UnmarshalBinary. rewrite length_WriteBinary, Hi.
  replace (Z.of_nat (n + 2) - 2) with (Z.of_nat n) by lia.
  assert ((Z.of_nat n =? 4) || (Z.of_nat n =? 16) = true) as -> by (destruct Hn as [-> | ->]; done).
  rewrite Nat2Z.id. unfold CompactAddr_WriteBinary.
  destruct (take_drop_app_exact (ca_IP a) (be_encode 2 (ca_Port a)) n Hi) as [-> ->].
  rewrite be16_roundtrip by done. by destruct a.
Qed.

Lemma CompactAddr_dec_total n b old :
  n = 4%nat \/ n = 16%nat -> length b = (n + 2)%nat ->
  exists a, CompactAddr_UnmarshalBinary old b = (a, Done) /\ addr_wf n a /\
    CompactAddr_WriteBinary a = b.
Proof.
  intros Hn Hb. unfold CompactAddr_UnmarshalBinary. rewrite Hb.
  replace (Z.of_nat (n + 2) - 2) with (Z.of_nat n) by lia.
  assert ((Z.of_nat n =? 4) || (Z.of_nat n =? 16) = true) as -> by (destruct Hn as [-> | ->]; done).
  rewrite Nat2Z.id. assert (Hd : length (drop n b) = 2%nat) by (rewrite length_drop; lia).
  eexists. split; [done|]. split.
  - split; simpl; [rewrite length_take; lia|by apply be_decode_is_u16].
  - unfold CompactAddr_WriteBinary. simpl ca_IP. simpl ca_Port.
    rewrite <- Hd, be_encode_decode. apply take_drop.
Qed.

Definition addr_codec (n : nat) (Hn : n = 4%nat \/ n = 16%nat) : FixedCodec CompactAddr.
Proof.
  refine {| fc_size := n + 2; fc_enc := CompactAddr_WriteBinary; fc_wf := addr_wf n;
            fc_dec b := to_res (CompactAddr_UnmarshalBinary zeroCompactAddr b) |}.
  - lia.
  - intros a [Ha _]. by rewrite length_WriteBinary, Ha.
  - intros a Ha. by rewrite (CompactAddr_dec_enc n).
  - intros b Hb. destruct (CompactAddr_dec_total n b zeroCompactAddr Hn Hb) as (a & -> & ? & ?).
    by exists a.
Defined.
Definition addr4_codec : FixedCodec CompactAddr := addr_codec 4 (or_introl eq_refl).
Definition addr6_codec : FixedCodec CompactAddr := addr_codec 16 (or_intror eq_refl).

(** ** What the slices keep: the IPv4 addresses, in four bytes; every address, in
    sixteen. *)
Definition to_ipv4 (cas : list CompactAddr) : list CompactAddr :=
  omap (fun a => let ip := To4 (ca_IP a) in
                 if (length ip =? 0)%nat then None else Some (mkCompactAddr ip (ca_Port a))) cas.
Definition to_ipv6 (cas : list CompactAddr) : list CompactAddr :=
  map (fun a => mkCompactAddr (To16 (ca_IP a)) (ca_Port a)) cas.

Lemma to_ipv4_wf cas :
  Forall (fun a => is_u16 (ca_Port a)) cas -> Forall (addr_wf 4) (to_ipv4 cas).
Proof.
  induction 1 as [|a cas Ha _ IH]; [constructor|]. unfold to_ipv4. simpl.
  destruct (To4_length (ca_IP a)) as [-> | E]; [done|]. rewrite E. simpl. constructor; done.
Qed.

Lemma CompactIPv4Addrs_MarshalBinary_eq cas :
  CompactIPv4Addrs_MarshalBinary cas = Ok (list_enc (FixedCodec0 := addr4_codec) (to_ipv4 cas)).
Proof.
  induction cas as [|a cas IH]; [done|].
  cbn [CompactIPv4Addrs_MarshalBinary to_ipv4 list_omap omap ca_IP ca_Port].
  rewrite IH, length_WriteBinary. cbn [ca_IP].
  destruct (To4_length (ca_IP a)) as [-> | E]; [done|]. rewrite E. done.
Qed.

Lemma CompactIPv4Addrs_UnmarshalBinary_eq old b :
  CompactIPv4Addrs_UnmarshalBinary old b =
  if Z.of_nat (length b) mod 6 =? 0
  then set_on_ok old (list_dec (FixedCodec0 := addr4_codec) b)
  else (old, Fail (Errorf "CompactIPv4Addrs: invalid addr info length")).
Proof. unfold CompactIPv4Addrs_UnmarshalBinary. by destruct (_ =? 0). Qed.

Lemma ipv4_roundtrip old cas :
  Forall (fun a => is_u16 (ca_Port a)) cas ->
  exists b, CompactIPv4Addrs_MarshalBinary cas = Ok b /\
    length b = (6 * length (to_ipv4 cas))%nat /\
    CompactIPv4Addrs_UnmarshalBinary old b = (to_ipv4 cas, Done).
Proof.
  intros H. apply to_ipv4_wf in H. eexists.
  split; [apply CompactIPv4Addrs_MarshalBinary_eq|].
  split; [by apply (length_list_enc (FixedCodec0 := addr4_codec))|].
  rewrite CompactIPv4Addrs_UnmarshalBinary_eq.
  rewrite (list_enc_mod (FixedCodec0 := addr4_codec)) by done.
  by rewrite (list_dec_enc (FixedCodec0 := addr4_codec)).
Qed.

(** [To16] of an address of a legal length has sixteen bytes; of any other, none. *)
Definition legal_ip (ip : IP) : bool := (length ip =? 4)%nat || (length ip =? 16)%nat.
Lemma length_To16 ip : length (To16 ip) = if legal_ip ip then 16%nat else 0%nat.
Proof.
  unfold To16, legal_ip. destruct (Nat.eqb_spec (length ip) 4) as [E|E].
  - rewrite length_app, E. done.
  - destruct (Nat.eqb_spec (length ip) 16) as [->|]; done.
Qed.

Lemma CompactIPv6Addrs_MarshalBinary_eq cas :
  CompactIPv6Addrs_MarshalBinary cas =
  if forallb (fun a => legal_ip (ca_IP a)) cas
  then Ok (list_enc (FixedCodec0 := addr6_codec) (to_ipv6 cas)) else Panic.
Proof.
  induction cas as [|a cas IH]; [done|].
  cbn [CompactIPv6Addrs_MarshalBinary to_ipv6 map forallb].
  rewrite IH, length_WriteBinary. cbn [ca_IP]. rewrite length_To16.
  destruct (legal_ip (ca_IP a)); [|done]. simpl. by destruct (forallb _ cas).
Qed.

Lemma CompactIPv6Addrs_UnmarshalBinary_eq old b :
  CompactIPv6Addrs_UnmarshalBinary old b =
  if Z.of_nat (length b) mod 18 =? 0
  then set_on_ok old (list_dec (FixedCodec0 := addr6_codec) b)
  else (old, Fail (Errorf "CompactIPv4Addrs: invalid addr info length")).
Proof. unfold CompactIPv6Addrs_UnmarshalBinary. by destruct (_ =? 0). Qed.

Lemma ipv6_roundtrip old cas :
  Forall (fun a => is_u16 (ca_Port a)) cas -> forallb (fun a => legal_ip (ca_IP a)) cas = true ->
  exists b, CompactIPv6Addrs_MarshalBinary cas = Ok b /\
    length b = (18 * length cas)%nat /\
    CompactIPv6Addrs_UnmarshalBinary old b = (to_ipv6 cas, Done).
Proof.
  intros Hp Hl. rewrite CompactIPv6Addrs_MarshalBinary_eq, Hl. eexists. split; [done|].
  assert (Hw : Forall (addr_wf 16) (to_ipv6 cas)).
  { apply Forall_map. clear -Hp Hl. induction Hp as [|a cas Ha _ IH]; [constructor|].
    simpl in Hl. apply andb_true_iff in Hl as [H1 H2]. constructor; [|by apply IH].
    split; [|done]. simpl. by rewrite length_To16, H1. }
  split.
  - rewrite (length_list_enc (FixedCodec0 := addr6_codec)) by done.
    unfold to_ipv6. by rewrite length_map.
  - rewrite CompactIPv6Addrs_UnmarshalBinary_eq.
    rewrite (list_enc_mod (FixedCodec0 := addr6_codec)) by done.
    by rewrite (list_dec_enc (FixedCodec0 := addr6_codec)).
Qed.
