(* ===== verification/KrpcAddr.v ===== *)
(** * Addresses and nodes of package [krpc] (krpc/addr.go, krpc/node.go)

    [Addr] is the compact address with the original [net.Addr] of the packet beside it;
    [Node] is an id with an address.  The proofs go through the codec of
    [MetaAddr.CompactAddr], which has the same binary form. *)

From S2P Require Import Prelude GoBytes GoNet GoCrypto Bencode BencodeFacts BencodeRoundtrip Codec.
From S2P Require Import Hash MetaAddr.

Record Addr : Type := mkAddr { a_IP : IP; a_Port : Z; a_Orig : option UDPAddr }.
#[export] Instance Addr_eq_dec : EqDecision Addr.
Proof. solve_decision. Defined.

Definition NewAddr (ip : IP) (port : Z) : Addr := mkAddr ip port None.
Definition NewAddrFromUDPAddr (ua : UDPAddr) : Addr :=
  mkAddr (ua_IP ua) (u16 (ua_Port ua)) (Some ua).
Definition Addr_Valid (a : Addr) : bool := (0 <? length (a_IP a))%nat && (0 <? a_Port a).
Definition Addr_Equal (a o : Addr) : bool := (a_Port a =? a_Port o) && IP_Equal (a_IP a) (a_IP o).
Definition Addr_UDPAddr (a : Addr) : UDPAddr := mkUDPAddr (a_IP a) (a_Port a).
Definition Addr_String (a : Addr) : bytes :=
  if a_Port a =? 0 then IP_String (a_IP a)
  else JoinHostPort (IP_String (a_IP a)) (format_uint 10 (a_Port a)).

(** [ParseAddrs]; [LookupIP] is the resolver of package [net]. *)
Definition short_ip (ip : IP) : IP := if negb (length (To4 ip) =? 0)%nat then To4 ip else ip.
Definition ParseAddrs (LookupIP : bytes -> res (list IP)) (s : bytes) : res (list Addr) :=
  let! '(_ip, _port) := SplitHostPort s in
  let! port := parse_uint 16 _port in
  match ParseIP _ip with
  | Some ip => Ok [NewAddr (short_ip ip) port]
  | None => let! ips := LookupIP _ip in Ok (map (fun ip => NewAddr (short_ip ip) port) ips)
  end.
Definition Addr_Network (a : Addr) : bytes := B "krpc".

Definition Addr_WriteBinary (a : Addr) : bytes := a_IP a ++ be_encode 2 (a_Port a).
Definition Addr_MarshalBinary (a : Addr) : res bytes := Ok (Addr_WriteBinary a).
Definition Addr_UnmarshalBinary (a : Addr) (data : bytes) : recv Addr :=
  let _len := Z.of_nat (length data) - 2 in
  if (_len =? 4) || (_len =? 16) then
    let k := Z.to_nat _len in
    (mkAddr (take k data) (be_decode (drop k data)) (a_Orig a), Done)
  else (a, Fail (Errorf "invalid compact ip-address/port info")).
Definition Addr_MarshalBencode (a : Addr) : res bytes := enc_bytes (Addr_MarshalBinary a).
Definition Addr_UnmarshalBencode (a : Addr) (b : bytes) : recv Addr :=
  via_bytes a b (Addr_UnmarshalBinary a).

Definition zeroAddr : Addr := mkAddr [] 0 None.

(** ** Slices of addresses *)

Fixpoint krpc_CompactIPv4Addrs_MarshalBinary (cas : list Addr) : res bytes :=
  match cas with
  | [] => Ok []
  | addr :: cas =>
      let addr := mkAddr (To4 (a_IP addr)) (a_Port addr) (a_Orig addr) in
      if (length (a_IP addr) =? 0)%nat then krpc_CompactIPv4Addrs_MarshalBinary cas
      else
        let w := Addr_WriteBinary addr in
        if negb (length w =? 6)%nat then Panic
        else let! rest := krpc_CompactIPv4Addrs_MarshalBinary cas in Ok (w ++ rest)
  end.

Definition krpc_CompactIPv4Addrs_UnmarshalBinary (cas : list Addr) (b : bytes) : recv (list Addr) :=
  if negb (Z.of_nat (length b) mod 6 =? 0)
  then (cas, Fail (Errorf "CompactIPv4Addrs: invalid addr info length"))
  else set_on_ok cas
         (res_mapM (fun c => to_res (Addr_UnmarshalBinary zeroAddr c)) (chunks 6 b)).

Definition krpc_CompactIPv4Addrs_MarshalBencode (cas : list Addr) : res bytes :=
  enc_bytes (krpc_CompactIPv4Addrs_MarshalBinary cas).
Definition krpc_CompactIPv4Addrs_UnmarshalBencode (cas : list Addr) (b : bytes)
    : recv (list Addr) :=
  via_bytes cas b (krpc_CompactIPv4Addrs_UnmarshalBinary cas).

(** The loop converts with [To4], as the code does. *)
Fixpoint krpc_CompactIPv6Addrs_MarshalBinary (cas : list Addr) : res bytes :=
  match cas with
  | [] => Ok []
  | addr :: cas =>
      let addr := mkAddr (To4 (a_IP addr)) (a_Port addr) (a_Orig addr) in
      if (length (a_IP addr) =? 0)%nat then krpc_CompactIPv6Addrs_MarshalBinary cas
      else
        let w := Addr_WriteBinary addr in
        if negb (length w =? 18)%nat then Panic
        else let! rest := krpc_CompactIPv6Addrs_MarshalBinary cas in Ok (w ++ rest)
  end.

Definition krpc_CompactIPv6Addrs_UnmarshalBinary (cas : list Addr) (b : bytes) : recv (list Addr) :=
  if negb (Z.of_nat (length b) mod 18 =? 0)
  then (cas, Fail (Errorf "CompactIPv4Addrs: invalid addr info length"))
  else set_on_ok cas
         (res_mapM (fun c => to_res (Addr_UnmarshalBinary zeroAddr c)) (chunks 18 b)).

Definition krpc_CompactIPv6Addrs_MarshalBencode (cas : list Addr) : res bytes :=
  enc_bytes (krpc_CompactIPv6Addrs_MarshalBinary cas).
Definition krpc_CompactIPv6Addrs_UnmarshalBencode (cas : list Addr) (b : bytes)
    : recv (list Addr) :=
  via_bytes cas b (krpc_CompactIPv6Addrs_UnmarshalBinary cas).

(** ** Nodes *)

Record Node : Type := mkNode { n_ID : Hash; n_Addr : Addr }.
#[export] Instance Node_eq_dec : EqDecision Node.
Proof. solve_decision. Defined.

Definition NewNode (id : Hash) (addr : Addr) : Node := mkNode id addr.

(** [fmt] formats with [%x] the text of a value that has a [String] method, and the text of a
    hash is hexadecimal already. *)
Definition Node_String (n : Node) : bytes :=
  B "Node<" ++ hex_string (Hash_HexString (n_ID n)) ++ B "@" ++ Addr_String (n_Addr n) ++ B ">".
Definition Node_Equal (n o : Node) : bool :=
  bool_decide (n_ID n = n_ID o) && Addr_Equal (n_Addr n) (n_Addr o).
Definition Node_WriteBinary (n : Node) : bytes := n_ID n ++ Addr_WriteBinary (n_Addr n).
Definition Node_MarshalBinary (n : Node) : res bytes := Ok (Node_WriteBinary n).

Definition Node_UnmarshalBinary (n : Node) (b : bytes) : recv Node :=
  if (length b <? 26)%nat then (n, Fail ErrShortBuffer)
  else
    let '(addr, o) := Addr_UnmarshalBinary (n_Addr n) (drop 20 b) in
    (mkNode (copy_into (n_ID n) (take 20 b)) addr, o).

Definition zeroNode : Node := mkNode zeroHash zeroAddr.

Definition with_ip (n : Node) (ip : IP) : Node :=
  mkNode (n_ID n) (mkAddr ip (a_Port (n_Addr n)) (a_Orig (n_Addr n))).

Fixpoint CompactIPv4Nodes_MarshalBinary (cns : list Node) : res bytes :=
  match cns with
  | [] => Ok []
  | ni :: cns =>
      let ni := with_ip ni (To4 (a_IP (n_Addr ni))) in
      if (length (a_IP (n_Addr ni)) =? 0)%nat then CompactIPv4Nodes_MarshalBinary cns
      else
        let w := Node_WriteBinary ni in
        if negb (length w =? 26)%nat then Panic
        else let! rest := CompactIPv4Nodes_MarshalBinary cns in Ok (w ++ rest)
  end.

Definition CompactIPv4Nodes_UnmarshalBinary (cns : list Node) (b : bytes) : recv (list Node) :=
  if negb (Z.of_nat (length b) mod 26 =? 0)
  then (cns, Fail (Errorf "CompactIPv4Nodes: invalid node info length"))
  else set_on_ok cns
         (res_mapM (fun c => to_res (Node_UnmarshalBinary zeroNode c)) (chunks 26 b)).

Definition CompactIPv4Nodes_MarshalBencode (cns : list Node) : res bytes :=
  enc_bytes (CompactIPv4Nodes_MarshalBinary cns).
Definition CompactIPv4Nodes_UnmarshalBencode (cns : list Node) (b : bytes) : recv (list Node) :=
  via_bytes cns b (CompactIPv4Nodes_UnmarshalBinary cns).

Fixpoint CompactIPv6Nodes_MarshalBinary (cns : list Node) : res bytes :=
  match cns with
  | [] => Ok []
  | ni :: cns =>
      let w := Node_WriteBinary (with_ip ni (To16 (a_IP (n_Addr ni)))) in
      if negb (length w =? 38)%nat then Panic
      else let! rest := CompactIPv6Nodes_MarshalBinary cns in Ok (w ++ rest)
  end.

Definition CompactIPv6Nodes_UnmarshalBinary (cns : list Node) (b : bytes) : recv (list Node) :=
  if negb (Z.of_nat (length b) mod 38 =? 0)
  then (cns, Fail (Errorf "CompactIPv6Nodes: invalid node info length"))
  else set_on_ok cns
         (res_mapM (fun c => to_res (Node_UnmarshalBinary zeroNode c)) (chunks 38 b)).

Definition CompactIPv6Nodes_MarshalBencode (cns : list Node) : res bytes :=
  enc_bytes (CompactIPv6Nodes_MarshalBinary cns).
Definition CompactIPv6Nodes_UnmarshalBencode (cns : list Node) (b : bytes) : recv (list Node) :=
  via_bytes cns b (CompactIPv6Nodes_UnmarshalBinary cns).

(** ** [Addr] and [CompactAddr] have the same binary form *)

Definition compact (a : Addr) : CompactAddr := mkCompactAddr (a_IP a) (a_Port a).
Definition of_compact (o : option UDPAddr) (c : CompactAddr) : Addr :=
  mkAddr (ca_IP c) (ca_Port c) o.

Lemma Addr_WriteBinary_compact a : Addr_WriteBinary a = CompactAddr_WriteBinary (compact a).
Proof. done. Qed.
Lemma Addr_UnmarshalBinary_compact a b :
  Addr_UnmarshalBinary a b =
  let '(c, o) := CompactAddr_UnmarshalBinary (compact a) b in (of_compact (a_Orig a) c, o).
Proof.
  unfold Addr_UnmarshalBinary, CompactAddr_UnmarshalBinary.
  destruct (_ || _); [done|]. by destruct a.
Qed.

Definition Addr_wf (n : nat) (a : Addr) : Prop := addr_wf n (compact a) /\ a_Orig a = None.

Lemma Addr_dec_enc n a old :
  n = 4%nat \/ n = 16%nat -> Addr_wf n a -> a_Orig old = None ->
  Addr_UnmarshalBinary old (Addr_WriteBinary a) = (a, Done).
Proof.
  intros Hn [Ha Ho] Hold. rewrite Addr_UnmarshalBinary_compact, Addr_WriteBinary_compact.
  rewrite (CompactAddr_dec_enc n), Hold by done. destruct a. simpl in *. by subst.
Qed.

Lemma Addr_dec_total n b old :
  n = 4%nat \/ n = 16%nat -> length b = (n + 2)%nat -> a_Orig old = None ->
  exists a, Addr_UnmarshalBinary old b = (a, Done) /\ Addr_wf n a /\ Addr_WriteBinary a = b.
Proof.
  intros Hn Hb Hold. rewrite Addr_UnmarshalBinary_compact, Hold.
  destruct (CompactAddr_dec_total n b (compact old) Hn Hb) as (c & -> & Hc & Ec).
  exists (of_compact None c). repeat split; try done; apply Hc.
Qed.

Definition Node_wf (n : nat) (x : Node) : Prop := Hash_wf (n_ID x) /\ Addr_wf n (n_Addr x).

Lemma length_Node_WriteBinary x :
  Hash_wf (n_ID x) -> length (Node_WriteBinary x) = (length (a_IP (n_Addr x)) + 22)%nat.
Proof.
  intros H. unfold Node_WriteBinary. rewrite length_app, H, Addr_WriteBinary_compact.
  rewrite length_WriteBinary. unfold HashSize. simpl. lia.
Qed.

Lemma Node_dec_enc n x :
  n = 4%nat \/ n = 16%nat -> Node_wf n x ->
  Node_UnmarshalBinary zeroNode (Node_WriteBinary x) = (x, Done).
Proof.
  intros Hn [Hi Ha]. unfold Node_UnmarshalBinary. rewrite length_Node_WriteBinary by done.
  destruct Ha as [[Hl Hp] Ho]. simpl in Hl. rewrite Hl.
  destruct (Nat.ltb_spec (n + 22) 26); [lia|]. unfold Node_WriteBinary.
  destruct (take_drop_app_exact (n_ID x) (Addr_WriteBinary (n_Addr x)) 20 Hi) as [-> ->].
  rewrite (Addr_dec_enc n), copy_into_exact; try done. by destruct x.
Qed.

Lemma Node_dec_total n b :
  n = 4%nat \/ n = 16%nat -> length b = (n + 22)%nat ->
  exists x, Node_UnmarshalBinary zeroNode b = (x, Done) /\ Node_wf n x /\ Node_WriteBinary x = b.
Proof.
  intros Hn Hb. unfold Node_UnmarshalBinary. destruct (Nat.ltb_spec (length b) 26); [lia|].
  destruct (Addr_dec_total n (drop 20 b) zeroAddr Hn) as (a & Ea & Ha & Ew);
    [rewrite length_drop; lia|done|].
  simpl n_Addr. rewrite Ea. assert (Ht : length (take 20 b) = 20%nat) by (rewrite length_take; lia).
  simpl n_ID. rewrite copy_into_exact by (rewrite Ht; done).
  eexists. split; [done|]. split; [done|]. unfold Node_WriteBinary. simpl. rewrite Ew. apply take_drop.
Qed.

Definition node_codec (n : nat) (Hn : n = 4%nat \/ n = 16%nat) : FixedCodec Node.
Proof.
  refine {| fc_size := n + 22; fc_enc := Node_WriteBinary; fc_wf := Node_wf n;
            fc_dec b := to_res (Node_UnmarshalBinary zeroNode b) |}.
  - lia.
  - intros x Hx. rewrite length_Node_WriteBinary by apply Hx. destruct Hx as [_ [[H _] _]].
    simpl in H. by rewrite H.
  - intros a Ha. by rewrite (Node_dec_enc n).
  - intros b Hb. destruct (Node_dec_total n b Hn Hb) as (a & -> & ? & ?). by exists a.
Defined.
Definition node4_codec : FixedCodec Node := node_codec 4 (or_introl eq_refl).
Definition node6_codec : FixedCodec Node := node_codec 16 (or_intror eq_refl).

(** ** What the node slices keep *)

Definition plain (x : Node) (ip : IP) : Node := mkNode (n_ID x) (mkAddr ip (a_Port (n_Addr x)) None).
Definition to_ipv4_nodes (cns : list Node) : list Node :=
  omap (fun x => let ip := To4 (a_IP (n_Addr x)) in
                 if (length ip =? 0)%nat then None else Some (plain x ip)) cns.
Definition to_ipv6_nodes (cns : list Node) : list Node :=
  map (fun x => plain x (To16 (a_IP (n_Addr x)))) cns.

(** The Go types of the fields. *)
Definition Node_typed (x : Node) : Prop := Hash_wf (n_ID x) /\ is_u16 (a_Port (n_Addr x)).

Lemma to_ipv4_nodes_wf cns : Forall Node_typed cns -> Forall (Node_wf 4) (to_ipv4_nodes cns).
Proof.
  induction 1 as [|x cns [H1 H2] _ IH]; [constructor|]. unfold to_ipv4_nodes. simpl.
  destruct (To4_length (a_IP (n_Addr x))) as [-> | E]; [done|]. rewrite E. simpl.
  constructor; [|done]. by repeat split; simpl; try apply H2.
Qed.

Lemma CompactIPv4Nodes_MarshalBinary_eq cns :
  Forall Node_typed cns ->
  CompactIPv4Nodes_MarshalBinary cns
  = Ok (list_enc (FixedCodec0 := node4_codec) (to_ipv4_nodes cns)).
Proof.
  induction 1 as [|x cns [Hx _] _ IH]; [done|].
  cbn [CompactIPv4Nodes_MarshalBinary to_ipv4_nodes list_omap omap].
  rewrite IH, length_Node_WriteBinary by done. cbn [with_ip n_Addr a_IP].
  destruct (To4_length (a_IP (n_Addr x))) as [-> | E]; [done|]. rewrite E. done.
Qed.

Lemma CompactIPv4Nodes_UnmarshalBinary_eq old b :
  CompactIPv4Nodes_UnmarshalBinary old b =
  if Z.of_nat (length b) mod 26 =? 0
  then set_on_ok old (list_dec (FixedCodec0 := node4_codec) b)
  else (old, Fail (Errorf "CompactIPv4Nodes: invalid node info length")).
Proof. unfold CompactIPv4Nodes_UnmarshalBinary. by destruct (_ =? 0). Qed.

Lemma CompactIPv6Nodes_UnmarshalBinary_eq old b :
  CompactIPv6Nodes_UnmarshalBinary old b =
  if Z.of_nat (length b) mod 38 =? 0
  then set_on_ok old (list_dec (FixedCodec0 := node6_codec) b)
  else (old, Fail (Errorf "CompactIPv6Nodes: invalid node info length")).
Proof. unfold CompactIPv6Nodes_UnmarshalBinary. by destruct (_ =? 0). Qed.

Lemma nodes4_roundtrip old cns :
  Forall Node_typed cns ->
  exists b, CompactIPv4Nodes_MarshalBinary cns = Ok b /\
    length b = (26 * length (to_ipv4_nodes cns))%nat /\
    CompactIPv4Nodes_UnmarshalBinary old b = (to_ipv4_nodes cns, Done).
Proof.
  intros H. eexists. split; [by apply CompactIPv4Nodes_MarshalBinary_eq|].
  apply to_ipv4_nodes_wf in H.
  split; [by apply (length_list_enc (FixedCodec0 := node4_codec))|].
  rewrite CompactIPv4Nodes_UnmarshalBinary_eq.
  rewrite (list_enc_mod (FixedCodec0 := node4_codec)) by done.
  by rewrite (list_dec_enc (FixedCodec0 := node4_codec)).
Qed.

Lemma CompactIPv6Nodes_MarshalBinary_eq cns :
  Forall Node_typed cns ->
  CompactIPv6Nodes_MarshalBinary cns =
  if forallb (fun x => legal_ip (a_IP (n_Addr x))) cns
  then Ok (list_enc (FixedCodec0 := node6_codec) (to_ipv6_nodes cns)) else Panic.
Proof.
  induction 1 as [|x cns [Hx _] _ IH]; [done|].
  cbn [CompactIPv6Nodes_MarshalBinary to_ipv6_nodes map forallb].
  rewrite IH, length_Node_WriteBinary by done. cbn [with_ip n_Addr a_IP]. rewrite length_To16.
  destruct (legal_ip (a_IP (n_Addr x))); [|done]. simpl. by destruct (forallb _ cns).
Qed.

Lemma to_ipv6_nodes_wf cns :
  Forall Node_typed cns -> forallb (fun x => legal_ip (a_IP (n_Addr x))) cns = true ->
  Forall (Node_wf 16) (to_ipv6_nodes cns).
Proof.
  intros H Hl. apply Forall_map. induction H as [|x cns [Hx Hp] _ IH]; [constructor|].
  simpl in Hl. apply andb_true_iff in Hl as [H1 H2]. constructor; [|by apply IH].
  repeat split; try done; simpl; try apply Hp. by rewrite length_To16, H1.
Qed.

Lemma nodes6_roundtrip old cns :
  Forall Node_typed cns -> forallb (fun x => legal_ip (a_IP (n_Addr x))) cns = true ->
  exists b, CompactIPv6Nodes_MarshalBinary cns = Ok b /\
    length b = (38 * length cns)%nat /\
    CompactIPv6Nodes_UnmarshalBinary old b = (to_ipv6_nodes cns, Done).
Proof.
  intros H Hl. rewrite CompactIPv6Nodes_MarshalBinary_eq, Hl by done. eexists. split; [done|].
  pose proof (to_ipv6_nodes_wf _ H Hl) as Hw. split.
  - rewrite (length_list_enc (FixedCodec0 := node6_codec)) by done.
    unfold to_ipv6_nodes. by rewrite length_map.
  - rewrite CompactIPv6Nodes_UnmarshalBinary_eq.
    rewrite (list_enc_mod (FixedCodec0 := node6_codec)) by done.
    by rewrite (list_dec_enc (FixedCodec0 := node6_codec)).
Qed.

(** The id of a node is printed twice as long as it is: "2a" for a "*" is "3261". *)
Example Node_String_twice :
  Node_String (mkNode (replicate 20 x2a) (mkAddr [x0a; x00; x00; x01] 80 None))
  = B "Node<" ++ concat (replicate 20 (B "3261")) ++ B "@10.0.0.1:80>".
Proof. vm_compute. reflexivity. Qed.
