(* ===== verification/CodecThms.v ===== *)
(** * Theorems about hashes, addresses and nodes *)

From S2P Require Import Prelude GoBytes GoNet GoCrypto Bencode BencodeFacts BencodeRoundtrip Codec.
From S2P Require Import Hash MetaAddr KrpcAddr.

(** A hash survives every way of writing it: the bencoded form and the hexadecimal
    form both read back to the same hash, whatever the receiver held before, and every
    reader leaves a receiver of twenty bytes, also when it fails half-way. *)
Theorem hash_roundtrip h o :
  Hash_wf h -> Hash_wf o ->
  (exists b, Hash_MarshalBencode o = Ok b /\ Hash_UnmarshalBencode h b = (o, Done)) /\
  Hash_FromHexString h (Hash_HexString o) = (o, Done) /\
  (forall s, Hash_wf (Hash_FromString h s).1 /\ Hash_wf (Hash_UnmarshalBencode h s).1).
Proof.
  intros Hh Ho. split; [|split].
  - exists (str o). by apply Hash_bencode_roundtrip.
  - by apply Hash_FromHexString_hex.
  - intros s. auto with gobt.
Qed.

Lemma hash_roundtrip_witness :
  let o := NewHashFromBytes (B "go-bt") in
  exists b, Hash_MarshalBencode o = Ok b /\ Hash_UnmarshalBencode zeroHash b = (o, Done).
Proof.
  exact (proj1 (hash_roundtrip zeroHash (NewHashFromBytes (B "go-bt")) eq_refl
    (NewHashFromBytes_wf _))).
Defined.

Lemma Hashes_UnmarshalBencode_str old data :
  Z.of_nat (length data) < 2 ^ 31 ->
  Hashes_UnmarshalBencode old (str data) =
  if Z.of_nat (length data) mod 20 =? 0 then (chunks HashSize data, Done)
  else (old, Fail (Errorf "Hashes: invalid bytes length")).
Proof.
  intros Hl. unfold Hashes_UnmarshalBencode. rewrite via_bytes_str by done.
  change (Z.of_nat HashSize) with 20.
  destruct (Z.eqb_spec (Z.of_nat (length data) mod 20) 0) as [E|E]; [|done]. simpl negb. cbv iota.
  rewrite map_copy_into_zero; [done|]. apply concat_chunks; [unfold HashSize; lia|].
  exact (proj1 (divide_mod (A := Hash) data) E).
Qed.

(** The piece hashes of a torrent: [Hashes.UnmarshalBencode] accepts a bencoded string
    exactly when its length is a multiple of twenty; then the hashes are the consecutive
    blocks of it, and [MarshalBencode] gives the same string back.  On a string of any
    other length it fails and leaves the receiver alone. *)
Theorem hashes_unmarshal_exact old data :
  Z.of_nat (length data) < 2 ^ 31 ->
  (Z.of_nat (length data) mod 20 = 0 ->
     exists hs, Hashes_UnmarshalBencode old (str data) = (hs, Done) /\
       Forall Hash_wf hs /\ concat hs = data /\ Hashes_MarshalBencode hs = Ok (str data)) /\
  (Z.of_nat (length data) mod 20 <> 0 ->
     exists e, Hashes_UnmarshalBencode old (str data) = (old, Fail e)).
Proof.
  intros Hl. rewrite Hashes_UnmarshalBencode_str by done. split; intros E.
  - rewrite E. simpl. eexists. split; [done|].
    destruct (concat_chunks HashSize data) as [Hc Hf]; [unfold HashSize; lia| |].
    { exact (proj1 (divide_mod (A := Hash) data) E). }
    split; [exact Hf|]. split; [done|]. unfold Hashes_MarshalBencode. by rewrite Hc.
  - apply Z.eqb_neq in E. rewrite E. by eexists.
Qed.

Lemma hashes_unmarshal_exact_witness :
  (exists hs, Hashes_UnmarshalBencode [] (str (replicate 40 x07)) = (hs, Done) /\
     Forall Hash_wf hs /\ concat hs = replicate 40 x07 /\
     Hashes_MarshalBencode hs = Ok (str (replicate 40 x07))) /\
  (exists e, Hashes_UnmarshalBencode [] (str (replicate 41 x07)) = ([], Fail e)).
Proof.
  split.
  - exact (proj1 (hashes_unmarshal_exact [] (replicate 40 x07) eq_refl) eq_refl).
  - exact (proj2 (hashes_unmarshal_exact [] (replicate 41 x07) eq_refl) ltac:(done)).
Defined.

(** Compact IPv4 node lists ([nodes] of a DHT response): every slice of nodes is
    written without panic, and reading it back gives the nodes that have an IPv4 address,
    in order, each with its address in four bytes. *)
Theorem nodes4_bencode_roundtrip old cns :
  Forall Node_typed cns -> Z.of_nat (26 * length cns) < 2 ^ 31 ->
  exists b, CompactIPv4Nodes_MarshalBencode cns = Ok b /\
    CompactIPv4Nodes_UnmarshalBencode old b = (to_ipv4_nodes cns, Done).
Proof.
  intros H Hl. destruct (nodes4_roundtrip old cns H) as (b & E & L & D).
  exists (str b). unfold CompactIPv4Nodes_MarshalBencode. rewrite E. split; [done|].
  unfold CompactIPv4Nodes_UnmarshalBencode. rewrite via_bytes_str; [done|].
  assert (length (to_ipv4_nodes cns) <= length cns)%nat; [|lia].
  apply length_omap_le.
Qed.

Definition sample_node : Node :=
  mkNode (replicate 20 x01) (NewAddr (To16 [x7f; x00; x00; x01]) 6881).
Lemma sample_node_typed : Node_typed sample_node.
Proof. split; [done|]. unfold is_u16. simpl. lia. Qed.

Lemma nodes4_bencode_roundtrip_witness :
  exists b, CompactIPv4Nodes_MarshalBencode [sample_node] = Ok b /\
    CompactIPv4Nodes_UnmarshalBencode [] b
    = ([mkNode (replicate 20 x01) (NewAddr [x7f; x00; x00; x01] 6881)], Done).
Proof.
  exact (nodes4_bencode_roundtrip [] [sample_node]
    (Forall_cons_2 _ _ _ sample_node_typed (Forall_nil_2 _)) eq_refl).
Defined.

(** Compact IPv6 node lists ([nodes6]): when every address has a legal length the list
    is written, 38 bytes a node, and read back with every address in sixteen bytes; when
    some address has another length the writer panics, as the code says it does. *)
Theorem nodes6_marshal old cns :
  Forall Node_typed cns ->
  (forallb (fun x => legal_ip (a_IP (n_Addr x))) cns = true /\
   exists b, CompactIPv6Nodes_MarshalBinary cns = Ok b /\ length b = (38 * length cns)%nat /\
     CompactIPv6Nodes_UnmarshalBinary old b = (to_ipv6_nodes cns, Done)) \/
  (forallb (fun x => legal_ip (a_IP (n_Addr x))) cns = false /\
   CompactIPv6Nodes_MarshalBinary cns = Panic).
Proof.
  intros H. destruct (forallb _ cns) eqn:E; [left|right]; (split; [done|]).
  - by apply nodes6_roundtrip.
  - by rewrite CompactIPv6Nodes_MarshalBinary_eq, E.
Qed.

Lemma nodes6_marshal_witness :
  (true = true /\ exists b, CompactIPv6Nodes_MarshalBinary [sample_node] = Ok b /\
     length b = 38%nat /\
     CompactIPv6Nodes_UnmarshalBinary [] b = ([sample_node], Done)) \/
  (true = false /\ CompactIPv6Nodes_MarshalBinary [sample_node] = Panic).
Proof.
  exact (nodes6_marshal [] [sample_node]
    (Forall_cons_2 _ _ _ sample_node_typed (Forall_nil_2 _))).
Defined.

(** A slice of [krpc.CompactIPv6Addrs] cannot be written: the loop converts each
    address with [To4], so it drops every address that is only IPv6, and panics as soon as
    an address has a four-byte form.  [metainfo.CompactIPv6Addrs] converts with [To16]
    and writes 18 bytes for each of the same addresses. *)
Theorem krpc_ipv6_addrs_marshal cas :
  krpc_CompactIPv6Addrs_MarshalBinary cas =
    (if forallb (fun a => length (To4 (a_IP a)) =? 0)%nat cas then Ok [] else Panic) /\
  (forallb (fun a => legal_ip (a_IP a)) cas = true ->
   Forall (fun a => is_u16 (a_Port a)) cas ->
   exists b, CompactIPv6Addrs_MarshalBinary (map compact cas) = Ok b /\
     length b = (18 * length cas)%nat).
Proof.
  split.
  - induction cas as [|a cas IH]; [done|]. cbn [krpc_CompactIPv6Addrs_MarshalBinary forallb].
    cbn [a_IP a_Port a_Orig]. rewrite IH. destruct (To4_length (a_IP a)) as [-> | E]; [done|].
    rewrite Addr_WriteBinary_compact, length_WriteBinary. simpl. by rewrite E.
  - intros Hl Hp. destruct (ipv6_roundtrip [] (map compact cas)) as (b & E & L & _).
    + by apply Forall_map.
    + clear -Hl. induction cas; simpl in *; [done|]. apply andb_true_iff in Hl as [-> ?]. auto.
    + exists b. by rewrite E, L, length_map.
Qed.

Lemma krpc_ipv6_addrs_marshal_witness :
  let a := NewAddr (replicate 15 x00 ++ [x01]) 6881 in
  krpc_CompactIPv6Addrs_MarshalBinary [a] = Ok [] /\
  krpc_CompactIPv6Addrs_MarshalBinary [NewAddr [x7f; x00; x00; x01] 6881] = Panic /\
  exists b, CompactIPv6Addrs_MarshalBinary (map compact [a]) = Ok b /\ length b = 18%nat.
Proof.
  split; [|split].
  - exact (proj1 (krpc_ipv6_addrs_marshal [NewAddr (replicate 15 x00 ++ [x01]) 6881])).
  - exact (proj1 (krpc_ipv6_addrs_marshal [NewAddr [x7f; x00; x00; x01] 6881])).
  - refine (proj2 (krpc_ipv6_addrs_marshal [NewAddr (replicate 15 x00 ++ [x01]) 6881]) eq_refl _).
    constructor; [|constructor]. unfold is_u16. simpl. lia.
Defined.
