(* ===== verification/RoutingTable.v ===== *)
(** * The routing table of the DHT (dht/routing_table.go)

    The table has 160 buckets.  A bucket holds pointers to wrapped nodes, and the code
    moves and duplicates those pointers, so the wrapped nodes live in a store
    ([rt_heap], a pointer is an index) and a bucket is a list of pointers.  The methods
    that run under [rt.lock] are single steps.  The queries that [CheckAllNodes] sends
    to dubious nodes are returned as the list of addresses to ping. *)

From S2P Require Import Prelude GoBytes GoNet GoTime Hash MetaAddr KrpcAddr.

Definition bktlen : nat := 160.
Definition badTimeout : Z := Minute * 20.
Definition dubiousTimeout : Z := Minute * 15.

(** ** Nodes *)

Record wrappedNode : Type := mkWrappedNode { wn_Node : Node; wn_LastChanged : Z; wn_bkt : nat }.
Definition newWrappedNode (bkt : nat) (n : Node) (now : Z) : wrappedNode := mkWrappedNode n now bkt.

Inductive nodeStatus : Type := nodeStatusGood | nodeStatusDubious | nodeStatusBad.
#[export] Instance nodeStatus_eq_dec : EqDecision nodeStatus.
Proof. solve_decision. Defined.

Definition IsBad (n : wrappedNode) (now : Z) : bool := badTimeout <? time_Sub now (wn_LastChanged n).
Definition IsDubious (n : wrappedNode) (now : Z) : bool :=
  dubiousTimeout <? time_Sub now (wn_LastChanged n).
Definition Status (n : wrappedNode) (now : Z) : nodeStatus :=
  let duration := time_Sub now (wn_LastChanged n) in
  if badTimeout <? duration then nodeStatusBad
  else if dubiousTimeout <? duration then nodeStatusDubious
  else nodeStatusGood.

(** ** The distance of nodes *)

Fixpoint distcmp (target a b : Hash) : Z :=
  match target, a, b with
  | t :: target, x :: a, y :: b =>
      let da := b2z (byte_xor x t) in
      let db := b2z (byte_xor y t) in
      if db <? da then 1 else if da <? db then -1 else distcmp target a b
  | _, _, _ => 0
  end.

(** The [switch] of [bucketid] on one byte: the index of the highest bit set. *)
Definition bitDiff (v : byte) : option Z :=
  let has m := 0 <? b2z (byte_and v m) in
  if has x80 then Some 7 else if has x40 then Some 6 else if has x20 then Some 5
  else if has x10 then Some 4 else if has x08 then Some 3 else if has x04 then Some 2
  else if has x02 then Some 1 else if has x01 then Some 0 else None.

Fixpoint bucketid_loop (i : Z) (ownerid nid : Hash) : Z :=
  match ownerid, nid with
  | bite :: ownerid, x :: nid =>
      match bitDiff (byte_xor bite x) with
      | Some d => i * 8 + (7 - d)
      | None => match ownerid with
                | [] => i * 8 + (7 - 0)
                | _ => bucketid_loop (i + 1) ownerid nid
                end
      end
  | _, _ => i * 8 + (7 - 0)
  end.
Definition bucketid (ownerid nid : Hash) : Z := bucketid_loop 0 ownerid nid.

(** ** Buckets and the table *)

Record bucket : Type := mkBucket { b_Nodes : list nat; b_LastChanged : Z }.
Record routingTable : Type := mkRoutingTable {
  rt_k : Z;
  rt_ipv6 : bool;
  rt_root : Hash;
  rt_bkts : list bucket;
  rt_heap : list wrappedNode;
}.

Inductive addStatus : Type := NodeAdded | NodeNotAdded | NodeExistAndUpdated | NodeExistAndChanged.
#[export] Instance addStatus_eq_dec : EqDecision addStatus.
Proof. solve_decision. Defined.

Definition dummy : wrappedNode := mkWrappedNode zeroNode zeroTime 0.
Definition deref (rt : routingTable) (p : nat) : wrappedNode := default dummy (rt_heap rt !! p).
Definition get_bkt (rt : routingTable) (i : nat) : bucket :=
  default (mkBucket [] zeroTime) (rt_bkts rt !! i).
Definition set_bkt (rt : routingTable) (i : nat) (b : bucket) : routingTable :=
  mkRoutingTable (rt_k rt) (rt_ipv6 rt) (rt_root rt) (<[i := b]> (rt_bkts rt)) (rt_heap rt).
Definition set_heap (rt : routingTable) (h : list wrappedNode) : routingTable :=
  mkRoutingTable (rt_k rt) (rt_ipv6 rt) (rt_root rt) (rt_bkts rt) h.

Definition bucket_UpdateLastChangedTime (rt : routingTable) (i : nat) (now : Z) : routingTable :=
  set_bkt rt i (mkBucket (b_Nodes (get_bkt rt i)) now).

(** [wrappedNode.UpdateLastChangedTime]: of the node and of its bucket. *)
Definition UpdateLastChangedTime (rt : routingTable) (p : nat) (now : Z) : routingTable :=
  let n := deref rt p in
  bucket_UpdateLastChangedTime
    (set_heap rt (<[p := mkWrappedNode (wn_Node n) now (wn_bkt n)]> (rt_heap rt))) (wn_bkt n) now.

Definition set_Nodes (rt : routingTable) (i : nat) (ps : list nat) : routingTable :=
  set_bkt rt i (mkBucket ps (b_LastChanged (get_bkt rt i))).

(** [&wrappedNode{...}]: the new pointer is the next free index. *)
Definition alloc (rt : routingTable) (n : wrappedNode) : routingTable * nat :=
  (set_heap rt (rt_heap rt ++ [n]), length (rt_heap rt)).

(** [copy(s[i:], s[i+1:])]: the elements after [i] move down by one; the last one stays
    where it is too. *)
Definition copy_down {A} (i : nat) (s : list A) : list A :=
  take i s ++ drop (S i) s ++ drop (length s - 1) s.

Fixpoint find_ptr (f : wrappedNode -> bool) (rt : routingTable) (i : nat) (ps : list nat)
    : option (nat * nat) :=
  match ps with
  | [] => None
  | p :: ps => if f (deref rt p) then Some (i, p) else find_ptr f rt (S i) ps
  end.

Definition has_id (id : Hash) (w : wrappedNode) : bool := bool_decide (n_ID (wn_Node w) = id).

Definition bucket_AddNode (rt : routingTable) (i : nat) (n : Node) (now : Z)
    : routingTable * addStatus :=
  let ps := b_Nodes (get_bkt rt i) in
  match find_ptr (has_id (n_ID n)) rt 0 ps with
  | Some (_, p) =>
      if Addr_Equal (n_Addr (wn_Node (deref rt p))) (n_Addr n)
      then (UpdateLastChangedTime rt p now, NodeExistAndUpdated)
      else (rt, NodeExistAndChanged)
  | None =>
      if Z.of_nat (length ps) <? rt_k rt then
        let rt := bucket_UpdateLastChangedTime rt i now in
        let '(rt, p) := alloc rt (newWrappedNode i n now) in
        (set_Nodes rt i (ps ++ [p]), NodeAdded)
      else
        match find_ptr (fun w => IsBad w now) rt 0 ps with
        | Some (j, _) =>
            let rt := bucket_UpdateLastChangedTime rt i now in
            let '(rt, p) := alloc rt (newWrappedNode i n now) in
            (set_Nodes rt i (copy_down j ps ++ [p]), NodeAdded)
        | None => (rt, NodeNotAdded)
        end
  end.

(** [append(b.Nodes[:index], b.Nodes[index+1:]...)]; [None] is the slicing panic. *)
Definition delNodeByIndex {A} (index : nat) (ps : list A) : option (list A) :=
  if (index <? length ps)%nat then Some (take index ps ++ drop (S index) ps) else None.

(** The loop that removes the collected indexes: the nodes left, and whether it ran to
    its end. *)
Fixpoint delAll {A} (indexes : list nat) (ps : list A) : list A * bool :=
  match indexes with
  | [] => (ps, true)
  | i :: indexes =>
      match delNodeByIndex i ps with
      | Some ps => delAll indexes ps
      | None => (ps, false)
      end
  end.

Fixpoint bad_indexes (rt : routingTable) (now : Z) (i : nat) (ps : list nat) : list nat :=
  match ps with
  | [] => []
  | p :: ps =>
      match Status (deref rt p) now with
      | nodeStatusBad => i :: bad_indexes rt now (S i) ps
      | _ => bad_indexes rt now (S i) ps
      end
  end.
Definition dubious_addrs (rt : routingTable) (now : Z) (ps : list nat) : list Addr :=
  omap (fun p => match Status (deref rt p) now with
                 | nodeStatusDubious => Some (n_Addr (wn_Node (deref rt p)))
                 | _ => None
                 end) ps.

(** [bucket.CheckAllNodes]: the new table, the addresses pinged, and whether the call
    returned (it can panic). *)
Definition CheckAllNodes (rt : routingTable) (i : nat) (now : Z) : routingTable * list Addr * bool :=
  let b := get_bkt rt i in
  let ps := b_Nodes b in
  if (length ps =? 0)%nat || (time_Sub now (b_LastChanged b) <? dubiousTimeout)
  then (rt, [], true)
  else
    let '(ps', ok) := delAll (bad_indexes rt now 0 ps) ps in
    (set_Nodes rt i ps', dubious_addrs rt now ps, ok).

(** [checkAllBuckets] recovers from a panic, and then the other buckets are not looked at. *)
Fixpoint checkAll_loop (rt : routingTable) (now : Z) (bs : list nat) : routingTable * list Addr :=
  match bs with
  | [] => (rt, [])
  | i :: bs =>
      let '(rt, pings, ok) := CheckAllNodes rt i now in
      if ok then let '(rt, pings') := checkAll_loop rt now bs in (rt, pings ++ pings')
      else (rt, pings)
  end.
Definition checkAllBuckets (rt : routingTable) (now : Z) : routingTable * list Addr :=
  checkAll_loop rt now (seq 0 (length (rt_bkts rt))).

(** [addNode]; [None] is the panic of an index out of range. *)
Definition rt_addNode (rt : routingTable) (n : Node) (now : Z) : option (routingTable * addStatus) :=
  let bktid := bucketid (rt_root rt) (n_ID n) in
  if (0 <=? bktid) && (bktid <? Z.of_nat (length (rt_bkts rt)))
  then Some (bucket_AddNode rt (Z.to_nat bktid) n now) else None.

Definition rt_AddNode (rt : routingTable) (n : Node) (now : Z) : option (routingTable * addStatus) :=
  if bool_decide (n_ID n = rt_root rt) then Some (rt, NodeNotAdded) else rt_addNode rt n now.

Definition rt_Len (rt : routingTable) : nat :=
  foldl (fun n b => n + length (b_Nodes b))%nat 0%nat (rt_bkts rt).

(** [RoutingTableNode] of routing_table_storage.go. *)
Record RoutingTableNode : Type := mkRTNode { rtn_Node : Node; rtn_LastChanged : Z }.

Definition rt_ptrs (rt : routingTable) : list nat := concat (map b_Nodes (rt_bkts rt)).
(** What [dump] hands to the storage (nothing when the list is empty). *)
Definition rt_dump (rt : routingTable) : list RoutingTableNode :=
  map (fun p => let n := deref rt p in mkRTNode (wn_Node n) (wn_LastChanged n)) (rt_ptrs rt).

(** [newRoutingTable], given the configuration and what the storage loaded. *)
Definition emptyTable (k : Z) (ipv6 : bool) (root : Hash) : routingTable :=
  mkRoutingTable k ipv6 root (replicate bktlen (mkBucket [] zeroTime)) [].
Fixpoint load_loop (rt : routingTable) (nodes : list RoutingTableNode) (now : Z) : routingTable :=
  match nodes with
  | [] => rt
  | node :: nodes =>
      let rt := if time_Sub now (rtn_LastChanged node) <? dubiousTimeout
                then match rt_addNode rt (rtn_Node node) (rtn_LastChanged node) with
                     | Some (rt, _) => rt | None => rt end
                else rt in
      load_loop rt nodes now
  end.
Definition newRoutingTable (k : Z) (ipv6 : bool) (root : Hash)
    (loaded : option (list RoutingTableNode)) (now : Z) : routingTable :=
  let rt := emptyTable k ipv6 root in
  match loaded with None => rt | Some nodes => load_loop rt nodes now end.

(** ** The closest nodes *)

Record nodesByDistance : Type := mkNBD { nd_maxnum : Z; nd_target : Hash; nd_nodes : list Node }.

Definition push_nodes (maxnum : Z) (target : Hash) (nodes : list Node) (node : Node) : list Node :=
  let ix := Search (length nodes) (fun i =>
    match nodes !! i with
    | Some x => 0 <? distcmp target (n_ID x) (n_ID node) | None => false end) in
  let nodes := if Z.of_nat (length nodes) <? maxnum then nodes ++ [node] else nodes in
  if negb (ix =? length nodes)%nat
  then take ix nodes ++ [node] ++ take (length nodes - S ix) (drop ix nodes)
  else nodes.
Definition push (ns : nodesByDistance) (node : Node) : nodesByDistance :=
  mkNBD (nd_maxnum ns) (nd_target ns) (push_nodes (nd_maxnum ns) (nd_target ns) (nd_nodes ns) node).

Definition Closest (rt : routingTable) (target : Hash) (maxnum : Z) : list Node :=
  nd_nodes (foldl push (mkNBD maxnum target []) (map (fun p => wn_Node (deref rt p)) (rt_ptrs rt))).
