(* ===== verification/RoutingTableThms.v ===== *)
(** * Theorems about the routing table *)

From S2P Require Import Prelude GoBytes GoNet GoTime Hash MetaAddr KrpcAddr RoutingTable.

(** ** The metric *)

(** The distance of two ids: the XOR of the integers they are in big-endian form. *)
Definition dist (target a : Hash) : Z := Z.lxor (be_decode a) (be_decode target).

Lemma distcmp_compare target a b :
  length a = length target -> length b = length target ->
  distcmp target a b = cmp_int (bytes_compare (Hash_Xor a target) (Hash_Xor b target)).
Proof.
  revert a b. induction target as [|t target IH]; intros [|x a] [|y b] Ha Hb; simpl in *; try done.
  injection Ha as Ha. injection Hb as Hb.
  destruct (Z.compare_spec (b2z (byte_xor x t)) (b2z (byte_xor y t))) as [E|E|E].
  - rewrite E, Z.ltb_irrefl. by apply IH.
  - destruct (Z.ltb_spec (b2z (byte_xor y t)) (b2z (byte_xor x t))); [lia|].
    apply Z.ltb_lt in E. by rewrite E.
  - apply Z.ltb_lt in E. by rewrite E.
Qed.

Lemma distcmp_dist target a b :
  length a = length target -> length b = length target ->
  distcmp target a b = cmp_int (dist target a ?= dist target b).
Proof.
  intros Ha Hb. rewrite distcmp_compare by done.
  rewrite bytes_compare_be by (rewrite !length_Hash_Xor; lia).
  rewrite !be_decode_Xor by done. done.
Qed.

(** [distcmp] orders ids by the Kademlia metric: it is the sign of the comparison of
    the two XOR distances to the target as 160-bit integers, and two ids are at the same
    distance only when they are the same id. *)
Theorem distcmp_xor_metric target a b :
  Hash_wf target -> Hash_wf a -> Hash_wf b ->
  distcmp target a b = cmp_int (dist target a ?= dist target b) /\
  (distcmp target a b = 0 <-> a = b) /\ distcmp target b a = - distcmp target a b.
Proof.
  unfold Hash_wf. intros Ht Ha Hb.
  rewrite !distcmp_dist by congruence. split; [done|].
  rewrite (Z.compare_antisym (dist target a)).
  destruct (Z.compare_spec (dist target a) (dist target b)) as [E|E|E]; simpl.
  - split; [|done]. split; [intros _|done].
    unfold dist in E. apply (f_equal (Z.lxor (be_decode target))) in E.
    rewrite !(Z.lxor_comm (be_decode target)), !Z.lxor_assoc, !Z.lxor_nilpotent, !Z.lxor_0_r in E.
    rewrite <- (be_encode_decode a), <- (be_encode_decode b). congruence.
  - split; [|done]. split; [done|]. intros ->. lia.
  - split; [|done]. split; [done|]. intros ->. lia.
Qed.

Lemma distcmp_xor_metric_witness :
  distcmp zeroHash (replicate 20 x01) (replicate 20 x02)
  = cmp_int (dist zeroHash (replicate 20 x01) ?= dist zeroHash (replicate 20 x02)) /\
  (distcmp zeroHash (replicate 20 x01) (replicate 20 x02) = 0
     <-> replicate 20 x01 = replicate 20 x02) /\
  distcmp zeroHash (replicate 20 x02) (replicate 20 x01)
  = - distcmp zeroHash (replicate 20 x01) (replicate 20 x02).
Proof. exact (distcmp_xor_metric zeroHash (replicate 20 x01) (replicate 20 x02) eq_refl eq_refl eq_refl). Defined.

(** ** Bucket numbers *)

Lemma bitDiff_log2 v : bitDiff v = if b2z v =? 0 then None else Some (Z.log2 (b2z v)).
Proof. destruct v; reflexivity. Qed.

Lemma Zlog2_shift a n x : 0 < a -> 0 <= n -> 0 <= x < 2 ^ n -> Z.log2 (a * 2 ^ n + x) = Z.log2 a + n.
Proof.
  intros Ha Hn Hx. pose proof (Z.log2_nonneg a). apply Z.log2_unique; [lia|].
  pose proof (Z.log2_spec a Ha) as [L U].
  replace (Z.succ (Z.log2 a + n)) with (Z.succ (Z.log2 a) + n) by lia.
  rewrite !Z.pow_add_r by lia. nia.
Qed.

Lemma bucketid_loop_spec i ownerid nid :
  length nid = length ownerid -> ownerid <> [] ->
  bucketid_loop i ownerid nid =
  i * 8 + if decide (be_decode (Hash_Xor ownerid nid) = 0) then 8 * Z.of_nat (length ownerid) - 1
          else 8 * Z.of_nat (length ownerid) - 1 - Z.log2 (be_decode (Hash_Xor ownerid nid)).
Proof.
  revert i nid. induction ownerid as [|o ownerid IH]; intros i [|x nid] Hl Hne; simpl in Hl; try done.
  injection Hl as Hl. cbn [bucketid_loop Hash_Xor zip_with]. fold (Hash_Xor ownerid nid).
  rewrite be_decode_cons, bitDiff_log2, length_Hash_Xor, Hl, Nat.min_id.
  pose proof (be_decode_range (Hash_Xor ownerid nid)) as R.
  rewrite length_Hash_Xor, Hl, Nat.min_id in R.
  pose proof (b2z_range (byte_xor o x)) as Rv. set (v := b2z (byte_xor o x)) in *.
  set (d := be_decode (Hash_Xor ownerid nid)) in *.
  change 256 with (2 ^ 8) in R. rewrite <- Z.pow_mul_r in R by lia.
  change (256 ^ Z.of_nat (length ownerid)) with ((2 ^ 8) ^ Z.of_nat (length ownerid)).
  rewrite <- Z.pow_mul_r by lia.
  destruct (Z.eqb_spec v 0) as [E|E].
  - rewrite E, Z.mul_0_l, Z.add_0_l. destruct ownerid as [|o' ownerid].
    + destruct nid; [|done]. simpl in d. unfold d. simpl. lia.
    + rewrite IH by done. fold d. destruct (decide (d = 0)); simpl length; lia.
  - rewrite decide_False by nia. rewrite Zlog2_shift by lia. simpl length. lia.
Qed.

Lemma bucketid_range root nid : Hash_wf root -> Hash_wf nid -> 0 <= bucketid root nid < 160.
Proof.
  intros Hr Hn. unfold bucketid. rewrite bucketid_loop_spec.
  - pose proof (be_decode_range (Hash_Xor root nid)) as R.
    pose proof (Hash_Xor_wf _ _ Hr Hn) as Hx. rewrite Hx in R.
    rewrite Hr. case_decide; [unfold HashSize; lia|].
    pose proof (Z.log2_nonneg (be_decode (Hash_Xor root nid))).
    assert (Z.log2 (be_decode (Hash_Xor root nid)) < 160) by (apply Z.log2_lt_pow2; [lia|apply R]).
    unfold HashSize. lia.
  - by rewrite Hr.
  - intros ->. done.
Qed.

(** The bucket of a node is given by its distance to the owner: bucket [i] holds the
    ids at distance at least 2^(159-i) and less than 2^(160-i), that is, those that share
    exactly the first [i] bits with the owner; the number is always a legal index of the
    160 buckets. *)
Theorem bucketid_distance root nid :
  Hash_wf root -> Hash_wf nid ->
  0 <= bucketid root nid < Z.of_nat bktlen /\
  (nid <> root ->
   2 ^ (159 - bucketid root nid) <= dist root nid < 2 ^ (160 - bucketid root nid)).
Proof.
  intros Hr Hn. split; [by apply bucketid_range|]. intros Hne.
  assert (Hd : dist root nid <> 0).
  { intros E. apply Hne. unfold dist in E. apply Z.lxor_eq in E.
    rewrite <- (be_encode_decode nid), <- (be_encode_decode root), E, Hr, Hn. done. }
  unfold bucketid. rewrite bucketid_loop_spec; [|by rewrite Hr|by intros ->].
  rewrite be_decode_Xor, Z.lxor_comm by (by rewrite Hr). fold (dist root nid).
  rewrite decide_False by done. rewrite Hr. change (Z.of_nat HashSize) with 20.
  assert (0 < dist root nid).
  { assert (0 <= dist root nid); [|lia]. unfold dist. apply Z.lxor_nonneg.
    split; intros _; apply be_decode_range. }
  pose proof (Z.log2_spec (dist root nid)) as L.
  replace (159 - (0 * 8 + (8 * 20 - 1 - Z.log2 (dist root nid)))) with (Z.log2 (dist root nid)) by lia.
  replace (160 - (0 * 8 + (8 * 20 - 1 - Z.log2 (dist root nid)))) with (Z.succ (Z.log2 (dist root nid))) by lia.
  auto.
Qed.

Lemma bucketid_distance_witness :
  0 <= bucketid zeroHash (replicate 19 x00 ++ [x05]) < Z.of_nat bktlen /\
  (replicate 19 x00 ++ [x05] <> zeroHash ->
   2 ^ (159 - bucketid zeroHash (replicate 19 x00 ++ [x05]))
   <= dist zeroHash (replicate 19 x00 ++ [x05])
   < 2 ^ (160 - bucketid zeroHash (replicate 19 x00 ++ [x05]))).
Proof. exact (bucketid_distance zeroHash (replicate 19 x00 ++ [x05]) eq_refl eq_refl). Defined.

(** ** The closest nodes: [push] is the insertion step of an insertion sort that keeps the
    first [maxnum] elements *)

Definition node_dist (target : Hash) (x : Node) : Z := dist target (n_ID x).
Definition closer (target : Hash) (x y : Node) : Prop := node_dist target x <= node_dist target y.

#[export] Instance closer_trans target : Transitive (closer target).
Proof. intros x y z. unfold closer. lia. Qed.

Fixpoint ins (target : Hash) (x : Node) (l : list Node) : list Node :=
  match l with
  | [] => [x]
  | y :: l => if node_dist target y <=? node_dist target x then y :: ins target x l else x :: y :: l
  end.

Lemma ins_perm target x l : ins target x l ≡ₚ x :: l.
Proof. induction l as [|y l IH]; simpl; [done|]. destruct (_ <=? _); [|done]. rewrite IH. apply perm_swap. Qed.

Lemma ins_sorted target x l :
  StronglySorted (closer target) l -> StronglySorted (closer target) (ins target x l).
Proof.
  induction 1 as [|y l Hs IH Hy]; simpl; [repeat constructor|].
  destruct (Z.leb_spec (node_dist target y) (node_dist target x)) as [H|H].
  - constructor; [done|]. rewrite ins_perm. constructor; [exact H|done].
  - constructor; [by constructor|]. constructor; [unfold closer; lia|].
    eapply Forall_impl; [exact Hy|]. intros z Hz. unfold closer in *. lia.
Qed.

Lemma ins_split target x l ix :
  (ix <= length l)%nat ->
  (forall a y, l !! a = Some y -> (a < ix)%nat -> node_dist target y <= node_dist target x) ->
  (forall a y, l !! a = Some y -> (ix <= a)%nat -> node_dist target x < node_dist target y) ->
  ins target x l = take ix l ++ x :: drop ix l.
Proof.
  revert ix. induction l as [|y l IH]; intros ix Hl H1 H2.
  - simpl in Hl. assert (ix = 0)%nat as -> by lia. done.
  - simpl. destruct ix as [|ix].
    + specialize (H2 0%nat y eq_refl ltac:(lia)).
      destruct (Z.leb_spec (node_dist target y) (node_dist target x)); [lia|done].
    + pose proof (H1 0%nat y eq_refl ltac:(lia)).
      destruct (Z.leb_spec (node_dist target y) (node_dist target x)); [|lia].
      simpl. f_equal. apply IH.
      * simpl in Hl. lia.
      * intros a z Ha Hi. apply (H1 (S a) z Ha). lia.
      * intros a z Ha Hi. apply (H2 (S a) z Ha). lia.
Qed.

Lemma take_ins target x l k : take k (ins target x (take k l)) = take k (ins target x l).
Proof.
  revert k. induction l as [|y l IH]; intros [|k]; try done.
  cbn [take ins]. destruct (_ <=? _); cbn [take]; [by rewrite IH|].
  f_equal. destruct k; [done|]. cbn [take]. by rewrite take_take, Nat.min_l by lia.
Qed.

Lemma distcmp_gt target a b :
  Hash_wf target -> Hash_wf a -> Hash_wf b ->
  (0 <? distcmp target a b) = (dist target b <? dist target a).
Proof.
  unfold Hash_wf. intros Ht Ha Hb. rewrite distcmp_dist by congruence.
  destruct (Z.compare_spec (dist target a) (dist target b)) as [->|E|E]; simpl; symmetry.
  - apply Z.ltb_irrefl.
  - apply Z.ltb_ge. lia.
  - by apply Z.ltb_lt.
Qed.

(** The [sort.Search] of [push] finds the insertion point. *)
Lemma push_search target x l :
  Hash_wf target -> Forall (fun y => Hash_wf (n_ID y)) (x :: l) ->
  StronglySorted (closer target) l ->
  let ix := Search (length l) (fun i =>
    match l !! i with Some y => 0 <? distcmp target (n_ID y) (n_ID x) | None => false end) in
  (ix <= length l)%nat /\ ins target x l = take ix l ++ x :: drop ix l.
Proof.
  intros Ht Hw Hs. apply Forall_cons in Hw as [Hx Hl]. set (f := fun i => _).
  assert (Hf : forall i y, l !! i = Some y -> f i = (node_dist target x <? node_dist target y)).
  { intros i y Hi. unfold f. rewrite Hi. apply distcmp_gt; [done| |done].
    by eapply Forall_lookup_1 in Hl. }
  destruct (Search_spec (length l) f) as (H1 & H2 & H3).
  { intros a b Hab Hb. destruct (lookup_lt_is_Some_2 l a ltac:(lia)) as [y Hy].
    destruct (lookup_lt_is_Some_2 l b Hb) as [z Hz]. rewrite (Hf _ _ Hy), (Hf _ _ Hz), !Z.ltb_lt.
    destruct (decide (a = b)) as [->|]; [naive_solver lia|].
    assert (closer target y z); [|unfold closer in *; lia].
    eapply (StronglySorted_lookup_lt _ l a b); eauto. lia. }
  split; [done|]. apply ins_split; [done|..].
  - intros a y Hy Ha. specialize (H2 a Ha). rewrite (Hf _ _ Hy) in H2. by apply Z.ltb_ge in H2.
  - intros a y Hy Ha. assert (a < length l)%nat by (by apply lookup_lt_Some in Hy).
    specialize (H3 a (conj Ha ltac:(done))). rewrite (Hf _ _ Hy) in H3. by apply Z.ltb_lt in H3.
Qed.

Lemma push_nodes_ins maxnum target x l :
  Hash_wf target -> Forall (fun y => Hash_wf (n_ID y)) (x :: l) ->
  StronglySorted (closer target) l -> (length l <= Z.to_nat maxnum)%nat ->
  push_nodes maxnum target l x = take (Z.to_nat maxnum) (ins target x l).
Proof.
  intros Ht Hw Hs Hl. destruct (push_search target x l Ht Hw Hs) as [Hix ->].
  unfold push_nodes. set (ix := Search _ _) in *. clearbody ix.
  destruct (Z.ltb_spec (Z.of_nat (length l)) maxnum) as [Hlt|Hge].
  - rewrite length_app. simpl length.
    destruct (Nat.eqb_spec ix (length l + 1)); [lia|]. simpl negb. cbv iota.
    rewrite take_app_le, drop_app_le by lia. simpl app.
    rewrite (take_app_le (drop ix l)) by (rewrite length_drop; lia).
    rewrite (firstn_all2 (drop ix l)) by (rewrite length_drop; lia).
    rewrite (firstn_all2 (take ix l ++ x :: drop ix l)); [done|].
    rewrite length_app, length_take. simpl. rewrite length_drop. lia.
  - assert (Z.to_nat maxnum = length l) as -> by lia.
    destruct (Nat.eqb_spec ix (length l)) as [->|Hne]; simpl negb; cbv iota.
    + rewrite firstn_all, drop_all. symmetry. apply take_app_length.
    + rewrite take_app, length_take, Nat.min_l by lia.
      rewrite (firstn_all2 (take ix l)) by (rewrite length_take; lia).
      replace (length l - ix)%nat with (S (length l - S ix)) by lia. done.
Qed.

Lemma closest_fold maxnum target l acc srt :
  Hash_wf target -> Forall (fun y => Hash_wf (n_ID y)) (l ++ srt) ->
  StronglySorted (closer target) srt -> acc = take (Z.to_nat maxnum) srt ->
  nd_nodes (foldl push (mkNBD maxnum target acc) l)
  = take (Z.to_nat maxnum) (foldl (fun s x => ins target x s) srt l).
Proof.
  intros Ht. revert acc srt. induction l as [|x l IH]; intros acc srt Hw Hs ->; [done|].
  cbn [foldl]. unfold push at 2. cbn [nd_maxnum nd_target nd_nodes].
  assert (Hx : Hash_wf (n_ID x)) by (by inv Hw).
  assert (Hsw : Forall (fun y => Hash_wf (n_ID y)) srt) by (by apply Forall_app in Hw as [_ ?]).
  apply IH.
  - apply Forall_cons in Hw as [_ Hw]. apply Forall_app in Hw as [Hl _].
    apply Forall_app_2; [done|]. rewrite ins_perm. by constructor.
  - by apply ins_sorted.
  - rewrite push_nodes_ins, take_ins; [done|done| |by apply StronglySorted_take|].
    + constructor; [done|]. by apply Forall_take.
    + rewrite length_take. lia.
Qed.

Lemma fold_ins target l srt :
  StronglySorted (closer target) srt ->
  StronglySorted (closer target) (foldl (fun s x => ins target x s) srt l) /\
  foldl (fun s x => ins target x s) srt l ≡ₚ l ++ srt.
Proof.
  revert srt. induction l as [|x l IH]; intros srt Hs; [done|]. simpl.
  destruct (IH (ins target x srt) (ins_sorted _ _ _ Hs)) as [H1 H2]. split; [done|].
  rewrite H2, ins_perm. symmetry. apply Permutation_middle.
Qed.

Definition rt_nodes (rt : routingTable) : list Node := map (fun p => wn_Node (deref rt p)) (rt_ptrs rt).
Definition rt_ids_wf (rt : routingTable) : Prop := Forall (fun x => Hash_wf (n_ID x)) (rt_nodes rt).

(** [C9] [Closest] returns the [maxnum] nodes of the table nearest to the target: the
    result is sorted by XOR distance, has [maxnum] elements or all the nodes there are,
    and every node left out is at least as far as every node returned.  ([push] finds the
    place with a binary search and slides the slice in place.) *)
Theorem closest_correct rt target maxnum :
  Hash_wf target -> rt_ids_wf rt ->
  exists rest, Closest rt target maxnum ++ rest ≡ₚ rt_nodes rt /\
    StronglySorted (closer target) (Closest rt target maxnum) /\
    length (Closest rt target maxnum) = Nat.min (Z.to_nat maxnum) (length (rt_nodes rt)) /\
    (forall x y, x ∈ Closest rt target maxnum -> y ∈ rest -> closer target x y).
Proof.
  intros Ht Hw. unfold Closest. fold (rt_nodes rt).
  rewrite (closest_fold maxnum target (rt_nodes rt) [] []);
    [|done|by rewrite app_nil_r|constructor|by destruct (Z.to_nat maxnum)].
  destruct (fold_ins target (rt_nodes rt) []) as [Hs Hp]; [constructor|].
  rewrite app_nil_r in Hp. set (srt := foldl _ _ _) in *.
  exists (drop (Z.to_nat maxnum) srt). rewrite take_drop. split; [done|].
  split; [by apply StronglySorted_take|]. split; [by rewrite length_take, Hp|].
  intros x y. rewrite <- (take_drop (Z.to_nat maxnum) srt) in Hs. revert Hs.
  apply StronglySorted_app_1_elem_of.
Qed.

Definition node_at (b : byte) : Node :=
  mkNode (replicate 19 x00 ++ [b]) (NewAddr [x7f; x00; x00; x01] 1).
Definition sample_table : routingTable :=
  let add rt b := match rt_addNode rt (node_at b) 100 with
                  | Some (rt, _) => rt | None => rt end in
  foldl add (emptyTable 8 false zeroHash) [x09; x04; x06].

Lemma closest_correct_witness :
  map (fun n => last (n_ID n)) (Closest sample_table zeroHash 2) = [Some x04; Some x06] /\
  exists rest, Closest sample_table zeroHash 2 ++ rest ≡ₚ rt_nodes sample_table /\
    StronglySorted (closer zeroHash) (Closest sample_table zeroHash 2) /\
    length (Closest sample_table zeroHash 2) = Nat.min 2 (length (rt_nodes sample_table)) /\
    (forall x y, x ∈ Closest sample_table zeroHash 2 -> y ∈ rest -> closer zeroHash x y).
Proof.
  split; [vm_compute; reflexivity|].
  apply (closest_correct sample_table zeroHash 2); [done|].
  apply (bool_decide_unpack (Forall (fun x => length (n_ID x) = 20%nat) _)). vm_compute. exact I.
Defined.

(** ** The invariant of the table *)

Definition id_of (rt : routingTable) (p : nat) : Hash := n_ID (wn_Node (deref rt p)).

Definition ptr_ok (rt : routingTable) (i p : nat) : Prop :=
  exists w, rt_heap rt !! p = Some w /\ wn_bkt w = i /\ Hash_wf (n_ID (wn_Node w)) /\
    bucketid (rt_root rt) (n_ID (wn_Node w)) = Z.of_nat i.

(** Every pointer of bucket [i] is live and points to a node of that bucket, and a bucket
    never holds two objects for one id. *)
Definition bkt_ok (rt : routingTable) (i : nat) (ps : list nat) : Prop :=
  Forall (ptr_ok rt i) ps /\ forall p q, p ∈ ps -> q ∈ ps -> id_of rt p = id_of rt q -> p = q.

Definition rt_inv (rt : routingTable) : Prop :=
  Hash_wf (rt_root rt) /\ length (rt_bkts rt) = bktlen /\
  forall i b, rt_bkts rt !! i = Some b -> bkt_ok rt i (b_Nodes b).

(** Stores that agree on everything but the times. *)
Definition heap_le (rt rt' : routingTable) : Prop :=
  rt_root rt' = rt_root rt /\
  forall p w, rt_heap rt !! p = Some w ->
    exists w', rt_heap rt' !! p = Some w' /\ wn_bkt w' = wn_bkt w /\ wn_Node w' = wn_Node w.

Lemma deref_ptr rt i p : ptr_ok rt i p -> rt_heap rt !! p = Some (deref rt p).
Proof. intros (w & E & _). unfold deref. by rewrite E. Qed.

Lemma heap_le_ptr rt rt' i p : heap_le rt rt' -> ptr_ok rt i p -> ptr_ok rt' i p /\ id_of rt' p = id_of rt p.
Proof.
  intros [Hr H] (w & E & Hb & Hw & Hi). destruct (H p w E) as (w' & E' & Hb' & Hn').
  split; [exists w'; rewrite Hn', Hb', Hr; done|]. unfold id_of, deref. rewrite E, E'. simpl. by rewrite Hn'.
Qed.

Lemma heap_le_bkt rt rt' i ps : heap_le rt rt' -> bkt_ok rt i ps -> bkt_ok rt' i ps.
Proof.
  intros H [H1 H2]. split.
  - eapply Forall_impl; [exact H1|]. intros p Hp. by eapply heap_le_ptr.
  - rewrite Forall_forall in H1. intros p q Hp Hq.
    destruct (heap_le_ptr _ _ _ p H (H1 p Hp)) as [_ ->].
    destruct (heap_le_ptr _ _ _ q H (H1 q Hq)) as [_ ->]. auto.
Qed.

Lemma bkt_ok_subset rt i ps ps' : bkt_ok rt i ps -> ps' ⊆ ps -> bkt_ok rt i ps'.
Proof.
  intros [H1 H2] Hs. split; [|by intros; apply H2; auto].
  rewrite Forall_forall in *. auto.
Qed.

(** A bucket is replaced and the store grows. *)
Lemma rt_inv_update rt rt' i b' :
  rt_inv rt -> heap_le rt rt' -> rt_bkts rt' = <[i := b']> (rt_bkts rt) ->
  bkt_ok rt' i (b_Nodes b') -> rt_inv rt'.
Proof.
  intros (Hr & Hl & Hb) Hle E Hok. destruct (Hle) as [Hroot _].
  split; [by rewrite Hroot|]. rewrite E. split; [by rewrite length_insert|].
  intros j b Hj. destruct (decide (j = i)) as [->|Hne].
  - apply list_lookup_insert_Some in Hj as [(_ & <- & _)|[? _]]; [done|done].
  - rewrite list_lookup_insert_ne in Hj by done. eapply heap_le_bkt; eauto.
Qed.

Lemma heap_le_refl rt : heap_le rt rt.
Proof. split; [done|]. eauto. Qed.

Lemma heap_le_alloc rt rt' n :
  rt_root rt' = rt_root rt -> rt_heap rt' = rt_heap rt ++ [n] -> heap_le rt rt'.
Proof.
  intros Hr Hh. split; [done|]. intros p w E. exists w.
  rewrite Hh, lookup_app_l by (by eapply lookup_lt_Some). done.
Qed.

Lemma get_bkt_ok rt i : rt_inv rt -> bkt_ok rt i (b_Nodes (get_bkt rt i)).
Proof.
  intros (_ & _ & H). unfold get_bkt. destruct (rt_bkts rt !! i) eqn:E; [by apply H|].
  split; [constructor|]. intros p q Hp. by apply not_elem_of_nil in Hp.
Qed.

Lemma find_ptr_Some f rt k ps j p :
  find_ptr f rt k ps = Some (j, p) ->
  (k <= j)%nat /\ ps !! (j - k)%nat = Some p /\ f (deref rt p) = true.
Proof.
  revert k. induction ps as [|q ps IH]; intros k; simpl; [done|].
  destruct (f (deref rt q)) eqn:E.
  - intros [= <- <-]. rewrite Nat.sub_diag. auto.
  - intros H. apply IH in H as (H1 & H2 & H3). split; [lia|]. split; [|done].
    replace (j - k)%nat with (S (j - S k)) by lia. done.
Qed.

Lemma find_ptr_None f rt k ps : find_ptr f rt k ps = None <-> Forall (fun p => f (deref rt p) = false) ps.
Proof.
  revert k. induction ps as [|q ps IH]; intros k; simpl; [done|].
  rewrite Forall_cons, <- (IH (S k)). destruct (f (deref rt q)); naive_solver.
Qed.

Lemma copy_down_subset {A} j (ps : list A) : copy_down j ps ⊆ ps.
Proof.
  intros x. unfold copy_down. rewrite !elem_of_app.
  intros [H|[H|H]]; eapply elem_of_submseteq; try exact H;
    apply sublist_submseteq; (apply sublist_take || apply sublist_drop).
Qed.

(** The allocating branches of [bucket.AddNode]. *)
Definition with_new (rt : routingTable) (i : nat) (n : Node) (now : Z) (ps : list nat) : routingTable :=
  mkRoutingTable (rt_k rt) (rt_ipv6 rt) (rt_root rt)
    (<[i := mkBucket (ps ++ [length (rt_heap rt)]) now]> (rt_bkts rt))
    (rt_heap rt ++ [newWrappedNode i n now]).

Lemma with_new_inv rt i n now ps :
  rt_inv rt -> Hash_wf (n_ID n) -> bucketid (rt_root rt) (n_ID n) = Z.of_nat i ->
  Forall (fun p => has_id (n_ID n) (deref rt p) = false) (b_Nodes (get_bkt rt i)) ->
  ps ⊆ b_Nodes (get_bkt rt i) -> rt_inv (with_new rt i n now ps).
Proof.
  intros Hinv Hn Hb Hnew Hs. pose proof (get_bkt_ok rt i Hinv) as Hok.
  assert (Hle : heap_le rt (with_new rt i n now ps)) by (by eapply heap_le_alloc).
  eapply rt_inv_update; [done|done|done|]. simpl b_Nodes.
  pose proof (heap_le_bkt _ _ _ _ Hle (bkt_ok_subset _ _ _ _ Hok Hs)) as [H1 H2].
  assert (Hl : rt_heap (with_new rt i n now ps) !! length (rt_heap rt) = Some (newWrappedNode i n now)).
  { simpl. rewrite lookup_app_r, Nat.sub_diag by lia. done. }
  assert (Hid : forall p, p ∈ ps -> id_of (with_new rt i n now ps) p <> n_ID n).
  { intros p Hp Hx. destruct Hok as [Hok _]. rewrite Forall_forall in Hok, Hnew.
    destruct (heap_le_ptr _ _ _ p Hle (Hok p (Hs p Hp))) as [_ E]. rewrite E in Hx.
    specialize (Hnew p (Hs p Hp)). unfold has_id in Hnew. apply bool_decide_eq_false in Hnew. done. }
  assert (Hl' : id_of (with_new rt i n now ps) (length (rt_heap rt)) = n_ID n).
  { unfold id_of, deref. by rewrite Hl. }
  split.
  - apply Forall_app_2; [done|]. constructor; [|constructor]. eexists. split; [exact Hl|]. done.
  - intros p q. rewrite !elem_of_app, !list_elem_of_singleton. intros [Hp| ->] [Hq| ->] E; auto.
    + rewrite Hl' in E. by apply Hid in Hp.
    + rewrite Hl' in E. symmetry in E. by apply Hid in Hq.
Qed.

(** The four ways [bucket.AddNode] goes, in a table with valid buckets. *)
Lemma bucket_AddNode_cases rt i n now rt' st :
  (i < length (rt_bkts rt))%nat -> bucket_AddNode rt i n now = (rt', st) ->
  let ps := b_Nodes (get_bkt rt i) in
  let absent := Forall (fun p => has_id (n_ID n) (deref rt p) = false) ps in
  (exists p, p ∈ ps /\ id_of rt p = n_ID n /\
     Addr_Equal (n_Addr (wn_Node (deref rt p))) (n_Addr n) = true /\
     st = NodeExistAndUpdated /\ rt' = UpdateLastChangedTime rt p now) \/
  (st = NodeExistAndChanged /\ rt' = rt /\ ~ absent) \/
  (absent /\ Z.of_nat (length ps) < rt_k rt /\ st = NodeAdded /\ rt' = with_new rt i n now ps) \/
  (exists j p, absent /\ rt_k rt <= Z.of_nat (length ps) /\ ps !! j = Some p /\
     IsBad (deref rt p) now = true /\ st = NodeAdded /\
     rt' = with_new rt i n now (copy_down j ps)) \/
  (absent /\ rt_k rt <= Z.of_nat (length ps) /\ st = NodeNotAdded /\ rt' = rt /\
     Forall (fun p => IsBad (deref rt p) now = false) ps).
Proof.
  intros Hi. unfold bucket_AddNode. set (ps := b_Nodes (get_bkt rt i)). cbv zeta.
  assert (Hnew : forall qs, set_Nodes
     (set_heap (bucket_UpdateLastChangedTime rt i now)
        (rt_heap (bucket_UpdateLastChangedTime rt i now) ++ [newWrappedNode i n now])) i
     (qs ++ [length (rt_heap (bucket_UpdateLastChangedTime rt i now))]) = with_new rt i n now qs).
  { intros qs. unfold with_new, set_Nodes, set_bkt, set_heap, bucket_UpdateLastChangedTime, get_bkt.
    simpl. unfold get_bkt. simpl.
    rewrite list_lookup_insert_eq by done. simpl. by rewrite list_insert_insert_eq. }
  destruct (find_ptr (has_id (n_ID n)) rt 0 ps) as [[j p]|] eqn:E.
  - apply find_ptr_Some in E as (_ & Hp & Hid). rewrite Nat.sub_0_r in Hp.
    apply list_elem_of_lookup_2 in Hp. unfold has_id in Hid. apply bool_decide_eq_true in Hid.
    destruct (Addr_Equal _ _) eqn:Ea; intros [= <- <-].
    + left. by exists p.
    + right; left. split; [done|]. split; [done|]. intros Hall. rewrite Forall_forall in Hall.
      specialize (Hall p Hp). unfold has_id in Hall. by apply bool_decide_eq_false in Hall.
  - apply find_ptr_None in E. destruct (Z.ltb_spec (Z.of_nat (length ps)) (rt_k rt)).
    + cbn [alloc]. rewrite Hnew. intros [= <- <-]. right; right; left. done.
    + destruct (find_ptr _ rt 0 ps) as [[j p]|] eqn:F.
      * apply find_ptr_Some in F as (_ & Hp & Hbad). rewrite Nat.sub_0_r in Hp.
        cbn [alloc]. rewrite Hnew. intros [= <- <-]. right; right; right; left. by exists j, p.
      * apply find_ptr_None in F. intros [= <- <-]. by do 4 right.
Qed.

Lemma UpdateLastChangedTime_inv rt i p now :
  rt_inv rt -> (i < length (rt_bkts rt))%nat -> p ∈ b_Nodes (get_bkt rt i) ->
  rt_inv (UpdateLastChangedTime rt p now) /\
  rt_bkts (UpdateLastChangedTime rt p now)
  = <[i := mkBucket (b_Nodes (get_bkt rt i)) now]> (rt_bkts rt) /\
  heap_le rt (UpdateLastChangedTime rt p now) /\
  wn_LastChanged (deref (UpdateLastChangedTime rt p now) p) = now.
Proof.
  intros Hinv Hi Hp. pose proof (get_bkt_ok rt i Hinv) as Hok.
  assert (Hpi : ptr_ok rt i p) by (destruct Hok as [H _]; rewrite Forall_forall in H; auto).
  pose proof (deref_ptr _ _ _ Hpi) as Hd. destruct Hpi as (w & E & Hb & _).
  rewrite Hd in E. injection E as E.
  assert (Hle : heap_le rt (UpdateLastChangedTime rt p now)).
  { split; [done|]. intros q v Hq. simpl. destruct (decide (q = p)) as [->|].
    - rewrite list_lookup_insert_eq by (by eapply lookup_lt_Some). eexists. split; [done|].
      rewrite Hd in Hq. injection Hq as <-. done.
    - rewrite list_lookup_insert_ne by done. eauto. }
  assert (Hbk : rt_bkts (UpdateLastChangedTime rt p now)
    = <[i := mkBucket (b_Nodes (get_bkt rt i)) now]> (rt_bkts rt)).
  { simpl. rewrite E, Hb. done. }
  split; [|split; [done|split; [done|]]].
  - eapply rt_inv_update; [done|done|exact Hbk|]. simpl. by eapply heap_le_bkt.
  - unfold deref. simpl. rewrite list_lookup_insert_eq by (by eapply lookup_lt_Some). done.
Qed.

Lemma bucket_AddNode_inv rt i n now :
  rt_inv rt -> (i < bktlen)%nat -> Hash_wf (n_ID n) ->
  bucketid (rt_root rt) (n_ID n) = Z.of_nat i -> rt_inv (bucket_AddNode rt i n now).1.
Proof.
  intros Hinv Hi Hn Hb. destruct (bucket_AddNode rt i n now) as [rt' st] eqn:E. simpl.
  assert (Hl : (i < length (rt_bkts rt))%nat) by (destruct Hinv as (_ & -> & _); done).
  apply bucket_AddNode_cases in E; [|done]. cbv zeta in E.
  destruct E as [(p & Hp & _ & _ & _ & ->)|[(_ & -> & _)|[(Ha & _ & _ & ->)|[(j & p & Ha & _ & _ & _ & _ & ->)|(_ & _ & _ & -> & _)]]]];
    try done.
  - by eapply UpdateLastChangedTime_inv.
  - by apply with_new_inv.
  - apply with_new_inv; auto. apply copy_down_subset.
Qed.

Lemma rt_addNode_Some rt n now :
  rt_inv rt -> Hash_wf (n_ID n) ->
  exists i, Z.of_nat i = bucketid (rt_root rt) (n_ID n) /\ (i < bktlen)%nat /\
    rt_addNode rt n now = Some (bucket_AddNode rt i n now).
Proof.
  intros (Hr & Hl & _) Hn. pose proof (bucketid_range _ _ Hr Hn) as Hb.
  exists (Z.to_nat (bucketid (rt_root rt) (n_ID n))).
  split; [lia|]. split; [unfold bktlen; lia|]. unfold rt_addNode. rewrite Hl.
  destruct (Z.leb_spec 0 (bucketid (rt_root rt) (n_ID n))); [|lia].
  destruct (Z.ltb_spec (bucketid (rt_root rt) (n_ID n)) (Z.of_nat bktlen)); [done|unfold bktlen in *; lia].
Qed.

Lemma delNodeByIndex_subset {A} i (ps ps' : list A) : delNodeByIndex i ps = Some ps' -> ps' ⊆ ps.
Proof.
  unfold delNodeByIndex. destruct (_ <? _)%nat; [|done]. intros [= <-] x. rewrite elem_of_app.
  intros [H|H]; eapply elem_of_submseteq; try exact H;
    apply sublist_submseteq; (apply sublist_take || apply sublist_drop).
Qed.

Lemma delAll_subset {A} is' (ps : list A) : (delAll is' ps).1 ⊆ ps.
Proof.
  revert ps. induction is' as [|i is' IH]; intros ps; simpl; [done|].
  destruct (delNodeByIndex i ps) eqn:E; [|done].
  apply delNodeByIndex_subset in E. set_solver.
Qed.

Lemma set_Nodes_inv rt i ps :
  rt_inv rt -> ps ⊆ b_Nodes (get_bkt rt i) -> rt_inv (set_Nodes rt i ps).
Proof.
  intros H Hs. eapply rt_inv_update; [done|by split; eauto|done|]. simpl.
  eapply (heap_le_bkt rt); [by split; eauto|]. eapply bkt_ok_subset; [by apply get_bkt_ok|done].
Qed.

Lemma CheckAllNodes_inv rt i now : rt_inv rt -> rt_inv (CheckAllNodes rt i now).1.1.
Proof.
  intros H. unfold CheckAllNodes. destruct (_ || _); [done|].
  destruct (delAll _ _) as [ps' ok] eqn:E. simpl. apply set_Nodes_inv; [done|].
  replace ps' with (delAll (bad_indexes rt now 0 (b_Nodes (get_bkt rt i))) (b_Nodes (get_bkt rt i))).1
    by (by rewrite E). apply delAll_subset.
Qed.

Lemma checkAllBuckets_inv rt now : rt_inv rt -> rt_inv (checkAllBuckets rt now).1.
Proof.
  unfold checkAllBuckets. generalize (seq 0 (length (rt_bkts rt))). intros bs. revert rt.
  induction bs as [|i bs IH]; intros rt H; simpl; [done|].
  pose proof (CheckAllNodes_inv rt i now H) as H'.
  destruct (CheckAllNodes rt i now) as [[rt1 pings] []]; simpl in *; [|done].
  specialize (IH rt1 H'). by destruct (checkAll_loop rt1 now bs).
Qed.

Lemma emptyTable_inv k ipv6 root : Hash_wf root -> rt_inv (emptyTable k ipv6 root).
Proof.
  intros H. split; [done|]. split; [by apply length_replicate|].
  intros i b Hb. apply lookup_replicate in Hb as [-> _]. split; [constructor|].
  intros p q Hp. by apply not_elem_of_nil in Hp.
Qed.

(** The life of a routing table: nodes are added (with any clock) and the buckets are
    checked. *)
Inductive rt_reach (k : Z) (ipv6 : bool) (root : Hash) : routingTable -> Prop :=
  | reach_empty : rt_reach k ipv6 root (emptyTable k ipv6 root)
  | reach_add rt n now rt' st :
      rt_reach k ipv6 root rt -> Hash_wf (n_ID n) ->
      rt_addNode rt n now = Some (rt', st) -> rt_reach k ipv6 root rt'
  | reach_check rt now : rt_reach k ipv6 root rt -> rt_reach k ipv6 root (checkAllBuckets rt now).1.

Lemma newRoutingTable_reach k ipv6 root loaded now :
  (forall nodes x, loaded = Some nodes -> x ∈ nodes -> Hash_wf (n_ID (rtn_Node x))) ->
  rt_reach k ipv6 root (newRoutingTable k ipv6 root loaded now).
Proof.
  intros H. unfold newRoutingTable. destruct loaded as [nodes|]; [|constructor].
  assert (Hn : Forall (fun x => Hash_wf (n_ID (rtn_Node x))) nodes)
    by (apply Forall_forall; intros; by eapply H). clear H.
  pose proof (reach_empty k ipv6 root) as Hr. revert Hr. generalize (emptyTable k ipv6 root).
  induction Hn as [|x nodes Hx _ IH]; intros rt Hr; simpl; [done|]. apply IH.
  destruct (_ <? _); [|done]. destruct (rt_addNode _ _ _) as [[rt' st]|] eqn:E; [|done].
  by eapply reach_add.
Qed.

Lemma rt_reach_inv k ipv6 root rt : Hash_wf root -> rt_reach k ipv6 root rt -> rt_inv rt.
Proof.
  intros Hroot. induction 1 as [|rt n now rt' st _ IH Hn E|rt now _ IH].
  - by apply emptyTable_inv.
  - destruct (rt_addNode_Some rt n now IH Hn) as (i & Hi & Hlt & Es).
    rewrite Es in E. injection E as E. rewrite <- (f_equal fst E : _ = rt').
    by apply bucket_AddNode_inv.
  - by apply checkAllBuckets_inv.
Qed.

(** [C8] Every routing table that arises from an empty one, or from the storage, by adding
    nodes and checking buckets keeps its invariant: 160 buckets, every pointer live, every
    node in the bucket its distance asks for, never two objects for one id; and adding a
    node to it cannot index out of the buckets. *)
Theorem routing_table_invariant k ipv6 root rt :
  Hash_wf root -> rt_reach k ipv6 root rt ->
  rt_inv rt /\ rt_ids_wf rt /\
  forall n now, Hash_wf (n_ID n) -> rt_addNode rt n now <> None.
Proof.
  intros Hroot Hr. pose proof (rt_reach_inv _ _ _ _ Hroot Hr) as Hinv. split; [done|]. split.
  - unfold rt_ids_wf, rt_nodes, rt_ptrs. apply Forall_map, Forall_concat, Forall_map.
    apply Forall_lookup. intros i b Hb. destruct Hinv as (_ & _ & H).
    destruct (H i b Hb) as [Hp _]. eapply Forall_impl; [exact Hp|].
    intros p (w & E & _ & Hw & _). unfold deref. by rewrite E.
  - intros n now Hn. destruct (rt_addNode_Some rt n now Hinv Hn) as (i & _ & _ & ->). done.
Qed.

Lemma sample_table_reach : rt_reach 8 false zeroHash sample_table.
Proof.
  apply (reach_add _ _ _ (foldl (fun rt b => match rt_addNode rt (node_at b) 100 with
    | Some (rt, _) => rt | None => rt end) (emptyTable 8 false zeroHash) [x09; x04])
    (node_at x06) 100 _ NodeAdded); [|reflexivity|vm_compute; reflexivity].
  apply (reach_add _ _ _ (foldl (fun rt b => match rt_addNode rt (node_at b) 100 with
    | Some (rt, _) => rt | None => rt end) (emptyTable 8 false zeroHash) [x09])
    (node_at x04) 100 _ NodeAdded); [|reflexivity|vm_compute; reflexivity].
  apply (reach_add _ _ _ (emptyTable 8 false zeroHash)
    (node_at x09) 100 _ NodeAdded); [apply reach_empty|reflexivity|vm_compute; reflexivity].
Qed.

Lemma routing_table_invariant_witness :
  rt_inv sample_table /\ rt_ids_wf sample_table /\
  forall n now, Hash_wf (n_ID n) -> rt_addNode sample_table n now <> None.
Proof.
  exact (routing_table_invariant 8 false zeroHash sample_table eq_refl sample_table_reach).
Defined.

(** ** What adding a node does *)

Definition bucket_of (rt : routingTable) (n : Node) : nat := Z.to_nat (bucketid (rt_root rt) (n_ID n)).
Definition bucket_ptrs (rt : routingTable) (i : nat) : list nat := b_Nodes (get_bkt rt i).

Lemma copy_down_keeps {A} j (ps : list A) a x :
  ps !! a = Some x -> a <> j -> x ∈ copy_down j ps.
Proof.
  intros Ha Hj. unfold copy_down. rewrite !elem_of_app.
  destruct (decide (a < j)%nat).
  - left. apply list_elem_of_lookup. exists a. by rewrite lookup_take_lt.
  - right; left. apply list_elem_of_lookup. exists (a - S j)%nat. rewrite lookup_drop.
    by replace (S j + (a - S j))%nat with a by lia.
Qed.

Lemma length_copy_down {A} j (ps : list A) : (j < length ps)%nat -> length (copy_down j ps) = length ps.
Proof. intros. unfold copy_down. rewrite !length_app, length_take, !length_drop. lia. Qed.

Lemma get_bkt_with_new rt i n now ps :
  (i < length (rt_bkts rt))%nat ->
  get_bkt (with_new rt i n now ps) i = mkBucket (ps ++ [length (rt_heap rt)]) now.
Proof. intros. unfold get_bkt. simpl. by rewrite list_lookup_insert_eq. Qed.

Lemma get_bkt_with_new_ne rt i j n now ps :
  j <> i -> get_bkt (with_new rt i n now ps) j = get_bkt rt j.
Proof. intros. unfold get_bkt. simpl. by rewrite list_lookup_insert_ne. Qed.

Lemma deref_with_new rt i n now ps :
  deref (with_new rt i n now ps) (length (rt_heap rt)) = newWrappedNode i n now.
Proof. unfold deref. simpl. rewrite lookup_app_r, Nat.sub_diag by lia. done. Qed.

(** A node was added: it is in its bucket, with the time of the call, the other buckets
    are as before, and every node that left the bucket was bad. *)
Definition added (rt rt' : routingTable) (i : nat) (n : Node) (now : Z) : Prop :=
  (exists p, p ∈ bucket_ptrs rt' i /\ deref rt' p = mkWrappedNode n now i) /\
  (forall j, j <> i -> get_bkt rt' j = get_bkt rt j) /\
  (forall p, p ∈ bucket_ptrs rt i -> (p ∈ bucket_ptrs rt' i) \/ IsBad (deref rt p) now = true) /\
  b_LastChanged (get_bkt rt' i) = now.

Lemma with_new_added rt i n now ps :
  (i < length (rt_bkts rt))%nat ->
  (forall p, p ∈ bucket_ptrs rt i -> (p ∈ ps) \/ IsBad (deref rt p) now = true) ->
  added rt (with_new rt i n now ps) i n now.
Proof.
  intros Hi H. unfold added, bucket_ptrs. rewrite get_bkt_with_new by done. simpl.
  split; [exists (length (rt_heap rt)); rewrite deref_with_new; set_solver|].
  split; [intros; by apply get_bkt_with_new_ne|]. split; [|done].
  intros p Hp. destruct (H p Hp); [left; set_solver|by right].
Qed.

(** What [AddNode] does, by its status.  [NodeAdded]: the id was not in the bucket; it
    is now, marked with the current time, and only bad nodes were dropped.
    [NodeExistAndUpdated]: the bucket held this id at an equal address; its time is now
    the current one, no pointer of any bucket moved.  [NodeExistAndChanged]: the id is
    there at another address, and the table is unchanged.  [NodeNotAdded]: the bucket is
    full of nodes none of which is bad, and the table is unchanged. *)
Theorem addNode_effect rt n now rt' st :
  rt_inv rt -> Hash_wf (n_ID n) -> rt_addNode rt n now = Some (rt', st) ->
  let i := bucket_of rt n in
  match st with
  | NodeAdded => (n_ID n ∉ map (id_of rt) (bucket_ptrs rt i)) /\ added rt rt' i n now
  | NodeExistAndUpdated =>
      map b_Nodes (rt_bkts rt') = map b_Nodes (rt_bkts rt) /\
      exists p, p ∈ bucket_ptrs rt i /\ id_of rt p = n_ID n /\
        Addr_Equal (n_Addr (wn_Node (deref rt p))) (n_Addr n) = true /\
        wn_LastChanged (deref rt' p) = now
  | NodeExistAndChanged => rt' = rt /\ n_ID n ∈ map (id_of rt) (bucket_ptrs rt i)
  | NodeNotAdded =>
      rt' = rt /\ rt_k rt <= Z.of_nat (length (bucket_ptrs rt i)) /\
      forall p, p ∈ bucket_ptrs rt i -> IsBad (deref rt p) now = false
  end.
Proof.
  intros Hinv Hn E. cbv zeta. destruct (rt_addNode_Some rt n now Hinv Hn) as (i & Hi & Hlt & Es).
  rewrite Es in E. injection E as E. unfold bucket_of. rewrite <- Hi, Nat2Z.id.
  assert (Hl : (i < length (rt_bkts rt))%nat) by (destruct Hinv as (_ & -> & _); done).
  apply bucket_AddNode_cases in E; [|done]. cbv zeta in E.
  assert (Habs : Forall (fun p => has_id (n_ID n) (deref rt p) = false) (b_Nodes (get_bkt rt i))
            <-> n_ID n ∉ map (id_of rt) (bucket_ptrs rt i)).
  { rewrite Forall_forall, list_elem_of_fmap. unfold has_id. setoid_rewrite bool_decide_eq_false.
    unfold bucket_ptrs, id_of. naive_solver. }
  destruct E as [(p & Hp & Hid & Ha & -> & ->)|[(-> & -> & H)|[(H & _ & -> & ->)|[(j & p & H & _ & Hj & Hb & -> & ->)|(_ & Hk & -> & -> & H)]]]].
  - destruct (UpdateLastChangedTime_inv rt i p now Hinv Hl Hp) as (_ & Hbk & _ & Ht).
    split; [|by exists p]. rewrite Hbk, list_fmap_insert. apply list_insert_id. simpl.
    rewrite list_lookup_fmap. unfold get_bkt. destruct (rt_bkts rt !! i) eqn:Eb; [done|].
    apply lookup_ge_None in Eb. lia.
  - split; [done|]. rewrite Habs in H. by destruct (decide (n_ID n ∈ map (id_of rt) (bucket_ptrs rt i))).
  - rewrite Habs in H. split; [done|]. apply with_new_added; [done|]. auto.
  - rewrite Habs in H. split; [done|]. apply with_new_added; [done|].
    unfold bucket_ptrs. intros q Hq. apply list_elem_of_lookup in Hq as [a Ha].
    destruct (decide (a = j)) as [->|]; [right; congruence|left; by eapply copy_down_keeps].
  - split; [done|]. split; [done|]. by rewrite Forall_forall in H.
Qed.

Lemma addNode_effect_witness :
  exists rt', rt_addNode sample_table (node_at x05) 200 = Some (rt', NodeAdded) /\
    (n_ID (node_at x05)
       ∉ map (id_of sample_table) (bucket_ptrs sample_table (bucket_of sample_table (node_at x05)))) /\
    added sample_table rt' (bucket_of sample_table (node_at x05)) (node_at x05) 200.
Proof.
  eexists. split; [vm_compute; reflexivity|].
  exact (addNode_effect sample_table (node_at x05) 200 _ NodeAdded
    (rt_reach_inv 8 false zeroHash _ eq_refl sample_table_reach) eq_refl
    ltac:(vm_compute; reflexivity)).
Defined.

(** The code that makes room in a full bucket does not: when the id is new, the bucket
    holds [k] nodes or more and one of them is bad, [AddNode] shifts the slice and then
    appends to it without shortening it, so the bucket ends with one pointer more than
    before (more than [k]), and its last old node stays in it even when that is the bad
    node to be replaced. *)
Theorem full_bucket_grows rt n now :
  rt_inv rt -> Hash_wf (n_ID n) ->
  let i := bucket_of rt n in
  n_ID n ∉ map (id_of rt) (bucket_ptrs rt i) ->
  rt_k rt <= Z.of_nat (length (bucket_ptrs rt i)) ->
  (exists p, p ∈ bucket_ptrs rt i /\ IsBad (deref rt p) now = true) ->
  exists rt', rt_addNode rt n now = Some (rt', NodeAdded) /\
    length (bucket_ptrs rt' i) = S (length (bucket_ptrs rt i)) /\
    rt_k rt < Z.of_nat (length (bucket_ptrs rt' i)) /\
    (forall p, last (bucket_ptrs rt i) = Some p -> p ∈ bucket_ptrs rt' i).
Proof.
  intros Hinv Hn. destruct (rt_addNode_Some rt n now Hinv Hn) as (i & Hi & Hlt & Es).
  cbv zeta. unfold bucket_of. rewrite <- Hi, Nat2Z.id. intros Habs Hk (p & Hp & Hbad).
  assert (Hl : (i < length (rt_bkts rt))%nat) by (destruct Hinv as (_ & -> & _); done).
  destruct (bucket_AddNode rt i n now) as [rt' st] eqn:E. rewrite Es.
  apply bucket_AddNode_cases in E; [|done]. cbv zeta in E. fold (bucket_ptrs rt i) in E.
  destruct E as [(q & Hq & Hid & _)|[(_ & _ & H)|[(_ & H & _)|[(j & q & _ & _ & Hj & _ & -> & ->)|(_ & _ & _ & _ & H)]]]].
  - destruct Habs. rewrite <- Hid. by apply list_elem_of_fmap_2.
  - destruct H. rewrite Forall_forall. intros q Hq. unfold has_id. apply bool_decide_eq_false.
    intros Hid. apply Habs. rewrite <- Hid. by apply (list_elem_of_fmap_2 (id_of rt)).
  - lia.
  - eexists. split; [done|]. unfold bucket_ptrs. rewrite get_bkt_with_new by done. simpl.
    fold (bucket_ptrs rt i).
    assert (j < length (bucket_ptrs rt i))%nat by (by eapply lookup_lt_Some).
    rewrite length_app, length_copy_down by done. simpl. split; [lia|]. split; [lia|].
    intros x Hx. apply elem_of_app. left. unfold copy_down. rewrite !elem_of_app. right; right.
    rewrite last_lookup in Hx. apply list_elem_of_lookup. exists 0%nat.
    rewrite lookup_drop, Nat.add_0_r. replace (length (bucket_ptrs rt i) - 1)%nat
      with (pred (length (bucket_ptrs rt i))) by lia. done.
  - rewrite Forall_forall in H. rewrite (H p Hp) in Hbad. done.
Qed.

Definition full_table : routingTable :=
  mkRoutingTable 2 false zeroHash (rt_bkts sample_table) (rt_heap sample_table).
Lemma full_table_inv : rt_inv full_table.
Proof. exact (rt_reach_inv 8 false zeroHash sample_table eq_refl sample_table_reach). Qed.

Lemma full_bucket_grows_witness :
  let i := bucket_of full_table (node_at x05) in
  let now := 100 + 21 * Minute in
  exists rt', rt_addNode full_table (node_at x05) now = Some (rt', NodeAdded) /\
    length (bucket_ptrs rt' i) = 3%nat /\ 2 < Z.of_nat (length (bucket_ptrs rt' i)) /\
    (forall p, last (bucket_ptrs full_table i) = Some p -> p ∈ bucket_ptrs rt' i).
Proof.
  refine (full_bucket_grows full_table (node_at x05) (100 + 21 * Minute) full_table_inv eq_refl _ _ _).
  - apply (bool_decide_unpack (n_ID (node_at x05) ∉ _)). vm_compute. exact I.
  - vm_compute. congruence.
  - exists 1%nat. split; [|reflexivity].
    apply (bool_decide_unpack (1%nat ∈ bucket_ptrs full_table _)). vm_compute. exact I.
Defined.

(** ** Checking the buckets *)

Definition is_bad (rt : routingTable) (now : Z) (p : nat) : bool :=
  bool_decide (Status (deref rt p) now = nodeStatusBad).
Definition goods (rt : routingTable) (now : Z) (ps : list nat) : list nat :=
  List.filter (fun p => negb (is_bad rt now p)) ps.

Lemma bad_indexes_cons rt now k p ps :
  bad_indexes rt now k (p :: ps)
  = if is_bad rt now p then k :: bad_indexes rt now (S k) ps else bad_indexes rt now (S k) ps.
Proof. simpl. unfold is_bad. by destruct (Status (deref rt p) now). Qed.

Lemma bad_indexes_app rt now k ps qs :
  bad_indexes rt now k (ps ++ qs)
  = bad_indexes rt now k ps ++ bad_indexes rt now (k + length ps) qs.
Proof.
  revert k. induction ps as [|p ps IH]; intros k; [by rewrite Nat.add_0_r|].
  rewrite <- app_comm_cons, !bad_indexes_cons, IH. simpl length.
  replace (S k + length ps)%nat with (k + S (length ps))%nat by lia.
  by destruct (is_bad rt now p).
Qed.

Lemma bad_indexes_nil rt now k ps : bad_indexes rt now k ps = [] <-> goods rt now ps = ps.
Proof.
  revert k. induction ps as [|p ps IH]; intros k; [done|].
  rewrite bad_indexes_cons. unfold goods. simpl. fold (goods rt now ps).
  destruct (is_bad rt now p); simpl.
  - split; [done|]. intros E. apply (f_equal length) in E.
    pose proof (List.filter_length_le (fun p => negb (is_bad rt now p)) ps). simpl in E.
    unfold goods in E. lia.
  - rewrite (IH (S k)). split; [by intros ->|by intros [= ->]].
Qed.

Lemma bad_indexes_one rt now k ps j :
  bad_indexes rt now k ps = [j] ->
  (k <= j < k + length ps)%nat /\ take (j - k) ps ++ drop (S (j - k)) ps = goods rt now ps.
Proof.
  revert k. induction ps as [|p ps IH]; intros k; [done|].
  rewrite bad_indexes_cons. unfold goods. simpl. fold (goods rt now ps).
  destruct (is_bad rt now p); simpl.
  - intros [= -> E]. rewrite Nat.sub_diag. split; [lia|].
    apply bad_indexes_nil in E. by rewrite E.
  - intros E. apply IH in E as [H1 H2]. split; [lia|].
    replace (j - k)%nat with (S (j - S k)) by lia. simpl. by rewrite H2.
Qed.

(** The bucket was touched less than fifteen minutes ago, or is empty. *)
Definition quiet (rt : routingTable) (i : nat) (now : Z) : bool :=
  (length (bucket_ptrs rt i) =? 0)%nat
  || (time_Sub now (b_LastChanged (get_bkt rt i)) <? dubiousTimeout).

(** [CheckAllNodes] on a bucket with at most one bad node: it returns, the bucket
    keeps exactly the nodes that are not bad, in order, and every dubious node is pinged
    once; a bucket changed within the last fifteen minutes is left alone. *)
Theorem checkAllNodes_one_bad rt i now :
  (i < length (rt_bkts rt))%nat ->
  (length (bad_indexes rt now 0 (bucket_ptrs rt i)) <= 1)%nat ->
  CheckAllNodes rt i now =
  if quiet rt i now then (rt, [], true)
  else (set_Nodes rt i (goods rt now (bucket_ptrs rt i)),
        dubious_addrs rt now (bucket_ptrs rt i), true).
Proof.
  intros Hi Hb. unfold CheckAllNodes, quiet, bucket_ptrs in *. destruct (_ || _); [done|].
  destruct (bad_indexes rt now 0 (b_Nodes (get_bkt rt i))) as [|j [|]] eqn:E; simpl in Hb; [| |lia].
  - simpl. apply bad_indexes_nil in E. by rewrite E.
  - apply bad_indexes_one in E as [H1 H2]. rewrite Nat.sub_0_r in H2. simpl. unfold delNodeByIndex.
    destruct (Nat.ltb_spec j (length (b_Nodes (get_bkt rt i)))); [|lia]. by rewrite H2.
Qed.

Lemma checkAllNodes_one_bad_witness :
  let i := bucket_of sample_table (node_at x09) in
  let now := 100 + 30 * Minute in
  CheckAllNodes sample_table i now
  = (set_Nodes sample_table i [], [], true).
Proof.
  refine (checkAllNodes_one_bad sample_table (bucket_of sample_table (node_at x09)) (100 + 30 * Minute) _ _).
  - apply (bool_decide_unpack (_ < _)%nat). vm_compute. exact I.
  - apply (bool_decide_unpack (_ <= _)%nat). vm_compute. exact I.
Defined.

Lemma delNodeByIndex_length {A} i (ps ps' : list A) :
  delNodeByIndex i ps = Some ps' -> S (length ps') = length ps.
Proof.
  unfold delNodeByIndex. destruct (Nat.ltb_spec i (length ps)); [|done]. intros [= <-].
  rewrite length_app, length_take, length_drop. lia.
Qed.

Lemma delAll_out_of_range {A} idx (ps : list A) m :
  last idx = Some m -> (length ps <= m)%nat -> (delAll idx ps).2 = false.
Proof.
  revert ps. induction idx as [|i idx IH]; intros ps Hl Hm; [done|]. simpl.
  destruct (delNodeByIndex i ps) as [ps'|] eqn:E; [|done].
  pose proof (delNodeByIndex_length _ _ _ E). destruct idx as [|i' idx].
  - simpl in Hl. injection Hl as ->. unfold delNodeByIndex in E.
    destruct (Nat.ltb_spec m (length ps)); [lia|done].
  - apply IH; [done|lia].
Qed.

(** The removal loop deletes by the indexes collected before it started, although each
    deletion shifts the rest down: when the last node of the bucket and another one are
    bad, the loop runs past the end of the slice and panics.  [checkAllBuckets] recovers
    from the panic and does not look at the later buckets. *)
Theorem checkAllNodes_panics rt i now ps p q :
  bucket_ptrs rt i = ps ++ [p] -> is_bad rt now p = true -> q ∈ ps -> is_bad rt now q = true ->
  quiet rt i now = false ->
  (CheckAllNodes rt i now).2 = false /\
  (forall bs, (checkAll_loop rt now (i :: bs)).1 = (CheckAllNodes rt i now).1.1).
Proof.
  intros Hps Hp Hq Hbq Hquiet. assert (E : (CheckAllNodes rt i now).2 = false).
  { unfold CheckAllNodes, quiet, bucket_ptrs in *. rewrite Hquiet, Hps.
    rewrite bad_indexes_app. simpl length. rewrite bad_indexes_cons, Hp. simpl.
    assert (Hne : bad_indexes rt now 0 ps <> []).
    { rewrite bad_indexes_nil. intros E. rewrite <- E in Hq. unfold goods in Hq.
      apply list_elem_of_In, filter_In in Hq as [_ Hq]. by rewrite Hbq in Hq. }
    destruct (bad_indexes rt now 0 ps) as [|j idx]; [done|].
    destruct (delAll _ _) as [ps' ok] eqn:D. simpl. replace ok with (ps', ok).2 by done.
    rewrite <- D. cbn [app delAll]. destruct (delNodeByIndex j (ps ++ [p])) as [l|] eqn:F; [|done].
    apply delNodeByIndex_length in F. rewrite length_app in F. simpl in F.
    apply (delAll_out_of_range _ _ (length ps)); [by rewrite last_snoc|lia]. }
  split; [done|]. intros bs. simpl. destruct (CheckAllNodes rt i now) as [[rt1 pings] ok].
  simpl in *. by subst.
Qed.

Lemma checkAllNodes_panics_witness :
  let i := bucket_of sample_table (node_at x04) in
  let now := 100 + 30 * Minute in
  (CheckAllNodes sample_table i now).2 = false /\
  (forall bs, (checkAll_loop sample_table now (i :: bs)).1 = (CheckAllNodes sample_table i now).1.1).
Proof.
  apply (checkAllNodes_panics sample_table _ (100 + 30 * Minute) [1%nat] 2%nat 1%nat);
    [vm_compute; reflexivity|vm_compute; reflexivity| |vm_compute; reflexivity..].
  by apply list_elem_of_singleton.
Defined.
