(* ===== verification/Krpc.v ===== *)
(** * KRPC messages (krpc/message.go)

    The message structs are records; each has its reflected type ([MessageT], ...) and its
    reflected value ([Message_val], ...), so that a message is encoded and decoded by the
    encoder and decoder of package [bencode] with the struct tags of the source. *)

From S2P Require Import Prelude GoBytes GoNet GoCrypto Bencode BencodeFacts BencodeRoundtrip Codec.
From S2P Require Import Hash MetaAddr KrpcAddr.

Definition ErrorCodeGeneric : Z := 201.
Definition ErrorCodeServer : Z := 202.
Definition ErrorCodeProtocol : Z := 203.
Definition ErrorCodeMethodUnknown : Z := 204.

Record KError : Type := mkKError { e_Code : Z; e_Reason : bytes }.
#[export] Instance KError_eq_dec : EqDecision KError.
Proof. solve_decision. Defined.
Definition NewError (code : Z) (reason : bytes) : KError := mkKError code reason.
Definition KError_Error (e : KError) : bytes :=
  B "KRPC error " ++ format_int (e_Code e) ++ B ": " ++ e_Reason e.

Definition WantNodes : bytes := B "n4".
Definition WantNodes6 : bytes := B "n6".

Record QueryArg : Type := mkQueryArg {
  qa_ID : Hash;
  qa_Target : Hash;
  qa_InfoHash : Hash;
  qa_Port : Z;
  qa_Token : bytes;
  qa_ImpliedPort : bool;
  qa_Wants : list bytes;
}.
#[export] Instance QueryArg_eq_dec : EqDecision QueryArg.
Proof. solve_decision. Defined.
Definition zeroQueryArg : QueryArg := mkQueryArg zeroHash zeroHash zeroHash 0 [] false [].

Definition ContainsWant (a : QueryArg) (w : bytes) : bool :=
  existsb (fun want => bool_decide (want = w)) (qa_Wants a).
Definition GetPort (a : QueryArg) (port : Z) : Z := if qa_ImpliedPort a then u16 port else qa_Port a.

Record ResponseResult : Type := mkResponseResult {
  rr_ID : Hash;
  rr_Nodes : list Node;
  rr_Nodes6 : list Node;
  rr_Token : bytes;
  rr_Values : list bytes;
}.
#[export] Instance ResponseResult_eq_dec : EqDecision ResponseResult.
Proof. solve_decision. Defined.
Definition zeroResponseResult : ResponseResult := mkResponseResult zeroHash [] [] [] [].

Record Message : Type := mkMessage {
  m_T : bytes;
  m_Y : bytes;
  m_Q : bytes;
  m_A : QueryArg;
  m_R : ResponseResult;
  m_E : KError;
  m_RO : bool;
}.
#[export] Instance Message_eq_dec : EqDecision Message.
Proof. solve_decision. Defined.

Definition zeroMessage : Message :=
  mkMessage [] [] [] zeroQueryArg zeroResponseResult (mkKError 0 []) false.
Definition NewQueryMsg (tid method : bytes) (arg : QueryArg) : Message :=
  mkMessage tid (B "q") method arg zeroResponseResult (mkKError 0 []) false.
Definition NewResponseMsg (tid : bytes) (data : ResponseResult) : Message :=
  mkMessage tid (B "r") [] zeroQueryArg data (mkKError 0 []) false.
Definition NewErrorMsg (tid : bytes) (code : Z) (reason : bytes) : Message :=
  mkMessage tid (B "e") [] zeroQueryArg zeroResponseResult (mkKError code reason) false.

Definition IsQuery (m : Message) : bool := bool_decide (m_Y m = B "q").
Definition IsResponse (m : Message) : bool := bool_decide (m_Y m = B "r").
Definition IsError (m : Message) : bool := bool_decide (m_Y m = B "e").
Definition RID (m : Message) : Hash := rr_ID (m_R m).
Definition QID (m : Message) : Hash := qa_ID (m_A m).
Definition Message_ID (m : Message) : res Hash :=
  if IsQuery m then Ok (QID m) else if IsResponse m then Ok (RID m) else Panic.

(** ** The bencode methods of [Error] *)

(** The statements of [Error.decode]: an index out of range and a failed type assertion panic. *)
Definition KError_assign (e : KError) (vs : list gval) : recv KError :=
  match vs !! 0%nat with
  | Some (VIface (Some (VInt code))) =>
      let e := mkKError code (e_Reason e) in
      match vs !! 1%nat with
      | Some (VIface (Some (VString s))) => (mkKError code s, Done)
      | _ => (e, Panicked)
      end
  | _ => (e, Panicked)
  end.

(** [defer func() { if r := recover(); r != nil { err = fmt.Errorf("panic: %v", r) } }()]. *)
Definition recovered {A} (x : recv A) : recv A :=
  match x with (a, Panicked) => (a, Fail (Errorf "panic")) | x => x end.

Definition KError_decode (e : KError) (vs : list gval) : recv KError := recovered (KError_assign e vs).

Definition KError_UnmarshalBencode (e : KError) (b : bytes) : recv KError :=
  match DecodeBytes b TIface (VIface None) with
  | (VIface (Some v), Done) =>
      match v with
      | VSlice vs => KError_decode e vs
      | VString s => (mkKError (e_Code e) s, Done)
      | _ => (e, Fail (Errorf "KRPC error bencode value has unexpected type"))
      end
  | (_, Done) => (e, Fail (Errorf "KRPC error bencode value has unexpected type"))
  | (_, o) => (e, o)
  end.

Definition KError_MarshalBencode (e : KError) : res bytes :=
  if (e_Code e =? 0) && bool_decide (e_Reason e = []) then Ok []
  else EncodeBytes (TSlice TIface)
         (VSlice [VIface (Some (VInt (e_Code e))); VIface (Some (VString (e_Reason e)))]).

(** ** Reflected types and values *)

Definition vbyte (v : gval) : byte := match v with VUint z => z2b z | _ => x00 end.
Definition vbytes (l : bytes) : list gval := map (fun b => VUint (b2z b)) l.
Definition Hash_val (h : Hash) : gval := VArray (vbytes h).
Definition val_Hash (v : gval) : Hash := match v with VArray l => map vbyte l | _ => [] end.
Definition HashT : gtype :=
  bencodeT val_Hash Hash_val (TArray 20 (TUint 8)) Hash_UnmarshalBencode Hash_MarshalBencode.

Definition Addr_val (a : Addr) : gval :=
  VStruct [VBytes (a_IP a); VUint (a_Port a);
           VIface (match a_Orig a with None => None | Some u =>
             Some (VPtr (Some (VStruct [VBytes (ua_IP u); VInt (ua_Port u)]))) end)].
Definition val_Addr (v : gval) : Addr :=
  match v with
  | VStruct [VBytes ip; VUint port; VIface o] =>
      mkAddr ip port (match o with
                      | Some (VPtr (Some (VStruct [VBytes i; VInt p]))) => Some (mkUDPAddr i p)
                      | _ => None end)
  | _ => zeroAddr
  end.
Definition Node_val (n : Node) : gval := VStruct [Hash_val (n_ID n); Addr_val (n_Addr n)].
Definition val_Node (v : gval) : Node :=
  match v with VStruct [h; a] => mkNode (val_Hash h) (val_Addr a) | _ => zeroNode end.
Definition Nodes_val (l : list Node) : gval := VSlice (map Node_val l).
Definition val_Nodes (v : gval) : list Node := match v with VSlice l => map val_Node l | _ => [] end.
Definition Nodes4T : gtype :=
  bencodeT val_Nodes Nodes_val (TSlice TOther)
    CompactIPv4Nodes_UnmarshalBencode CompactIPv4Nodes_MarshalBencode.
Definition Nodes6T : gtype :=
  bencodeT val_Nodes Nodes_val (TSlice TOther)
    CompactIPv6Nodes_UnmarshalBencode CompactIPv6Nodes_MarshalBencode.

Definition KError_val (e : KError) : gval := VStruct [VInt (e_Code e); VString (e_Reason e)].
Definition val_KError (v : gval) : KError :=
  match v with VStruct [VInt c; VString s] => mkKError c s | _ => mkKError 0 [] end.
Definition ErrorT : gtype :=
  bencodeT val_KError KError_val
    (TStruct [(Field (B "Code") [] true true false, TInt 64);
              (Field (B "Reason") [] true true false, TString)])
    KError_UnmarshalBencode KError_MarshalBencode.

Definition vstr (v : gval) : bytes := match v with VString s => s | _ => [] end.
Definition vstrs (v : gval) : list bytes := match v with VSlice l => map vstr l | _ => [] end.

Definition QueryArgT : gtype := TStruct [
  exported (B "ID") (B "id") HashT;
  exported (B "Target") (B "target,omitempty") HashT;
  exported (B "InfoHash") (B "info_hash,omitempty") HashT;
  exported (B "Port") (B "port,omitempty") (TUint 16);
  exported (B "Token") (B "token,omitempty") TString;
  exported (B "ImpliedPort") (B "implied_port,omitempty") TBool;
  exported (B "Wants") (B "want,omitempty") (TSlice TString)].
Definition QueryArg_val (a : QueryArg) : gval :=
  VStruct [Hash_val (qa_ID a); Hash_val (qa_Target a); Hash_val (qa_InfoHash a);
           VUint (qa_Port a); VString (qa_Token a); VBool (qa_ImpliedPort a);
           VSlice (map VString (qa_Wants a))].
Definition val_QueryArg (v : gval) : QueryArg :=
  match v with
  | VStruct [i; t; h; VUint p; VString k; VBool b; w] =>
      mkQueryArg (val_Hash i) (val_Hash t) (val_Hash h) p k b (vstrs w)
  | _ => zeroQueryArg
  end.

Definition ResponseResultT : gtype := TStruct [
  exported (B "ID") (B "id") HashT;
  exported (B "Nodes") (B "nodes,omitempty") Nodes4T;
  exported (B "Nodes6") (B "nodes6,omitempty") Nodes6T;
  exported (B "Token") (B "token,omitempty") TString;
  exported (B "Values") (B "values,omitempty") (TSlice TString)].
Definition ResponseResult_val (x : ResponseResult) : gval :=
  VStruct [Hash_val (rr_ID x); Nodes_val (rr_Nodes x); Nodes_val (rr_Nodes6 x);
           VString (rr_Token x); VSlice (map VString (rr_Values x))].
Definition val_ResponseResult (v : gval) : ResponseResult :=
  match v with
  | VStruct [i; n4; n6; VString k; vs] =>
      mkResponseResult (val_Hash i) (val_Nodes n4) (val_Nodes n6) k (vstrs vs)
  | _ => zeroResponseResult
  end.

Definition MessageT : gtype := TStruct [
  exported (B "T") (B "t") TString;
  exported (B "Y") (B "y") TString;
  exported (B "Q") (B "q,omitempty") TString;
  exported (B "A") (B "a,omitempty") QueryArgT;
  exported (B "R") (B "r,omitempty") ResponseResultT;
  exported (B "E") (B "e,omitempty") ErrorT;
  exported (B "RO") (B "ro,omitempty") TBool].
Definition Message_val (m : Message) : gval :=
  VStruct [VString (m_T m); VString (m_Y m); VString (m_Q m); QueryArg_val (m_A m);
           ResponseResult_val (m_R m); KError_val (m_E m); VBool (m_RO m)].
Definition val_Message (v : gval) : Message :=
  match v with
  | VStruct [VString t; VString y; VString q; a; x; e; VBool ro] =>
      mkMessage t y q (val_QueryArg a) (val_ResponseResult x) (val_KError e) ro
  | _ => zeroMessage
  end.

(** [bencode.EncodeBytes(m)], [bencode.DecodeBytes(data, &msg)]. *)
Definition encodeMessage (m : Message) : res bytes := EncodeBytes MessageT (Message_val m).
Definition decodeMessage (data : bytes) : res Message :=
  match DecodeBytes data MessageT (Message_val zeroMessage) with
  | (v, Done) => Ok (val_Message v)
  | (_, Fail e) => Err e
  | (_, _) => Panic
  end.

(** The views are faithful. *)
Lemma val_Hash_val h : val_Hash (Hash_val h) = h.
Proof.
  unfold val_Hash, Hash_val, vbytes. rewrite map_map. simpl.
  induction h as [|b h IH]; simpl; [done|]. by rewrite z2b_b2z, IH.
Qed.
Lemma val_Node_val n : val_Node (Node_val n) = n.
Proof.
  destruct n as [h [ip port o]]. unfold val_Node, Node_val. rewrite val_Hash_val.
  simpl. by destruct o as [[]|].
Qed.
Lemma val_Nodes_val l : val_Nodes (Nodes_val l) = l.
Proof.
  unfold val_Nodes, Nodes_val. rewrite map_map.
  induction l as [|x l IH]; cbn [map]; [done|]. by rewrite IH, val_Node_val.
Qed.
Lemma vstrs_val l : vstrs (VSlice (map VString l)) = l.
Proof. simpl. rewrite map_map. apply map_id. Qed.
Lemma val_QueryArg_val a : val_QueryArg (QueryArg_val a) = a.
Proof.
  destruct a. unfold val_QueryArg, QueryArg_val. by rewrite !val_Hash_val, vstrs_val.
Qed.
Lemma val_ResponseResult_val x : val_ResponseResult (ResponseResult_val x) = x.
Proof.
  destruct x. unfold val_ResponseResult, ResponseResult_val.
  by rewrite val_Hash_val, !val_Nodes_val, vstrs_val.
Qed.
Lemma val_Message_val m : val_Message (Message_val m) = m.
Proof.
  destruct m as [t y q a x e ro]. unfold val_Message, Message_val.
  rewrite val_QueryArg_val, val_ResponseResult_val. by destruct e.
Qed.

Example message_get_peers :
  let m := NewQueryMsg (B "1") (B "get_peers")
    (mkQueryArg (replicate 20 x41) zeroHash (replicate 20 x42) 0 [] false [WantNodes]) in
  res_bind (encodeMessage m) decodeMessage = Ok m.
Proof. vm_compute. reflexivity. Qed.
Example message_reply :
  let m := NewResponseMsg (B "1") (mkResponseResult (replicate 20 x41)
    [mkNode (replicate 20 x43) (NewAddr [x7f; x00; x00; x01] 6881)] [] (B "tok") [B "peer"]) in
  res_bind (encodeMessage m) decodeMessage = Ok m.
Proof. vm_compute. reflexivity. Qed.
Example message_error :
  let m := NewErrorMsg (B "1") 204 (B "unknown") in
  res_bind (encodeMessage m) decodeMessage = Ok m.
Proof. vm_compute. reflexivity. Qed.
