(* ===== verification/KrpcThms.v ===== *)
(** * Theorems about KRPC messages

    The round trip of a whole message through the struct encoder and decoder of package
    [bencode], put together from the fields by [BencodeStruct]. *)

From S2P Require Import Prelude GoBytes GoNet GoCrypto Bencode BencodeFacts BencodeRoundtrip Codec.
From S2P Require Import BencodeStruct Hash MetaAddr KrpcAddr Krpc.

(** ** Fields with methods *)

Lemma Hash_enc h : enc_as HashT (Hash_val h) (str h).
Proof. apply bencodeT_enc. by rewrite val_Hash_val. Qed.
Lemma Hash_short h : Hash_wf h -> short h.
Proof. unfold short. intros ->. done. Qed.
Lemma Hash_dec h : Hash_wf h -> dec_as HashT (Hash_val zeroHash) (str h) (Hash_val h).
Proof.
  intros H. apply bencodeT_dec; [by apply raw_as_str, Hash_short|].
  rewrite val_Hash_val. by apply Hash_bencode_roundtrip.
Qed.

Lemma Nodes4_enc cns :
  Forall Node_typed cns ->
  exists b, CompactIPv4Nodes_MarshalBinary cns = Ok b /\ enc_as Nodes4T (Nodes_val cns) (str b).
Proof.
  intros H. destruct (nodes4_roundtrip [] cns H) as (b & E & _ & _). exists b. split; [done|].
  apply bencodeT_enc. rewrite val_Nodes_val. unfold CompactIPv4Nodes_MarshalBencode. by rewrite E.
Qed.
Lemma Nodes6_enc cns :
  Forall Node_typed cns -> forallb (fun x => legal_ip (a_IP (n_Addr x))) cns = true ->
  exists b, CompactIPv6Nodes_MarshalBinary cns = Ok b /\ enc_as Nodes6T (Nodes_val cns) (str b).
Proof.
  intros H Hi. destruct (nodes6_roundtrip [] cns H Hi) as (b & E & _ & _). exists b. split; [done|].
  apply bencodeT_enc. rewrite val_Nodes_val. unfold CompactIPv6Nodes_MarshalBencode. by rewrite E.
Qed.

Lemma Nodes4_codec cns :
  Forall Node_typed cns -> Z.of_nat (26 * length cns) < 2 ^ 31 ->
  exists b, enc_as Nodes4T (Nodes_val cns) b /\
    dec_as Nodes4T (Nodes_val []) b (Nodes_val (to_ipv4_nodes cns)).
Proof.
  intros H Hl. destruct (nodes4_roundtrip [] cns H) as (b & E & L & D).
  assert (length (to_ipv4_nodes cns) <= length cns)%nat by apply length_omap_le.
  destruct (Nodes4_enc cns H) as (b' & E' & He). rewrite E in E'. injection E' as <-.
  exists (str b). split.
  - exact He.
  - apply bencodeT_dec; [apply raw_as_str; lia|].
    unfold CompactIPv4Nodes_UnmarshalBencode. rewrite via_bytes_str by lia. done.
Qed.

Lemma Nodes6_codec cns :
  Forall Node_typed cns -> forallb (fun x => legal_ip (a_IP (n_Addr x))) cns = true ->
  Z.of_nat (38 * length cns) < 2 ^ 31 ->
  exists b, enc_as Nodes6T (Nodes_val cns) b /\
    dec_as Nodes6T (Nodes_val []) b (Nodes_val (to_ipv6_nodes cns)).
Proof.
  intros H Hi Hl. destruct (nodes6_roundtrip [] cns H Hi) as (b & E & L & D).
  destruct (Nodes6_enc cns H Hi) as (b' & E' & He). rewrite E in E'. injection E' as <-.
  exists (str b). split.
  - exact He.
  - apply bencodeT_dec; [apply raw_as_str; lia|].
    unfold CompactIPv6Nodes_UnmarshalBencode. rewrite via_bytes_str by lia. done.
Qed.

Definition KError_bytes (e : KError) : bytes := listing [int (e_Code e); str (e_Reason e)].

Lemma KError_enc e : isEmptyValue (KError_val e) = false -> enc_as ErrorT (KError_val e) (KError_bytes e).
Proof.
  destruct e as [c s]. intros H. apply bencodeT_enc. cbn [val_KError KError_val].
  unfold KError_MarshalBencode. cbn [e_Code e_Reason].
  assert ((c =? 0) && bool_decide (s = []) = false) as ->.
  { cbn in H. destruct (c =? 0); [|done]. cbn in *. destruct s; [done|]. by rewrite bool_decide_eq_false_2. }
  apply EncodeBytes_as, enc_as_slice.
  repeat constructor; intros [|f] Hf; cbn in Hf |- *; try lia; done.
Qed.

Lemma KError_dec e :
  - 2 ^ 63 <= e_Code e < 2 ^ 63 -> short (e_Reason e) ->
  dec_as ErrorT (KError_val (mkKError 0 [])) (KError_bytes e) (KError_val e).
Proof.
  destruct e as [c s]. cbn [e_Code e_Reason]. intros Hc Hs. apply bencodeT_dec.
  - apply raw_as_list, Forall_cons. split; [apply raw_as_int|]. apply Forall_singleton. by apply raw_as_str.
  - set (w := VSlice [VIface (Some (VInt c)); VIface (Some (VString s))]).
    assert (generic w) as Hw by (split; [exact Hc|split; [exact Hs|exact I]]).
    unfold KError_UnmarshalBencode, DecodeBytes, Decode, KError_bytes.
    change (listing [int (e_Code (mkKError c s)); str (e_Reason (mkKError c s))]) with (genc w).
    rewrite (decodeInto_generic w Hw _ (NewDecoder (genc w)) []);
      [done|done|by rewrite app_nil_r|simpl; lia].
Qed.

Lemma KError_zero e : isEmptyValue (KError_val e) = true -> e = mkKError 0 [].
Proof. destruct e as [[] []]; done. Qed.

Lemma isEmpty_Hash h : Hash_wf h -> isEmptyValue (Hash_val h) = false.
Proof. intros H. unfold Hash_val, vbytes. cbn. rewrite length_map, H. done. Qed.

Lemma isZero_Hash h : Hash_wf h -> isZero (Hash_val h) = true -> h = zeroHash.
Proof.
  unfold Hash_wf, zeroHash. intros <-. cbn. unfold vbytes. induction h as [|b h IH]; [done|].
  cbn. intros H. apply andb_true_iff in H as [Hb H]. rewrite IH by done. f_equal.
  - rewrite <- (z2b_b2z b). apply Z.eqb_eq in Hb. by rewrite Hb.
  - by rewrite length_replicate.
Qed.

(** ** [QueryArg] *)

Record QueryArg_wf (a : QueryArg) : Prop := {
  qa_id_wf : Hash_wf (qa_ID a); qa_target_wf : Hash_wf (qa_Target a);
  qa_hash_wf : Hash_wf (qa_InfoHash a); qa_port_wf : is_u16 (qa_Port a);
  qa_token_wf : short (qa_Token a); qa_wants_wf : Forall short (qa_Wants a) }.

Definition QueryArg_entries (a : QueryArg) : list (bytes * bytes) :=
  (B "id", str (qa_ID a)) ::
  opt (negb (qa_ImpliedPort a)) (B "implied_port", int (if qa_ImpliedPort a then 1 else 0)) ++
  (B "info_hash", str (qa_InfoHash a)) ::
  opt (qa_Port a =? 0) (B "port", int (qa_Port a)) ++
  (B "target", str (qa_Target a)) ::
  opt (length (qa_Token a) =? 0)%nat (B "token", str (qa_Token a)) ++
  opt (length (map VString (qa_Wants a)) =? 0)%nat (B "want", listing (map str (qa_Wants a))) ++ [].

Lemma QueryArg_sorted a :
  Hash_wf (qa_Target a) -> Hash_wf (qa_InfoHash a) ->
  sort_by_key (readStruct QueryArgT (QueryArg_val a)) =
  (B "id", (HashT, Hash_val (qa_ID a))) ::
  opt (negb (qa_ImpliedPort a)) (B "implied_port", (TBool, VBool (qa_ImpliedPort a))) ++
  (B "info_hash", (HashT, Hash_val (qa_InfoHash a))) ::
  opt (qa_Port a =? 0) (B "port", (TUint 16, VUint (qa_Port a))) ++
  (B "target", (HashT, Hash_val (qa_Target a))) ::
  opt (length (qa_Token a) =? 0)%nat (B "token", (TString, VString (qa_Token a))) ++
  opt (length (map VString (qa_Wants a)) =? 0)%nat
    (B "want", (TSlice TString, VSlice (map VString (qa_Wants a)))) ++ [].
Proof.
  intros H1 H2. apply isEmpty_Hash in H1, H2. unfold QueryArg_val.
  destruct a as [i t h p k b w]. cbn [qa_ID qa_Target qa_InfoHash qa_Port qa_Token qa_ImpliedPort qa_Wants] in *.
  set (hi := Hash_val i) in *. set (ht := Hash_val t) in *. set (hh := Hash_val h) in *.
  set (ws := map VString w).
  transitivity (sort_by_key (
    (B "id", (HashT, hi)) :: opt (isEmptyValue ht) (B "target", (HashT, ht)) ++
    opt (isEmptyValue hh) (B "info_hash", (HashT, hh)) ++
    opt (p =? 0) (B "port", (TUint 16, VUint p)) ++
    opt (length k =? 0)%nat (B "token", (TString, VString k)) ++
    opt (negb b) (B "implied_port", (TBool, VBool b)) ++
    opt (length ws =? 0)%nat (B "want", (TSlice TString, VSlice ws)) ++ [])); [reflexivity|].
  rewrite H1, H2. destruct b, (p =? 0), (length k =? 0)%nat, (length ws =? 0)%nat; reflexivity.
Qed.

Lemma QueryArg_enc a :
  Hash_wf (qa_Target a) -> Hash_wf (qa_InfoHash a) ->
  enc_as QueryArgT (QueryArg_val a) (dictionary (QueryArg_entries a)).
Proof.
  intros H1 H2 [|f] Hf; [lia|]. apply enc_as_struct. rewrite QueryArg_sorted by done.
  unfold QueryArg_val in Hf. cbn [depth foldr] in Hf. unfold QueryArg_entries.
  entries; [apply Hash_enc|apply enc_as_bool|apply Hash_enc|apply enc_as_uint|apply Hash_enc
           |apply enc_as_string|apply strings_enc].
Qed.

Lemma QueryArg_dec a :
  QueryArg_wf a ->
  dec_as QueryArgT (QueryArg_val zeroQueryArg) (dictionary (QueryArg_entries a)) (QueryArg_val a).
Proof.
  intros []. unfold QueryArgT. apply dec_as_struct. unfold QueryArg_entries. repeat fill.
  all: first [by apply Hash_dec|by apply dec_as_bool|by apply dec_as_uint|by apply dec_as_string
             |by apply strings_dec|omitted].
Qed.

(** The zero value is the only one that is left out as an empty struct. *)
Lemma QueryArg_zero a :
  QueryArg_wf a -> isEmptyValue (QueryArg_val a) = true -> a = zeroQueryArg.
Proof.
  intros [] Hz. destruct a as [i t h p k b w]. unfold QueryArg_val in Hz. cbn [isEmptyValue isZero forallb] in Hz.
  repeat apply andb_true_iff in Hz as [? Hz].
  unfold zeroQueryArg. f_equal; try by apply isZero_Hash.
  - by apply Z.eqb_eq.
  - by destruct k.
  - by destruct b.
  - by destruct w.
Qed.

(** ** [ResponseResult] *)

Record ResponseResult_wf (x : ResponseResult) : Prop := {
  rr_id_wf : Hash_wf (rr_ID x);
  rr_nodes_wf : Forall Node_typed (rr_Nodes x) /\ Z.of_nat (26 * length (rr_Nodes x)) < 2 ^ 31;
  rr_nodes6_wf : Forall Node_typed (rr_Nodes6 x) /\
    forallb (fun n => legal_ip (a_IP (n_Addr n))) (rr_Nodes6 x) = true /\
    Z.of_nat (38 * length (rr_Nodes6 x)) < 2 ^ 31;
  rr_token_wf : short (rr_Token x); rr_values_wf : Forall short (rr_Values x) }.

(** What the reader gets: the nodes in the form of their list. *)
Definition received_result (x : ResponseResult) : ResponseResult :=
  mkResponseResult (rr_ID x) (to_ipv4_nodes (rr_Nodes x)) (to_ipv6_nodes (rr_Nodes6 x))
    (rr_Token x) (rr_Values x).

(** The entries, with the bytes [b4] and [b6] of the two lists of nodes. *)
Definition Result_entries (b4 b6 : bytes) (x : ResponseResult) : list (bytes * bytes) :=
  (B "id", str (rr_ID x)) ::
  opt (length (map Node_val (rr_Nodes x)) =? 0)%nat (B "nodes", b4) ++
  opt (length (map Node_val (rr_Nodes6 x)) =? 0)%nat (B "nodes6", b6) ++
  opt (length (rr_Token x) =? 0)%nat (B "token", str (rr_Token x)) ++
  opt (length (map VString (rr_Values x)) =? 0)%nat (B "values", listing (map str (rr_Values x))) ++ [].

Lemma Result_sorted x :
  sort_by_key (readStruct ResponseResultT (ResponseResult_val x)) =
  (B "id", (HashT, Hash_val (rr_ID x))) ::
  opt (length (map Node_val (rr_Nodes x)) =? 0)%nat (B "nodes", (Nodes4T, Nodes_val (rr_Nodes x))) ++
  opt (length (map Node_val (rr_Nodes6 x)) =? 0)%nat (B "nodes6", (Nodes6T, Nodes_val (rr_Nodes6 x))) ++
  opt (length (rr_Token x) =? 0)%nat (B "token", (TString, VString (rr_Token x))) ++
  opt (length (map VString (rr_Values x)) =? 0)%nat
    (B "values", (TSlice TString, VSlice (map VString (rr_Values x)))) ++ [].
Proof.
  unfold ResponseResult_val, Nodes_val.
  destruct x as [i n4 n6 k vs]. cbn [rr_ID rr_Nodes rr_Nodes6 rr_Token rr_Values].
  set (hi := Hash_val i). set (l4 := map Node_val n4). set (l6 := map Node_val n6).
  set (ws := map VString vs).
  transitivity (sort_by_key (
    (B "id", (HashT, hi)) :: opt (length l4 =? 0)%nat (B "nodes", (Nodes4T, VSlice l4)) ++
    opt (length l6 =? 0)%nat (B "nodes6", (Nodes6T, VSlice l6)) ++
    opt (length k =? 0)%nat (B "token", (TString, VString k)) ++
    opt (length ws =? 0)%nat (B "values", (TSlice TString, VSlice ws)) ++ [])); [reflexivity|].
  destruct (length l4 =? 0)%nat, (length l6 =? 0)%nat, (length k =? 0)%nat, (length ws =? 0)%nat; reflexivity.
Qed.

Lemma Result_enc x b4 b6 :
  enc_as Nodes4T (Nodes_val (rr_Nodes x)) b4 -> enc_as Nodes6T (Nodes_val (rr_Nodes6 x)) b6 ->
  enc_as ResponseResultT (ResponseResult_val x) (dictionary (Result_entries b4 b6 x)).
Proof.
  intros E4 E6 [|f] Hf; [lia|]. apply enc_as_struct. rewrite Result_sorted.
  unfold ResponseResult_val in Hf. cbn [depth foldr] in Hf. unfold Result_entries.
  entries; [apply Hash_enc|done|done|apply enc_as_string|apply strings_enc].
Qed.

Lemma Result_codec x :
  ResponseResult_wf x ->
  exists e, enc_as ResponseResultT (ResponseResult_val x) e /\
    dec_as ResponseResultT (ResponseResult_val zeroResponseResult) e
      (ResponseResult_val (received_result x)).
Proof.
  intros [Hi [H4 L4] (H6 & I6 & L6) Hk Hv].
  destruct (Nodes4_codec _ H4 L4) as (b4 & E4 & D4).
  destruct (Nodes6_codec _ H6 I6 L6) as (b6 & E6 & D6).
  exists (dictionary (Result_entries b4 b6 x)). split.
  - by apply Result_enc.
  - apply dec_as_struct. unfold Result_entries. repeat fill.
    all: first [by apply Hash_dec|exact D4|exact D6|by apply dec_as_string|by apply strings_dec|idtac].
    all: rewrite ?length_map in *; destruct x as [i n4 n6 k vs].
    all: cbn [rr_ID rr_Nodes rr_Nodes6 rr_Token rr_Values] in *; omitted.
Qed.

Lemma Result_zero x :
  ResponseResult_wf x -> isEmptyValue (ResponseResult_val x) = true -> x = zeroResponseResult.
Proof.
  intros [] Hz. destruct x as [i n4 n6 k vs]. unfold ResponseResult_val, Nodes_val in Hz.
  cbn [isEmptyValue isZero forallb] in Hz. repeat apply andb_true_iff in Hz as [? Hz].
  unfold zeroResponseResult. f_equal; [by apply isZero_Hash|..].
  - by destruct n4.
  - by destruct n6.
  - by destruct k.
  - by destruct vs.
Qed.

(** ** [Message] *)

Record Message_wf (m : Message) : Prop := {
  m_t_wf : short (m_T m); m_y_wf : short (m_Y m); m_q_wf : short (m_Q m);
  m_a_wf : QueryArg_wf (m_A m); m_r_wf : ResponseResult_wf (m_R m);
  m_code_wf : is_i64 (e_Code (m_E m)); m_reason_wf : short (e_Reason (m_E m)) }.

Definition received (m : Message) : Message :=
  mkMessage (m_T m) (m_Y m) (m_Q m) (m_A m) (received_result (m_R m)) (m_E m) (m_RO m).

Definition Message_entries (er : bytes) (m : Message) : list (bytes * bytes) :=
  opt (isEmptyValue (QueryArg_val (m_A m))) (B "a", dictionary (QueryArg_entries (m_A m))) ++
  opt (isEmptyValue (KError_val (m_E m))) (B "e", KError_bytes (m_E m)) ++
  opt (length (m_Q m) =? 0)%nat (B "q", str (m_Q m)) ++
  opt (isEmptyValue (ResponseResult_val (m_R m))) (B "r", er) ++
  opt (negb (m_RO m)) (B "ro", int (if m_RO m then 1 else 0)) ++
  [(B "t", str (m_T m)); (B "y", str (m_Y m))].

Lemma Message_sorted m :
  sort_by_key (readStruct MessageT (Message_val m)) =
  opt (isEmptyValue (QueryArg_val (m_A m))) (B "a", (QueryArgT, QueryArg_val (m_A m))) ++
  opt (isEmptyValue (KError_val (m_E m))) (B "e", (ErrorT, KError_val (m_E m))) ++
  opt (length (m_Q m) =? 0)%nat (B "q", (TString, VString (m_Q m))) ++
  opt (isEmptyValue (ResponseResult_val (m_R m)))
    (B "r", (ResponseResultT, ResponseResult_val (m_R m))) ++
  opt (negb (m_RO m)) (B "ro", (TBool, VBool (m_RO m))) ++
  [(B "t", (TString, VString (m_T m))); (B "y", (TString, VString (m_Y m)))].
Proof.
  unfold Message_val. destruct m as [t y q a x e ro]. cbn [m_T m_Y m_Q m_A m_R m_E m_RO].
  set (va := QueryArg_val a). set (vx := ResponseResult_val x). set (ve := KError_val e).
  assert (isNilValue va = false /\ isNilValue vx = false /\ isNilValue ve = false) as (Na & Nx & Ne) by done.
  clearbody va vx ve.
  transitivity (sort_by_key (
    [(B "t", (TString, VString t)); (B "y", (TString, VString y))] ++
    opt (length q =? 0)%nat (B "q", (TString, VString q)) ++
    opt (isEmptyValue va) (B "a", (QueryArgT, va)) ++
    opt (isEmptyValue vx) (B "r", (ResponseResultT, vx)) ++
    opt (isEmptyValue ve) (B "e", (ErrorT, ve)) ++
    opt (negb ro) (B "ro", (TBool, VBool ro)) ++ [])).
  - f_equal. cbn -[isNilValue isEmptyValue]. rewrite Na, Nx, Ne. reflexivity.
  - destruct (isEmptyValue va), (isEmptyValue ve), (length q =? 0)%nat, (isEmptyValue vx), ro; reflexivity.
Qed.

Lemma Message_dec m er :
  Message_wf m ->
  dec_as ResponseResultT (ResponseResult_val zeroResponseResult) er
    (ResponseResult_val (received_result (m_R m))) ->
  dec_as MessageT (Message_val zeroMessage) (dictionary (Message_entries er m))
    (Message_val (received m)).
Proof.
  intros [Ht Hy Hq Ha Hr Hc He] Dr. apply dec_as_struct. unfold Message_entries. repeat fill.
  all: first [by apply QueryArg_dec|by apply KError_dec|exact Dr|by apply dec_as_bool
             |by apply dec_as_string|reflexivity|idtac].
  - by rewrite (QueryArg_zero (m_A m)) by done.
  - by rewrite (KError_zero (m_E m)) by done.
  - destruct m as [t y q a x e ro]. cbn [m_Q] in *. omitted.
  - by rewrite (Result_zero (m_R m)) by done.
  - destruct m as [t y q a x e ro]. cbn [m_RO] in *. omitted.
Qed.

Lemma Message_enc m er :
  Hash_wf (qa_Target (m_A m)) -> Hash_wf (qa_InfoHash (m_A m)) ->
  enc_as ResponseResultT (ResponseResult_val (m_R m)) er ->
  encodeMessage m = Ok (dictionary (Message_entries er m)).
Proof.
  intros H1 H2 Er. apply EncodeBytes_as. intros [|f] Hf; [lia|]. apply enc_as_struct. rewrite Message_sorted.
  unfold Message_val in Hf. cbn [depth foldr] in Hf. unfold Message_entries.
  entries; [by apply QueryArg_enc|by apply KError_enc|apply enc_as_string|exact Er|apply enc_as_bool
           |apply enc_as_string..].
Qed.

(** A message whose fields have their types, and whose "nodes6" have addresses, can be
    encoded. *)
Record Message_sendable (m : Message) : Prop := {
  sd_target : Hash_wf (qa_Target (m_A m));
  sd_infohash : Hash_wf (qa_InfoHash (m_A m));
  sd_nodes : Forall Node_typed (rr_Nodes (m_R m));
  sd_nodes6 : Forall Node_typed (rr_Nodes6 (m_R m));
  sd_legal : forallb (fun n => legal_ip (a_IP (n_Addr n))) (rr_Nodes6 (m_R m)) = true }.

Lemma Message_encodes m : Message_sendable m -> exists b, encodeMessage m = Ok b.
Proof.
  intros [H1 H2 H4 H6 Hl]. destruct (Nodes4_enc _ H4) as (b4 & _ & E4).
  destruct (Nodes6_enc _ H6 Hl) as (b6 & _ & E6).
  eexists. apply Message_enc; [done|done|]. by apply Result_enc.
Qed.

Lemma Message_codec m :
  Message_wf m -> exists b, encodeMessage m = Ok b /\ decodeMessage b = Ok (received m).
Proof.
  intros [Ht Hy Hq Ha Hr Hc He]. destruct (Result_codec _ Hr) as (er & Er & Dr).
  exists (dictionary (Message_entries er m)). split.
  - destruct Ha. by apply Message_enc.
  - unfold decodeMessage. erewrite DecodeBytes_as with (v := Message_val (received m)).
    + by rewrite val_Message_val.
    + by apply Message_dec.
Qed.

(** [C6] A KRPC message sent and received is the same message: [bencode.EncodeBytes] of a
    [krpc.Message] succeeds, and [bencode.DecodeBytes] of the result into a fresh message
    gives every field back, whichever optional fields are left out of the dictionary; only
    the two lists of nodes come back in their compact form (the IPv4 addresses in four bytes,
    every address in sixteen).  The message has the types of the Go struct, no string of 2 GB
    and no node in [nodes6] whose address has neither 4 nor 16 bytes. *)
Theorem krpc_message_roundtrip m :
  Message_wf m -> exists b, encodeMessage m = Ok b /\ decodeMessage b = Ok (received m).
Proof. exact (Message_codec m). Qed.

Definition sample_arg : QueryArg :=
  mkQueryArg (replicate 20 x41) zeroHash (replicate 20 x42) 6881 (B "tok") true [WantNodes].
Definition sample_result : ResponseResult :=
  mkResponseResult (replicate 20 x41) [mkNode (replicate 20 x43) (NewAddr [x7f; x00; x00; x01] 6881)]
    [mkNode (replicate 20 x44) (NewAddr (replicate 16 x09) 1)] (B "tok") [B "peer"].
Definition sample_message : Message :=
  mkMessage (B "1") (B "q") (B "get_peers") sample_arg sample_result (mkKError 204 (B "unknown")) true.

Lemma sample_message_wf : Message_wf sample_message.
Proof.
  repeat split; try done; cbn; try (unfold is_u16; cbn; lia); try by repeat constructor.
Qed.

Lemma krpc_message_roundtrip_witness :
  exists b, encodeMessage sample_message = Ok b /\ decodeMessage b = Ok sample_message.
Proof. exact (krpc_message_roundtrip sample_message sample_message_wf). Defined.
