(* ===== verification/KrpcTyped.v ===== *)
(** * What a received KRPC message is known to be

    Whatever the bytes, decoding them does not panic, and a message that was decoded has the types of
    its Go struct: ids of twenty bytes, ports of sixteen bits, and nodes with addresses of their
    family; and it names no more nodes than its bytes have room for. *)

From S2P Require Import Prelude GoBytes GoNet GoCrypto Bencode BencodeFacts BencodeTyped Codec Hash MetaAddr KrpcAddr Krpc KrpcThms.

(** A field seen through a view: it shows a value that satisfies [inv]. *)
Definition shows {A} (put : A -> gval) (inv : A -> Prop) (v : gval) : Prop := exists a, v = put a /\ inv a.

(** A call that returned. *)
Definition calm (o : outcome) : Prop := o <> Panicked /\ o <> NoFuel.

(** [L] bounds the bytes that are decoded. *)
Section Typed.
Variable L : nat.

(** The [UnmarshalBencode] method keeps the invariant and does not panic: the decoder would panic with
    it. *)
Lemma stays_bencodeT {A} (get : gval -> A) put t (u : A -> bytes -> recv A) m (inv : A -> Prop) :
  (forall a, get (put a) = a) ->
  (forall a b, (length b <= L)%nat -> inv a -> inv (fst (u a b)) /\ calm (snd (u a b))) ->
  stays L (bencodeT get put t u m) (shows put inv).
Proof.
  intros Hg Hu. eapply stays_method; [done|]. intros v b Hb (a & -> & Ha). rewrite Hg.
  destruct (Hu a b Hb Ha) as [Hi [Hp Hf]].
  destruct (u a b) as [a' []]; try (split; [by exists a'|done]); done.
Qed.

Lemma length_hex_decode_ok s : snd (hex_decode s) = true -> (2 * length (fst (hex_decode s)))%nat = length s.
Proof.
  assert (forall n s, (length s < n)%nat -> snd (hex_decode s) = true ->
    (2 * length (fst (hex_decode s)))%nat = length s) as H; [|intros; by apply (H (S (length s))); [lia|]].
  clear s. intros n. induction n as [|n IH]; intros [|p [|q s]]; simpl; try done; try lia. intros Hn.
  destruct (unhex p), (unhex q); try done. specialize (IH s ltac:(lia)).
  destruct (hex_decode s) as [d ok]. simpl in *. intros Hok. specialize (IH Hok). lia.
Qed.

Lemma Hash_UnmarshalBencode_calm h b : calm (snd (Hash_UnmarshalBencode h b)).
Proof.
  unfold Hash_UnmarshalBencode. destruct (DecodeBytes b TString (VString [])) as [v o] eqn:E.
  apply DecodeBytes_fuel in E as Hf.
  apply (DecodeBytes_stays (length b) _ _ _ _ _ _ (stays_string _) (le_n _)) in E as [[s ->] Ho]; [|by eexists].
  destruct o; [|done..]. unfold Hash_FromString, Hash_FromHexString.
  destruct (length s =? HashSize)%nat; [done|]. destruct (Nat.eqb_spec (length s) (2 * HashSize)) as [Hl|].
  - cbn [negb]. pose proof (length_hex_decode_ok s) as Hd. destruct (hex_decode s) as [d []]; [|done].
    cbn [fst snd negb] in *. specialize (Hd eq_refl). destruct (Nat.eqb_spec (length d) HashSize); [done|lia].
  - destruct (_ =? 32)%nat; [|done]. by destruct (base32_decode s).
Qed.

Lemma Hash_stays : stays L HashT (shows Hash_val Hash_wf).
Proof.
  apply stays_bencodeT; [exact val_Hash_val|]. intros h b _ Hh.
  split; [by apply Hash_UnmarshalBencode_wf|apply Hash_UnmarshalBencode_calm].
Qed.

Lemma via_bytes_inv {A} (inv : A -> Prop) a b k :
  (length b <= L)%nat -> inv a ->
  (forall data, (length data <= L)%nat -> inv (fst (k data)) /\ calm (snd (k data))) ->
  inv (fst (via_bytes a b k)) /\ calm (snd (via_bytes a b k)).
Proof.
  intros Hb Ha Hk. unfold via_bytes. destruct (DecodeBytes b TBytes (VBytes [])) as [v o] eqn:E.
  apply DecodeBytes_fuel in E as Hf.
  apply (DecodeBytes_stays L _ _ _ _ _ _ (stays_bytes _) Hb) in E as [(s & -> & Hs) Ho].
  - destruct o; [by apply Hk|done..].
  - eexists. split; [done|]. simpl. lia.
Qed.

(** Nodes with addresses of [n] bytes, and no more of them than [L] bytes can hold. *)
Definition nodes_of (n : nat) (l : list Node) : Prop :=
  Forall (Node_wf n) l /\ ((n + 22) * length l <= L)%nat.

Lemma nodes_decoded n (Hn : n = 4%nat \/ n = 16%nat) cns data m :
  m = Z.of_nat (n + 22) -> (length data <= L)%nat -> nodes_of n cns ->
  let x := if negb (Z.of_nat (length data) mod m =? 0) then (cns, Fail (Errorf "length"))
    else set_on_ok cns (res_mapM (fun c => to_res (Node_UnmarshalBinary zeroNode c)) (chunks (n + 22) data)) in
  nodes_of n (fst x) /\ calm (snd x).
Proof.
  intros -> Hd H. destruct (Z.eqb_spec (Z.of_nat (length data) mod Z.of_nat (n + 22)) 0) as [E|]; [|done].
  cbn [negb]. pose (C := node_codec n Hn).
  destruct (list_dec_total (A := Node) data) as (l & El & Hl & Ee).
  { apply divide_mod. exact E. }
  pose proof (length_list_enc l Hl) as Hs. rewrite Ee in Hs. cbn [fc_size C node_codec] in Hs.
  unfold list_dec in El. cbn [fc_dec fc_size C node_codec] in El. rewrite El. cbn [set_on_ok fst snd].
  split; [|done]. split; [exact Hl|lia].
Qed.

Lemma Nodes4_stays : stays L Nodes4T (shows Nodes_val (nodes_of 4)).
Proof.
  apply stays_bencodeT; [exact val_Nodes_val|]. intros l b Hb Hl. apply (via_bytes_inv (nodes_of 4)); [done..|].
  intros data Hd. pose proof (nodes_decoded 4 (or_introl eq_refl) l data 26 eq_refl Hd Hl) as H.
  unfold CompactIPv4Nodes_UnmarshalBinary. by destruct (negb _).
Qed.
Lemma Nodes6_stays : stays L Nodes6T (shows Nodes_val (nodes_of 16)).
Proof.
  apply stays_bencodeT; [exact val_Nodes_val|]. intros l b Hb Hl. apply (via_bytes_inv (nodes_of 16)); [done..|].
  intros data Hd. pose proof (nodes_decoded 16 (or_intror eq_refl) l data 38 eq_refl Hd Hl) as H.
  unfold CompactIPv6Nodes_UnmarshalBinary. by destruct (negb _).
Qed.

Lemma Error_stays : stays L ErrorT (shows KError_val (fun _ => True)).
Proof.
  apply stays_bencodeT; [by intros []|]. intros e b Hb _. split; [done|]. unfold KError_UnmarshalBencode.
  destruct (DecodeBytes b TIface (VIface None)) as [v o] eqn:E. apply DecodeBytes_fuel in E as Hf.
  apply (DecodeBytes_stays L _ _ _ _ _ _ (stays_iface _) Hb) in E as [_ Ho]; [|done].
  destruct v as [| | | | |[[]|]| | | | | |], o; try done.
  unfold KError_decode, recovered, KError_assign. by repeat case_match.
Qed.

(** ** Structs *)

Record QueryArg_typed (a : QueryArg) : Prop := {
  qt_id : Hash_wf (qa_ID a);
  qt_target : Hash_wf (qa_Target a);
  qt_infohash : Hash_wf (qa_InfoHash a);
  qt_port : is_u16 (qa_Port a);
}.
Record Result_typed (x : ResponseResult) : Prop := {
  rt_id : Hash_wf (rr_ID x);
  rt_nodes : Forall (Node_wf 4) (rr_Nodes x);
  rt_nodes6 : Forall (Node_wf 16) (rr_Nodes6 x);
}.
(** A node takes 26 bytes, or 38. *)
Definition Result_small (x : ResponseResult) : Prop :=
  (26 * length (rr_Nodes x) <= L)%nat /\ (38 * length (rr_Nodes6 x) <= L)%nat.
Record Message_typed (m : Message) : Prop := {
  mt_arg : QueryArg_typed (m_A m);
  mt_result : Result_typed (m_R m);
}.

Definition QueryArg_fields : list (gval -> Prop) :=
  [shows Hash_val Hash_wf; shows Hash_val Hash_wf; shows Hash_val Hash_wf; is_uint 16; is_string; is_bool;
   is_slice is_string].
Definition Result_fields : list (gval -> Prop) :=
  [shows Hash_val Hash_wf; shows Nodes_val (nodes_of 4); shows Nodes_val (nodes_of 16);
   is_string; is_slice is_string].
Definition Message_fields : list (gval -> Prop) :=
  [is_string; is_string; is_string; is_struct QueryArg_fields; is_struct Result_fields;
   shows KError_val (fun _ => True); is_bool].

Lemma strings_stays : stays L (TSlice TString) (is_slice is_string).
Proof. apply stays_slice; [exact (stays_string _)|by eexists]. Qed.

(** One field after the other. *)
Ltac fields :=
  apply stays_struct; repeat (apply Forall_cons; split); try apply Forall_nil_2;
  (do 2 eexists; split; [reflexivity|]; split; [reflexivity|]; cbn [fst snd]).

Lemma QueryArg_stays : stays L QueryArgT (is_struct QueryArg_fields).
Proof.
  fields; first [exact Hash_stays|by apply (stays_uint _ 16)|exact (stays_string _)|exact (stays_bool _)
                |exact strings_stays].
Qed.
Lemma Result_stays : stays L ResponseResultT (is_struct Result_fields).
Proof.
  fields; first [exact Hash_stays|exact Nodes4_stays|exact Nodes6_stays|exact (stays_string _)|exact strings_stays].
Qed.
Lemma Message_stays : stays L MessageT (is_struct Message_fields).
Proof.
  fields; first [exact (stays_string _)|exact QueryArg_stays|exact Result_stays|exact Error_stays
                |exact (stays_bool _)].
Qed.

(** ** The message *)

Ltac open_struct H :=
  let vs := fresh "vs" in let K := fresh in
  destruct H as (vs & -> & K);
  repeat match goal with
         | K : Forall2 _ (_ :: _) _ |- _ => apply Forall2_cons_inv_l in K as (? & ? & ? & K & ->)
         | K : Forall2 _ [] _ |- _ => apply Forall2_nil_inv_l in K as ->
         end.

Lemma QueryArg_of v : is_struct QueryArg_fields v -> QueryArg_typed (val_QueryArg v).
Proof.
  intros H. unfold QueryArg_fields in H. open_struct H.
  repeat match goal with
         | H : shows _ _ _ |- _ => destruct H as (? & -> & ?)
         | H : is_uint _ _ |- _ => destruct H as (? & -> & ?)
         | H : is_string _ |- _ => destruct H as (? & ->)
         | H : is_bool _ |- _ => destruct H as (? & ->)
         end.
  cbn [val_QueryArg]. rewrite !val_Hash_val. by constructor.
Qed.

Lemma Result_of v :
  is_struct Result_fields v -> Result_typed (val_ResponseResult v) /\ Result_small (val_ResponseResult v).
Proof.
  intros H. unfold Result_fields in H. open_struct H.
  repeat match goal with
         | H : shows _ _ _ |- _ => destruct H as (? & -> & ?)
         | H : is_string _ |- _ => destruct H as (? & ->)
         end.
  cbn [val_ResponseResult]. rewrite !val_Hash_val, !val_Nodes_val.
  repeat match goal with H : nodes_of _ _ |- _ => destruct H end. split; [by constructor|done].
Qed.

Lemma Message_of v :
  is_struct Message_fields v -> Message_typed (val_Message v) /\ Result_small (m_R (val_Message v)).
Proof.
  intros H. unfold Message_fields in H. open_struct H.
  repeat match goal with
         | H : is_string _ |- _ => destruct H as (? & ->)
         | H : is_bool _ |- _ => destruct H as (? & ->)
         end.
  cbn [val_Message m_R]. split; [|by apply Result_of]. constructor; [by apply QueryArg_of|by apply Result_of].
Qed.

Ltac shown := eexists; split; [reflexivity|]; repeat (apply Forall2_cons; split); try apply Forall2_nil_2;
  try done; try (by eexists).

Lemma zero_shown : is_struct Message_fields (Message_val zeroMessage).
Proof.
  assert (Hh : shows Hash_val Hash_wf (Hash_val zeroHash)) by (eexists; split; [reflexivity|done]).
  assert (Hn : forall n, shows Nodes_val (nodes_of n) (Nodes_val [])).
  { intros. eexists. split; [reflexivity|]. split; [constructor|simpl; lia]. }
  assert (Hs : is_slice is_string (VSlice (map VString []))) by (eexists; split; [reflexivity|constructor]).
  assert (is_uint 16 (VUint 0)) by (eexists; split; [reflexivity|simpl; lia]).
  shown; shown.
Qed.

Lemma decoded_inv data :
  (length data <= L)%nat ->
  match decodeMessage data with Ok m => Message_typed m /\ Result_small (m_R m) | Err _ => True | Panic => False end.
Proof.
  intros Hd. unfold decodeMessage. destruct (DecodeBytes _ _ _) as [v o] eqn:E. apply DecodeBytes_fuel in E as Hf.
  apply (DecodeBytes_stays L _ _ _ _ _ _ Message_stays Hd zero_shown) in E as [Hv Ho].
  destruct o; try done. by apply Message_of.
Qed.
End Typed.

Lemma decoded_typed data :
  match decodeMessage data with Ok m => Message_typed m | Err _ => True | Panic => False end.
Proof.
  pose proof (decoded_inv (length data) data (le_n _)) as H. destruct (decodeMessage data); [apply H|done..].
Qed.
Lemma decoded_small L data m : (length data <= L)%nat -> decodeMessage data = Ok m -> Result_small L (m_R m).
Proof. intros Hd E. pose proof (decoded_inv L data Hd) as H. rewrite E in H. apply H. Qed.

(** What has the types of a message can be encoded. *)
Lemma typed_sendable m : Message_typed m -> Message_sendable m.
Proof.
  intros [Ha Hr]. constructor; [apply Ha|apply Ha|..].
  - eapply Forall_impl; [apply (rt_nodes _ Hr)|]. by intros x [Hi [[_ Hp] _]].
  - eapply Forall_impl; [apply (rt_nodes6 _ Hr)|]. by intros x [Hi [[_ Hp] _]].
  - apply forallb_forall. intros x Hx%list_elem_of_In.
    pose proof (rt_nodes6 _ Hr) as H6. rewrite Forall_forall in H6.
    destruct (H6 x Hx) as [_ [[Hl _] _]]. unfold legal_ip. simpl in Hl. by rewrite Hl.
Qed.

(** [C7] Whatever bytes arrive, decoding them as a message does not panic; and when it succeeds then the
    ids in the message have twenty bytes, the port has sixteen bits, and every node of "nodes" has
    an IPv4 address, every node of "nodes6" an IPv6 one: what the handlers of the server rely on.
    So a message that was received can always be written again. *)
Theorem message_typed data :
  match decodeMessage data with
  | Ok m => Message_typed m /\ exists b, encodeMessage m = Ok b
  | Err _ => True
  | Panic => False
  end.
Proof.
  pose proof (decoded_typed data) as H. destruct (decodeMessage data) as [m|e|]; [|done|done].
  split; [done|]. by apply Message_encodes, typed_sendable.
Qed.

Example message_short_ids :
  exists m, decodeMessage (B "d1:rd2:id3:abc5:nodes26:aaaaaaaaaaaaaaaaaaaabbbbcce1:t1:x1:y1:re") = Ok m /\
    length (rr_ID (m_R m)) = 20%nat /\ length (rr_Nodes (m_R m)) = 1%nat.
Proof. eexists. split; [vm_compute; reflexivity|]. by vm_compute. Qed.
