(* ===== verification/DhtManagers.v ===== *)
(** * The managers of the DHT server

    dht/blacklist.go, dht/token_manager.go, dht/peer_manager.go and
    dht/transaction_manager.go.  Each has a state record; the methods that take the lock
    are single steps, and of the loops started by [Start] there is the step of each ticker here;
    the loops themselves, and [Stop], are actions in [DhtLife].
    [time.Now()] and the random tokens are arguments. *)

From S2P Require Import Prelude GoBytes GoNet GoTime Hash MetaAddr KrpcAddr Krpc.

(** ** The blacklist *)

(** The interface [Blacklist]: its operations, and what the server relies on: [Add] never
    takes an address out, [Del] never puts one in. *)
Class Blacklist (S : Type) : Type := {
  bl_In : S -> Addr -> bool;
  bl_Add : S -> Addr -> Z -> S;
  bl_Del : S -> Addr -> Z -> S;
  bl_Add_mono : forall s a now b, bl_In s b = true -> bl_In (bl_Add s a now) b = true;
  bl_Del_anti : forall s a now b, bl_In (bl_Del s a now) b = true -> bl_In s b = true;
}.

(** [NewNoopBlacklist]. *)
#[export] Program Instance noopBlacklist : Blacklist unit := {|
  bl_In _ _ := false;
  bl_Add s _ _ := s;
  bl_Del s _ _ := s;
|}.
Solve All Obligations with done.

(** The blacklist in memory.  A nil port map and an empty one behave alike. *)
Record wrappedPort : Type := mkWrappedPort { wp_Time : Z; wp_Enable : bool; wp_Ports : gset Z }.
Record blacklist : Type := mkBlacklist { bl_ips : gmap bytes wrappedPort; bl_num : Z }.

(** The goroutine it starts runs [blacklist_tick] every [duration]; [time.NewTicker] panics there when
    [duration] is not positive. *)
Definition NewMemoryBlacklist (maxnum : Z) : blacklist := mkBlacklist ∅ maxnum.

Definition ip_key (a : Addr) : bytes := IP_String (a_IP a).

(** The tick of [blacklist.loop]. *)
Definition blacklist_tick (bl : blacklist) (interval now : Z) : blacklist :=
  mkBlacklist (filter (fun kv => ~ time_Sub now (wp_Time kv.2) > interval) (bl_ips bl)) (bl_num bl).

Definition blacklist_In (bl : blacklist) (addr : Addr) : bool :=
  match bl_ips bl !! ip_key addr with
  | Some wp => if wp_Enable wp then bool_decide (a_Port addr ∈ wp_Ports wp) else true
  | None => false
  end.

Definition blacklist_Add (bl : blacklist) (addr : Addr) (now : Z) : blacklist :=
  let ip := ip_key addr in
  let put wp :=
    let wp := if a_Port addr <? 1 then mkWrappedPort now false ∅
              else mkWrappedPort now (wp_Enable wp) ({[a_Port addr]} ∪ wp_Ports wp) in
    mkBlacklist (<[ip := wp]> (bl_ips bl)) (bl_num bl) in
  match bl_ips bl !! ip with
  | Some wp => put wp
  | None =>
      if (0 <? bl_num bl) && (bl_num bl <=? Z.of_nat (size (bl_ips bl))) then bl
      else put (mkWrappedPort zeroTime true ∅)
  end.

Definition blacklist_Del (bl : blacklist) (addr : Addr) (now : Z) : blacklist :=
  let ip := ip_key addr in
  match bl_ips bl !! ip with
  | None => bl
  | Some wp =>
      if a_Port addr <? 1 then mkBlacklist (delete ip (bl_ips bl)) (bl_num bl)
      else if wp_Enable wp then
        if (size (wp_Ports wp) <=? 1)%nat then mkBlacklist (delete ip (bl_ips bl)) (bl_num bl)
        else mkBlacklist
               (<[ip := mkWrappedPort now true (wp_Ports wp ∖ {[a_Port addr]})]> (bl_ips bl))
               (bl_num bl)
      else bl
  end.

Lemma blacklist_In_insert ips num ip wp b :
  blacklist_In (mkBlacklist (<[ip := wp]> ips) num) b =
  if decide (ip_key b = ip)
  then if wp_Enable wp then bool_decide (a_Port b ∈ wp_Ports wp) else true
  else blacklist_In (mkBlacklist ips num) b.
Proof.
  unfold blacklist_In. simpl. case_decide as E.
  - by rewrite E, lookup_insert_eq.
  - by rewrite lookup_insert_ne.
Qed.

Lemma blacklist_Add_mono s a now b :
  blacklist_In s b = true -> blacklist_In (blacklist_Add s a now) b = true.
Proof.
  intros H. unfold blacklist_Add. destruct (bl_ips s !! ip_key a) as [wp|] eqn:E.
  - rewrite blacklist_In_insert. case_decide as Hb; [|by destruct s].
    unfold blacklist_In in H. rewrite Hb, E in H. destruct (a_Port a <? 1); simpl; [done|].
    destruct (wp_Enable wp); [|done]. apply bool_decide_eq_true in H.
    apply bool_decide_eq_true. set_solver.
  - destruct (_ && _); [done|]. rewrite blacklist_In_insert. case_decide as Hb; [|by destruct s].
    unfold blacklist_In in H. by rewrite Hb, E in H.
Qed.

Lemma blacklist_Del_anti s a now b :
  blacklist_In (blacklist_Del s a now) b = true -> blacklist_In s b = true.
Proof.
  unfold blacklist_Del. destruct (bl_ips s !! ip_key a) as [wp|] eqn:E; [|done].
  assert (Hd : blacklist_In (mkBlacklist (delete (ip_key a) (bl_ips s)) (bl_num s)) b = true ->
               blacklist_In s b = true).
  { unfold blacklist_In. simpl. destruct (decide (ip_key a = ip_key b)) as [->|].
    - by rewrite lookup_delete_eq.
    - by rewrite lookup_delete_ne. }
  destruct (a_Port a <? 1); [done|]. destruct (wp_Enable wp) eqn:En; [|done].
  destruct (_ <=? 1)%nat; [done|]. rewrite blacklist_In_insert. simpl. case_decide as Hb.
  - unfold blacklist_In. rewrite Hb, E, En. rewrite !bool_decide_eq_true. set_solver.
  - by destruct s.
Qed.

#[export] Instance memoryBlacklist : Blacklist blacklist := {|
  bl_In := blacklist_In;
  bl_Add := blacklist_Add;
  bl_Del := blacklist_Del;
  bl_Add_mono := blacklist_Add_mono;
  bl_Del_anti := blacklist_Del_anti;
|}.

(** [DebugBlacklist]: a blacklist that logs what goes into the one it wraps, and out of it.  The log
    is part of the state. *)
Record logBlacklist (BL : Type) : Type := mkLogBlacklist { lb_Blacklist : BL; lb_log : list bytes }.
Arguments mkLogBlacklist {BL} _ _.
Arguments lb_Blacklist {BL} _.
Arguments lb_log {BL} _.

Section Log.
Context {BL : Type} `{!Blacklist BL}.
Definition DebugBlacklist (bl : BL) : logBlacklist BL := mkLogBlacklist bl [].
Definition logBlacklist_Add (l : logBlacklist BL) (addr : Addr) (now : Z) : logBlacklist BL :=
  mkLogBlacklist (bl_Add (lb_Blacklist l) addr now)
    (lb_log l ++ [B "add the addr '" ++ Addr_String addr ++ B "' into the blacklist"]).
Definition logBlacklist_Del (l : logBlacklist BL) (addr : Addr) (now : Z) : logBlacklist BL :=
  mkLogBlacklist (bl_Del (lb_Blacklist l) addr now)
    (lb_log l ++ [B "delete the addr '" ++ Addr_String addr ++ B "' from the blacklist"]).
#[export] Program Instance debugBlacklist : Blacklist (logBlacklist BL) := {|
  bl_In l addr := bl_In (lb_Blacklist l) addr;
  bl_Add := logBlacklist_Add;
  bl_Del := logBlacklist_Del;
|}.
Next Obligation. intros s a now b. apply bl_Add_mono. Qed.
Next Obligation. intros s a now b. apply bl_Del_anti. Qed.
End Log.

(** ** The token manager *)

Record tokenManager : Type := mkTokenManager {
  tk_last : bytes;
  tk_new : bytes;
  tk_addrs : gmap bytes Z;
}.

Definition newTokenManager (random : bytes) : tokenManager := mkTokenManager random random ∅.
Definition updateToken (tm : tokenManager) (random : bytes) : tokenManager :=
  mkTokenManager (tk_new tm) random (tk_addrs tm).
Definition tokenManager_clear (tm : tokenManager) (now expired : Z) : tokenManager :=
  mkTokenManager (tk_last tm) (tk_new tm)
    (filter (fun kv => ~ time_Sub now kv.2 >= expired) (tk_addrs tm)).
Definition Token (tm : tokenManager) (addr : Addr) (now : Z) : tokenManager * bytes :=
  (mkTokenManager (tk_last tm) (tk_new tm) (<[Addr_String addr := now]> (tk_addrs tm)), tk_new tm).
Definition Check (tm : tokenManager) (addr : Addr) (token : bytes) : bool :=
  if bool_decide (tk_last tm = token) || bool_decide (tk_new tm = token)
  then bool_decide (is_Some (tk_addrs tm !! Addr_String addr)) else false.

(** ** The peer manager *)

Definition isIPv6 (ip : IP) : bool := bool_decide (To4 ip = []).

Record peer : Type := mkPeer { p_ID : Hash; p_Addr : Addr; p_Token : bytes; p_Time : Z }.
Record tokenPeerManager : Type := mkTokenPeerManager { tpm_peers : gmap Hash (gmap bytes peer) }.

Definition newTokenPeerManager : tokenPeerManager := mkTokenPeerManager ∅.

(** The tick of [tokenPeerManager.Start]. *)
Definition tokenPeerManager_tick (tpm : tokenPeerManager) (interval now : Z) : tokenPeerManager :=
  mkTokenPeerManager
    (omap (fun peers =>
       let peers := filter (fun kv => ~ time_Sub now (p_Time kv.2) > interval) peers in
       if decide (peers = ∅) then None else Some peers) (tpm_peers tpm)).

Definition tpm_Set (tpm : tokenPeerManager) (id : Hash) (addr : Addr) (token : bytes) (now : Z)
    : tokenPeerManager :=
  let peers := default ∅ (tpm_peers tpm !! id) in
  mkTokenPeerManager
    (<[id := <[Addr_String addr := mkPeer id addr token now]> peers]> (tpm_peers tpm)).

Definition tpm_Get (tpm : tokenPeerManager) (id : Hash) (addr : Addr) : bytes :=
  match tpm_peers tpm !! id with
  | Some peers => match peers !! Addr_String addr with Some p => p_Token p | None => [] end
  | None => []
  end.

Fixpoint getPeers_loop (peers : list peer) (maxnum : Z) (ipv6 : bool) : list bytes :=
  match peers with
  | [] => []
  | p :: peers =>
      if maxnum <? 1 then []
      else if ipv6 then
        if isIPv6 (a_IP (p_Addr p)) then Addr_String (p_Addr p) :: getPeers_loop peers (maxnum - 1) ipv6
        else getPeers_loop peers maxnum ipv6
      else if negb (isIPv6 (a_IP (p_Addr p)))
      then Addr_String (p_Addr p) :: getPeers_loop peers (maxnum - 1) ipv6
      else getPeers_loop peers maxnum ipv6
  end.

(** [GetPeers]; [iter] is the order in which Go ranges over the map.  A negative capacity
    panics. *)
Definition tpm_GetPeers (iter : gmap bytes peer -> list peer) (tpm : tokenPeerManager)
    (infohash : Hash) (maxnum : Z) (ipv6 : bool) : res (list bytes) :=
  if maxnum <? 0 then Panic
  else Ok match tpm_peers tpm !! infohash with
          | Some peers => getPeers_loop (iter peers) maxnum ipv6
          | None => []
          end.

(** ** Transactions *)

(** The [OnResponse] functions of the server. *)
Inductive respHandler : Type := noopResponse | onPingResp | onGetPeersResp | onFindNodeResp.
#[export] Instance respHandler_eq_dec : EqDecision respHandler.
Proof. solve_decision. Defined.

(** A callback is the name it was registered with. *)
Record transaction : Type := mkTransaction {
  t_ID : bytes;
  t_Query : bytes;
  t_Arg : QueryArg;
  t_Addr : Addr;
  t_Time : Z;
  t_Depth : Z;
  t_Visited : list Hash;
  t_Callback : option nat;
  t_OnResponse : respHandler;
}.

Definition newTransaction (a : Addr) (q : bytes) (qa : QueryArg) (cb : option nat) (now : Z)
    : transaction :=
  mkTransaction [] q qa a now 0 [] cb noopResponse.

Definition transactionkey : Type := bytes * bytes.
(** [tm_trans] and [tm_tid] are the fields of the struct.  [tm_sent] is where the goroutines inside
    [Server.request] are: the transactions whose query has been sent and for which [AddTransaction] has
    not been called yet.  The code adds a transaction after it has sent the query, so the response
    can be handled in between.  Which of the waiting goroutines goes on next is up to the scheduler; the
    list does not tell which goroutine a transaction belongs to, so a goroutine that sends several
    queries may here also add them in another order than its own. *)
Record transactionManager : Type := mkTransactionManager {
  tm_trans : gmap transactionkey transaction;
  tm_tid : Z;
  tm_sent : list transaction;
}.

Definition newTransactionManager : transactionManager := mkTransactionManager ∅ 0 [].
Definition trans_key (t : transaction) : transactionkey := (t_ID t, Addr_String (t_Addr t)).

Definition GetTransactionID (tm : transactionManager) : transactionManager * bytes :=
  let tid := u32 (tm_tid tm + 1) in
  (mkTransactionManager (tm_trans tm) tid (tm_sent tm), format_uint 36 tid).
Definition AddTransaction (tm : transactionManager) (t : transaction) : transactionManager :=
  mkTransactionManager (<[trans_key t := t]> (tm_trans tm)) (tm_tid tm) (tm_sent tm).
(** A goroutine gets to its call of [AddTransaction], and past it. *)
Definition sentTransaction (tm : transactionManager) (t : transaction) : transactionManager :=
  mkTransactionManager (tm_trans tm) (tm_tid tm) (tm_sent tm ++ [t]).
Definition addSent (tm : transactionManager) (i : nat) : transactionManager :=
  match tm_sent tm !! i with
  | Some t => AddTransaction (mkTransactionManager (tm_trans tm) (tm_tid tm) (delete i (tm_sent tm))) t
  | None => tm
  end.
Definition DeleteTransaction (tm : transactionManager) (t : transaction) : transactionManager :=
  mkTransactionManager (delete (trans_key t) (tm_trans tm)) (tm_tid tm) (tm_sent tm).
Definition PopTransaction (tm : transactionManager) (tid : bytes) (addr : Addr)
    : transactionManager * option transaction :=
  let key := (tid, Addr_String addr) in
  match tm_trans tm !! key with
  | Some t => (mkTransactionManager (delete key (tm_trans tm)) (tm_tid tm) (tm_sent tm), Some t)
  | None => (tm, None)
  end.

(** The tick of [transactionManager.Start]: the transactions left, and the ones that timed
    out, whose [OnTimeout] runs. *)
Definition transactions_tick (tm : transactionManager) (interval now : Z)
    : transactionManager * list transaction :=
  let late := fun kv : transactionkey * transaction => time_Sub now (t_Time kv.2) > interval in
  (mkTransactionManager (filter (fun kv => ~ late kv) (tm_trans tm)) (tm_tid tm) (tm_sent tm),
   map snd (map_to_list (filter late (tm_trans tm)))).
