(* ===== verification/DhtManagersThms.v ===== *)
(** * Theorems about the managers of the DHT server *)

From S2P Require Import Prelude GoBytes GoNet GoTime Hash MetaAddr KrpcAddr Krpc DhtManagers.

(** ** The blacklist *)

(** The blacklist takes an address whose ip it knows, or any while it has room. *)
Definition accepted (bl : blacklist) (a : Addr) : bool :=
  bool_decide (is_Some (bl_ips bl !! ip_key a))
  || negb ((0 <? bl_num bl) && (bl_num bl <=? Z.of_nat (size (bl_ips bl)))).

(** The abstract contract of [Blacklist.Add]: afterwards an address is listed exactly
    when it was before, or when the new entry was taken and names its ip, with the same
    port or with port 0 (every port).  A blacklist with a limit never holds more ips
    than the limit. *)
Theorem blacklist_add bl a now :
  (forall b, blacklist_In (blacklist_Add bl a now) b =
     blacklist_In bl b ||
     (accepted bl a && bool_decide (ip_key b = ip_key a)
      && ((a_Port a <? 1) || (a_Port b =? a_Port a)))) /\
  (0 < bl_num bl -> Z.of_nat (size (bl_ips bl)) <= bl_num bl ->
   Z.of_nat (size (bl_ips (blacklist_Add bl a now))) <= bl_num (blacklist_Add bl a now)).
Proof.
  unfold blacklist_Add, accepted. destruct (bl_ips bl !! ip_key a) as [wp|] eqn:E; simpl.
  - split.
    + intros b. rewrite blacklist_In_insert. case_decide as Hb.
      * rewrite (bool_decide_eq_true_2 (ip_key b = ip_key a)) by done. unfold blacklist_In. rewrite Hb, E.
        destruct (a_Port a <? 1); simpl; [by rewrite orb_true_r|].
        destruct (wp_Enable wp); [|done].
        destruct (Z.eqb_spec (a_Port b) (a_Port a)) as [->|Hne].
        -- rewrite orb_true_r. apply bool_decide_eq_true. set_solver.
        -- rewrite orb_false_r. apply bool_decide_ext. set_solver.
      * rewrite (bool_decide_eq_false_2 (ip_key b = ip_key a)) by done. simpl.
        rewrite orb_false_r. by destruct bl.
    + intros Hn Hs. rewrite map_size_insert_Some by (by rewrite E). done.
  - destruct ((0 <? bl_num bl) && _) eqn:F; simpl.
    + split; [intros b; by rewrite orb_false_r|done].
    + split.
      * intros b. rewrite blacklist_In_insert. case_decide as Hb.
        -- rewrite (bool_decide_eq_true_2 (ip_key b = ip_key a)) by done. unfold blacklist_In. rewrite Hb, E.
           destruct (a_Port a <? 1); simpl; [done|]. rewrite Z.eqb_sym.
           destruct (Z.eqb_spec (a_Port a) (a_Port b)) as [->|Hne].
           ++ apply bool_decide_eq_true. set_solver.
           ++ apply bool_decide_eq_false. set_solver.
        -- rewrite (bool_decide_eq_false_2 (ip_key b = ip_key a)) by done. simpl.
           rewrite orb_false_r. by destruct bl.
      * intros Hn Hs. rewrite map_size_insert_None by done.
        apply andb_false_iff in F as [F|F]; [apply Z.ltb_ge in F; lia|].
        apply Z.leb_gt in F. lia.
Qed.

(** What the blacklist drops on its own: at a tick it keeps the addresses of the ips that were added to at
    most [interval] before. *)
Theorem blacklist_tick_In bl interval now b :
  blacklist_In (blacklist_tick bl interval now) b =
  blacklist_In bl b &&
  match bl_ips bl !! ip_key b with Some wp => bool_decide (time_Sub now (wp_Time wp) <= interval) | None => false end.
Proof.
  unfold blacklist_In, blacklist_tick. cbn [bl_ips]. rewrite map_lookup_filter. destruct (bl_ips bl !! ip_key b) as [wp|]; [|done].
  cbn [mbind option_bind snd]. unfold guard. case_decide as Hg; cbn in Hg |- *;
    [rewrite (bool_decide_eq_true_2 (_ <= _)) by lia|rewrite (bool_decide_eq_false_2 (_ <= _)) by lia].
  - by rewrite andb_true_r.
  - by rewrite andb_false_r.
Qed.

Lemma blacklist_add_witness :
  let bl := mkBlacklist ∅ 1 in
  let a := NewAddr [x01; x02; x03; x04] 80 in
  (forall b, blacklist_In (blacklist_Add bl a 5) b =
     blacklist_In bl b ||
     (accepted bl a && bool_decide (ip_key b = ip_key a) && ((a_Port a <? 1) || (a_Port b =? a_Port a)))) /\
  Z.of_nat (size (bl_ips (blacklist_Add bl a 5))) <= bl_num (blacklist_Add bl a 5).
Proof.
  pose proof (blacklist_add (mkBlacklist ∅ 1) (NewAddr [x01; x02; x03; x04] 80) 5) as [H1 H2].
  split; [exact H1|]. apply H2; vm_compute; congruence.
Defined.

(** Removing one port of an ip can lift the ban on another: when a single port of the
    ip is listed, [Del] with any other port drops the whole entry, so the listed address
    is no longer in the blacklist. *)
Theorem blacklist_del_other_port bl a b now wp :
  bl_ips bl !! ip_key b = Some wp -> wp_Enable wp = true -> wp_Ports wp = {[a_Port b]} ->
  ip_key a = ip_key b -> 1 <= a_Port a -> a_Port a <> a_Port b ->
  blacklist_In bl b = true /\ blacklist_In (blacklist_Del bl a now) b = false.
Proof.
  intros E En Hp Hk Ha Hne. split.
  - unfold blacklist_In. rewrite E, En, Hp. apply bool_decide_eq_true. set_solver.
  - unfold blacklist_Del. rewrite Hk, E, En, Hp, size_singleton.
    destruct (Z.ltb_spec (a_Port a) 1); [lia|]. simpl. unfold blacklist_In. simpl.
    by rewrite lookup_delete_eq.
Qed.

Lemma blacklist_del_other_port_witness :
  let b := NewAddr [x01; x02; x03; x04] 80 in
  let a := NewAddr [x01; x02; x03; x04] 81 in
  let bl := blacklist_Add (NewMemoryBlacklist 0) b 5 in
  blacklist_In bl b = true /\ blacklist_In (blacklist_Del bl a 6) b = false.
Proof.
  apply (blacklist_del_other_port _ _ _ 6 (mkWrappedPort 5 true {[80]})); try reflexivity; done.
Defined.

(** ** Tokens *)

(** The life of a token manager after a token was given out. *)
Inductive tokenOp : Type :=
  | OpToken (addr : Addr) (now : Z)
  | OpUpdate (random : bytes)
  | OpClear (now expired : Z).

Definition tokenStep (tm : tokenManager) (op : tokenOp) : tokenManager :=
  match op with
  | OpToken addr now => (Token tm addr now).1
  | OpUpdate random => updateToken tm random
  | OpClear now expired => tokenManager_clear tm now expired
  end.

Definition updates (ops : list tokenOp) : nat :=
  length (List.filter (fun op => match op with OpUpdate _ => true | _ => false end) ops).

(** No clearing drops an address that asked at [t] or later. *)
Definition keeps (t : Z) (op : tokenOp) : Prop :=
  match op with
  | OpClear now expired => 0 < expired <= maxDuration /\ now - t < expired
  | OpToken _ now => t <= now
  | OpUpdate _ => True
  end.

Lemma keep_addr ops tm key t t' :
  Forall (keeps t) ops -> tk_addrs tm !! key = Some t' -> t <= t' ->
  is_Some (tk_addrs (foldl tokenStep tm ops) !! key).
Proof.
  intros H. revert tm t'. induction H as [|op ops Hop _ IH]; intros tm t' Hk Ht; simpl; [by eexists|].
  destruct op as [addr now|random|now expired]; simpl in *.
  - destruct (decide (Addr_String addr = key)) as [E|].
    + apply (IH _ now); [simpl; by rewrite E, lookup_insert_eq|done].
    + apply (IH _ t'); [simpl; by rewrite lookup_insert_ne|done].
  - by apply (IH _ t').
  - apply (IH _ t'); [|done]. simpl. apply map_lookup_filter_Some. split; [done|]. simpl.
    unfold time_Sub, minDuration, maxDuration in *. lia.
Qed.

Lemma tokens_fold ops tm :
  (updates ops = 0%nat ->
     tk_new (foldl tokenStep tm ops) = tk_new tm /\ tk_last (foldl tokenStep tm ops) = tk_last tm) /\
  (updates ops = 1%nat -> tk_last (foldl tokenStep tm ops) = tk_new tm).
Proof.
  revert tm. induction ops as [|op ops IH]; intros tm; [done|].
  destruct op; simpl.
  - destruct (IH (Token tm addr now).1) as [H1 H2]. split; intros; [by apply H1|by apply H2].
  - destruct (IH (updateToken tm random)) as [H1 H2]. split; [done|].
    intros E. injection E as E. by apply H1.
  - destruct (IH (tokenManager_clear tm now expired)) as [H1 H2]. split; intros; [by apply H1|by apply H2].
Qed.

(** [C18] A token stays good for one rotation: after [Token] gave it to an address, every
    sequence of further requests, clearings that come within the expiry time, and at most
    one token update leaves [Check] accepting it from that address; and no token at all is
    accepted from an address that is not on record. *)
Theorem token_lifetime tm addr t tm' token ops :
  Token tm addr t = (tm', token) -> Forall (keeps t) ops -> (updates ops <= 1)%nat ->
  Check (foldl tokenStep tm' ops) addr token = true /\
  (forall other tok, tk_addrs (foldl tokenStep tm' ops) !! Addr_String other = None ->
     Check (foldl tokenStep tm' ops) other tok = false).
Proof.
  intros [= <- <-] Hops Hu. set (tm' := mkTokenManager _ _ _). split.
  - assert (Hs : is_Some (tk_addrs (foldl tokenStep tm' ops) !! Addr_String addr)).
    { apply (keep_addr ops tm' _ t t); [done|simpl; by rewrite lookup_insert_eq|lia]. }
    unfold Check. rewrite (bool_decide_eq_true_2 (is_Some _)) by done.
    destruct (tokens_fold ops tm') as [H0 H1].
    destruct (decide (updates ops = 0%nat)) as [E|E].
    + destruct (H0 E) as [-> _]. simpl. rewrite (bool_decide_eq_true_2 (tk_new tm = tk_new tm)) by done.
      by rewrite orb_true_r.
    + rewrite H1 by lia. simpl. by rewrite bool_decide_eq_true_2.
  - intros other tok E. unfold Check. rewrite E.
    rewrite (bool_decide_eq_false_2 (is_Some None)) by (by intros [? ?]). by destruct (_ || _).
Qed.

Lemma token_lifetime_witness :
  let a := NewAddr [x01; x02; x03; x04] 80 in
  let tm := newTokenManager (B "aaaaaaaa") in
  Check (foldl tokenStep (Token tm a 10).1 [OpUpdate (B "bbbbbbbb"); OpClear 20 (10 * Minute)]) a (B "aaaaaaaa") = true /\
  (forall other tok,
     tk_addrs (foldl tokenStep (Token tm a 10).1 [OpUpdate (B "bbbbbbbb"); OpClear 20 (10 * Minute)]) !! Addr_String other = None ->
     Check (foldl tokenStep (Token tm a 10).1 [OpUpdate (B "bbbbbbbb"); OpClear 20 (10 * Minute)]) other tok = false).
Proof.
  apply (token_lifetime (newTokenManager (B "aaaaaaaa")) (NewAddr [x01; x02; x03; x04] 80) 10).
  - reflexivity.
  - repeat constructor; done.
  - unfold updates. simpl. lia.
Defined.

(** ** Transactions *)

(** [n] consecutive calls of [GetTransactionID]. *)
Fixpoint transaction_ids (n : nat) (tm : transactionManager) : list bytes :=
  match n with
  | O => []
  | S n => let '(tm, id) := GetTransactionID tm in id :: transaction_ids n tm
  end.

Lemma transaction_ids_lookup n tm i :
  (i < n)%nat ->
  transaction_ids n tm !! i = Some (format_uint 36 (u32 (tm_tid tm + 1 + Z.of_nat i))).
Proof.
  revert tm i. induction n as [|n IH]; intros tm i Hi; [lia|]. simpl. destruct i as [|i]; simpl.
  - by rewrite Z.add_0_r.
  - rewrite IH by lia. simpl. do 2 f_equal. unfold u32. rewrite <- Z.add_assoc, Zplus_mod_idemp_l.
    f_equal. clear. lia.
Qed.

(** Transaction ids do not repeat within 2^32 requests, whatever the counter was (it
    wraps at 32 bits), and none of them is empty, so [_send] accepts them. *)
Theorem transaction_ids_distinct tm n i j id :
  (Z.of_nat n <= 2 ^ 32) -> transaction_ids n tm !! i = Some id ->
  transaction_ids n tm !! j = Some id -> i = j /\ id <> [].
Proof.
  intros Hn Hi Hj.
  assert (Hlen : forall n tm k x, transaction_ids n tm !! k = Some x -> (k < n)%nat).
  { clear. induction n as [|n IH]; intros tm k x; [done|]. simpl. destruct k; simpl; [lia|].
    intros H. apply IH in H. lia. }
  pose proof (Hlen _ _ _ _ Hi) as Li. pose proof (Hlen _ _ _ _ Hj) as Lj.
  rewrite transaction_ids_lookup in Hi, Hj by done. injection Hi as Hi. injection Hj as Hj.
  split; [|rewrite <- Hi; apply format_uint_nonempty].
  rewrite <- Hj in Hi. apply format_uint_inj in Hi; [|lia|apply u32_range..].
  unfold u32 in Hi. zdiv.
Qed.

Lemma transaction_ids_distinct_witness :
  let tm := mkTransactionManager ∅ (2 ^ 32 - 2) [] in
  transaction_ids 3 tm = [B "1z141z3"; B "0"; B "1"] /\ (1%nat = 1%nat /\ B "0" <> []).
Proof.
  split; [vm_compute; reflexivity|].
  apply (transaction_ids_distinct (mkTransactionManager ∅ (2 ^ 32 - 2) []) 3 1 1 (B "0"));
    [done|vm_compute; reflexivity..].
Defined.

(** A response is matched to its request at most once, and only from the address the
    request went to: the transaction just added is what [PopTransaction] returns for its id
    and any address with the same text form, a second pop returns nothing, and the pop
    leaves every other transaction where it was. *)
Theorem transaction_pop_once tm t addr :
  Addr_String addr = Addr_String (t_Addr t) ->
  exists tm', PopTransaction (AddTransaction tm t) (t_ID t) addr = (tm', Some t) /\
    (PopTransaction tm' (t_ID t) addr).2 = None /\
    (forall id a, (id, Addr_String a) <> trans_key t ->
       (PopTransaction tm' id a).2 = (PopTransaction tm id a).2).
Proof.
  intros E. unfold PopTransaction, AddTransaction, trans_key. simpl.
  rewrite E, lookup_insert_eq. eexists. split; [done|]. simpl. rewrite lookup_delete_eq.
  split; [done|]. intros id a Hne.
  rewrite lookup_delete_ne, lookup_insert_ne by done. by destruct (tm_trans tm !! _).
Qed.

Lemma transaction_pop_once_witness :
  let a := NewAddr [x01; x02; x03; x04] 80 in
  let t := newTransaction a (B "ping") zeroQueryArg None 5 in
  exists tm', PopTransaction (AddTransaction newTransactionManager t) [] a = (tm', Some t) /\
    (PopTransaction tm' [] a).2 = None /\
    (forall id b, (id, Addr_String b) <> trans_key t ->
       (PopTransaction tm' id b).2 = (PopTransaction newTransactionManager id b).2).
Proof.
  exact (transaction_pop_once newTransactionManager
    (newTransaction (NewAddr [x01; x02; x03; x04] 80) (B "ping") zeroQueryArg None 5)
    (NewAddr [x01; x02; x03; x04] 80) eq_refl).
Defined.

(** ** Peers *)

Lemma getPeers_loop_spec peers maxnum ipv6 :
  0 <= maxnum ->
  getPeers_loop peers maxnum ipv6
  = take (Z.to_nat maxnum)
      (map (fun p => Addr_String (p_Addr p))
         (List.filter (fun p => Bool.eqb (isIPv6 (a_IP (p_Addr p))) ipv6) peers)).
Proof.
  revert maxnum. induction peers as [|p peers IH]; intros maxnum Hm; simpl.
  - by destruct (Z.to_nat maxnum).
  - destruct (Z.ltb_spec maxnum 1).
    + assert (maxnum = 0) as -> by lia. done.
    + replace (Z.to_nat maxnum) with (S (Z.to_nat (maxnum - 1))) by lia.
      destruct ipv6, (isIPv6 (a_IP (p_Addr p))); simpl; rewrite IH by lia;
        try (by replace (Z.to_nat maxnum) with (S (Z.to_nat (maxnum - 1))) by lia); done.
Qed.

(** [GetPeers] returns the recorded peers of the infohash that belong to the address
    family asked for, each once, and at most [maxnum] of them, in whatever order the map
    is walked; when fewer than [maxnum] match it returns them all. *)
Theorem getPeers_correct iter tpm infohash maxnum ipv6 peers :
  (forall m, iter m ≡ₚ map snd (map_to_list m)) ->
  0 <= maxnum -> tpm_peers tpm !! infohash = Some peers ->
  exists l rest, tpm_GetPeers iter tpm infohash maxnum ipv6
      = Ok (map (fun p => Addr_String (p_Addr p)) l) /\
    l ++ rest ≡ₚ List.filter (fun p => Bool.eqb (isIPv6 (a_IP (p_Addr p))) ipv6)
                   (map snd (map_to_list peers)) /\
    length l = Nat.min (Z.to_nat maxnum) (length (l ++ rest)).
Proof.
  intros Hiter Hm E. unfold tpm_GetPeers. destruct (Z.ltb_spec maxnum 0); [lia|]. rewrite E.
  rewrite getPeers_loop_spec, firstn_map by done.
  set (f := fun p : peer => Bool.eqb _ _). exists (take (Z.to_nat maxnum) (List.filter f (iter peers))),
    (drop (Z.to_nat maxnum) (List.filter f (iter peers))).
  split; [done|]. rewrite take_drop. split.
  - assert (Hf : forall l k : list peer, l ≡ₚ k -> List.filter f l ≡ₚ List.filter f k); [|by apply Hf].
    induction 1; simpl; try done; repeat case_match; try done; try (by f_equiv); try apply perm_swap.
    by etrans.
  - apply length_take.
Qed.

(** The recorded peers of an infohash and a family. *)
Definition recorded (tpm : tokenPeerManager) (infohash : Hash) (ipv6 : bool) : list peer :=
  List.filter (fun p => Bool.eqb (isIPv6 (a_IP (p_Addr p))) ipv6)
    match tpm_peers tpm !! infohash with Some peers => map snd (map_to_list peers) | None => [] end.
Lemma tpm_GetPeers_recorded iter tpm infohash maxnum ipv6 values :
  (forall m, iter m ≡ₚ map snd (map_to_list m)) ->
  tpm_GetPeers iter tpm infohash maxnum ipv6 = Ok values ->
  exists l rest, values = map (fun p => Addr_String (p_Addr p)) l /\ l ++ rest ≡ₚ recorded tpm infohash ipv6 /\
    length l = Nat.min (Z.to_nat maxnum) (length (recorded tpm infohash ipv6)).
Proof.
  intros Hiter. unfold recorded. destruct (tpm_peers tpm !! infohash) as [peers|] eqn:E.
  - intros Ev. assert (0 <= maxnum) as Hm.
    { unfold tpm_GetPeers in Ev. by destruct (Z.ltb_spec maxnum 0). }
    destruct (getPeers_correct iter tpm infohash maxnum ipv6 peers Hiter Hm E) as (l & rest & El & Hp & Hl).
    rewrite El in Ev. injection Ev as <-. exists l, rest. split; [done|]. split; [exact Hp|]. by rewrite <- Hp.
  - unfold tpm_GetPeers. rewrite E. destruct (_ <? _); [done|]. intros [= <-]. exists [], []. split; [done|].
    split; [done|]. simpl. lia.
Qed.

Lemma getPeers_correct_witness :
  let a := NewAddr [x01; x02; x03; x04] 80 in
  let tpm := tpm_Set newTokenPeerManager zeroHash a (B "tok") 5 in
  exists l rest, tpm_GetPeers (fun m => map snd (map_to_list m)) tpm zeroHash 8 false
      = Ok (map (fun p => Addr_String (p_Addr p)) l) /\
    l ++ rest ≡ₚ List.filter (fun p => Bool.eqb (isIPv6 (a_IP (p_Addr p))) false)
                   (map snd (map_to_list
                     (<[Addr_String a := mkPeer zeroHash a (B "tok") 5]> ∅ : gmap bytes peer))) /\
    length l = Nat.min (Z.to_nat 8) (length (l ++ rest)).
Proof.
  apply (getPeers_correct (fun m => map snd (map_to_list m))); [done|done|reflexivity].
Defined.
