(* ===== verification/DhtServer.v ===== *)
(** * The DHT server (dht/dht_server.go)

    The handlers are state transformers in a small monad: they read and change the
    [Server], emit the packets, callbacks and notifications of the code in order, and may
    panic.  Parameters: the implementation of the [Blacklist] interface, the two message
    interceptors of the configuration, the socket ([WriteTo]), a custom peer manager and
    the order in which Go walks a map.  [GetNetAddr] and [GetKrpcAddr] have their
    defaults ([k2nAddr], [n2kAddr]); error logs are left out; a goroutine started for a
    message is the call itself.  The visited ids of a search are values here; the slices of
    the code can share an array between the requests of one search, so that an [append] for
    one response may overwrite an id of another, and nothing is proved about which ids a
    request has visited. *)

From S2P Require Import Prelude GoBytes GoNet GoTime Bencode Codec Hash MetaAddr KrpcAddr Krpc.
From S2P Require Import RoutingTable DhtManagers.

Definition queryMethodPing : bytes := B "ping".
Definition queryMethodFindNode : bytes := B "find_node".
Definition queryMethodGetPeers : bytes := B "get_peers".
Definition queryMethodAnnouncePeer : bytes := B "announce_peer".
Definition errUnsupportedIPProtocol : error := Errorf "unsupported ip protocol".

Record Result : Type := mkResult {
  res_Addr : Addr;
  res_Code : Z;
  res_Reason : bytes;
  res_Timeout : bool;
  res_Peers : list bytes;
}.

(** What the rest of the world sees. *)
Inductive event : Type :=
  | EvWrite (to : UDPAddr) (m : Message) (data : bytes)
  | EvResult (cb : nat) (r : Result)
  | EvSearch (infohash : bytes) (addr : Addr)
  | EvTorrent (infohash addr : bytes).

Definition k2nAddr (a : Addr) : UDPAddr :=
  match a_Orig a with Some u => u | None => Addr_UDPAddr a end.
Definition n2kAddr (u : UDPAddr) : Addr := NewAddrFromUDPAddr u.

Record Config : Type := mkConfig {
  c_K : Z;
  c_ID : Hash;
  c_ReadOnly : bool;
  c_MsgSize : Z;
  c_SearchDepth : Z;
  c_RespTimeout : Z;
}.
(** [Config.set]: the defaults of the plain fields ([random] is [NewRandomHash()]). *)
Definition Config_set (c : Config) (random : Hash) : Config :=
  mkConfig
    (if c_K c <=? 0 then 8 else c_K c)
    (if Hash_IsZero (c_ID c) then random else c_ID c)
    (c_ReadOnly c)
    (if c_MsgSize c <=? 0 then 4096 else c_MsgSize c)
    (if c_SearchDepth c <? 1 then 8 else c_SearchDepth c)
    (if c_RespTimeout c =? 0 then Second * 10 else c_RespTimeout c).

Section Server.
Context {BL : Type} `{!Blacklist BL}.
Variable HandleInMessage : UDPAddr -> Message -> bool * Message.
Variable HandleOutMessage : UDPAddr -> Message -> bool * option error * Message.
Variable WriteTo : bytes -> UDPAddr -> nat * option error.
Variable customPeers : option (Hash -> Z -> bool -> list bytes).
Variable iter : gmap bytes peer -> list peer.

Record Server : Type := mkServer {
  s_conf : Config;
  s_ipv4 : bool;
  s_ipv6 : bool;
  s_want : list bytes;
  s_bl : BL;
  s_rt4 : routingTable;
  s_rt6 : routingTable;
  s_tokens : tokenManager;
  s_peers : tokenPeerManager;
  s_trans : transactionManager;
}.

Definition set_bl (s : Server) (x : BL) : Server :=
  mkServer (s_conf s) (s_ipv4 s) (s_ipv6 s) (s_want s) x (s_rt4 s) (s_rt6 s) (s_tokens s) (s_peers s) (s_trans s).
Definition set_rt4 (s : Server) (x : routingTable) : Server :=
  mkServer (s_conf s) (s_ipv4 s) (s_ipv6 s) (s_want s) (s_bl s) x (s_rt6 s) (s_tokens s) (s_peers s) (s_trans s).
Definition set_rt6 (s : Server) (x : routingTable) : Server :=
  mkServer (s_conf s) (s_ipv4 s) (s_ipv6 s) (s_want s) (s_bl s) (s_rt4 s) x (s_tokens s) (s_peers s) (s_trans s).
Definition set_tokens (s : Server) (x : tokenManager) : Server :=
  mkServer (s_conf s) (s_ipv4 s) (s_ipv6 s) (s_want s) (s_bl s) (s_rt4 s) (s_rt6 s) x (s_peers s) (s_trans s).
Definition set_peers (s : Server) (x : tokenPeerManager) : Server :=
  mkServer (s_conf s) (s_ipv4 s) (s_ipv6 s) (s_want s) (s_bl s) (s_rt4 s) (s_rt6 s) (s_tokens s) x (s_trans s).
Definition set_trans (s : Server) (x : transactionManager) : Server :=
  mkServer (s_conf s) (s_ipv4 s) (s_ipv6 s) (s_want s) (s_bl s) (s_rt4 s) (s_rt6 s) (s_tokens s) (s_peers s) x.

(** ** The monad: state, events, panics *)

Definition M (A : Type) : Type := Server -> option (A * Server * list event).
Definition ret {A} (a : A) : M A := fun s => Some (a, s, []).
Definition bind {A B} (m : M A) (k : A -> M B) : M B := fun s =>
  match m s with
  | Some (a, s, evs) =>
      match k a s with Some (b, s, evs') => Some (b, s, evs ++ evs') | None => None end
  | None => None
  end.
Definition getS : M Server := fun s => Some (s, s, []).
Definition putS (s' : Server) : M unit := fun _ => Some (tt, s', []).
Definition emit (e : event) : M unit := fun s => Some (tt, s, [e]).
Definition panic {A} : M A := fun _ => None.
#[export] Instance M_ret : MRet M := @ret.
#[export] Instance M_bind : MBind M := fun A B k m => bind m k.

Definition whenM (b : bool) (m : M unit) : M unit := if b then m else ret tt.
Fixpoint eachM {A} (l : list A) (f : A -> M unit) : M unit :=
  match l with [] => ret tt | x :: l => f x ;; eachM l f end.

(** ** [NewServer] with the address families already known *)

Definition IPv4Protocol : Z := 4.
Definition IPv6Protocol : Z := 6.
Definition NewServer (conf : Config) (protocols : list Z) (bl : BL) (token : bytes)
    (load4 load6 : option (list RoutingTableNode)) (now : Z) : Server :=
  mkServer conf
    (existsb (Z.eqb IPv4Protocol) protocols) (existsb (Z.eqb IPv6Protocol) protocols)
    (omap (fun p => if p =? IPv4Protocol then Some WantNodes
                    else if p =? IPv6Protocol then Some WantNodes6 else None) protocols)
    bl
    (newRoutingTable (c_K conf) false (c_ID conf) load4 now)
    (newRoutingTable (c_K conf) true (c_ID conf) load6 now)
    (newTokenManager token) newTokenPeerManager newTransactionManager.

(** ** Nodes *)

Definition AddNode (node : Node) (now : Z) : M addStatus :=
  s ← getS;
  let add (rt : routingTable) (set : routingTable -> Server) : M addStatus :=
    match rt_AddNode rt node now with
    | Some (rt, st) => putS (set rt) ;; ret st
    | None => panic
    end in
  if isIPv6 (a_IP (n_Addr node)) then
    if s_ipv6 s then add (s_rt6 s) (set_rt6 s) else ret NodeNotAdded
  else if s_ipv4 s then add (s_rt4 s) (set_rt4 s)
  else ret NodeNotAdded.

Definition addNode (kaddr : Addr) (id : Hash) (ro : bool) (now : Z) : M addStatus :=
  if ro then ret NodeNotAdded
  else
    st ← AddNode (NewNode id kaddr) now;
    whenM (bool_decide (st = NodeExistAndChanged))
      (s ← getS; putS (set_bl s (bl_Add (s_bl s) kaddr now))) ;;
    ret st.

Definition addNode2 (node : Node) (ro : bool) (now : Z) : M addStatus :=
  if ro then ret NodeNotAdded else AddNode node now.

Definition isDisabled (s : Server) (raddr : Addr) : bool :=
  if (length (a_IP raddr) =? 0)%nat then false
  else if isIPv6 (a_IP raddr) then negb (s_ipv6 s) else negb (s_ipv4 s).

(** ** Sending *)

Definition _send (kaddr : Addr) (m : Message) (now : Z) : M (bool * option error) :=
  if bool_decide (m_T m = []) || bool_decide (m_Y m = []) then panic
  else
    match encodeMessage m with
    | Ok data =>
        let to := k2nAddr kaddr in
        let '(n, err) := WriteTo data to in
        match err with
        | Some e =>
            s ← getS; putS (set_bl s (bl_Add (s_bl s) kaddr now)) ;;
            ret (false, Some e)
        | None =>
            emit (EvWrite to m data) ;;
            ret (true, if (n =? length data)%nat then None else Some ErrShortWrite)
        end
    | _ => panic
    end.

Definition send (kaddr : Addr) (m : Message) (now : Z) : M (bool * option error) :=
  s ← getS;
  let m := mkMessage (m_T m) (m_Y m) (m_Q m) (m_A m) (m_R m) (m_E m) (c_ReadOnly (s_conf s)) in
  let kaddr := mkAddr (a_IP kaddr) (a_Port kaddr) (Some (k2nAddr kaddr)) in
  let '(wrote, err, m) := HandleOutMessage (k2nAddr kaddr) m in
  match wrote, err with
  | false, None => _send kaddr m now
  | _, _ => ret (wrote, err)
  end.

Definition sendError (raddr : Addr) (tid reason : bytes) (code : Z) (now : Z) : M unit :=
  send raddr (NewErrorMsg tid code reason) now ;; ret tt.

Definition reply (raddr : Addr) (tid : bytes) (r : ResponseResult) (now : Z) : M unit :=
  s ← getS;
  let r := mkResponseResult (c_ID (s_conf s)) (rr_Nodes r) (rr_Nodes6 r) (rr_Token r) (rr_Values r) in
  send raddr (NewResponseMsg tid r) now ;; ret tt.

(** [request], up to its call of [AddTransaction], and the error it returns; that call is a step of its
    own ([TransAdd] of DhtLife.v), since a response may be handled before it. *)
Definition request (t : transaction) (now : Z) : M (option error) :=
  s ← getS;
  if isDisabled s (t_Addr t) then ret (Some errUnsupportedIPProtocol)
  else
    let a := t_Arg t in
    let arg := mkQueryArg (c_ID (s_conf s)) (qa_Target a) (qa_InfoHash a) (qa_Port a) (qa_Token a)
                 (qa_ImpliedPort a) (qa_Wants a) in
    id ← (if bool_decide (t_ID t = []) then
                let '(tm, id) := GetTransactionID (s_trans s) in putS (set_trans s tm) ;; ret id
              else ret (t_ID t));
    let t := mkTransaction id (t_Query t) arg (t_Addr t) (t_Time t) (t_Depth t) (t_Visited t)
               (t_Callback t) (t_OnResponse t) in
    x ← send (t_Addr t) (NewQueryMsg id (t_Query t) arg) now;
    match snd x with
    | Some e => ret (Some e)
    | None => s ← getS; putS (set_trans s (sentTransaction (s_trans s) t)) ;; ret None
    end.

(** [transaction.Done]. *)
Definition Done (t : transaction) (r : Result) : M unit :=
  match t_Callback t with
  | Some cb => emit (EvResult cb (mkResult (t_Addr t) (res_Code r) (res_Reason r) (res_Timeout r) (res_Peers r)))
  | None => ret tt
  end.
Definition okResult (peers : list bytes) : Result := mkResult zeroAddr 0 [] false peers.

Definition with_handler (t : transaction) (h : respHandler) (depth : Z) (visited : list Hash) : transaction :=
  mkTransaction (t_ID t) (t_Query t) (t_Arg t) (t_Addr t) (t_Time t) depth visited (t_Callback t) h.

Definition Ping (addr : Addr) (cb : option nat) (now : Z) : M (option error) :=
  request (with_handler (newTransaction addr queryMethodPing zeroQueryArg cb now) onPingResp 0 []) now.

Definition getPeers (info : Hash) (addr : Addr) (depth : Z) (ids : list Hash) (cb : option nat) (now : Z)
    : M unit :=
  s ← getS;
  let arg := mkQueryArg zeroHash zeroHash info 0 [] false (s_want s) in
  request (with_handler (newTransaction addr queryMethodGetPeers arg cb now) onGetPeersResp depth ids) now ;;
  ret tt.

(** The depth is not stored in the transaction, as in the code. *)
Definition findNode (target : Hash) (addr : Addr) (depth : Z) (ids : list Hash) (now : Z)
    : M (option error) :=
  s ← getS;
  let arg := mkQueryArg zeroHash target zeroHash 0 [] false (s_want s) in
  request (with_handler (newTransaction addr queryMethodFindNode arg None now) onFindNodeResp 0 ids) now.

(** ** Responses *)

(** The two [for] loops over [m.R.Nodes] and [m.R.Nodes6] of [onGetPeersResp] and
    [onFindNodeResp]: whether the target was seen, the new nodes, and the visited ids. *)
Fixpoint collect (target : Hash) (ro : bool) (now : Z) (l : list Node)
    (found : bool) (nodes : list Node) (ids : list Hash) : M (bool * list Node * list Hash) :=
  match l with
  | [] => ret (found, nodes, ids)
  | node :: l =>
      let found := found || bool_decide (n_ID node = target) in
      if Hashes_Contains ids (n_ID node) then collect target ro now l found nodes ids
      else
        st ← addNode2 node ro now;
        if bool_decide (st = NodeAdded)
        then collect target ro now l found (nodes ++ [node]) (ids ++ [n_ID node])
        else collect target ro now l found nodes ids
  end.

Definition handle_onGetPeersResp (t : transaction) (a : Addr) (m : Message) (now : Z) : M unit :=
  whenM (negb (bool_decide (rr_Token (m_R m) = [])))
    (s ← getS; putS (set_peers s (tpm_Set (s_peers s) (rr_ID (m_R m)) a (rr_Token (m_R m)) now))) ;;
  if negb (length (rr_Values (m_R m)) =? 0)%nat then
    Done t (okResult (rr_Values (m_R m))) ;;
    eachM (rr_Values (m_R m)) (fun addr => emit (EvTorrent (Hash_HexString (qa_InfoHash (t_Arg t))) addr))
  else
    Done t (okResult []) ;;
    let depth := t_Depth t - 1 in
    if depth <? 1 then ret tt
    else
      x ← collect (qa_InfoHash (t_Arg t)) (m_RO m) now (rr_Nodes (m_R m) ++ rr_Nodes6 (m_R m))
                false [] (t_Visited t);
      let '(found, nodes, ids) := x in
      if found || (length nodes =? 0)%nat then ret tt
      else eachM nodes (fun node =>
             getPeers (qa_InfoHash (t_Arg t)) (n_Addr node) depth ids (t_Callback t) now).

Definition handle_onFindNodeResp (t : transaction) (m : Message) (now : Z) : M unit :=
  Done t (okResult []) ;;
  let depth := t_Depth t - 1 in
  if depth <? 1 then ret tt
  else
    x ← collect (qa_Target (t_Arg t)) (m_RO m) now (rr_Nodes (m_R m) ++ rr_Nodes6 (m_R m))
              false [] (t_Visited t);
    let '(found, nodes, ids) := x in
    if found || (length nodes =? 0)%nat then ret tt
    else eachM nodes (fun node =>
           findNode (qa_Target (t_Arg t)) (n_Addr node) depth ids now ;; ret tt).

Definition OnResponse (t : transaction) (a : Addr) (m : Message) (now : Z) : M unit :=
  match t_OnResponse t with
  | noopResponse => ret tt
  | onPingResp => Done t (okResult [])
  | onGetPeersResp => handle_onGetPeersResp t a m now
  | onFindNodeResp => handle_onFindNodeResp t m now
  end.

Definition onError (t : transaction) (code : Z) (reason : bytes) : M unit :=
  Done t (mkResult zeroAddr code reason false []).
Definition onTimeout (t : transaction) : M unit := Done t (mkResult zeroAddr 0 [] true []).

(** ** Queries *)

(** [s.peerManager.GetPeers]. *)
Definition peerManager_GetPeers (s : Server) (infohash : Hash) (maxnum : Z) (ipv6 : bool) : res (list bytes) :=
  match customPeers with
  | Some f => Ok (f infohash maxnum ipv6)
  | None => tpm_GetPeers iter (s_peers s) infohash maxnum ipv6
  end.
Definition liftR {A} (x : res A) : M A := match x with Ok a => ret a | _ => panic end.

(** The closest nodes of both tables, as [find_node] and [get_peers] answer them. *)
Definition closestNodes (s : Server) (raddr : Addr) (m : Message) : list Node * list Node :=
  let n4 := ContainsWant (m_A m) WantNodes in
  let n6 := ContainsWant (m_A m) WantNodes6 in
  let c4 := Closest (s_rt4 s) (qa_InfoHash (m_A m)) (c_K (s_conf s)) in
  let c6 := Closest (s_rt6 s) (qa_InfoHash (m_A m)) (c_K (s_conf s)) in
  if negb n4 && negb n6 then if isIPv6 (a_IP raddr) then ([], c6) else (c4, [])
  else (if n4 then c4 else [], if n6 then c6 else []).

(** The peers [get_peers] answers with. *)
Definition getPeers_values (s : Server) (raddr : Addr) (m : Message) : M (list bytes) :=
  let n4 := ContainsWant (m_A m) WantNodes in
  let n6 := ContainsWant (m_A m) WantNodes6 in
  let h := qa_InfoHash (m_A m) in
  let k := c_K (s_conf s) in
  if negb n4 && negb n6 then liftR (peerManager_GetPeers s h k (isIPv6 (a_IP raddr)))
  else
    v4 ← (if n4 then liftR (peerManager_GetPeers s h k false) else ret []);
    v6 ← (if n6 then liftR (peerManager_GetPeers s h k true) else ret []);
    ret (v4 ++ v6).

Definition handleQuery (raddr : Addr) (m : Message) (now : Z) : M unit :=
  s ← getS;
  if bool_decide (m_Q m = queryMethodPing) then reply raddr (m_T m) zeroResponseResult now
  else if bool_decide (m_Q m = queryMethodFindNode) then
    let '(nodes, nodes6) := closestNodes s raddr m in
    reply raddr (m_T m) (mkResponseResult zeroHash nodes nodes6 [] []) now
  else if bool_decide (m_Q m = queryMethodGetPeers) then
    values ← getPeers_values s raddr m;
    let '(nodes, nodes6) :=
      if (length values =? 0)%nat then closestNodes s raddr m else ([], []) in
    let '(tm, token) := Token (s_tokens s) raddr now in
    putS (set_tokens s tm) ;;
    reply raddr (m_T m) (mkResponseResult zeroHash nodes nodes6 token values) now ;;
    emit (EvSearch (Hash_HexString (qa_InfoHash (m_A m))) raddr)
  else if bool_decide (m_Q m = queryMethodAnnouncePeer) then
    if Check (s_tokens s) raddr (qa_Token (m_A m)) then ret tt
    else
      reply raddr (m_T m) zeroResponseResult now ;;
      emit (EvTorrent (Hash_HexString (qa_InfoHash (m_A m))) (Addr_String raddr))
  else sendError raddr (m_T m) (B "unknown query method") ErrorCodeMethodUnknown now.

(** ** Messages and packets *)

Definition popTransaction (tid : bytes) (kaddr : Addr) : M (option transaction) :=
  s ← getS;
  let '(tm, t) := PopTransaction (s_trans s) tid kaddr in
  putS (set_trans s tm) ;; ret t.

Definition handleMessage (kaddr : Addr) (m : Message) (now : Z) : M unit :=
  let '(handled, m) := HandleInMessage (k2nAddr kaddr) m in
  if handled then ret tt
  else if bool_decide (m_Y m = B "q") then
    if Hash_IsZero (qa_ID (m_A m)) then ret tt
    else
      r ← addNode kaddr (qa_ID (m_A m)) (m_RO m) now;
      s ← getS;
      if negb (bool_decide (r = NodeExistAndChanged)) && negb (c_ReadOnly (s_conf s))
      then handleQuery kaddr m now else ret tt
  else if bool_decide (m_Y m = B "r") then
    if Hash_IsZero (rr_ID (m_R m)) then ret tt
    else
      r ← addNode kaddr (rr_ID (m_R m)) (m_RO m) now;
      if bool_decide (r = NodeExistAndChanged) then ret tt
      else
        t ← popTransaction (m_T m) kaddr;
        match t with Some t => OnResponse t kaddr m now | None => ret tt end
  else if bool_decide (m_Y m = B "e") then
    t ← popTransaction (m_T m) kaddr;
    match t with Some t => onError t (e_Code (m_E m)) (e_Reason (m_E m)) | None => ret tt end
  else ret tt.

Definition handlePacket (raddr : UDPAddr) (data : bytes) (now : Z) : M unit :=
  let kaddr := n2kAddr raddr in
  s ← getS;
  if isDisabled s kaddr then ret tt
  else if bl_In (s_bl s) kaddr then ret tt
  else
    match decodeMessage data with
    | Panic => panic
    | Err _ => ret tt
    | Ok msg => if bool_decide (m_T msg = []) then ret tt else handleMessage kaddr msg now
    end.

(** ** The public operations *)

Definition closestOf (s : Server) (infohash : Hash) : list Node :=
  (if s_ipv4 s then Closest (s_rt4 s) infohash (c_K (s_conf s)) else [])
  ++ (if s_ipv6 s then Closest (s_rt6 s) infohash (c_K (s_conf s)) else []).

Definition GetPeers (infohash : Hash) (cb : option nat) (now : Z) : M unit :=
  if Hash_IsZero infohash then panic
  else
    s ← getS;
    let nodes := closestOf s infohash in
    if (length nodes =? 0)%nat then
      match cb with Some cb => emit (EvResult cb (okResult [])) | None => ret tt end
    else
      eachM nodes (fun node =>
        getPeers infohash (n_Addr node) (c_SearchDepth (s_conf s)) (map n_ID nodes) cb now).

Fixpoint announce_loop (infohash : Hash) (port : Z) (impliedPort : bool) (now : Z)
    (nodes : list Node) : M (list Node) :=
  match nodes with
  | [] => ret []
  | node :: nodes =>
      s ← getS;
      let token := tpm_Get (s_peers s) infohash (n_Addr node) in
      if bool_decide (token = []) then announce_loop infohash port impliedPort now nodes
      else
        let arg := mkQueryArg zeroHash zeroHash infohash port token impliedPort [] in
        err ← request (newTransaction (n_Addr node) queryMethodAnnouncePeer arg None now) now;
        rest ← announce_loop infohash port impliedPort now nodes;
        ret (match err with Some _ => rest | None => node :: rest end)
  end.
Definition AnnouncePeer (infohash : Hash) (port : Z) (impliedPort : bool) (now : Z) : M (list Node) :=
  if Hash_IsZero infohash then panic
  else s ← getS; announce_loop infohash port impliedPort now (closestOf s infohash).

Definition FindNode (addr : Addr) (target : Hash) (now : Z) : M (option error) :=
  if Hash_IsZero target then panic
  else s ← getS; findNode target addr (c_SearchDepth (s_conf s)) [] now.

(** [Bootstrap]: an address that cannot be parsed or resolved, and one of a family that is off,
    is passed over. *)
Definition bootstrap_addr (ipport : Addr) (now : Z) : M unit :=
  s ← getS;
  if (if isIPv6 (a_IP ipport) then negb (s_ipv6 s) else negb (s_ipv4 s)) then ret tt
  else FindNode ipport (c_ID (s_conf s)) now ;; ret tt.
Definition Node4Num (s : Server) : nat := rt_Len (s_rt4 s).
Definition Node6Num (s : Server) : nat := rt_Len (s_rt6 s).
Definition Bootstrap (LookupIP : bytes -> res (list IP)) (addrs : list bytes) (now : Z) : M unit :=
  s ← getS;
  if (s_ipv4 s && (Node4Num s =? 0)%nat) || (s_ipv6 s && (Node6Num s =? 0)%nat) then
    eachM addrs (fun addr =>
      match ParseAddrs LookupIP addr with
      | Ok ipports => eachM ipports (fun ipport => bootstrap_addr ipport now)
      | Err _ => ret tt
      | Panic => panic
      end)
  else ret tt.

(** ** The tickers, and the goroutines between sending and adding *)

(** The [i]th of the sent transactions is added. *)
Definition trans_add (i : nat) : M unit := s ← getS; putS (set_trans s (addSent (s_trans s) i)).

(** A tick of the routing table of one family: the check, and the pings it sends. *)
Definition table_tick (ipv6 : bool) (now : Z) : M unit :=
  s ← getS;
  let '(rt, pings) := checkAllBuckets (if ipv6 then s_rt6 s else s_rt4 s) now in
  putS (if ipv6 then set_rt6 s rt else set_rt4 s rt) ;;
  eachM pings (fun a => Ping a None now ;; ret tt).

Definition transaction_tick (now : Z) : M unit :=
  s ← getS;
  let '(tm, late) := transactions_tick (s_trans s) (c_RespTimeout (s_conf s)) now in
  putS (set_trans s tm) ;; eachM late onTimeout.

End Server.
