(* ===== verification/DhtServerThms.v ===== *)
(** * Theorems about the DHT server

    Proved against the [Blacklist] interface, for every interceptor, socket and peer
    manager, unless a theorem says otherwise. *)

From S2P Require Import Prelude GoBytes GoNet GoTime Bencode Codec Hash MetaAddr KrpcAddr Krpc.
From S2P Require Import RoutingTable DhtManagers DhtManagersThms DhtServer.

Section Thms.
Context {BL : Type} `{!Blacklist BL}.
Variable HandleInMessage : UDPAddr -> Message -> bool * Message.
Variable HandleOutMessage : UDPAddr -> Message -> bool * option error * Message.
Variable WriteTo : bytes -> UDPAddr -> nat * option error.
Variable customPeers : option (Hash -> Z -> bool -> list bytes).
Variable iter : gmap bytes peer -> list peer.

#[local] Abbreviation Server := (Server (BL := BL)).
#[local] Abbreviation M := (M (BL := BL)).
#[local] Abbreviation send := (send HandleOutMessage WriteTo).
#[local] Abbreviation request := (request HandleOutMessage WriteTo).
#[local] Abbreviation handleQuery := (handleQuery HandleOutMessage WriteTo customPeers iter).
#[local] Abbreviation handleMessage := (handleMessage HandleInMessage HandleOutMessage WriteTo customPeers iter).
#[local] Abbreviation handlePacket := (handlePacket HandleInMessage HandleOutMessage WriteTo customPeers iter).

(** ** Reasoning about runs *)

(** [post m s Q]: every run of [m] from [s] that does not panic ends in [Q]. *)
Definition post {A} (m : M A) (s : Server) (Q : A -> Server -> list event -> Prop) : Prop :=
  forall a s' evs, m s = Some (a, s', evs) -> Q a s' evs.

Lemma post_ret {A} (a : A) s (Q : A -> Server -> list event -> Prop) : Q a s [] -> post (ret a) s Q.
Proof. intros H a' s' evs [= <- <- <-]. done. Qed.
Lemma post_emit e s (Q : unit -> Server -> list event -> Prop) : Q tt s [e] -> post (emit e) s Q.
Proof. intros H a' s' evs [= <- <- <-]. done. Qed.
Lemma post_putS s1 s (Q : unit -> Server -> list event -> Prop) : Q tt s1 [] -> post (putS s1) s Q.
Proof. intros H a' s' evs [= <- <- <-]. done. Qed.
Lemma post_getS s (Q : Server -> Server -> list event -> Prop) : Q s s [] -> post getS s Q.
Proof. intros H a' s' evs [= <- <- <-]. done. Qed.
Lemma post_panic {A} s (Q : A -> Server -> list event -> Prop) : post panic s Q.
Proof. by intros a s' evs. Qed.
Lemma post_bind {A B} (m : M A) (k : A -> M B) s Q :
  post m s (fun a s1 e1 => post (k a) s1 (fun b s2 e2 => Q b s2 (e1 ++ e2))) -> post (m ≫= k) s Q.
Proof.
  intros H b s' evs. unfold mbind, M_bind, bind. destruct (m s) as [[[a s1] e1]|] eqn:E; [|done].
  destruct (k a s1) as [[[b' s2] e2]|] eqn:F; [|done]. intros [= <- <- <-].
  exact (H _ _ _ E _ _ _ F).
Qed.
Lemma post_mono {A} (m : M A) s (Q Q' : A -> Server -> list event -> Prop) :
  post m s Q -> (forall a s' e, Q a s' e -> Q' a s' e) -> post m s Q'.
Proof. intros H HQ a s' evs E. apply HQ, H, E. Qed.

Lemma getPeers_values_pure s raddr m s0 v s' e :
  getPeers_values (BL := BL) customPeers iter s raddr m s0 = Some (v, s', e) -> s' = s0 /\ e = [].
Proof.
  assert (HL : forall A (x : res A), post (liftR (BL := BL) x) s0 (fun _ s' e => s' = s0 /\ e = [])).
  { intros A []; simpl; [by apply post_ret|apply post_panic..]. }
  set (Q := fun (_ : list bytes) (s' : Server) (e : list event) => s' = s0 /\ e = []).
  enough (post (getPeers_values customPeers iter s raddr m) s0 Q) as H by exact (H _ _ _).
  unfold getPeers_values. destruct (negb _ && negb _); [apply HL|].
  apply post_bind. eapply post_mono; [destruct (ContainsWant _ WantNodes); [apply HL|by apply post_ret]|].
  intros v4 s1 e1 [-> ->]. apply post_bind.
  eapply post_mono; [destruct (ContainsWant _ WantNodes6); [apply HL|by apply post_ret]|].
  intros v6 s2 e2 [-> ->]. by apply post_ret.
Qed.

Lemma post_unit (m : M unit) s (Q : Server -> list event -> Prop) :
  post m s (fun _ s' evs => Q s' evs) -> forall s' evs, m s = Some (tt, s', evs) -> Q s' evs.
Proof. intros H s' evs. apply H. Qed.

(** ** Properties of the state that every operation keeps *)

Section Frame.
Variable R : Server -> Server -> Prop.
Context `{!PreOrder R}.

Definition keepsR {A} (s : Server) (m : M A) : Prop := post m s (fun _ s' _ => R s s').

Lemma keeps_ret {A} (a : A) s : keepsR s (ret a).
Proof. apply post_ret. reflexivity. Qed.
Lemma keeps_emit e s : keepsR s (emit e).
Proof. apply post_emit. reflexivity. Qed.
Lemma keeps_panic {A} s : keepsR (A := A) s panic.
Proof. apply post_panic. Qed.
Lemma keeps_putS s s1 : R s s1 -> keepsR s (putS s1).
Proof. intros. by apply post_putS. Qed.
Lemma keeps_bind {A B} (m : M A) (k : A -> M B) s :
  keepsR s m -> (forall a s', keepsR s' (k a)) -> keepsR s (m ≫= k).
Proof.
  intros H1 H2. apply post_bind. eapply post_mono; [exact H1|]. intros a s1 e1 HR.
  eapply post_mono; [apply H2|]. intros b s2 e2 HR2. exact (transitivity HR HR2).
Qed.
Lemma keeps_getS {A} (k : Server -> M A) s : keepsR s (k s) -> keepsR s (getS ≫= k).
Proof. intros H. apply post_bind, post_getS. exact H. Qed.
Lemma keeps_putS_bind {A} (k : unit -> M A) s s1 :
  R s s1 -> (forall s', keepsR s' (k tt)) -> keepsR s (putS s1 ≫= k).
Proof. intros H1 H2. apply keeps_bind; [by apply keeps_putS|]. by intros []. Qed.
(** A part that does not touch the state. *)
Lemma keeps_pure_bind {A B} (m : M A) (k : A -> M B) s :
  (forall a s' e, m s = Some (a, s', e) -> s' = s) -> (forall a, keepsR s (k a)) -> keepsR s (m ≫= k).
Proof.
  intros H1 H2. apply post_bind. intros a s1 e1 E. apply H1 in E as ->. apply H2.
Qed.
Lemma keeps_eachM {A} (l : list A) (f : A -> M unit) s :
  (forall x s', keepsR s' (f x)) -> keepsR s (eachM l f).
Proof.
  intros H. revert s. induction l as [|x l IH]; intros s; simpl; [apply keeps_ret|].
  apply keeps_bind; [apply H|]. intros _. apply IH.
Qed.

(** What the handlers write into the state. *)
Hypothesis R_bl : forall s a now, R s (set_bl s (bl_Add (s_bl s) a now)).
Hypothesis R_trans : forall s x, R s (set_trans s x).
Hypothesis R_tokens : forall s x, R s (set_tokens s x).
Hypothesis R_peers : forall s x, R s (set_peers s x).
Hypothesis R_rt4 : forall s n now rt st, rt_AddNode (s_rt4 s) n now = Some (rt, st) -> R s (set_rt4 s rt).
Hypothesis R_rt6 : forall s n now rt st, rt_AddNode (s_rt6 s) n now = Some (rt, st) -> R s (set_rt6 s rt).

Ltac keep :=
  repeat match goal with
  | |- forall _, _ => intro
  | |- keepsR _ (ret _) => apply keeps_ret
  | |- keepsR _ (emit _) => apply keeps_emit
  | |- keepsR _ panic => apply keeps_panic
  | |- keepsR _ (putS _) => apply keeps_putS
  | |- keepsR _ (getS ≫= _) => apply keeps_getS
  | |- keepsR _ (putS _ ≫= _) => apply keeps_putS_bind
  | |- keepsR _ (_ ≫= _) => apply keeps_bind
  | |- keepsR _ (eachM _ _) => apply keeps_eachM
  | |- keepsR _ (if ?b then _ else _) => destruct b eqn:?
  | |- keepsR _ (match ?x with _ => _ end) => destruct x eqn:?
  | |- keepsR _ (let '_ := ?x in _) => destruct x eqn:?
  | |- keepsR _ (whenM _ _) => unfold whenM
  end; eauto.

Lemma keeps_AddNode n now s : keepsR s (AddNode n now).
Proof. unfold AddNode. keep. Qed.
Lemma keeps_addNode a id ro now s : keepsR s (addNode a id ro now).
Proof. pose proof keeps_AddNode. unfold addNode. keep. Qed.
Lemma keeps_addNode2 n ro now s : keepsR s (addNode2 n ro now).
Proof. pose proof keeps_AddNode. unfold addNode2. keep. Qed.
Lemma keeps_send a m now s : keepsR s (send a m now).
Proof. unfold DhtServer.send, _send. keep. Qed.
Lemma keeps_reply a t r now s : keepsR s (reply HandleOutMessage WriteTo a t r now).
Proof. pose proof keeps_send. unfold reply. keep. Qed.
Lemma keeps_request t now s : keepsR s (request t now).
Proof.
  pose proof keeps_send. unfold DhtServer.request. keep.
Qed.
Lemma keeps_collect target ro now l found nodes ids s :
  keepsR s (collect target ro now l found nodes ids).
Proof.
  pose proof keeps_addNode2. revert found nodes ids s.
  induction l as [|x l IH]; intros; simpl; keep.
Qed.
Lemma keeps_OnResponse t a m now s : keepsR s (OnResponse HandleOutMessage WriteTo t a m now).
Proof.
  pose proof keeps_request. pose proof keeps_collect.
  unfold OnResponse, handle_onGetPeersResp, handle_onFindNodeResp, getPeers, findNode, Done. keep.
Qed.

Lemma keeps_handleQuery a m now s : keepsR s (handleQuery a m now).
Proof.
  pose proof keeps_reply. pose proof keeps_send. unfold DhtServer.handleQuery, sendError. apply keeps_getS.
  destruct (bool_decide _); [keep|]. destruct (bool_decide _); [keep|].
  destruct (bool_decide _); [|keep].
  apply keeps_pure_bind; [|keep]. intros v s' e E. by apply getPeers_values_pure in E as [-> _].
Qed.
Lemma keeps_handleMessage a m now s : keepsR s (handleMessage a m now).
Proof.
  pose proof keeps_addNode. pose proof keeps_handleQuery. pose proof keeps_OnResponse.
  unfold DhtServer.handleMessage, popTransaction, onError, Done. keep.
Qed.
Lemma keeps_handlePacket a data now s : keepsR s (handlePacket a data now).
Proof. pose proof keeps_handleMessage. unfold DhtServer.handlePacket. keep. Qed.

(** The ticks and the calls of the user. *)
Hypothesis R_check4 : forall s now, R s (set_rt4 s (checkAllBuckets (s_rt4 s) now).1).
Hypothesis R_check6 : forall s now, R s (set_rt6 s (checkAllBuckets (s_rt6 s) now).1).

Lemma keeps_Ping a cb now s : keepsR s (Ping HandleOutMessage WriteTo a cb now).
Proof. apply keeps_request. Qed.
Lemma keeps_table_tick ipv6 now s : keepsR s (table_tick HandleOutMessage WriteTo ipv6 now).
Proof.
  pose proof keeps_Ping. unfold table_tick. apply keeps_getS. pose proof (R_check4 s now). pose proof (R_check6 s now).
  destruct ipv6; destruct (checkAllBuckets _ now) as [rt pings]; keep.
Qed.
Lemma keeps_transaction_tick now s : keepsR s (transaction_tick now).
Proof. unfold transaction_tick, onTimeout, Done. keep. Qed.
Lemma keeps_trans_add i s : keepsR s (trans_add i).
Proof. unfold trans_add. keep. Qed.
Lemma keeps_GetPeers infohash cb now s : keepsR s (GetPeers HandleOutMessage WriteTo infohash cb now).
Proof. pose proof keeps_request. unfold GetPeers, getPeers. keep. Qed.
Lemma keeps_FindNode a target now s : keepsR s (FindNode HandleOutMessage WriteTo a target now).
Proof. pose proof keeps_request. unfold FindNode, findNode. keep. Qed.
Lemma keeps_AnnouncePeer infohash port implied now s :
  keepsR s (AnnouncePeer HandleOutMessage WriteTo infohash port implied now).
Proof.
  assert (forall l s, keepsR s (announce_loop HandleOutMessage WriteTo infohash port implied now l)).
  { intros l. pose proof keeps_request. induction l as [|n l IH]; intros s1; cbn [announce_loop]; keep. }
  unfold AnnouncePeer. keep.
Qed.
Lemma keeps_Bootstrap LookupIP addrs now s : keepsR s (Bootstrap HandleOutMessage WriteTo LookupIP addrs now).
Proof. pose proof keeps_FindNode. unfold Bootstrap, bootstrap_addr. keep. Qed.
End Frame.

(** ** What one message can do *)

(** Only the routing tables and the blacklist differ. *)
Definition same_but_tables (s s' : Server) : Prop :=
  s_conf s' = s_conf s /\ s_ipv4 s' = s_ipv4 s /\ s_ipv6 s' = s_ipv6 s /\ s_want s' = s_want s /\
  s_tokens s' = s_tokens s /\ s_peers s' = s_peers s /\ s_trans s' = s_trans s.

Lemma AddNode_post n now s :
  post (AddNode n now) s (fun st s' e => e = [] /\ same_but_tables s s' /\ s_bl s' = s_bl s).
Proof.
  unfold AddNode. apply post_bind, post_getS. simpl.
  repeat case_match; (apply post_ret || apply post_panic || (apply post_bind, post_putS; simpl; apply post_ret)); done.
Qed.

Lemma addNode_post a id ro now s :
  post (addNode a id ro now) s (fun st s' e => e = [] /\ same_but_tables s s' /\
    (st <> NodeExistAndChanged -> s_bl s' = s_bl s)).
Proof.
  unfold addNode. destruct ro; [by apply post_ret|]. apply post_bind.
  eapply post_mono; [apply AddNode_post|]. intros st s1 e1 (-> & Hs & Hb). apply post_bind.
  unfold whenM. destruct (bool_decide_reflect (st = NodeExistAndChanged)) as [->|Hst].
  - apply post_bind, post_getS. simpl. apply post_putS. apply post_ret. simpl. done.
  - apply post_ret. apply post_ret. done.
Qed.

(** A read-only node (BEP 43) answers no query and starts none because of one: handling
    a query emits nothing, and leaves tokens, peers and transactions alone. *)
Theorem readonly_silent kaddr m now s s' evs :
  (forall u m, HandleInMessage u m = (false, m)) ->
  c_ReadOnly (s_conf s) = true -> IsQuery m = true ->
  handleMessage kaddr m now s = Some (tt, s', evs) -> evs = [] /\ same_but_tables s s'.
Proof.
  intros Hin Hro Hq. revert s' evs. unfold DhtServer.handleMessage. rewrite Hin.
  unfold IsQuery in Hq. rewrite Hq. destruct (Hash_IsZero _).
  - by intros s' evs [= <- <-].
  - intros s' evs. refine (post_bind _ _ s (fun _ s' evs => evs = [] /\ same_but_tables s s') _ tt s' evs).
    eapply post_mono; [apply addNode_post|]. intros st s1 e1 (-> & Hs & _).
    apply post_bind, post_getS. simpl. destruct Hs as [Hc Hs]. rewrite Hc, Hro, andb_false_r.
    by apply post_ret.
Qed.

(** A response or an error that answers no open request is ignored: nothing is sent,
    no callback runs, and tokens, peers and transactions are as before. *)
Theorem unsolicited_ignored kaddr m now s s' evs :
  (forall u m, HandleInMessage u m = (false, m)) ->
  IsQuery m = false -> snd (PopTransaction (s_trans s) (m_T m) kaddr) = None ->
  handleMessage kaddr m now s = Some (tt, s', evs) -> evs = [] /\ same_but_tables s s'.
Proof.
  intros Hin Hq Hp. unfold IsQuery in Hq.
  assert (Hpop : forall s1 : Server, s_trans s1 = s_trans s ->
    popTransaction (m_T m) kaddr s1 = Some (None, s1, [])).
  { intros s1 E. unfold popTransaction, mbind, M_bind, bind, getS. rewrite E.
    unfold PopTransaction in *. destruct (tm_trans (s_trans s) !! _); [done|]. simpl.
    rewrite <- E. by destruct s1. }
  revert s' evs. unfold DhtServer.handleMessage. rewrite Hin, Hq.
  destruct (bool_decide (m_Y m = B "r")).
  - destruct (Hash_IsZero _); [by intros s' evs [= <- <-]|]. intros s' evs.
    refine (post_bind _ _ s (fun _ s' evs => evs = [] /\ same_but_tables s s') _ tt s' evs).
    eapply post_mono; [apply addNode_post|]. intros st s1 e1 (-> & Hs & _).
    destruct (bool_decide (st = _)); [by apply post_ret|]. apply post_bind.
    intros t s2 e2. rewrite Hpop by apply Hs. intros [= <- <- <-]. by apply post_ret.
  - destruct (bool_decide (m_Y m = B "e")); [|by intros s' evs [= <- <-]].
    unfold mbind at 1, M_bind at 1, bind. rewrite Hpop by done. by intros s' evs [= <- <-].
Qed.

(** ** Replies *)

Lemma send_post a m now s :
  (forall u m, HandleOutMessage u m = (false, None, m)) ->
  (forall b u, snd (WriteTo b u) = None) ->
  post (send a m now) s (fun _ s' e => s' = s /\ exists data,
    let m := mkMessage (m_T m) (m_Y m) (m_Q m) (m_A m) (m_R m) (m_E m) (c_ReadOnly (s_conf s)) in
    encodeMessage m = Ok data /\ e = [EvWrite (k2nAddr a) m data]).
Proof.
  intros Hout Hw. unfold DhtServer.send. apply post_bind, post_getS. rewrite Hout. cbv zeta.
  unfold _send. destruct (_ || _); [apply post_panic|].
  destruct (encodeMessage _) as [data| |] eqn:E; [|apply post_panic..].
  change (k2nAddr (mkAddr (a_IP a) (a_Port a) (Some (k2nAddr a)))) with (k2nAddr a).
  specialize (Hw data (k2nAddr a)). destruct (WriteTo data (k2nAddr a)) as [n [e|]]; [done|].
  apply post_bind, post_emit. apply post_ret. split; [done|]. by exists data.
Qed.

Lemma reply_post a tid r now s :
  (forall u m, HandleOutMessage u m = (false, None, m)) ->
  (forall b u, snd (WriteTo b u) = None) ->
  post (reply HandleOutMessage WriteTo a tid r now) s (fun _ s' e => s' = s /\ exists m data,
    encodeMessage m = Ok data /\ e = [EvWrite (k2nAddr a) m data] /\
    m_T m = tid /\ IsResponse m = true /\ rr_ID (m_R m) = c_ID (s_conf s) /\
    rr_Nodes (m_R m) = rr_Nodes r /\ rr_Nodes6 (m_R m) = rr_Nodes6 r /\
    rr_Token (m_R m) = rr_Token r /\ rr_Values (m_R m) = rr_Values r).
Proof.
  intros Hout Hw. unfold reply. apply post_bind, post_getS. apply post_bind.
  eapply post_mono; [by apply send_post|]. intros x s1 e1 (-> & data & E & ->).
  apply post_ret. split; [done|]. eexists _, data. split; [exact E|]. by repeat split.
Qed.




(** [C16] The test of the token of [announce_peer] is the wrong way round: with a token that
    [Check] accepts the query is dropped in silence, and with one that it rejects the
    announcement is confirmed to the sender and passed to [OnTorrent]. *)
Theorem announce_peer_token raddr m now s s' evs :
  (forall u m, HandleOutMessage u m = (false, None, m)) ->
  (forall b u, snd (WriteTo b u) = None) ->
  m_Q m = queryMethodAnnouncePeer ->
  handleQuery raddr m now s = Some (tt, s', evs) ->
  s' = s /\
  (Check (s_tokens s) raddr (qa_Token (m_A m)) = true -> evs = []) /\
  (Check (s_tokens s) raddr (qa_Token (m_A m)) = false ->
   exists r data, IsResponse r = true /\ m_T r = m_T m /\
     evs = [EvWrite (k2nAddr raddr) r data;
            EvTorrent (Hash_HexString (qa_InfoHash (m_A m))) (Addr_String raddr)]).
Proof.
  intros Hout Hw Hq. revert s' evs.
  apply post_unit.
  unfold DhtServer.handleQuery. apply post_bind, post_getS. rewrite Hq.
  do 3 (rewrite bool_decide_eq_false_2 by done). rewrite bool_decide_eq_true_2 by done.
  destruct (Check (s_tokens s) raddr (qa_Token (m_A m))) eqn:E.
  - by apply post_ret.
  - apply post_bind. eapply post_mono; [by apply reply_post|].
    intros [] s2 e2 (-> & r & data & Ee & -> & HT & HR & _). apply post_emit.
    split; [done|]. split; [done|]. intros _. by exists r, data.
Qed.

(** [find_node] answers with the nodes closest to the [info_hash] argument, which a
    [find_node] query does not carry, and not to its [target]: two queries that differ
    only in the target get the same answer. *)
Theorem find_node_ignores_target raddr m now target :
  m_Q m = queryMethodFindNode ->
  let a := m_A m in
  let m' := mkMessage (m_T m) (m_Y m) (m_Q m)
              (mkQueryArg (qa_ID a) target (qa_InfoHash a) (qa_Port a) (qa_Token a) (qa_ImpliedPort a)
                 (qa_Wants a)) (m_R m) (m_E m) (m_RO m) in
  forall s, handleQuery raddr m' now s = handleQuery raddr m now s.
Proof.
  intros Hq a m' s. unfold DhtServer.handleQuery, m'. cbn [m_Q m_T m_A]. rewrite Hq.
  rewrite bool_decide_eq_false_2 by done. rewrite bool_decide_eq_true_2 by done. done.
Qed.

(** ** Searches *)

(** The requests that are open, or will be when their goroutine adds them. *)
Definition asked (s : Server) (x : transaction) : Prop :=
  (exists key, tm_trans (s_trans s) !! key = Some x) \/ x ∈ tm_sent (s_trans s).
(** The requests afterwards are those of before, and new ones that satisfy [P]. *)
Definition adds (P : transaction -> Prop) (s s' : Server) : Prop :=
  forall x, asked s' x -> asked s x \/ P x.
#[local] Instance adds_preorder P : PreOrder (adds P).
Proof.
  split; [by intros s x; left|].
  intros s1 s2 s3 H1 H2 x Hx. destruct (H2 x Hx) as [H|H]; [by apply H1|by right].
Qed.

Lemma adds_same P (s s' : Server) : s_trans s' = s_trans s -> adds P s s'.
Proof. intros E x. unfold asked. rewrite E. by left. Qed.

Definition same_trans (s s' : Server) : Prop := s_trans s' = s_trans s.
#[local] Instance same_trans_preorder : PreOrder same_trans.
Proof. split; [done|]. intros s1 s2 s3 H1 H2. unfold same_trans in *. congruence. Qed.

Lemma keeps_impl {A} (R R' : Server -> Server -> Prop) s (m : M A) :
  keepsR R s m -> (forall s', R s s' -> R' s s') -> keepsR R' s m.
Proof. intros H HR. eapply post_mono; [exact H|]. auto. Qed.

Lemma send_same_trans a m now s : keepsR same_trans s (send a m now).
Proof. apply keeps_send; by try apply _. Qed.
Lemma AddNode_same_trans n now s : keepsR same_trans s (AddNode n now).
Proof. apply keeps_AddNode; by try apply _. Qed.

Lemma request_adds t now s :
  keepsR (adds (fun x => t_Depth x = t_Depth t /\ t_OnResponse x = t_OnResponse t /\
    t_Visited x = t_Visited t /\ qa_InfoHash (t_Arg x) = qa_InfoHash (t_Arg t))) s (request t now).
Proof.
  set (P := fun x => _). unfold DhtServer.request. apply keeps_getS.
  destruct (isDisabled _ _); [apply keeps_ret; apply _|].
  assert (Hsend : forall a m s1, keepsR (adds P) s1 (send a m now)).
  { intros. eapply keeps_impl; [apply send_same_trans|]. intros; by apply adds_same. }
  assert (Hadd : forall (s1 : Server) id arg, qa_InfoHash arg = qa_InfoHash (t_Arg t) ->
    adds P s1 (set_trans s1 (sentTransaction (s_trans s1)
      (mkTransaction id (t_Query t) arg (t_Addr t) (t_Time t) (t_Depth t) (t_Visited t) (t_Callback t)
         (t_OnResponse t))))).
  { intros s1 id arg Ha x. unfold asked. simpl. rewrite elem_of_app, list_elem_of_singleton.
    intros [H|[H| ->]]; [left; by left|left; by right|by right]. }
  apply keeps_bind; [apply _| |].
  - destruct (bool_decide _); [|apply keeps_ret; apply _].
    cbn [GetTransactionID]. apply keeps_putS_bind; [apply _|by intros x; left|].
    intros; apply keeps_ret; apply _.
  - intros id s1. apply keeps_bind; [apply _|apply Hsend|]. intros [w [e|]] s2; [apply keeps_ret; apply _|].
    apply keeps_getS. apply keeps_putS_bind; [apply _|by apply Hadd|]. intros; apply keeps_ret; apply _.
Qed.

Lemma collect_same_trans target ro now l found nodes ids s :
  keepsR same_trans s (collect target ro now l found nodes ids).
Proof. apply keeps_collect; by try apply _. Qed.

(** The recursive search for peers ends: a [get_peers] response makes the server ask
    further nodes only while its depth allows, and every request it adds has a depth one
    less, still positive, for the same infohash; so after [SearchDepth] rounds there is
    none.  Responses with peers add no request at all. *)
Theorem get_peers_search_bounded t a m now s s' evs :
  handle_onGetPeersResp HandleOutMessage WriteTo t a m now s = Some (tt, s', evs) ->
  forall x, asked s' x ->
    asked s x \/
    (rr_Values (m_R m) = [] /\ 1 <= t_Depth x /\ t_Depth x = t_Depth t - 1 /\
     t_OnResponse x = onGetPeersResp /\ qa_InfoHash (t_Arg x) = qa_InfoHash (t_Arg t)).
Proof.
  intros E. change (adds (fun x => rr_Values (m_R m) = [] /\ 1 <= t_Depth x /\
    t_Depth x = t_Depth t - 1 /\ t_OnResponse x = onGetPeersResp /\
    qa_InfoHash (t_Arg x) = qa_InfoHash (t_Arg t)) s s').
  revert E. set (P := fun x => _). revert s' evs.
  enough (keepsR (adds P) s (handle_onGetPeersResp HandleOutMessage WriteTo t a m now)) as H
    by (intros s' evs E; exact (H _ _ _ E)).
  assert (HDone : forall r s1, keepsR (adds P) s1 (Done t r)).
  { intros r s1. unfold Done. destruct (t_Callback t); [apply keeps_emit|apply keeps_ret]; apply _. }
  unfold handle_onGetPeersResp. apply keeps_bind; [apply _| |].
  { unfold whenM. destruct (negb _); [|apply keeps_ret; apply _]. apply keeps_getS, keeps_putS. by apply adds_same. }
  intros _ s1. destruct (Nat.eqb_spec (length (rr_Values (m_R m))) 0) as [Hv|Hv]; simpl negb; cbv iota.
  - apply length_zero_iff_nil in Hv.
    apply keeps_bind; [apply _|apply HDone|]. intros _ s2. cbv zeta.
    destruct (Z.ltb_spec (t_Depth t - 1) 1); [apply keeps_ret; apply _|].
    apply keeps_bind; [apply _| |].
    { eapply keeps_impl; [apply collect_same_trans|]. intros; by apply adds_same. }
    intros [[found nodes] ids] s3. destruct (_ || _); [apply keeps_ret; apply _|].
    apply keeps_eachM; [apply _|]. intros n s4. unfold getPeers. apply keeps_getS.
    apply keeps_bind; [apply _| |intros; apply keeps_ret; apply _].
    eapply keeps_impl; [apply request_adds|]. intros s5 H5 x Hx.
    destruct (H5 x Hx) as [?|(H1 & H2 & _ & H3)]; [by left|right].
    unfold P. simpl in *. rewrite H1. repeat split; [done|lia|done..].
  - apply keeps_bind; [apply _|apply HDone|]. intros _ s2.
    apply keeps_eachM; [apply _|]. intros x s3. apply keeps_emit. apply _.
Qed.

(** The search for a node does not recurse: the requests that [FindNode] opens have
    depth zero, since [findNode] never stores its depth argument, and so their responses
    are answered with no further query, whatever nodes they bring and whatever
    [SearchDepth] is. *)
Theorem find_node_never_recurses addr target now s err s' evs :
  FindNode HandleOutMessage WriteTo addr target now s = Some (err, s', evs) ->
  forall x, asked s' x -> ~ asked s x ->
    t_Depth x = 0 /\ t_OnResponse x = onFindNodeResp /\
    forall a m now' s2, exists evs2,
      OnResponse HandleOutMessage WriteTo x a m now' s2 = Some (tt, s2, evs2) /\
      Forall (fun e => match e with EvWrite _ _ _ => False | _ => True end) evs2.
Proof.
  intros E x Hx Hnew.
  assert (Hadds : adds (fun x => t_Depth x = 0 /\ t_OnResponse x = onFindNodeResp) s s').
  { set (P := fun x => _). revert E. unfold FindNode. destruct (Hash_IsZero target); [done|].
    intros E.
    assert (K : keepsR (adds P) s (findNode HandleOutMessage WriteTo target addr (c_SearchDepth (s_conf s)) [] now)).
    { unfold findNode. apply keeps_getS. eapply keeps_impl; [apply request_adds|].
      intros s5 H5 y Hy. destruct (H5 y Hy) as [?|(H1 & H2 & _)]; [by left|by right]. }
    refine (keeps_getS (adds P) _ s K err s' evs E). }
  destruct (Hadds x Hx) as [?|[Hd Ho]]; [done|]. split; [done|]. split; [done|].
  intros a m now' s2. unfold OnResponse. rewrite Ho. unfold handle_onFindNodeResp. rewrite Hd. simpl.
  unfold mbind, M_bind, bind, Done. destruct (t_Callback x); eexists; (split; [done|]); repeat constructor.
Qed.
End Thms.

(** ** A concrete server *)

Definition noIn (u : UDPAddr) (m : Message) : bool * Message := (false, m).
Definition noOut (u : UDPAddr) (m : Message) : bool * option error * Message := (false, None, m).
Definition wire (b : bytes) (u : UDPAddr) : nat * option error := (length b, None).
Definition walk (m : gmap bytes peer) : list peer := map snd (map_to_list m).

Definition conf0 : Config := mkConfig 8 (replicate 20 x01) false 4096 8 (10 * Second).
Definition server0 : Server (BL := blacklist) :=
  NewServer conf0 [4] (NewMemoryBlacklist 0) (B "token-01") None None 0.
Definition peer0 : UDPAddr := mkUDPAddr [x7f; x00; x00; x01] 6881.
Definition addr0 : Addr := n2kAddr peer0.
Definition query0 (q token : bytes) : Message :=
  NewQueryMsg (B "aa") q (mkQueryArg (replicate 20 x02) zeroHash (replicate 20 x03) 0 token false []).

Definition readonly0 : Server (BL := blacklist) :=
  NewServer (mkConfig 8 (replicate 20 x01) true 4096 8 (10 * Second)) [4] (NewMemoryBlacklist 0)
    (B "token-01") None None 0.
(** The state after a run that does not panic. *)
Definition after {A} (s : Server (BL := blacklist)) (x : option (A * Server * list event)) : Server :=
  match x with Some (_, s', _) => s' | None => s end.

Lemma readonly_silent_witness :
  let s' := after readonly0
    (handleMessage noIn noOut wire None walk addr0 (query0 (B "ping") []) 7 readonly0) in
  @nil event = [] /\ same_but_tables readonly0 s'.
Proof.
  apply (readonly_silent noIn noOut wire None walk addr0 (query0 (B "ping") []) 7);
    [done|reflexivity|reflexivity|vm_compute; reflexivity].
Defined.

Lemma unsolicited_ignored_witness :
  let m := NewResponseMsg (B "zz") (mkResponseResult (replicate 20 x02) [] [] [] []) in
  let s' := after server0 (handleMessage noIn noOut wire None walk addr0 m 7 server0) in
  @nil event = [] /\ same_but_tables server0 s'.
Proof.
  apply (unsolicited_ignored noIn noOut wire None walk addr0
    (NewResponseMsg (B "zz") (mkResponseResult (replicate 20 x02) [] [] [] [])) 7);
    [done|reflexivity|reflexivity|vm_compute; reflexivity].
Defined.

Definition run_events {A} (x : option (A * Server (BL := blacklist) * list event)) : list event :=
  match x with Some (_, _, evs) => evs | None => [] end.


Lemma announce_peer_token_witness :
  let m := query0 queryMethodAnnouncePeer (B "forged") in
  let run := handleQuery noOut wire None walk addr0 m 7 server0 in
  after server0 run = server0 /\
  (Check (s_tokens server0) addr0 (qa_Token (m_A m)) = true -> run_events run = []) /\
  (Check (s_tokens server0) addr0 (qa_Token (m_A m)) = false ->
   exists r data, IsResponse r = true /\ m_T r = m_T m /\
     run_events run = [EvWrite (k2nAddr addr0) r data;
            EvTorrent (Hash_HexString (qa_InfoHash (m_A m))) (Addr_String addr0)]).
Proof.
  apply (announce_peer_token noOut wire None walk addr0 (query0 queryMethodAnnouncePeer (B "forged")) 7);
    [done|done|reflexivity|vm_compute; reflexivity].
Defined.

Lemma find_node_ignores_target_witness :
  let m := query0 queryMethodFindNode [] in
  let a := m_A m in
  let m' := mkMessage (m_T m) (m_Y m) (m_Q m)
              (mkQueryArg (qa_ID a) (replicate 20 x09) (qa_InfoHash a) (qa_Port a) (qa_Token a)
                 (qa_ImpliedPort a) (qa_Wants a)) (m_R m) (m_E m) (m_RO m) in
  forall s, handleQuery (BL := blacklist) noOut wire None walk addr0 m' 7 s
            = handleQuery noOut wire None walk addr0 m 7 s.
Proof.
  exact (find_node_ignores_target noOut wire None walk addr0 (query0 queryMethodFindNode []) 7
    (replicate 20 x09) eq_refl).
Defined.

(** A [get_peers] request at depth 2, and its response with one new node. *)
Definition search0 : transaction :=
  mkTransaction (B "1") queryMethodGetPeers
    (mkQueryArg zeroHash zeroHash (replicate 20 x03) 0 [] false []) addr0 5 2 [] None onGetPeersResp.
Definition response0 : Message :=
  NewResponseMsg (B "1") (mkResponseResult (replicate 20 x02)
    [mkNode (replicate 20 x07) (NewAddr [x01; x02; x03; x04] 99)] [] (B "tok") []).

Lemma get_peers_search_bounded_witness :
  let s' := after server0 (handle_onGetPeersResp noOut wire search0 addr0 response0 7 server0) in
  length (tm_sent (s_trans s')) = 1%nat /\
  forall x, asked s' x ->
    asked server0 x \/
    (rr_Values (m_R response0) = [] /\ 1 <= t_Depth x /\ t_Depth x = t_Depth search0 - 1 /\
     t_OnResponse x = onGetPeersResp /\ qa_InfoHash (t_Arg x) = qa_InfoHash (t_Arg search0)).
Proof.
  split; [vm_compute; reflexivity|].
  apply (get_peers_search_bounded noOut wire search0 addr0 response0 7 server0 _
    (run_events (handle_onGetPeersResp noOut wire search0 addr0 response0 7 server0))).
  vm_compute. reflexivity.
Defined.

Lemma find_node_never_recurses_witness :
  let run := FindNode noOut wire addr0 (replicate 20 x09) 7 server0 in
  length (tm_sent (s_trans (after server0 run))) = 1%nat /\
  forall x, asked (after server0 run) x -> ~ asked server0 x ->
    t_Depth x = 0 /\ t_OnResponse x = onFindNodeResp /\
    forall a m now' s2, exists evs2,
      OnResponse noOut wire x a m now' s2 = Some (tt, s2, evs2) /\
      Forall (fun e => match e with EvWrite _ _ _ => False | _ => True end) evs2.
Proof.
  split; [vm_compute; reflexivity|].
  apply (find_node_never_recurses noOut wire addr0 (replicate 20 x09) 7 server0 None _
    (run_events (FindNode noOut wire addr0 (replicate 20 x09) 7 server0))).
  vm_compute. reflexivity.
Defined.
