(* ===== verification/DhtNetThms.v ===== *)
(** * Two DHT servers on a network

    What a server sends is what the other one reads: a ping is answered, both servers put
    the other into their routing tables, and bootstrapping asks exactly the addresses it was
    given. *)

From S2P Require Import Prelude GoBytes GoNet GoTime Bencode BencodeRoundtrip BencodeStruct Codec Hash MetaAddr KrpcAddr Krpc KrpcThms.
From S2P Require Import RoutingTable RoutingTableThms DhtManagers DhtServer.

(** ** Runs that do not panic *)

Section Net.
Context {BL : Type} `{!Blacklist BL}.
Variable customPeers : option (Hash -> Z -> bool -> list bytes).
Variable iter : gmap bytes peer -> list peer.

(** No interceptors, and a socket that sends every packet. *)
Definition through_in (u : UDPAddr) (m : Message) : bool * Message := (false, m).
Definition through_out (u : UDPAddr) (m : Message) : bool * option error * Message := (false, None, m).
Definition socket (b : bytes) (u : UDPAddr) : nat * option error := (length b, None).

#[local] Abbreviation Server := (Server (BL := BL)).
#[local] Abbreviation M := (M (BL := BL)).
#[local] Abbreviation handlePacket := (handlePacket through_in through_out socket customPeers iter).

Lemma runs_bind {A C : Type} (m : M A) (k : A -> M C) s a s1 e1 c s2 e2 :
  m s = Some (a, s1, e1) -> k a s1 = Some (c, s2, e2) -> (m ≫= k) s = Some (c, s2, e1 ++ e2).
Proof. intros E F. unfold mbind, M_bind, bind. by rewrite E, F. Qed.
Lemma runs_getS {A : Type} (k : Server -> M A) s x : k s s = x -> (getS ≫= k) s = x.
Proof. intros <-. unfold mbind, M_bind, bind, getS. by destruct (k s s) as [[[? ?] ?]|]. Qed.
Lemma runs_pure {A C : Type} (m : M A) (k : A -> M C) s a s1 x :
  m s = Some (a, s1, []) -> k a s1 = x -> (m ≫= k) s = x.
Proof. intros E <-. unfold mbind, M_bind, bind. rewrite E. by destruct (k a s1) as [[[? ?] ?]|]. Qed.

(** What goes out for [m]: its [ro] is the one of the server. *)
Definition outgoing (s : Server) (m : Message) : Message :=
  mkMessage (m_T m) (m_Y m) (m_Q m) (m_A m) (m_R m) (m_E m) (c_ReadOnly (s_conf s)).

Lemma send_runs a m now s :
  m_T m <> [] -> m_Y m <> [] -> Message_wf m ->
  exists data, decodeMessage data = Ok (received (outgoing s m)) /\
    send through_out socket a m now s = Some ((true, None), s, [EvWrite (k2nAddr a) (outgoing s m) data]).
Proof.
  intros Ht Hy Hm. destruct (Message_codec (outgoing s m)) as (data & E & D).
  { destruct Hm. by split. }
  exists data. split; [done|]. unfold send. apply runs_getS. unfold through_out. cbv zeta.
  unfold _send. cbn [m_T m_Y]. rewrite !bool_decide_eq_false_2 by done. cbn [orb].
  fold (outgoing s m). rewrite E. unfold socket, mbind, M_bind, bind, emit, ret.
  by rewrite Nat.eqb_refl.
Qed.

Definition own_arg (s : Server) (a : QueryArg) : QueryArg :=
  mkQueryArg (c_ID (s_conf s)) (qa_Target a) (qa_InfoHash a) (qa_Port a) (qa_Token a) (qa_ImpliedPort a) (qa_Wants a).
(** The transaction under its new id. *)
Definition numbered (s : Server) (t : transaction) : transaction :=
  mkTransaction (GetTransactionID (s_trans s)).2 (t_Query t) (own_arg s (t_Arg t)) (t_Addr t) (t_Time t)
    (t_Depth t) (t_Visited t) (t_Callback t) (t_OnResponse t).

Lemma length_format_aux fuel base n acc : (length (format_aux fuel base n acc) <= fuel + length acc)%nat.
Proof.
  revert n acc. induction fuel as [|f IH]; intros n acc; cbn [format_aux]; [lia|].
  destruct (n <? base); [cbn [length]; lia|]. specialize (IH (n / base) (digit (n mod base) :: acc)).
  cbn [length] in IH. lia.
Qed.
Lemma tid_short z : is_u32 z -> short (format_uint 36 z).
Proof.
  intros Hz. unfold short, format_uint. pose proof (length_format_aux (S (Z.to_nat (Z.log2 z))) 36 z []) as H.
  unfold is_u32 in Hz. assert (Z.log2 z < 32) by (destruct (decide (z = 0)) as [->|]; [done|apply Z.log2_lt_pow2; lia]).
  cbn [length] in H. lia.
Qed.

Lemma zero_result_wf id : Hash_wf id -> ResponseResult_wf (mkResponseResult id [] [] [] []).
Proof.
  intros H. split.
  - done.
  - by split; [apply Forall_nil_2|].
  - by split; [apply Forall_nil_2|split].
  - done.
  - apply Forall_nil_2.
Qed.
Lemma query_wf tid q a : short tid -> short q -> QueryArg_wf a -> Message_wf (NewQueryMsg tid q a).
Proof. intros. by split. Qed.

Lemma request_runs t now s :
  isDisabled s (t_Addr t) = false -> t_ID t = [] -> short (t_Query t) -> QueryArg_wf (own_arg s (t_Arg t)) ->
  let t1 := numbered s t in
  let q := outgoing s (NewQueryMsg (t_ID t1) (t_Query t) (t_Arg t1)) in
  exists data, decodeMessage data = Ok q /\
    request through_out socket t now s =
      Some (None, set_trans s (sentTransaction (GetTransactionID (s_trans s)).1 t1), [EvWrite (k2nAddr (t_Addr t)) q data]).
Proof.
  intros Hd Ht Hq Ha t1 q. pose proof (u32_range (tm_tid (s_trans s) + 1)) as Hu.
  set (s1 := set_trans s (GetTransactionID (s_trans s)).1).
  destruct (send_runs (t_Addr t) (NewQueryMsg (t_ID t1) (t_Query t) (t_Arg t1)) now s1) as (data & D & E).
  { apply format_uint_nonempty. }
  { done. }
  { apply query_wf; [by apply tid_short|done|exact Ha]. }
  exists data. split; [exact D|]. unfold request. apply runs_getS. rewrite Hd. cbv zeta.
  rewrite bool_decide_eq_true_2 by done. eapply runs_pure.
  - cbn [GetTransactionID]. eapply runs_pure; [reflexivity|reflexivity].
  - change (EvWrite (k2nAddr (t_Addr t)) q data :: []) with ([EvWrite (k2nAddr (t_Addr t)) q data] ++ []).
    eapply runs_bind; [exact E|]. reflexivity.
Qed.

(** ** Servers *)

(** Both tables are well formed, and the id is one. *)
Record server_ok (s : Server) : Prop := {
  so_rt4 : rt_inv (s_rt4 s); so_rt6 : rt_inv (s_rt6 s);
  so_id : Hash_wf (c_ID (s_conf s)); so_nonzero : c_ID (s_conf s) <> zeroHash }.
Definition same_core (s s' : Server) : Prop :=
  s_conf s' = s_conf s /\ s_ipv4 s' = s_ipv4 s /\ s_ipv6 s' = s_ipv6 s /\ s_bl s' = s_bl s /\ s_trans s' = s_trans s.

(** No node of the table has the id of [n] and another address. *)
Definition friendly (rt : routingTable) (n : Node) : Prop :=
  forall p, p ∈ rt_ptrs rt -> n_ID (wn_Node (deref rt p)) = n_ID n ->
    Addr_Equal (n_Addr (wn_Node (deref rt p))) (n_Addr n) = true.
Definition table_for (s : Server) (n : Node) : routingTable :=
  if isIPv6 (a_IP (n_Addr n)) then s_rt6 s else s_rt4 s.

Lemma get_bkt_ptrs rt i k p : b_Nodes (get_bkt rt i) !! k = Some p -> p ∈ rt_ptrs rt.
Proof.
  unfold get_bkt, rt_ptrs. destruct (rt_bkts rt !! i) as [b|] eqn:E; [|done]. cbn [default]. intros Hk.
  apply list_elem_of_In, in_concat. exists (b_Nodes b). split.
  - apply in_map, list_elem_of_In. by eapply list_elem_of_lookup_2.
  - apply list_elem_of_In. by eapply list_elem_of_lookup_2.
Qed.

Lemma bucket_ptrs_in rt i p : p ∈ bucket_ptrs rt i -> p ∈ rt_ptrs rt.
Proof. intros [k Hk]%list_elem_of_lookup. by eapply get_bkt_ptrs. Qed.

(** The bucket of [n] is full, with other nodes that are all alive. *)
Definition crowded (rt : routingTable) (n : Node) (now : Z) : bool :=
  let ps := bucket_ptrs rt (bucket_of rt n) in
  (rt_k rt <=? Z.of_nat (length ps)) &&
  forallb (fun p => negb (has_id (n_ID n) (deref rt p)) && negb (IsBad (deref rt p) now)) ps.
(** [n] is in the table, as seen at the time [now]. *)
Definition in_table (rt : routingTable) (n : Node) (now : Z) : Prop :=
  exists p, p ∈ rt_ptrs rt /\ n_ID (wn_Node (deref rt p)) = n_ID n /\
    Addr_Equal (n_Addr (wn_Node (deref rt p))) (n_Addr n) = true /\ wn_LastChanged (deref rt p) = now.

Lemma Addr_Equal_refl a : Addr_Equal a a = true.
Proof. unfold Addr_Equal. by rewrite Z.eqb_refl, IP_Equal_refl. Qed.

Lemma with_new_in_table rt i n now ps :
  (i < length (rt_bkts rt))%nat -> in_table (with_new rt i n now ps) n now.
Proof.
  intros Hi. exists (length (rt_heap rt)). rewrite deref_with_new. split; [|split; [done|split; [|done]]].
  - apply (bucket_ptrs_in _ i). unfold bucket_ptrs. rewrite get_bkt_with_new by done. set_solver.
  - apply Addr_Equal_refl.
Qed.

Lemma bucket_AddNode_friendly rt i n now :
  friendly rt n -> (bucket_AddNode rt i n now).2 <> NodeExistAndChanged.
Proof.
  intros Hf. unfold bucket_AddNode. destruct (find_ptr (has_id (n_ID n)) rt 0 _) as [[j p]|] eqn:F.
  - apply find_ptr_Some in F as (_ & Hp & Hid). unfold has_id in Hid. apply bool_decide_eq_true in Hid.
    by rewrite Hf by (done || by eapply get_bkt_ptrs).
  - repeat case_match; by intros ?.
Qed.

Lemma rt_AddNode_runs rt n now :
  rt_inv rt -> Hash_wf (n_ID n) -> friendly rt n ->
  exists rt' st, rt_AddNode rt n now = Some (rt', st) /\ st <> NodeExistAndChanged /\
    if bool_decide (n_ID n = rt_root rt) || crowded rt n now then rt' = rt else in_table rt' n now.
Proof.
  intros Hi Hn Hf. unfold rt_AddNode. case_bool_decide; [by eexists _, _|]. cbn [orb].
  destruct (rt_addNode_Some rt n now Hi Hn) as (i & Hb & Hlt & ->).
  pose proof (bucket_AddNode_friendly rt i n now Hf) as Hst.
  destruct (bucket_AddNode rt i n now) as [rt' st] eqn:E. exists rt', st. split; [done|]. split; [exact Hst|].
  assert (Hl : (i < length (rt_bkts rt))%nat) by (destruct Hi as (_ & -> & _); done).
  apply bucket_AddNode_cases in E; [|done]. cbv zeta in E.
  assert (Hbk : bucket_of rt n = i) by (unfold bucket_of; lia).
  assert (Hc : crowded rt n now = (rt_k rt <=? Z.of_nat (length (b_Nodes (get_bkt rt i)))) &&
    forallb (fun p => negb (has_id (n_ID n) (deref rt p)) && negb (IsBad (deref rt p) now)) (b_Nodes (get_bkt rt i)))
    by (unfold crowded; by rewrite Hbk).
  assert (Hout : forall p, p ∈ b_Nodes (get_bkt rt i) ->
    negb (has_id (n_ID n) (deref rt p)) && negb (IsBad (deref rt p) now) = false -> crowded rt n now = false).
  { intros p Hp Hno. rewrite Hc. apply andb_false_iff. right. apply not_true_iff_false. intros Hall.
    rewrite forallb_forall in Hall. apply list_elem_of_In in Hp. specialize (Hall p Hp). congruence. }
  destruct E as [(p & Hp & Hid & Ha & _ & ->)|[(-> & _)|[(_ & Hk & _ & ->)|[(j & p & _ & _ & Hj & Hbad & _ & ->)|(Habs & Hk & _ & -> & Hb')]]]].
  - rewrite (Hout p Hp). 2:{ unfold has_id. fold (id_of rt p). by rewrite Hid, bool_decide_eq_true_2. }
    destruct (UpdateLastChangedTime_inv rt i p now Hi Hl Hp) as (_ & Hbks & _ & Ht).
    pose proof (get_bkt_ok rt i Hi) as [Hok _]. rewrite Forall_forall in Hok.
    exists p. assert (wn_Node (deref (UpdateLastChangedTime rt p now) p) = wn_Node (deref rt p)) as ->.
    { pose proof (deref_ptr rt i p (Hok p Hp)) as Hd. unfold UpdateLastChangedTime, bucket_UpdateLastChangedTime.
      unfold deref at 1. cbn [rt_heap set_bkt set_heap]. rewrite list_lookup_insert_eq; [done|]. by eapply lookup_lt_Some. }
    split; [|done]. apply (bucket_ptrs_in _ i). unfold bucket_ptrs, get_bkt. rewrite Hbks, list_lookup_insert_eq by done.
    exact Hp.
  - done.
  - rewrite Hc, (proj2 (Z.leb_gt _ _)) by done. by apply with_new_in_table.
  - apply list_elem_of_lookup_2 in Hj. rewrite (Hout p Hj); [by apply with_new_in_table|].
    by rewrite Hbad, andb_false_r.
  - rewrite Hc, (proj2 (Z.leb_le _ _)) by done. cbn [andb].
    rewrite (proj2 (forallb_forall _ _)); [done|]. intros p Hp%list_elem_of_In.
    rewrite Forall_forall in Habs, Hb'. by rewrite Habs, Hb'.
Qed.

(** The table after [n] was heard of.  It is as before when [n] is read-only, of a family that is not
    in use, the server itself, or one too many for a bucket of live nodes; else [n] is in it. *)
Definition heard (s : Server) (n : Node) (ro : bool) (now : Z) (s' : Server) : Prop :=
  let off := negb (if isIPv6 (a_IP (n_Addr n)) then s_ipv6 s else s_ipv4 s) in
  if ro || off || bool_decide (n_ID n = rt_root (table_for s n)) || crowded (table_for s n) n now
  then table_for s' n = table_for s n else in_table (table_for s' n) n now.

Lemma AddNode_runs n now s :
  server_ok s -> Hash_wf (n_ID n) -> friendly (table_for s n) n ->
  exists st s', AddNode n now s = Some (st, s', []) /\ st <> NodeExistAndChanged /\
    same_core s s' /\ heard s n false now s'.
Proof.
  intros [H4 H6 _ _] Hn Hf. unfold AddNode, heard, table_for in *. cbn [orb]. destruct (isIPv6 _) eqn:V6.
  - destruct (rt_AddNode_runs (s_rt6 s) n now H6 Hn Hf) as (rt & st & E & Hst & Ht). destruct (s_ipv6 s) eqn:V.
    + exists st, (set_rt6 s rt). split; [apply runs_getS; by rewrite V, E|done].
    + exists NodeNotAdded, s. split; [apply runs_getS; by rewrite V|done].
  - destruct (rt_AddNode_runs (s_rt4 s) n now H4 Hn Hf) as (rt & st & E & Hst & Ht). destruct (s_ipv4 s) eqn:V.
    + exists st, (set_rt4 s rt). split; [apply runs_getS; by rewrite V, E|done].
    + exists NodeNotAdded, s. split; [apply runs_getS; by rewrite V|done].
Qed.

Lemma addNode_runs kaddr id ro now s :
  server_ok s -> Hash_wf id -> friendly (table_for s (NewNode id kaddr)) (NewNode id kaddr) ->
  exists st s', addNode kaddr id ro now s = Some (st, s', []) /\ st <> NodeExistAndChanged /\
    same_core s s' /\ heard s (NewNode id kaddr) ro now s'.
Proof.
  intros Hs Hid Hf. unfold addNode. destruct ro; [by eexists _, s|].
  destruct (AddNode_runs (NewNode id kaddr) now s Hs Hid Hf) as (st & s' & E & Hst & Hh).
  exists st, s'. split; [|done]. eapply runs_pure; [exact E|]. by rewrite bool_decide_eq_false_2.
Qed.

(** ** A ping *)

Lemma reply_runs a tid r now s :
  tid <> [] -> short tid -> ResponseResult_wf r -> Hash_wf (c_ID (s_conf s)) ->
  let m := outgoing s (NewResponseMsg tid (mkResponseResult (c_ID (s_conf s)) (rr_Nodes r) (rr_Nodes6 r) (rr_Token r) (rr_Values r))) in
  exists data, decodeMessage data = Ok (received m) /\
    reply through_out socket a tid r now s = Some (tt, s, [EvWrite (k2nAddr a) m data]).
Proof.
  intros Ht Hs [] Hid m. destruct (send_runs a (NewResponseMsg tid
    (mkResponseResult (c_ID (s_conf s)) (rr_Nodes r) (rr_Nodes6 r) (rr_Token r) (rr_Values r))) now s) as (data & D & E);
    [done|done| |].
  { by split. }
  exists data. split; [exact D|]. unfold reply. apply runs_getS.
  change ([EvWrite (k2nAddr a) m data]) with ([EvWrite (k2nAddr a) m data] ++ []).
  eapply runs_bind; [exact E|reflexivity].
Qed.

(** A server that hears of no node it knows under another address, has not blacklisted its peer, and
    uses the family of its address. *)
Record open_to (s : Server) (id : Hash) (u : UDPAddr) : Prop := {
  op_family : isDisabled s (n2kAddr u) = false; op_bl : bl_In (s_bl s) (n2kAddr u) = false;
  op_friendly : friendly (table_for s (NewNode id (n2kAddr u))) (NewNode id (n2kAddr u)) }.

Lemma handlePacket_runs u data m now s x :
  isDisabled s (n2kAddr u) = false -> bl_In (s_bl s) (n2kAddr u) = false ->
  decodeMessage data = Ok m -> m_T m <> [] ->
  handleMessage through_in through_out socket customPeers iter (n2kAddr u) m now s = x ->
  handlePacket u data now s = x.
Proof.
  intros Hd Hb D Ht E. unfold DhtServer.handlePacket. apply runs_getS. rewrite Hd, Hb, D.
  by rewrite bool_decide_eq_false_2.
Qed.

(** The pinged side. *)
Lemma ping_served b u q data now :
  server_ok b -> c_ReadOnly (s_conf b) = false -> open_to b (qa_ID (m_A q)) u ->
  decodeMessage data = Ok q -> m_Y q = B "q" -> m_Q q = queryMethodPing ->
  m_T q <> [] -> short (m_T q) -> Hash_wf (qa_ID (m_A q)) -> qa_ID (m_A q) <> zeroHash ->
  let r := NewResponseMsg (m_T q) (mkResponseResult (c_ID (s_conf b)) [] [] [] []) in
  exists b1 dr, handlePacket u data now b = Some (tt, b1, [EvWrite u r dr]) /\ decodeMessage dr = Ok r /\
    heard b (NewNode (qa_ID (m_A q)) (n2kAddr u)) (m_RO q) now b1.
Proof.
  intros Hb Hro [Fb Bb Nb] D Hy Hq Ht Hs Hid Hz r.
  destruct (addNode_runs (n2kAddr u) (qa_ID (m_A q)) (m_RO q) now b Hb Hid Nb) as (st & b1 & Eb & Hst & Hcore & Hh).
  destruct Hcore as (Hconf & _).
  destruct (reply_runs (n2kAddr u) (m_T q) zeroResponseResult now b1) as (dr & Dr & Er);
    [done|done|by apply zero_result_wf, length_replicate|rewrite Hconf; by destruct Hb|].
  assert (outgoing b1 (NewResponseMsg (m_T q) (mkResponseResult (c_ID (s_conf b1)) [] [] [] [])) = r) as Er1.
  { unfold outgoing. cbn. by rewrite Hconf, Hro. }
  cbn [rr_Nodes rr_Nodes6 rr_Token rr_Values zeroResponseResult] in Er, Dr. rewrite Er1 in Er, Dr.
  exists b1, dr. split; [|split; [exact Dr|exact Hh]].
  eapply handlePacket_runs; [done..|]. unfold handleMessage, through_in.
  rewrite Hy, bool_decide_eq_true_2 by done.
  assert (Hash_IsZero (qa_ID (m_A q)) = false) as -> by (unfold Hash_IsZero; by rewrite bool_decide_eq_false_2).
  eapply runs_pure; [exact Eb|]. apply runs_getS. rewrite bool_decide_eq_false_2 by done. rewrite Hconf, Hro.
  cbn [negb andb]. unfold handleQuery. apply runs_getS. rewrite Hq, bool_decide_eq_true_2 by done. exact Er.
Qed.

(** The pinging side: the sender of a response is heard of, and then its transaction is looked for. *)
Lemma response_received a u r data now :
  server_ok a -> open_to a (rr_ID (m_R r)) u -> decodeMessage data = Ok r -> m_Y r = B "r" ->
  m_T r <> [] -> Hash_wf (rr_ID (m_R r)) -> rr_ID (m_R r) <> zeroHash ->
  exists a1, same_core a a1 /\ heard a (NewNode (rr_ID (m_R r)) (n2kAddr u)) (m_RO r) now a1 /\
    let tm := s_trans a in
    let key := (m_T r, Addr_String (n2kAddr u)) in
    match tm_trans tm !! key with
    | Some t =>
        let a2 := set_trans a1 (mkTransactionManager (delete key (tm_trans tm)) (tm_tid tm) (tm_sent tm)) in
        forall x, OnResponse through_out socket t (n2kAddr u) r now a2 = x -> handlePacket u data now a = x
    | None => handlePacket u data now a = Some (tt, a1, [])
    end.
Proof.
  intros Ha [Fa Ba Na] D Hy Ht Hid Hz.
  destruct (addNode_runs (n2kAddr u) (rr_ID (m_R r)) (m_RO r) now a Ha Hid Na) as (st & a1 & Ea & Hst & Hcore & Hh).
  exists a1. split; [exact Hcore|]. split; [exact Hh|]. destruct Hcore as (_ & _ & _ & _ & Htrans). cbv zeta.
  assert (Hpop : forall x, (t ← popTransaction (m_T r) (n2kAddr u);
      match t with Some t => OnResponse through_out socket t (n2kAddr u) r now | None => ret tt end) a1 = x ->
    handlePacket u data now a = x).
  { intros x E. eapply handlePacket_runs; [done..|]. unfold handleMessage, through_in. rewrite Hy.
    rewrite bool_decide_eq_false_2, bool_decide_eq_true_2 by done.
    assert (Hash_IsZero (rr_ID (m_R r)) = false) as -> by (unfold Hash_IsZero; by rewrite bool_decide_eq_false_2).
    eapply runs_pure; [exact Ea|]. by rewrite bool_decide_eq_false_2. }
  destruct (tm_trans (s_trans a) !! _) as [t|] eqn:Htr.
  - intros x E. apply Hpop. eapply (runs_pure _ _ _ (Some t)); [|exact E].
    unfold popTransaction. apply runs_getS. unfold PopTransaction. by rewrite Htrans, Htr.
  - apply Hpop. eapply (runs_pure _ _ _ None a1); [|done].
    unfold popTransaction. apply runs_getS. unfold PopTransaction. rewrite Htrans, Htr. rewrite <- Htrans.
    by destruct a1.
Qed.

(** What a server that pings sends, and what it has afterwards: the query is out, and the transaction waits
    to be added. *)
Lemma ping_sent a ub cb now1 :
  server_ok a -> isDisabled a (n2kAddr ub) = false ->
  let t := numbered a (with_handler (newTransaction (n2kAddr ub) queryMethodPing zeroQueryArg cb now1) onPingResp 0 []) in
  let q := outgoing a (NewQueryMsg (t_ID t) queryMethodPing (t_Arg t)) in
  exists dq, decodeMessage dq = Ok q /\
    Ping through_out socket (n2kAddr ub) cb now1 a =
      Some (None, set_trans a (sentTransaction (GetTransactionID (s_trans a)).1 t), [EvWrite ub q dq]).
Proof.
  intros Ha Fa t q.
  destruct (request_runs (with_handler (newTransaction (n2kAddr ub) queryMethodPing zeroQueryArg cb now1) onPingResp 0 [])
    now1 a) as (dq & Dq & Eq); [done|done|done| |by exists dq].
  destruct Ha. by split.
Qed.

Lemma numbered_tid a t : t_ID (numbered a t) <> [] /\ short (t_ID (numbered a t)).
Proof. split; [apply format_uint_nonempty|apply tid_short, u32_range]. Qed.

(** The goroutine that sent the last query adds its transaction. *)
Lemma trans_add_last (s : Server) tm t :
  trans_add (length (tm_sent tm)) (set_trans s (sentTransaction tm t)) = Some (tt, set_trans s (AddTransaction tm t), []).
Proof.
  unfold trans_add. apply runs_getS. unfold addSent, sentTransaction. cbn [set_trans s_trans tm_sent tm_trans tm_tid].
  rewrite list_lookup_middle by done. unfold putS. do 3 f_equal. unfold AddTransaction. cbn [tm_trans tm_tid tm_sent].
  by rewrite (delete_middle (tm_sent tm) [] t), app_nil_r.
Qed.


(** [onTimeout] of the transactions of a list. *)
Lemma onTimeout_runs l (s : Server) : exists evs, eachM l onTimeout s = Some (tt, s, evs) /\
  forall t n, t ∈ l -> t_Callback t = Some n -> EvResult n (mkResult (t_Addr t) 0 [] true []) ∈ evs.
Proof.
  induction l as [|t l (evs & E & H)].
  { exists []. split; [done|]. by intros t n Ht%elem_of_nil. }
  exists (match t_Callback t with Some n => [EvResult n (mkResult (t_Addr t) 0 [] true [])] | None => [] end ++ evs).
  split; [cbn [eachM]; eapply runs_bind; [|exact E]; unfold onTimeout, Done; by destruct (t_Callback t)|].
  intros t' n [->|Ht]%elem_of_cons Hcb; apply elem_of_app; [left; rewrite Hcb; by apply list_elem_of_singleton|right; eauto].
Qed.

(** A response that is quicker than the goroutine that asked is lost.  [request] sends the query first and adds
    its transaction afterwards; when the response is handled in between, nothing is called for it, the
    transaction is added all the same and stays open, and once [RespTimeout] is over the callback is told of a
    timeout, although the node has answered. *)
Theorem early_pong_lost a b ua ub n now1 now2 now3 now4 :
  server_ok a -> server_ok b -> c_ReadOnly (s_conf b) = false ->
  open_to a (c_ID (s_conf b)) ub -> open_to b (c_ID (s_conf a)) ua ->
  let kb := n2kAddr ub in
  let key := ((GetTransactionID (s_trans a)).2, Addr_String kb) in
  tm_trans (s_trans a) !! key = None -> time_Sub now4 now1 > c_RespTimeout (s_conf a) ->
  exists a1 a2 a3 a4 b1 q r dq dr t evs,
    Ping through_out socket kb (Some n) now1 a = Some (None, a1, [EvWrite ub q dq]) /\
    handlePacket ua dq now2 b = Some (tt, b1, [EvWrite ua r dr]) /\
    handlePacket ub dr now3 a1 = Some (tt, a2, []) /\
    trans_add (length (tm_sent (s_trans a))) a2 = Some (tt, a3, []) /\
    tm_trans (s_trans a3) = <[key := t]> (tm_trans (s_trans a)) /\
    transaction_tick now4 a3 = Some (tt, a4, evs) /\ EvResult n (mkResult kb 0 [] true []) ∈ evs.
Proof.
  intros Ha Hb Hro [Fa Ba Na] Hob kb key Hfresh Hlate.
  destruct (ping_sent a ub (Some n) now1 Ha Fa) as (dq & Dq & Eq).
  set (t1 := numbered a _) in *. set (q := outgoing a _) in *. destruct (numbered_tid a
    (with_handler (newTransaction kb queryMethodPing zeroQueryArg (Some n) now1) onPingResp 0 [])) as [Hne Hsh].
  destruct (ping_served b ua q dq now2) as (b1 & dr & Eb & Dr & _);
    [done|done|exact Hob|done|done|done|exact Hne|exact Hsh|by destruct Ha|by destruct Ha|].
  set (r := NewResponseMsg _ _) in *. set (tm := (GetTransactionID (s_trans a)).1) in *.
  destruct (response_received (set_trans a (sentTransaction tm t1)) ub r dr now3)
    as (a2 & (Hc & _ & _ & _ & Htr) & _ & E);
    [by destruct Ha; split|by split|done|done|exact Hne|by destruct Hb|by destruct Hb|].
  cbv zeta in E. change (tm_trans (s_trans (set_trans a (sentTransaction tm t1)))) with (tm_trans (s_trans a)) in E.
  change (m_T r, Addr_String (n2kAddr ub)) with key in E. rewrite Hfresh in E.
  assert (E2 : set_trans a2 (sentTransaction tm t1) = a2).
  { change (sentTransaction tm t1) with (s_trans (set_trans a (sentTransaction tm t1))).
    rewrite <- Htr. by destruct a2. }
  pose proof (trans_add_last a2 tm t1) as Eadd. rewrite E2 in Eadd.
  set (a3 := set_trans a2 (AddTransaction tm t1)) in *.
  set (tt' := transactions_tick (s_trans a3) (c_RespTimeout (s_conf a3)) now4).
  destruct (onTimeout_runs tt'.2 (set_trans a3 tt'.1)) as (evs & Et & Hev).
  eexists _, a2, a3, (set_trans a3 tt'.1), b1, q, r, dq, dr, t1, evs.
  split; [exact Eq|]. split; [exact Eb|]. split; [exact E|]. split; [exact Eadd|]. split; [done|].
  split.
  - unfold transaction_tick. apply runs_getS. fold tt'. destruct tt' as [tm' late]. eapply runs_pure; [reflexivity|exact Et].
  - apply (Hev t1 n); [|done]. subst tt'. unfold transactions_tick. cbn [snd].
    apply list_elem_of_fmap. exists (key, t1). split; [done|]. apply elem_of_map_to_list, map_lookup_filter_Some.
    split; [apply lookup_insert_eq|]. cbn [snd]. change (s_conf a3) with (s_conf a2). rewrite Hc. exact Hlate.
Qed.

(** ** Bootstrapping *)

Definition enabled (s : Server) (a : Addr) : bool := if isIPv6 (a_IP a) then s_ipv6 s else s_ipv4 s.
(** The query a server sends to find its own neighbours. *)
Definition asks_for_self (s : Server) (a : Addr) (e : event) : Prop :=
  exists q data, e = EvWrite (k2nAddr a) q data /\ decodeMessage data = Ok q /\
    m_Y q = B "q" /\ m_Q q = queryMethodFindNode /\ m_T q <> [] /\
    qa_ID (m_A q) = c_ID (s_conf s) /\ qa_Target (m_A q) = c_ID (s_conf s) /\ qa_Wants (m_A q) = s_want s.
Record boot_ok (s : Server) : Prop := {
  bo_id : Hash_wf (c_ID (s_conf s)); bo_nonzero : c_ID (s_conf s) <> zeroHash; bo_want : Forall short (s_want s) }.

(** A step that changes nothing but the transactions, and sends what [P] says to every item. *)
Definition sends {X : Type} (P : X -> event -> Prop) (s : Server) (m : M unit) (items : list X) : Prop :=
  forall tm, exists tm' evs, m (set_trans s tm) = Some (tt, set_trans s tm', evs) /\ Forall2 P items evs.
Lemma sends_nothing {X : Type} (P : X -> event -> Prop) s : sends P s (ret tt) [].
Proof. intros tm. exists tm, []. by split; [|constructor]. Qed.
Lemma sends_each {A X : Type} (P : X -> event -> Prop) s (f : A -> M unit) items l :
  Forall (fun a => sends P s (f a) (items a)) l -> sends P s (eachM l f) (concat (map items l)).
Proof.
  induction 1 as [|a l Ha _ IH]; [apply sends_nothing|]. intros tm. destruct (Ha tm) as (tm1 & e1 & E1 & F1).
  destruct (IH tm1) as (tm2 & e2 & E2 & F2). exists tm2, (e1 ++ e2).
  split; [cbn [eachM]; by eapply runs_bind|]. by apply Forall2_app.
Qed.

Lemma sends_bootstrap_addr s a now : boot_ok s ->
  sends (asks_for_self s) s (bootstrap_addr through_out socket a now) (if enabled s a then [a] else []).
Proof.
  intros [Hid Hz Hw] tm. set (s1 := set_trans s tm). unfold bootstrap_addr, enabled.
  assert ((if isIPv6 (a_IP a) then negb (s_ipv6 s1) else negb (s_ipv4 s1)) =
          negb (if isIPv6 (a_IP a) then s_ipv6 s else s_ipv4 s)) as En by by destruct (isIPv6 _).
  destruct (if isIPv6 (a_IP a) then s_ipv6 s else s_ipv4 s) eqn:E.
  - set (arg := mkQueryArg zeroHash (c_ID (s_conf s)) zeroHash 0 [] false (s_want s)).
    set (t := with_handler (newTransaction a queryMethodFindNode arg None now) onFindNodeResp 0 []).
    destruct (request_runs t now s1) as (data & D & R).
    { unfold isDisabled. cbn. destruct (length (a_IP a) =? 0)%nat; [done|]. by destruct (isIPv6 (a_IP a)); rewrite E. }
    { done. }
    { done. }
    { by split. }
    eexists _, _. split.
    + apply runs_getS. rewrite En. cbn [negb]. eapply (runs_bind _ _ _ None _ _ tt _ []); [|reflexivity].
      unfold FindNode, Hash_IsZero. rewrite bool_decide_eq_false_2 by done. apply runs_getS. unfold findNode. apply runs_getS.
      exact R.
    + rewrite app_nil_r. constructor; [|constructor]. eexists _, _. split; [reflexivity|]. split; [exact D|].
      repeat split; try done. apply format_uint_nonempty.
  - exists tm, []. split; [apply runs_getS; by rewrite En|constructor].
Qed.

Lemma concat_if_filter {A : Type} (f : A -> bool) l : concat (map (fun a => if f a then [a] else []) l) = List.filter f l.
Proof. induction l as [|a l IH]; [done|]. cbn. rewrite IH. by destruct (f a). Qed.

(** The addresses the names stand for; a name that does not resolve stands for none. *)
Definition resolved (LookupIP : bytes -> res (list IP)) (addrs : list bytes) : list Addr :=
  concat (map (fun a => match ParseAddrs LookupIP a with Ok l => l | _ => [] end) addrs).

(** [C14] Bootstrapping asks each address for the neighbours of the server, once and in order: while the table of a
    family in use is empty, one [find_node] query for the server's own id goes to
    every address that the names stand for and whose family is in use, and nothing else happens
    but that the transactions are recorded; names that cannot be parsed or resolved are
    skipped.  With nodes in the tables nothing happens at all. *)
Theorem bootstrap_asks LookupIP addrs now s :
  boot_ok s -> Forall (fun a => ParseAddrs LookupIP a <> Panic) addrs ->
  let empty := (s_ipv4 s && (Node4Num s =? 0)%nat) || (s_ipv6 s && (Node6Num s =? 0)%nat) in
  exists tm evs, Bootstrap through_out socket LookupIP addrs now s = Some (tt, set_trans s tm, evs) /\
    Forall2 (asks_for_self s) (if empty then List.filter (enabled s) (resolved LookupIP addrs) else []) evs.
Proof.
  intros Hs Hp empty. unfold Bootstrap. destruct empty eqn:Ee.
  - assert (sends (asks_for_self s) s (eachM addrs (fun addr =>
        match ParseAddrs LookupIP addr with
        | Ok ipports => eachM ipports (fun ipport => bootstrap_addr through_out socket ipport now)
        | Err _ => ret tt
        | Panic => panic
        end)) (concat (map (List.filter (enabled s)) (map (fun a => match ParseAddrs LookupIP a with Ok l => l | _ => [] end) addrs)))) as K.
    { rewrite map_map. apply sends_each. eapply Forall_impl; [exact Hp|]. intros a Ha. cbv beta.
      destruct (ParseAddrs LookupIP a) as [l| |] eqn:E; [|apply sends_nothing|done].
      rewrite <- concat_if_filter. apply sends_each, Forall_true. intros x. by apply sends_bootstrap_addr. }
    destruct (K (s_trans s)) as (tm & evs & E & F). exists tm, evs.
    assert (set_trans s (s_trans s) = s) as Es by by destruct s. rewrite Es in E. split.
    + apply runs_getS. fold empty. by rewrite Ee.
    + unfold resolved. by rewrite <- concat_filter_map.
  - exists (s_trans s), []. split; [|constructor]. apply runs_getS. fold empty. rewrite Ee. by destruct s.
Qed.
End Net.

(** ** Witnesses *)

Definition demo_node (id : byte) : Server (BL := blacklist) :=
  NewServer (mkConfig 8 (replicate 20 id) false 4096 8 (10 * Second)) [IPv4Protocol] (NewMemoryBlacklist 0)
    (B "token-01") None None 0.
Definition demo_walk (m : gmap bytes peer) : list peer := map snd (map_to_list m).
Definition demo_udp (last : byte) : UDPAddr := mkUDPAddr [x7f; x00; x00; last] 6881.

Lemma demo_node_ok id : id <> x00 -> server_ok (demo_node id).
Proof.
  intros H. split.
  - by apply emptyTable_inv, length_replicate.
  - by apply emptyTable_inv, length_replicate.
  - apply length_replicate.
  - by intros [= ->].
Qed.
Lemma demo_node_open id other u :
  isDisabled (demo_node id) (n2kAddr u) = false -> open_to (demo_node id) other u.
Proof.
  intros H. split; [exact H|reflexivity|]. intros p Hp. exfalso. revert Hp.
  unfold table_for. destruct (isIPv6 _); unfold rt_ptrs, demo_node, NewServer, newRoutingTable, emptyTable; cbn [s_rt4 s_rt6 rt_bkts].
  all: intros Hp; apply list_elem_of_In, in_concat in Hp as (l & Hl & Hp).
  all: apply in_map_iff in Hl as (b & <- & Hb); apply list_elem_of_In, elem_of_replicate in Hb as [-> _]; destruct Hp.
Qed.


Lemma early_pong_lost_witness :
  exists a1 a2 a3 a4 b1 q r dq dr t evs,
    Ping through_out socket (n2kAddr (demo_udp x02)) (Some 5%nat) 100 (demo_node x01) = Some (None, a1, [EvWrite (demo_udp x02) q dq]) /\
    handlePacket through_in through_out socket None demo_walk (demo_udp x01) dq 200 (demo_node x02)
      = Some (tt, b1, [EvWrite (demo_udp x01) r dr]) /\
    handlePacket through_in through_out socket None demo_walk (demo_udp x02) dr 300 a1 = Some (tt, a2, []) /\
    trans_add 0 a2 = Some (tt, a3, []) /\
    tm_trans (s_trans a3) = {[ (B "1", B "127.0.0.2:6881") := t ]} /\
    transaction_tick (Second * 11) a3 = Some (tt, a4, evs) /\
    EvResult 5 (mkResult (n2kAddr (demo_udp x02)) 0 [] true []) ∈ evs.
Proof.
  apply (early_pong_lost None demo_walk (demo_node x01) (demo_node x02) (demo_udp x01) (demo_udp x02) 5%nat 100 200 300
    (Second * 11)).
  - by apply demo_node_ok.
  - by apply demo_node_ok.
  - reflexivity.
  - by apply demo_node_open.
  - by apply demo_node_open.
  - reflexivity.
  - reflexivity.
Defined.

Lemma bootstrap_asks_witness :
  let LookupIP := fun name : bytes => if bool_decide (name = B "router") then Ok [[x0a; x00; x00; x01]; replicate 16 x20]
                                      else Err (Errorf "no such host") in
  exists tm evs, Bootstrap through_out socket LookupIP [B "127.0.0.2:6881"; B "nowhere:1"; B "[::1]:5"; B "router:80"] 7 (demo_node x01)
      = Some (tt, set_trans (demo_node x01) tm, evs) /\
    Forall2 (asks_for_self (demo_node x01)) [NewAddr [x7f; x00; x00; x02] 6881; NewAddr [x0a; x00; x00; x01] 80] evs.
Proof.
  intros LookupIP.
  apply (bootstrap_asks LookupIP [B "127.0.0.2:6881"; B "nowhere:1"; B "[::1]:5"; B "router:80"] 7 (demo_node x01)).
  - split; [apply length_replicate|done|]. apply Forall_singleton. reflexivity.
  - apply Forall_forall. intros a Ha. repeat (apply elem_of_cons in Ha as [->|Ha]; [by vm_compute|]). by apply elem_of_nil in Ha.
Defined.
