(* ===== verification/DhtLife.v ===== *)
(** * The life of a DHT server

    dht/dht_server.go ([Run], [Close], [Sync], [stop]) and the [Start] and [Stop] of its managers.
    [Run] starts five goroutines, each a loop over its tickers and its exit channel, and then reads
    packets.  Here every turn of a loop is an [action]; which of the ready cases a [select] takes, and
    how the goroutines interleave, is the order of the actions.  A turn of a ticker holds the locks it
    needs, so it is one step; the handling of a packet and a call of a user are one step up to the
    calls of [AddTransaction] of the requests they make, each of which is a step of its own
    ([TransAdd]) that can come any time later.  A goroutine that has returned takes no more
    steps.  [Run] makes the tickers inside the goroutines: the one of the transactions has the
    configured [RespTimeout] as its interval, and making it panics when that is negative
    ([TransStart]); the others are constants.  Closing the exit channels is the flag [l_exit].  The storage of the routing tables is outside: what is dumped to it is an output, and a
    failure to dump is only logged. *)

From S2P Require Import Prelude GoBytes GoNet GoTime Bencode Codec Hash MetaAddr KrpcAddr Krpc.
From S2P Require Import RoutingTable DhtManagers DhtServer.

Section Life.
Context {BL : Type} `{!Blacklist BL}.
Variable HandleInMessage : UDPAddr -> Message -> bool * Message.
Variable HandleOutMessage : UDPAddr -> Message -> bool * option error * Message.
Variable WriteTo : bytes -> UDPAddr -> nat * option error.
Variable customPeers : option (Hash -> Z -> bool -> list bytes).
Variable iter : gmap bytes peer -> list peer.
Variable LookupIP : bytes -> res (list IP).

#[local] Abbreviation Server := (Server (BL := BL)).
#[local] Abbreviation M := (M (BL := BL)).

(** The goroutines that [Run] starts, and its own loop: which are still there. *)
Record threads : Type := mkThreads {
  th_table4 : bool; th_table6 : bool; th_tokens : bool; th_peers : bool; th_trans : bool; th_read : bool;
  th_ticker : bool;   (* [transactionManager.Start] has made its ticker *)
}.
Record life : Type := mkLife { l_server : Server; l_threads : threads; l_exit : bool }.

Definition Server_Run (s : Server) : life := mkLife s (mkThreads true true true true true true false) false.

Definition table_alive (t : threads) (ipv6 : bool) : bool := if ipv6 then th_table6 t else th_table4 t.
Definition table_stopped (t : threads) (ipv6 : bool) : threads :=
  if ipv6 then mkThreads (th_table4 t) false (th_tokens t) (th_peers t) (th_trans t) (th_read t) (th_ticker t)
  else mkThreads false (th_table6 t) (th_tokens t) (th_peers t) (th_trans t) (th_read t) (th_ticker t).
Definition tokens_stopped (t : threads) : threads :=
  mkThreads (th_table4 t) (th_table6 t) false (th_peers t) (th_trans t) (th_read t) (th_ticker t).
Definition peers_stopped (t : threads) : threads :=
  mkThreads (th_table4 t) (th_table6 t) (th_tokens t) false (th_trans t) (th_read t) (th_ticker t).
Definition trans_stopped (t : threads) : threads :=
  mkThreads (th_table4 t) (th_table6 t) (th_tokens t) (th_peers t) false (th_read t) (th_ticker t).
Definition read_stopped (t : threads) : threads :=
  mkThreads (th_table4 t) (th_table6 t) (th_tokens t) (th_peers t) (th_trans t) false (th_ticker t).
Definition ticker_made (t : threads) : threads :=
  mkThreads (th_table4 t) (th_table6 t) (th_tokens t) (th_peers t) (th_trans t) (th_read t) true.

(** The methods a user of the server calls. *)
Inductive call : Type :=
  | CallAddNode (n : Node)
  | CallPing (addr : Addr) (cb : option nat)
  | CallGetPeers (infohash : Hash) (cb : option nat)
  | CallFindNode (addr : Addr) (target : Hash)
  | CallAnnouncePeer (infohash : Hash) (port : Z) (impliedPort : bool)
  | CallBootstrap (addrs : list bytes).

Inductive action : Type :=
  | Packet (raddr : UDPAddr) (data : bytes) (now : Z)   (* [ReadFrom] in [Run] *)
  | ReadFailed
  | TableTick (ipv6 : bool) (now : Z)                   (* [routingTable.Start] *)
  | TableSync (ipv6 : bool)
  | TableExit (ipv6 : bool)
  | TokenUpdate (random : bytes)                        (* [tokenManager.Start] *)
  | TokenClear (now : Z)
  | TokenExit
  | PeerTick (now : Z)                                  (* [tokenPeerManager.Start] *)
  | PeerExit
  | TransStart                                          (* [transactionManager.Start] *)
  | TransTick (now : Z)
  | TransExit
  | BlacklistTurn (bl : BL)                             (* what the blacklist does on its own *)
  | TransAdd (i : nat)                                  (* [AddTransaction], at the end of [request] *)
  | Call (c : call) (now : Z)
  | Close.

Inductive output : Type :=
  | Seen (e : event)
  | Dumped (ipv6 : bool) (nodes : list RoutingTableNode).

(** [routingTable.dump]: an empty table is not dumped. *)
Definition dump (l : life) (ipv6 : bool) : list output :=
  match rt_dump (if ipv6 then s_rt6 (l_server l) else s_rt4 (l_server l)) with
  | [] => []
  | nodes => [Dumped ipv6 nodes]
  end.

Definition tokenExpired : Z := Minute * 10.
Definition peerInterval : Z := Minute * 60 * 24.

(** Whether the loop an action belongs to can take it.  The exit case is ready when the
    channel is closed; the loops may still take a tick instead. *)
Definition enabled (l : life) (a : action) : bool :=
  let t := l_threads l in
  match a with
  | Packet _ _ _ | ReadFailed => th_read t
  | TableTick ipv6 _ | TableSync ipv6 => table_alive t ipv6
  | TableExit ipv6 => table_alive t ipv6 && l_exit l
  | TokenUpdate _ | TokenClear _ => th_tokens t
  | TokenExit => th_tokens t && l_exit l
  | PeerTick _ => th_peers t
  | PeerExit => th_peers t && l_exit l
  | TransStart => th_trans t && negb (th_ticker t)
  | TransTick _ => th_trans t && th_ticker t
  | TransExit => th_trans t && th_ticker t && l_exit l
  | TransAdd i => (i <? length (tm_sent (s_trans (l_server l))))%nat
  | BlacklistTurn _ | Call _ _ | Close => true
  end.

Definition run_call (c : call) (now : Z) : M unit :=
  match c with
  | CallAddNode n => AddNode n now ;; ret tt
  | CallPing addr cb => Ping HandleOutMessage WriteTo addr cb now ;; ret tt
  | CallGetPeers infohash cb => GetPeers HandleOutMessage WriteTo infohash cb now
  | CallFindNode addr target => FindNode HandleOutMessage WriteTo addr target now ;; ret tt
  | CallAnnouncePeer infohash port implied =>
      AnnouncePeer HandleOutMessage WriteTo infohash port implied now ;; ret tt
  | CallBootstrap addrs => Bootstrap HandleOutMessage WriteTo LookupIP addrs now
  end.

(** Run a handler on the server; [None] is a panic, which ends the program. *)
Definition on_server (m : M unit) (l : life) : option (life * list output) :=
  match m (l_server l) with
  | Some (_, s, evs) => Some (mkLife s (l_threads l) (l_exit l), map Seen evs)
  | None => None
  end.
Definition set_threads (t : threads) (l : life) : life := mkLife (l_server l) t (l_exit l).
Definition set_server (s : Server) (l : life) : life := mkLife s (l_threads l) (l_exit l).

Definition act (l : life) (a : action) : option (life * list output) :=
  let s := l_server l in
  let t := l_threads l in
  match a with
  | Packet raddr data now =>
      on_server (handlePacket HandleInMessage HandleOutMessage WriteTo customPeers iter raddr
                   (take (Z.to_nat (c_MsgSize (s_conf s))) data) now) l
  | ReadFailed => Some (set_threads (read_stopped t) l, [])
  | TableTick ipv6 now => on_server (table_tick HandleOutMessage WriteTo ipv6 now) l
  | TableSync ipv6 => Some (l, dump l ipv6)
  | TableExit ipv6 => Some (set_threads (table_stopped t ipv6) l, dump l ipv6)
  | TokenUpdate random => Some (set_server (set_tokens s (updateToken (s_tokens s) random)) l, [])
  | TokenClear now => Some (set_server (set_tokens s (tokenManager_clear (s_tokens s) now tokenExpired)) l, [])
  | TokenExit => Some (set_threads (tokens_stopped t) l, [])
  | PeerTick now => Some (set_server (set_peers s (tokenPeerManager_tick (s_peers s) peerInterval now)) l, [])
  | PeerExit => Some (set_threads (peers_stopped t) l, [])
  | TransStart =>
      (* [time.NewTicker] panics when the interval is not positive *)
      if c_RespTimeout (s_conf s) <=? 0 then None else Some (set_threads (ticker_made t) l, [])
  | TransTick now => on_server (transaction_tick now) l
  | TransExit => Some (set_threads (trans_stopped t) l, [])
  | BlacklistTurn bl => Some (set_server (set_bl s bl) l, [])
  | TransAdd i => on_server (trans_add i) l
  | Call c now => on_server (run_call c now) l
  | Close => Some (mkLife s t true, [])
  end.

(** What a life can go through. *)
Inductive steps (l : life) : list action -> life -> list output -> Prop :=
  | steps_none : steps l [] l []
  | steps_one acts l1 outs a l2 outs' :
      steps l acts l1 outs -> enabled l1 a = true -> act l1 a = Some (l2, outs') ->
      steps l (acts ++ [a]) l2 (outs ++ outs').
End Life.
