(* ===== verification/DhtLifeThms.v ===== *)
(** * Theorems about the life of a DHT server

    The invariant of the server, kept by every turn of every goroutine, and with it that no packet and
    no tick can make the server panic. *)

From S2P Require Import Prelude GoBytes GoNet GoTime Bencode Codec Hash MetaAddr KrpcAddr Krpc KrpcThms KrpcTyped.
From S2P Require Import RoutingTable RoutingTableThms DhtManagers DhtServer DhtServerThms DhtNetThms DhtLife.

(** ** Nodes and tables *)

(** A node as it comes from the network: its id has twenty bytes, its address is one of the two
    families. *)
Definition node_ok (n : Node) : Prop := Node_typed n /\ legal_ip (a_IP (n_Addr n)) = true.
Definition addr_ok (a : Addr) : Prop := is_u16 (a_Port a) /\ legal_ip (a_IP a) = true.
Definition table_ok (rt : routingTable) : Prop :=
  rt_inv rt /\ Forall (fun w => node_ok (wn_Node w)) (rt_heap rt).

Lemma Node_wf_ok n x : n = 4%nat \/ n = 16%nat -> Node_wf n x -> node_ok x.
Proof.
  intros Hn [Hi [[Hl Hp] _]]. simpl in Hl, Hp. split; [by split|].
  unfold legal_ip. rewrite Hl. by destruct Hn as [-> | ->].
Qed.

Lemma heap_bucket_AddNode rt i n now :
  rt_inv rt -> (i < bktlen)%nat -> node_ok n -> Forall (fun w => node_ok (wn_Node w)) (rt_heap rt) ->
  Forall (fun w => node_ok (wn_Node w)) (rt_heap (bucket_AddNode rt i n now).1).
Proof.
  intros Hinv Hi Hn H. destruct (bucket_AddNode rt i n now) as [rt' st] eqn:E. cbn [fst].
  assert (Hl : (i < length (rt_bkts rt))%nat) by (destruct Hinv as (_ & -> & _); done).
  apply bucket_AddNode_cases in E; [|done]. cbv zeta in E.
  assert (Hnew : forall ps, Forall (fun w => node_ok (wn_Node w)) (rt_heap (with_new rt i n now ps))).
  { intros ps. apply Forall_app. split; [done|]. by constructor. }
  destruct E as [(p & Hp & _ & _ & _ & ->)|[(_ & -> & _)|[(_ & _ & _ & ->)|[(j & p & _ & _ & _ & _ & _ & ->)|(_ & _ & _ & -> & _)]]]];
    try done.
  cbn [UpdateLastChangedTime bucket_UpdateLastChangedTime set_bkt rt_heap set_heap].
  apply Forall_insert; [done|]. cbn [wn_Node].
  pose proof (get_bkt_ok rt i Hinv) as [Hok _]. rewrite Forall_forall in Hok. rewrite Forall_forall in H.
  apply H, (list_elem_of_lookup_2 _ p). by apply (deref_ptr rt i), Hok.
Qed.

Lemma rt_AddNode_ok rt n now :
  table_ok rt -> node_ok n -> exists rt' st, rt_AddNode rt n now = Some (rt', st) /\ table_ok rt'.
Proof.
  intros [Hi Hh] Hn. unfold rt_AddNode. case_bool_decide; [by exists rt, NodeNotAdded|].
  assert (Hid : Hash_wf (n_ID n)) by apply Hn.
  destruct (rt_addNode_Some rt n now Hi Hid) as (i & Hb & Hlt & ->).
  destruct (bucket_AddNode rt i n now) as [rt' st] eqn:E. exists rt', st. split; [done|].
  rewrite <- (f_equal fst E : _ = rt'). split; [by apply bucket_AddNode_inv|by apply heap_bucket_AddNode].
Qed.

Lemma checkAll_heap rt now bs : rt_heap (checkAll_loop rt now bs).1 = rt_heap rt.
Proof.
  revert rt. induction bs as [|i bs IH]; intros rt; simpl; [done|].
  assert (E : rt_heap (CheckAllNodes rt i now).1.1 = rt_heap rt).
  { unfold CheckAllNodes. destruct (_ || _); [done|]. by destruct (delAll _ _). }
  destruct (CheckAllNodes rt i now) as [[rt1 pings] []]; simpl in *; [|done].
  specialize (IH rt1). destruct (checkAll_loop rt1 now bs). simpl in *. congruence.
Qed.

Lemma checkAllBuckets_ok rt now : table_ok rt -> table_ok (checkAllBuckets rt now).1.
Proof. intros [H1 H2]. split; [by apply checkAllBuckets_inv|]. unfold checkAllBuckets. by rewrite checkAll_heap. Qed.

Lemma load_loop_ok nodes rt now :
  Forall (fun x => node_ok (rtn_Node x)) nodes -> table_ok rt -> table_ok (load_loop rt nodes now).
Proof.
  intros H. revert rt. induction H as [|x nodes Hx _ IH]; intros rt Hrt; cbn [load_loop]; [done|]. apply IH.
  destruct (_ <? _); [|done]. destruct Hrt as [Hi Hh].
  destruct (rt_addNode_Some rt (rtn_Node x) (rtn_LastChanged x) Hi ltac:(apply Hx)) as (i & Hb & Hlt & ->).
  pose proof (bucket_AddNode_inv rt i _ (rtn_LastChanged x) Hi Hlt ltac:(apply Hx) (eq_sym Hb)) as H1.
  pose proof (heap_bucket_AddNode rt i _ (rtn_LastChanged x) Hi Hlt Hx Hh) as H2.
  by destruct (bucket_AddNode rt i _ _) as [rt' st].
Qed.

(** What a storage gives back: nothing, or nodes as they come from the network. *)
Definition loaded_ok (loaded : option (list RoutingTableNode)) : Prop :=
  match loaded with Some nodes => Forall (fun x => node_ok (rtn_Node x)) nodes | None => True end.
Lemma newRoutingTable_ok k ipv6 root loaded now :
  Hash_wf root -> loaded_ok loaded -> table_ok (newRoutingTable k ipv6 root loaded now).
Proof.
  intros Hr Hl. assert (table_ok (emptyTable k ipv6 root)) as He by (split; [by apply emptyTable_inv|constructor]).
  unfold newRoutingTable. destruct loaded; [by apply load_loop_ok|done].
Qed.

Lemma rt_nodes_ok rt : table_ok rt -> Forall node_ok (rt_nodes rt).
Proof.
  intros [(_ & _ & Hb) Hh]. unfold rt_nodes, rt_ptrs. apply Forall_map, Forall_concat, Forall_map.
  apply Forall_lookup. intros i b E. destruct (Hb i b E) as [Hp _]. eapply Forall_impl; [exact Hp|].
  intros p Hok. rewrite Forall_forall in Hh. apply Hh, (list_elem_of_lookup_2 _ p). by eapply deref_ptr.
Qed.

Lemma Closest_ok rt target k : table_ok rt -> Hash_wf target -> Forall node_ok (Closest rt target k).
Proof.
  intros H Ht. pose proof (rt_nodes_ok rt H) as Hn.
  destruct (closest_correct rt target k Ht) as (rest & Hp & _).
  { eapply Forall_impl; [exact Hn|]. intros n [[? _] _]. done. }
  rewrite <- Hp in Hn. by apply Forall_app in Hn as [? _].
Qed.

(** ** The invariant of the server *)

Section Safety.
Context {BL : Type} `{!Blacklist BL}.
Variable HandleInMessage : UDPAddr -> Message -> bool * Message.
Variable HandleOutMessage : UDPAddr -> Message -> bool * option error * Message.
Variable WriteTo : bytes -> UDPAddr -> nat * option error.
Variable customPeers : option (Hash -> Z -> bool -> list bytes).
Variable iter : gmap bytes peer -> list peer.
Variable LookupIP : bytes -> res (list IP).

#[local] Abbreviation Server := (Server (BL := BL)).
#[local] Abbreviation M := (M (BL := BL)).

(** The interceptors of the configuration hand on messages as they are made: with the types of the
    struct, a transaction id, a kind, and nodes that can be encoded. *)
Hypothesis in_ok : forall u m, Message_typed m -> m_T m <> [] ->
  Message_typed (HandleInMessage u m).2 /\ m_T (HandleInMessage u m).2 <> [].
Hypothesis out_ok : forall u m, Message_sendable m -> m_T m <> [] -> m_Y m <> [] ->
  let m' := (HandleOutMessage u m).2 in Message_sendable m' /\ m_T m' <> [] /\ m_Y m' <> [].

(** The arguments a query is sent with again. *)
Definition arg_ok (a : QueryArg) : Prop := Hash_wf (qa_Target a) /\ Hash_wf (qa_InfoHash a).

(** Of the requests that are open, and of those that will be. *)
Definition trans_ok (tm : transactionManager) : Prop :=
  map_Forall (fun _ t => arg_ok (t_Arg t)) (tm_trans tm) /\ Forall (fun t => arg_ok (t_Arg t)) (tm_sent tm).
Lemma addSent_ok tm i : trans_ok tm -> trans_ok (addSent tm i).
Proof.
  intros [Hm Hs]. unfold addSent. destruct (tm_sent tm !! i) as [t|] eqn:E; [|by split].
  rewrite Forall_forall in Hs. split; cbn [AddTransaction tm_trans tm_sent].
  - apply map_Forall_insert_2; [|done]. by eapply Hs, list_elem_of_lookup_2.
  - apply Forall_forall. intros x Hx. eapply Hs, elem_of_submseteq; [exact Hx|]. by apply sublist_submseteq, sublist_delete.
Qed.

Record server_inv (s : Server) : Prop := {
  si_id : Hash_wf (c_ID (s_conf s));
  si_nonzero : c_ID (s_conf s) <> zeroHash;
  si_k : 0 <= c_K (s_conf s);
  si_rt4 : table_ok (s_rt4 s);
  si_rt6 : table_ok (s_rt6 s);
  si_timeout : 0 < c_RespTimeout (s_conf s);
  si_trans : trans_ok (s_trans s);
}.

(** [safe m P]: from a server with the invariant [m] does not panic, it leaves a server with the
    invariant, and its result satisfies [P]. *)
Definition safe {A} (m : M A) (P : A -> Prop) : Prop :=
  forall s, server_inv s -> exists a s' evs, m s = Some (a, s', evs) /\ server_inv s' /\ P a.

Lemma safe_ret {A} (a : A) (P : A -> Prop) : P a -> safe (ret a) P.
Proof. intros H s Hs. by exists a, s, []. Qed.
Lemma safe_emit e (P : unit -> Prop) : P tt -> safe (emit e) P.
Proof. intros H s Hs. by exists tt, s, [e]. Qed.
Lemma safe_putS s1 (P : unit -> Prop) : server_inv s1 -> P tt -> safe (putS s1) P.
Proof. intros H HP s Hs. by exists tt, s1, []. Qed.
Lemma safe_bind {A C} (m : M A) (k : A -> M C) (P : A -> Prop) (Q : C -> Prop) :
  safe m P -> (forall a, P a -> safe (k a) Q) -> safe (m ≫= k) Q.
Proof.
  intros H1 H2 s Hs. destruct (H1 s Hs) as (a & s1 & e1 & E1 & Hs1 & Pa).
  destruct (H2 a Pa s1 Hs1) as (c & s2 & e2 & E2 & Hs2 & Qc).
  exists c, s2, (e1 ++ e2). split; [by apply (runs_bind m k s a s1 e1 c s2 e2)|done].
Qed.
Lemma safe_getS {C} (k : Server -> M C) (Q : C -> Prop) :
  (forall s, server_inv s -> safe (k s) Q) -> safe (getS ≫= k) Q.
Proof.
  intros H s Hs. destruct (H s Hs s Hs) as (c & s' & e & E & ?).
  exists c, s', e. split; [by apply runs_getS|done].
Qed.
Lemma safe_weaken {A} (m : M A) (P Q : A -> Prop) : safe m P -> (forall a, P a -> Q a) -> safe m Q.
Proof. intros H HPQ s Hs. destruct (H s Hs) as (a & s' & e & E & ? & ?). exists a, s', e. auto. Qed.
Lemma safe_then {A C} (m : M A) (k : M C) (Q : C -> Prop) :
  safe m (fun _ => True) -> safe k Q -> safe (m ;; k) Q.
Proof. intros H1 H2. eapply safe_bind; [exact H1|]. by intros _ _. Qed.
Lemma safe_eachM {A} (l : list A) (f : A -> M unit) (P : A -> Prop) :
  Forall P l -> (forall x, P x -> safe (f x) (fun _ => True)) -> safe (eachM l f) (fun _ => True).
Proof.
  intros H Hf. induction H as [|x l Hx _ IH]; simpl; [by apply safe_ret|]. apply safe_then; auto.
Qed.

(** The parts of the state that are replaced. *)
Lemma inv_set_bl s x : server_inv s -> server_inv (set_bl s x).
Proof. by intros []. Qed.
Lemma inv_set_tokens s x : server_inv s -> server_inv (set_tokens s x).
Proof. by intros []. Qed.
Lemma inv_set_peers s x : server_inv s -> server_inv (set_peers s x).
Proof. by intros []. Qed.
Lemma inv_set_rt4 s x : server_inv s -> table_ok x -> server_inv (set_rt4 s x).
Proof. by intros []. Qed.
Lemma inv_set_rt6 s x : server_inv s -> table_ok x -> server_inv (set_rt6 s x).
Proof. by intros []. Qed.
Lemma inv_set_trans s x : server_inv s -> trans_ok x -> server_inv (set_trans s x).
Proof. by intros []. Qed.
#[local] Hint Resolve inv_set_bl inv_set_tokens inv_set_peers inv_set_rt4 inv_set_rt6 inv_set_trans : core.
#[local] Hint Resolve si_id si_nonzero si_k si_rt4 si_rt6 si_trans : core.

(** One step of a handler. *)
Ltac kstep :=
  match goal with
  | |- safe (ret _) _ => apply safe_ret
  | |- safe (emit _) _ => apply safe_emit
  | |- safe (putS _) _ => apply safe_putS
  | |- safe (getS ≫= _) _ => apply safe_getS; intros ? ?
  | |- safe (whenM _ _) _ => unfold whenM
  | |- safe (putS _ ≫= _) _ => apply safe_then
  | |- safe (emit _ ≫= _) _ => apply safe_then
  | |- safe (if ?b then _ else _) _ => destruct b eqn:?
  end.
Ltac ksteps := repeat kstep; eauto.

(** ** Sending *)

Lemma safe_AddNode n now : node_ok n -> safe (AddNode n now) (fun _ => True).
Proof.
  intros Hn. unfold AddNode. kstep. cbv zeta.
  destruct (rt_AddNode_ok (s_rt6 s) n now) as (rt6 & st6 & -> & ?); [eauto..|].
  destruct (rt_AddNode_ok (s_rt4 s) n now) as (rt4 & st4 & -> & ?); [eauto..|]. ksteps.
Qed.
Lemma safe_addNode a id ro now : addr_ok a -> Hash_wf id -> safe (addNode a id ro now) (fun _ => True).
Proof.
  intros [Hp Hl] Hid. unfold addNode. kstep; [ksteps|]. eapply safe_bind.
  - apply safe_AddNode. by split.
  - intros st _. apply safe_then; ksteps.
Qed.
Lemma safe_addNode2 n ro now : node_ok n -> safe (addNode2 n ro now) (fun _ => True).
Proof. intros H. unfold addNode2. kstep; [ksteps|by apply safe_AddNode]. Qed.

Lemma safe__send a m now :
  Message_sendable m -> m_T m <> [] -> m_Y m <> [] -> safe (_send WriteTo a m now) (fun _ => True).
Proof.
  intros Hm Ht Hy. unfold _send. rewrite !bool_decide_eq_false_2 by done. cbn [orb].
  destruct (Message_encodes m Hm) as [b ->]. destruct (WriteTo b (k2nAddr a)) as [n [e|]]; ksteps.
Qed.

Lemma safe_send a m now :
  Message_sendable m -> m_T m <> [] -> m_Y m <> [] -> safe (send HandleOutMessage WriteTo a m now) (fun _ => True).
Proof.
  intros Hm Ht Hy. unfold send. kstep. cbv zeta. set (m1 := mkMessage _ _ _ _ _ _ _).
  destruct (out_ok (k2nAddr (mkAddr (a_IP a) (a_Port a) (Some (k2nAddr a)))) m1) as (H1 & H2 & H3); [by destruct Hm|done|done|].
  revert H1 H2 H3. cbv zeta.
  destruct (HandleOutMessage _ m1) as [[[] [e|]] m2]; cbn [snd]; intros; try by apply safe_ret.
  by apply safe__send.
Qed.

Lemma query_sendable tid q a : arg_ok a -> Message_sendable (NewQueryMsg tid q a).
Proof. intros [H1 H2]. split; simpl; try constructor; done. Qed.
Lemma error_sendable tid c reason : Message_sendable (NewErrorMsg tid c reason).
Proof. split; simpl; try constructor; done. Qed.

Definition nodes_ok (x : ResponseResult) : Prop :=
  Forall node_ok (rr_Nodes x) /\ Forall node_ok (rr_Nodes6 x).
Lemma result_sendable tid x : nodes_ok x -> Message_sendable (NewResponseMsg tid x).
Proof.
  intros [H4 H6]. split; simpl; try done.
  - eapply Forall_impl; [exact H4|]. by intros n [? _].
  - eapply Forall_impl; [exact H6|]. by intros n [? _].
  - apply forallb_forall. intros n Hn. apply list_elem_of_In in Hn. rewrite Forall_forall in H6. by apply H6.
Qed.

Lemma safe_reply a tid x now :
  nodes_ok x -> tid <> [] -> safe (reply HandleOutMessage WriteTo a tid x now) (fun _ => True).
Proof.
  intros Hx Ht. unfold reply. kstep. cbv zeta. apply safe_then; [|ksteps].
  by apply safe_send; [apply result_sendable|..].
Qed.

Lemma safe_request t now : arg_ok (t_Arg t) -> safe (request HandleOutMessage WriteTo t now) (fun _ => True).
Proof.
  intros Ha. unfold request. kstep. kstep; [ksteps|]. cbv zeta.
  eapply (safe_bind _ _ (fun id => id <> [])).
  - case_bool_decide; [|by apply safe_ret]. destruct (GetTransactionID (s_trans s)) as [tm id] eqn:E.
    injection E as <- <-. apply safe_then; [apply safe_putS; [|done]|apply safe_ret, format_uint_nonempty].
    apply inv_set_trans; [done|]. exact (si_trans s ltac:(done)).
  - intros id Hid. eapply (safe_bind _ _ (fun _ => True)).
    + apply safe_send; [by apply query_sendable|done|done].
    + intros [w [e|]] _; cbn [snd]; [ksteps|]. kstep. apply safe_then; [|by apply safe_ret].
      apply safe_putS; [|done]. apply inv_set_trans; [done|].
      match goal with H : server_inv ?s1 |- trans_ok (sentTransaction (s_trans ?s1) _) => destruct (si_trans s1 H) as [Hm Hs] end.
      split; [exact Hm|]. apply Forall_app. split; [exact Hs|]. by constructor.
Qed.

(** ** Responses *)

Lemma safe_Done t r : safe (Done (BL := BL) t r) (fun _ => True).
Proof. unfold Done. destruct (t_Callback t); ksteps. Qed.

Lemma safe_Ping a cb now : safe (Ping HandleOutMessage WriteTo a cb now) (fun _ => True).
Proof. apply safe_request. by split. Qed.
Lemma safe_getPeers info a depth ids cb now :
  Hash_wf info -> safe (getPeers HandleOutMessage WriteTo info a depth ids cb now) (fun _ => True).
Proof. intros H. unfold getPeers. kstep. apply safe_then; [|ksteps]. apply safe_request. by split. Qed.
Lemma safe_findNode target a depth ids now :
  Hash_wf target -> safe (findNode HandleOutMessage WriteTo target a depth ids now) (fun _ => True).
Proof. intros H. unfold findNode. kstep. apply safe_request. by split. Qed.

Lemma safe_collect target ro now l found nodes ids :
  Forall node_ok l -> safe (collect (BL := BL) target ro now l found nodes ids) (fun _ => True).
Proof.
  intros H. revert found nodes ids. induction H as [|n l Hn _ IH]; intros; cbn [collect]; [ksteps|]. cbv zeta.
  kstep; [apply IH|]. eapply safe_bind; [by apply safe_addNode2|]. intros st _. kstep; apply IH.
Qed.

Lemma safe_OnResponse t a m now :
  arg_ok (t_Arg t) -> Message_typed m -> safe (OnResponse HandleOutMessage WriteTo t a m now) (fun _ => True).
Proof.
  intros [Ht Hi] [_ [_ H4 H6]].
  assert (Hn : Forall node_ok (rr_Nodes (m_R m) ++ rr_Nodes6 (m_R m))).
  { apply Forall_app. split; [eapply Forall_impl; [exact H4|]|eapply Forall_impl; [exact H6|]];
      intros n; [apply (Node_wf_ok 4)|apply (Node_wf_ok 16)]; auto. }
  unfold OnResponse. destruct (t_OnResponse t).
  - ksteps.
  - apply safe_Done.
  - unfold handle_onGetPeersResp. apply safe_then; [ksteps|]. kstep.
    + apply safe_then; [apply safe_Done|].
      apply (safe_eachM _ _ (fun _ => True)); [by apply Forall_true|]. intros. ksteps.
    + apply safe_then; [apply safe_Done|]. cbv zeta. kstep; [ksteps|].
      eapply safe_bind; [by apply safe_collect|]. intros [[found nodes] ids] _. kstep; [ksteps|].
      apply (safe_eachM _ _ (fun _ => True)); [by apply Forall_true|]. intros. by apply safe_getPeers.
  - unfold handle_onFindNodeResp. apply safe_then; [apply safe_Done|]. cbv zeta. kstep; [ksteps|].
    eapply safe_bind; [by apply safe_collect|]. intros [[found nodes] ids] _. kstep; [ksteps|].
    apply (safe_eachM _ _ (fun _ => True)); [by apply Forall_true|]. intros. apply safe_then; [by apply safe_findNode|ksteps].
Qed.

(** ** Queries *)

Lemma closestNodes_ok s a m :
  server_inv s -> Hash_wf (qa_InfoHash (m_A m)) ->
  forall n4 n6 tok values, closestNodes s a m = (n4, n6) -> nodes_ok (mkResponseResult zeroHash n4 n6 tok values).
Proof.
  intros Hs Hh n4 n6 tok values. unfold closestNodes.
  pose proof (Closest_ok (s_rt4 s) _ (c_K (s_conf s)) (si_rt4 s Hs) Hh) as H4.
  pose proof (Closest_ok (s_rt6 s) _ (c_K (s_conf s)) (si_rt6 s Hs) Hh) as H6.
  repeat case_match; intros [= <- <-]; split; simpl; auto.
Qed.

Lemma safe_values s a m : server_inv s -> safe (getPeers_values customPeers iter s a m) (fun _ => True).
Proof.
  intros Hs. assert (HP : forall h v6, safe (liftR (BL := BL) (peerManager_GetPeers customPeers iter s h (c_K (s_conf s)) v6)) (fun _ => True)).
  { intros. unfold peerManager_GetPeers, tpm_GetPeers. destruct customPeers; [by apply safe_ret|].
    pose proof (si_k s Hs). destruct (Z.ltb_spec (c_K (s_conf s)) 0); [lia|]. by apply safe_ret. }
  unfold getPeers_values. cbv zeta. kstep; [apply HP|].
  eapply safe_bind; [kstep; [apply HP|ksteps]|]. intros v4 _.
  eapply safe_bind; [kstep; [apply HP|ksteps]|]. intros v6 _. ksteps.
Qed.

Lemma safe_handleQuery a m now :
  QueryArg_typed (m_A m) -> m_T m <> [] ->
  safe (handleQuery HandleOutMessage WriteTo customPeers iter a m now) (fun _ => True).
Proof.
  intros [_ _ Hh _] Ht. unfold handleQuery. kstep. kstep; [|kstep; [|kstep; [|kstep]]].
  - apply safe_reply; [|done]. split; constructor.
  - destruct (closestNodes s a m) as [n4 n6] eqn:E. apply safe_reply; [|done]. by eapply closestNodes_ok.
  - eapply safe_bind; [by apply safe_values|]. intros values _.
    assert (forall n4 n6 tok, (if (length values =? 0)%nat then closestNodes s a m else ([], [])) = (n4, n6) ->
      nodes_ok (mkResponseResult zeroHash n4 n6 tok values)) as Hn.
    { intros n4 n6 tok. destruct (_ =? _)%nat; [by apply closestNodes_ok|]. intros [= <- <-]. split; constructor. }
    destruct (if (length values =? 0)%nat then closestNodes s a m else ([], [])) as [n4 n6].
    destruct (Token (s_tokens s) a now) as [tm token]. specialize (Hn n4 n6 token eq_refl).
    apply safe_then; [ksteps|]. apply safe_then; [by apply safe_reply|ksteps].
  - kstep; [ksteps|]. apply safe_then; [|ksteps]. apply safe_reply; [|done]. split; constructor.
  - unfold sendError. apply safe_then; [|ksteps]. by apply safe_send; [apply error_sendable|..].
Qed.

Lemma safe_popTransaction tid a :
  safe (popTransaction (BL := BL) tid a) (fun t => match t with Some t => arg_ok (t_Arg t) | None => True end).
Proof.
  unfold popTransaction. kstep. unfold PopTransaction.
  destruct (tm_trans (s_trans s) !! _) as [t|] eqn:E.
  - apply safe_then.
    + apply safe_putS; [|done]. apply inv_set_trans; [done|]. destruct (si_trans s) as [Hm Hs]; [done|].
      split; [by apply map_Forall_delete|exact Hs].
    + apply safe_ret. exact (proj1 (si_trans s ltac:(done)) _ t E).
  - apply safe_then; [|by apply safe_ret]. apply safe_putS; [|done]. apply inv_set_trans; eauto.
Qed.

Lemma safe_handleMessage a m now :
  addr_ok a -> Message_typed m -> m_T m <> [] ->
  safe (handleMessage HandleInMessage HandleOutMessage WriteTo customPeers iter a m now) (fun _ => True).
Proof.
  intros Ha Hm Ht. unfold handleMessage. destruct (in_ok (k2nAddr a) m Hm Ht) as [Hm' Ht'].
  destruct (HandleInMessage (k2nAddr a) m) as [handled m']. cbn [snd] in Hm', Ht'. clear m Hm Ht.
  pose proof Hm' as [Harg Hres]. kstep; [ksteps|]. kstep; [|kstep; [|kstep; [|ksteps]]].
  - kstep; [ksteps|]. eapply safe_bind; [apply safe_addNode; [done|apply Harg]|]. intros st _. kstep.
    kstep; [by apply safe_handleQuery|ksteps].
  - kstep; [ksteps|]. eapply safe_bind; [apply safe_addNode; [done|apply Hres]|]. intros st _. kstep; [ksteps|].
    eapply safe_bind; [apply safe_popTransaction|]. intros [t|] Hta; [by apply safe_OnResponse|ksteps].
  - eapply safe_bind; [apply safe_popTransaction|]. intros [t|] _; [apply safe_Done|ksteps].
Qed.

Lemma safe_handlePacket raddr data now :
  legal_ip (ua_IP raddr) = true ->
  safe (handlePacket HandleInMessage HandleOutMessage WriteTo customPeers iter raddr data now) (fun _ => True).
Proof.
  intros Hl. unfold handlePacket. cbv zeta. kstep. kstep; [ksteps|]. kstep; [ksteps|].
  assert (Ha : addr_ok (n2kAddr raddr)).
  { split; [|exact Hl]. unfold n2kAddr, NewAddrFromUDPAddr. simpl. apply Z.mod_pos_bound. lia. }
  pose proof (decoded_typed data) as E. destruct (decodeMessage data) as [m|e|]; [|ksteps|done].
  case_bool_decide as Ht; [ksteps|]. by apply safe_handleMessage.
Qed.

(** ** Ticks and calls *)

Lemma safe_table_tick ipv6 now : safe (table_tick HandleOutMessage WriteTo ipv6 now) (fun _ => True).
Proof.
  unfold table_tick. kstep. assert (Hrt : table_ok (if ipv6 then s_rt6 s else s_rt4 s)) by (destruct ipv6; eauto).
  apply (checkAllBuckets_ok _ now) in Hrt. destruct (checkAllBuckets _ now) as [rt pings]. cbn [fst] in Hrt.
  apply safe_then; [apply safe_putS; [destruct ipv6; eauto|done]|].
  apply (safe_eachM _ _ (fun _ => True)); [by apply Forall_true|]. intros. apply safe_then; [apply safe_Ping|ksteps].
Qed.

Lemma safe_transaction_tick now : safe (transaction_tick now) (fun _ => True).
Proof.
  unfold transaction_tick. kstep. unfold transactions_tick. cbv zeta. apply safe_then.
  - apply safe_putS; [|done]. apply inv_set_trans; [done|]. destruct (si_trans s) as [Hm Hs]; [done|].
    split; [|exact Hs]. intros k t E. apply map_lookup_filter_Some in E as [E _]. exact (Hm k t E).
  - apply (safe_eachM _ _ (fun _ => True)); [by apply Forall_true|]. intros. apply safe_Done.
Qed.

Lemma safe_trans_add i : safe (trans_add (BL := BL) i) (fun _ => True).
Proof. unfold trans_add. kstep. apply safe_putS; [|done]. apply inv_set_trans; [done|]. apply addSent_ok; eauto. Qed.

Lemma safe_announce infohash port implied now nodes :
  Hash_wf infohash ->
  safe (announce_loop HandleOutMessage WriteTo infohash port implied now nodes) (fun _ => True).
Proof.
  intros H. induction nodes as [|n nodes IH]; cbn [announce_loop]; [ksteps|]. kstep. cbv zeta. kstep; [exact IH|].
  eapply safe_bind; [by apply safe_request|]. intros err _. eapply safe_bind; [exact IH|]. intros rest _. ksteps.
Qed.

Lemma safe_FindNode a target now :
  Hash_wf target -> target <> zeroHash -> safe (FindNode HandleOutMessage WriteTo a target now) (fun _ => True).
Proof.
  intros H Hz. unfold FindNode, Hash_IsZero. rewrite bool_decide_eq_false_2 by done. kstep. by apply safe_findNode.
Qed.

Lemma safe_Bootstrap addrs now :
  Forall (fun a => ParseAddrs LookupIP a <> Panic) addrs ->
  safe (Bootstrap HandleOutMessage WriteTo LookupIP addrs now) (fun _ => True).
Proof.
  intros Ha. unfold Bootstrap. kstep. kstep; [|ksteps].
  apply (safe_eachM _ _ _ Ha). intros a Hp. destruct (ParseAddrs LookupIP a) as [l| |]; [|ksteps|done].
  apply (safe_eachM _ _ (fun _ => True)); [by apply Forall_true|]. intros x _. unfold bootstrap_addr. kstep.
  match goal with |- safe (if ?b then _ else _) _ => destruct b end; [ksteps|].
  apply safe_then; [apply safe_FindNode; eauto|ksteps].
Qed.

(** Calls as the methods ask for them: a hash that is not zero, a node with an address, host names whose
    resolution does not panic. *)
Definition call_ok (c : call) : Prop :=
  match c with
  | CallAddNode n => node_ok n
  | CallPing _ _ => True
  | CallGetPeers h _ | CallFindNode _ h | CallAnnouncePeer h _ _ => Hash_wf h /\ h <> zeroHash
  | CallBootstrap addrs => Forall (fun a => ParseAddrs LookupIP a <> Panic) addrs
  end.

Lemma safe_run_call c now :
  call_ok c -> safe (run_call HandleOutMessage WriteTo LookupIP c now) (fun _ => True).
Proof.
  destruct c as [n|a cb|h cb|a h|h port implied|addrs]; cbn [call_ok run_call].
  - intros Hn. apply safe_then; [by apply safe_AddNode|ksteps].
  - intros _. apply safe_then; [apply safe_Ping|ksteps].
  - intros [Hh Hz]. unfold GetPeers, Hash_IsZero. rewrite bool_decide_eq_false_2 by done. kstep. cbv zeta. kstep.
    + destruct cb; ksteps.
    + apply (safe_eachM _ _ (fun _ => True)); [by apply Forall_true|]. intros. by apply safe_getPeers.
  - intros [Hh Hz]. apply safe_then; [by apply safe_FindNode|ksteps].
  - intros [Hh Hz]. apply safe_then; [|ksteps]. unfold AnnouncePeer, Hash_IsZero.
    rewrite bool_decide_eq_false_2 by done. kstep. by apply safe_announce.
  - apply safe_Bootstrap.
Qed.

(** ** The life of a server *)

Definition action_ok (a : action (BL := BL)) : Prop :=
  match a with
  | Packet u _ _ => legal_ip (ua_IP u) = true
  | Call c _ => call_ok c
  | _ => True
  end.

#[local] Abbreviation act := (act HandleInMessage HandleOutMessage WriteTo customPeers iter LookupIP).
#[local] Abbreviation steps := (steps HandleInMessage HandleOutMessage WriteTo customPeers iter LookupIP).

Lemma act_safe l a :
  server_inv (l_server l) -> action_ok a ->
  exists l' outs, act l a = Some (l', outs) /\ server_inv (l_server l').
Proof.
  intros Hs Ha.
  assert (Hon : forall m, safe m (fun _ => True) ->
    exists l' outs, on_server m l = Some (l', outs) /\ server_inv (l_server l')).
  { intros m Hm. destruct (Hm _ Hs) as (x & s' & evs & E & Hs' & _). unfold on_server. rewrite E. by eexists _, _. }
  destruct a; cbn [action_ok act] in *;
    try (eexists _, _; split; [reflexivity|]; cbn [l_server set_server set_threads]; by eauto).
  - apply Hon. by apply safe_handlePacket.
  - apply Hon, safe_table_tick.
  - destruct (Z.leb_spec (c_RespTimeout (s_conf (l_server l))) 0) as [Hle|_]; [|by eexists _, _].
    pose proof (si_timeout _ Hs). lia.
  - apply Hon, safe_transaction_tick.
  - apply Hon, safe_trans_add.
  - apply Hon. by apply safe_run_call.
Qed.

Lemma steps_inv l acts l' outs :
  server_inv (l_server l) -> steps l acts l' outs -> Forall action_ok acts -> server_inv (l_server l').
Proof.
  intros Hs. induction 1 as [|acts l1 outs a l2 outs' _ IH _ E]; [done|]. intros [Ha Hl]%Forall_app.
  apply Forall_cons_1 in Hl as [Hl _]. destruct (act_safe l1 a (IH Ha) Hl) as (l' & o & E' & Hi).
  rewrite E in E'. by injection E' as <- <-.
Qed.

Lemma NewServer_inv conf random protocols bl token load4 load6 now :
  Hash_wf (c_ID conf) -> Hash_wf random -> random <> zeroHash -> 0 <= c_RespTimeout conf ->
  loaded_ok load4 -> loaded_ok load6 ->
  server_inv (NewServer (Config_set conf random) protocols bl token load4 load6 now).
Proof.
  intros Hid Hr Hz Ht H4 H6.
  assert (Hash_wf (c_ID (Config_set conf random)) /\ c_ID (Config_set conf random) <> zeroHash) as [Hi Hn].
  { unfold Config_set, Hash_IsZero. cbn [c_ID]. by case_bool_decide. }
  split; cbn [NewServer s_conf s_rt4 s_rt6 s_trans]; [done|done| |by apply newRoutingTable_ok..| |].
  - unfold Config_set. cbn [c_K]. destruct (Z.leb_spec (c_K conf) 0); lia.
  - unfold Config_set. cbn [c_RespTimeout]. destruct (Z.eqb_spec (c_RespTimeout conf) 0); [done|lia].
  - split; [apply map_Forall_empty|constructor].
Qed.

(** [C10] A running server cannot be made to panic by what it receives.  Whatever packets arrive, with
    whatever bytes, from IPv4 or IPv6 addresses, and whatever the goroutines do in whatever order, with
    the calls of its users in between that the methods accept ([call_ok]: no zero infohash or target, which
    they answer with a panic, and no node without an address): in every state that a server
    can get to, every action that a goroutine can take goes through, and the tables keep their
    invariant, each node in them with an id of twenty bytes and an address that can be sent on.  The
    server is one whose [RespTimeout] is not negative ([negative_timeout_panics]), and the goroutine that a
    blacklist may have of its own is not among these actions: its turns are any change of the blacklist. *)
Theorem server_survives conf random protocols bl token load4 load6 now acts l outs :
  Hash_wf (c_ID conf) -> Hash_wf random -> random <> zeroHash -> 0 <= c_RespTimeout conf ->
  loaded_ok load4 -> loaded_ok load6 ->
  steps (Server_Run (NewServer (Config_set conf random) protocols bl token load4 load6 now)) acts l outs ->
  Forall action_ok acts ->
  server_inv (l_server l) /\
  forall a, enabled l a = true -> action_ok a -> exists l' outs', act l a = Some (l', outs').
Proof.
  intros Hid Hr Hz Ht H4 H6 Hst Ha.
  assert (Hi : server_inv (l_server l)) by (eapply steps_inv; [|exact Hst|exact Ha]; by apply NewServer_inv).
  split; [done|]. intros a _ Hok. destruct (act_safe l a Hi Hok) as (l' & o & E & _). by exists l', o.
Qed.

End Safety.

(** ** What every turn keeps *)

Section Turns.
Context {BL : Type} `{!Blacklist BL}.
Variable HandleInMessage : UDPAddr -> Message -> bool * Message.
Variable HandleOutMessage : UDPAddr -> Message -> bool * option error * Message.
Variable WriteTo : bytes -> UDPAddr -> nat * option error.
Variable customPeers : option (Hash -> Z -> bool -> list bytes).
Variable iter : gmap bytes peer -> list peer.
Variable LookupIP : bytes -> res (list IP).

#[local] Abbreviation Server := (Server (BL := BL)).
#[local] Abbreviation act := (act HandleInMessage HandleOutMessage WriteTo customPeers iter LookupIP).
#[local] Abbreviation steps := (steps HandleInMessage HandleOutMessage WriteTo customPeers iter LookupIP).

(** A relation that lets the server write all parts of its state, the blacklist by its methods. *)
Class Kept (R : Server -> Server -> Prop) : Prop := {
  kept_preorder :: PreOrder R;
  kept_bl : forall s a now, R s (set_bl s (bl_Add (s_bl s) a now));
  kept_trans : forall s x, R s (set_trans s x);
  kept_tokens : forall s x, R s (set_tokens s x);
  kept_peers : forall s x, R s (set_peers s x);
  kept_rt4 : forall s x, R s (set_rt4 s x);
  kept_rt6 : forall s x, R s (set_rt6 s x);
}.
(** The side conditions of the [keeps_*] lemmas. *)
Ltac kept := try apply _; intros;
  first [apply kept_bl|apply kept_trans|apply kept_tokens|apply kept_peers|apply kept_rt4|apply kept_rt6].

Lemma run_call_kept R `{!Kept R} c now s : keepsR R s (run_call HandleOutMessage WriteTo LookupIP c now).
Proof.
  assert (K : forall A (m : M A) s, keepsR R s m -> keepsR R s (m ;; ret tt)).
  { intros A m s1 H. apply keeps_bind; [apply _|exact H|]. intros a s2. apply keeps_ret, _. }
  destruct c; cbn [run_call].
  - apply K, keeps_AddNode; kept.
  - apply K, keeps_Ping; kept.
  - apply keeps_GetPeers; kept.
  - apply K, keeps_FindNode; kept.
  - apply K, keeps_AnnouncePeer; kept.
  - apply keeps_Bootstrap; kept.
Qed.

Lemma act_kept R `{!Kept R} l a l' outs :
  act l a = Some (l', outs) -> (forall bl, a = BlacklistTurn bl -> R (l_server l) (set_bl (l_server l) bl)) ->
  R (l_server l) (l_server l').
Proof.
  assert (Hon : forall m, keepsR R (l_server l) m -> on_server m l = Some (l', outs) -> R (l_server l) (l_server l')).
  { intros m Hm. unfold on_server. destruct (m (l_server l)) as [[[[] s'] evs]|] eqn:E; [|done].
    intros [= <- _]. exact (Hm _ _ _ E). }
  destruct a; cbn [DhtLife.act]; cbv zeta.
  - intros H _. revert H. apply Hon, keeps_handlePacket; kept.
  - intros [= <- _] _. reflexivity.
  - intros H _. revert H. apply Hon, keeps_table_tick; kept.
  - intros [= <- _] _. reflexivity.
  - intros [= <- _] _. reflexivity.
  - intros [= <- _] _. apply kept_tokens.
  - intros [= <- _] _. apply kept_tokens.
  - intros [= <- _] _. reflexivity.
  - intros [= <- _] _. apply kept_peers.
  - intros [= <- _] _. reflexivity.
  - destruct (_ <=? 0); [done|]. intros [= <- _] _. reflexivity.
  - intros H _. revert H. apply Hon, keeps_transaction_tick; kept.
  - intros [= <- _] _. reflexivity.
  - intros [= <- _] Hbl. by apply Hbl.
  - intros H _. revert H. apply Hon, keeps_trans_add; kept.
  - intros H _. revert H. apply Hon, run_call_kept, _.
  - intros [= <- _] _. reflexivity.
Qed.

(** The configuration does not change. *)
Definition same_conf (s s' : Server) : Prop := s_conf s' = s_conf s.
#[export] Instance same_conf_kept : Kept same_conf.
Proof.
  split; try done. split; [done|]. intros s1 s2 s3 H1 H2. unfold same_conf in *. congruence.
Qed.
(** The families in use do not change, and an address that is in the blacklist stays in it. *)
Definition cut_off (a : Addr) (s s' : Server) : Prop := bl_In (s_bl s) a = true -> bl_In (s_bl s') a = true.
#[export] Instance cut_off_kept a : Kept (cut_off a).
Proof.
  split; [|intros s b now H; by apply bl_Add_mono|by intros s x H..].
  split; [by intros s H|]. intros s1 s2 s3 H1 H2 H. by apply H2, H1.
Qed.

(** [C17] An address in the blacklist is cut off for as long as the blacklist has it: nothing the server does takes
    it out again.  Whatever packets arrive, from whomever, whatever the tickers do and the user calls, as
    long as the blacklist itself does not drop the address in a turn of its own, a packet from it changes
    nothing and is answered with nothing.  The blacklist in memory drops it at a tick more than its interval
    after it was last added ([blacklist_tick_In]). *)
Theorem blacklisted_ignored l acts l' outs raddr data now :
  bl_In (s_bl (l_server l)) (n2kAddr raddr) = true ->
  steps l acts l' outs ->
  Forall (fun a => match a with BlacklistTurn bl => bl_In bl (n2kAddr raddr) = true | _ => True end) acts ->
  act l' (Packet raddr data now) = Some (l', []).
Proof.
  intros Hin Hst Hacts. assert (Hin' : bl_In (s_bl (l_server l')) (n2kAddr raddr) = true).
  { induction Hst as [|acts l1 outs a l2 outs' _ IH _ E]; [done|].
    apply Forall_app in Hacts as [H1 H2]. apply Forall_cons_1 in H2 as [H2 _].
    apply (act_kept (cut_off (n2kAddr raddr)) l1 a l2 outs' E); [|by apply IH]. intros bl ->. by intros _. }
  cbn [DhtLife.act]. unfold on_server, handlePacket. cbv zeta. unfold mbind, M_bind, bind, getS.
  destruct (isDisabled (l_server l') (n2kAddr raddr)); [|rewrite Hin']; by destruct l'.
Qed.

Lemma on_server_threads (m : M (BL := BL) unit) l l' outs :
  on_server m l = Some (l', outs) -> l_threads l' = l_threads l.
Proof. unfold on_server. destruct (m (l_server l)) as [[[[] s'] evs]|]; [|done]. by intros [= <- _]. Qed.

(** [Config.set] replaces a [RespTimeout] of zero only.  With a negative one the goroutine of the transactions
    panics when it starts, whatever the server has done by then. *)
Theorem negative_timeout_panics conf random protocols bl token load4 load6 now acts l outs :
  c_RespTimeout conf < 0 ->
  steps (Server_Run (NewServer (Config_set conf random) protocols bl token load4 load6 now)) acts l outs ->
  enabled l TransStart = true /\ act l TransStart = None.
Proof.
  intros Hneg Hst.
  assert (s_conf (l_server l) = Config_set conf random /\ th_trans (l_threads l) = true /\
          th_ticker (l_threads l) = false) as (Hc & Ht & Hk).
  { induction Hst as [|acts l1 outs a l2 outs' _ (IHc & IHt & IHk) En E]; [done|].
    split; [rewrite <- IHc; by apply (act_kept same_conf) in E|].
    destruct a; cbn [DhtLife.act] in E; cbn [enabled] in En; cbv zeta in E;
      try (apply on_server_threads in E; by rewrite E); try (by injection E as <- _).
    - injection E as <- _. by destruct ipv6.
    - rewrite IHc in E. unfold Config_set in E. cbn [c_RespTimeout] in E.
      destruct (Z.eqb_spec (c_RespTimeout conf) 0); [lia|]. by destruct (Z.leb_spec (c_RespTimeout conf) 0); [|lia].
    - by rewrite IHk, andb_false_r in En. }
  cbn [enabled DhtLife.act]. rewrite Ht, Hk, Hc. split; [done|]. unfold Config_set. cbn [c_RespTimeout].
  destruct (Z.eqb_spec (c_RespTimeout conf) 0); [lia|]. by destruct (Z.leb_spec (c_RespTimeout conf) 0); [|lia].
Qed.
End Turns.

(** ** Witness *)

Definition demo_config : Config := mkConfig 0 (replicate 20 x01) false 0 0 0.
(** A ping of a node with a short id, at 127.0.0.9:6881. *)
Definition demo_ping : bytes := B "d1:ad2:id20:abcdefghij0123456789e1:q4:ping1:t1:x1:y1:qe".
Definition demo_acts : list (action (BL := blacklist)) :=
  [Packet (demo_udp x09) demo_ping (5 * Second); Packet (demo_udp x09) (B "d1:t0:e") (6 * Second);
   TableTick false (Minute * 17); TransStart; TransAdd 0; Call (CallGetPeers (replicate 20 x07) None) (7 * Second);
   Close; TableExit false].

Lemma demo_in_ok u m : Message_typed m -> m_T m <> [] ->
  Message_typed (through_in u m).2 /\ m_T (through_in u m).2 <> [].
Proof. done. Qed.
Lemma demo_out_ok u m : Message_sendable m -> m_T m <> [] -> m_Y m <> [] ->
  let m' := (through_out u m).2 in Message_sendable m' /\ m_T m' <> [] /\ m_Y m' <> [].
Proof. done. Qed.

(** Run the actions of a list, as long as they can be taken. *)
Fixpoint run_acts (l : life (BL := blacklist)) (acts : list (action (BL := blacklist))) : option (life * list output) :=
  match acts with
  | [] => Some (l, [])
  | a :: acts =>
      if enabled l a then
        match act through_in through_out socket None demo_walk (fun _ => Err EOF) l a with
        | Some (l, outs) =>
            match run_acts l acts with Some (l, outs') => Some (l, outs ++ outs') | None => None end
        | None => None
        end
      else None
  end.

Lemma run_acts_steps l0 done outs0 l acts l' outs :
  steps through_in through_out socket None demo_walk (fun _ => Err EOF) l0 done l outs0 ->
  run_acts l acts = Some (l', outs) ->
  steps through_in through_out socket None demo_walk (fun _ => Err EOF) l0 (done ++ acts) l' (outs0 ++ outs).
Proof.
  revert done outs0 l outs. induction acts as [|a acts IH]; intros done outs0 l outs H; cbn [run_acts].
  - intros [= <- <-]. by rewrite !app_nil_r.
  - destruct (enabled l a) eqn:En; [|done]. destruct (act _ _ _ _ _ _ l a) as [[l1 o1]|] eqn:Ea; [|done].
    destruct (run_acts l1 acts) as [[l2 o2]|] eqn:Er; [|done]. intros [= <- <-].
    replace (done ++ a :: acts) with ((done ++ [a]) ++ acts) by (by rewrite <- app_assoc). rewrite app_assoc.
    eapply IH; [|done]. by eapply steps_one.
Qed.

Definition demo_server : Server (BL := blacklist) :=
  NewServer (Config_set demo_config (replicate 20 x02)) [IPv4Protocol] (NewMemoryBlacklist 0) (B "token-01") None None 0.

Definition demo_run : life (BL := blacklist) * list output :=
  default (Server_Run demo_server, []) (run_acts (Server_Run demo_server) demo_acts).

(** The packet is answered, the tick asks the node again, a query follows, and the table is dumped. *)
Lemma demo_steps :
  length demo_run.2 = 4%nat /\
  steps through_in through_out socket None demo_walk (fun _ => Err EOF)
    (Server_Run demo_server) demo_acts demo_run.1 demo_run.2.
Proof.
  assert (E : option_map (fun r => length r.2) (run_acts (Server_Run demo_server) demo_acts) = Some 4%nat)
    by (vm_compute; reflexivity).
  unfold demo_run. destruct (run_acts _ _) as [[l outs]|] eqn:R; [|discriminate E].
  cbn [option_map default] in *. split; [by injection E|].
  eapply (run_acts_steps (Server_Run demo_server) [] []); [apply steps_none|exact R].
Qed.

Lemma server_survives_witness :
  length demo_run.2 = 4%nat /\ server_inv (l_server demo_run.1) /\
  forall a, enabled demo_run.1 a = true -> action_ok (fun _ => Err EOF) a ->
    exists l' outs', act through_in through_out socket None demo_walk (fun _ => Err EOF) demo_run.1 a = Some (l', outs').
Proof.
  split; [apply demo_steps|].
  apply (server_survives through_in through_out socket None demo_walk (fun _ => Err EOF) demo_in_ok demo_out_ok
           demo_config (replicate 20 x02) [IPv4Protocol] (NewMemoryBlacklist 0) (B "token-01") None None 0
           demo_acts demo_run.1 demo_run.2 eq_refl eq_refl ltac:(discriminate) ltac:(discriminate) I I (proj2 demo_steps)).
  repeat constructor; done.
Defined.

(** A node that pinged under two ids is in the blacklist, and stays there at a tick half an hour later. *)
Definition banned_life : life (BL := blacklist) :=
  Server_Run (set_bl demo_server (bl_Add (s_bl demo_server) (n2kAddr (demo_udp x09)) (5 * Second))).
Definition banned_acts : list (action (BL := blacklist)) :=
  [Packet (demo_udp x08) demo_ping (6 * Second); TableTick false (Minute * 17);
   BlacklistTurn (blacklist_tick (s_bl (l_server banned_life)) (Minute * 60) (Minute * 30))].
Definition banned_run : life (BL := blacklist) * list output := default (banned_life, []) (run_acts banned_life banned_acts).

Lemma banned_steps :
  length banned_run.2 = 2%nat /\
  steps through_in through_out socket None demo_walk (fun _ => Err EOF) banned_life banned_acts banned_run.1 banned_run.2.
Proof.
  assert (E : option_map (fun r => length r.2) (run_acts banned_life banned_acts) = Some 2%nat) by (vm_compute; reflexivity).
  unfold banned_run. destruct (run_acts _ _) as [[l outs]|] eqn:R; [|discriminate E].
  cbn [option_map default] in *. split; [by injection E|].
  eapply (run_acts_steps banned_life [] []); [apply steps_none|exact R].
Qed.

(** The packet is not answered; an hour later the address has been dropped, and it would be. *)
Lemma blacklisted_ignored_witness :
  length banned_run.2 = 2%nat /\
  act through_in through_out socket None demo_walk (fun _ => Err EOF) banned_run.1
    (Packet (demo_udp x09) demo_ping (Minute * 31)) = Some (banned_run.1, []) /\
  bl_In (blacklist_tick (s_bl (l_server banned_run.1)) (Minute * 60) (Minute * 90)) (n2kAddr (demo_udp x09)) = false.
Proof.
  split; [apply banned_steps|]. split; [|vm_compute; reflexivity].
  apply (blacklisted_ignored through_in through_out socket None demo_walk (fun _ => Err EOF)
           banned_life banned_acts banned_run.1 banned_run.2 (demo_udp x09) demo_ping (Minute * 31));
    [vm_compute; reflexivity|apply banned_steps|].
  repeat constructor; vm_compute; reflexivity.
Defined.

Lemma negative_timeout_panics_witness :
  let conf := mkConfig 0 (replicate 20 x01) false 0 0 (- Second) in
  let l := Server_Run (NewServer (Config_set conf (replicate 20 x02)) [IPv4Protocol] (NewMemoryBlacklist 0)
             (B "token-01") None None 0) in
  enabled l TransStart = true /\
  act through_in through_out socket None demo_walk (fun _ => Err EOF) l TransStart = None.
Proof.
  apply (negative_timeout_panics through_in through_out socket None demo_walk (fun _ => Err EOF)
    (mkConfig 0 (replicate 20 x01) false 0 0 (- Second)) (replicate 20 x02) [IPv4Protocol] (NewMemoryBlacklist 0)
    (B "token-01") None None 0 [] _ []); [reflexivity|apply steps_none].
Defined.
