(* ===== verification/DhtSearchThms.v ===== *)
(** * How much traffic a search for peers makes

    Every [get_peers] response may name further nodes to ask, and each of them may answer in the same way.
    The depth that a request carries bounds this: [reach N k] is the number of queries that one open request
    can still lead to when responses name at most [N] nodes.  A server's [work] is the sum over its open requests,
    and whatever it does pays for the queries it sends out of it. *)

From S2P Require Import Prelude GoBytes GoNet GoTime Bencode Codec Hash MetaAddr KrpcAddr Krpc KrpcTyped.
From S2P Require Import RoutingTable DhtManagers DhtServer DhtServerThms DhtNetThms DhtLife DhtLifeThms.

(** The nodes [k] rounds of asking can reach: [N + N^2 + ... + N^k]. *)
Fixpoint reach (N k : nat) : nat := match k with O => 0 | S k => N * (1 + reach N k) end.

Lemma reach_pow N k : (1 + reach N k <= (1 + N) ^ k)%nat.
Proof.
  induction k as [|k IH]; cbn [reach Nat.pow]; [lia|].
  pose proof (Nat.mul_le_mono_l _ _ N IH). lia.
Qed.

Definition is_search (e : event) : bool :=
  match e with EvWrite _ m _ => bool_decide (m_Q m = queryMethodGetPeers) | _ => false end.
Definition searches (evs : list event) : nat := length (filter (fun e => is_search e = true) evs).

Lemma searches_app e1 e2 : searches (e1 ++ e2) = (searches e1 + searches e2)%nat.
Proof. unfold searches. by rewrite filter_app, length_app. Qed.

(** ** Sums over maps *)

Section MapSum.
Context `{Countable K} {A : Type} (w : A -> nat).

Definition map_sum (m : gmap K A) : nat := map_fold (fun _ x acc => w x + acc)%nat 0%nat m.

Lemma map_sum_insert m i x : m !! i = None -> map_sum (<[i := x]> m) = (w x + map_sum m)%nat.
Proof. intros Hi. unfold map_sum. rewrite map_fold_insert_L; [done|lia|done]. Qed.
Lemma map_sum_delete m i x : m !! i = Some x -> map_sum m = (w x + map_sum (delete i m))%nat.
Proof. intros Hi. rewrite <- (insert_delete_id m i x Hi) at 1. apply map_sum_insert, lookup_delete_eq. Qed.

Lemma map_sum_subseteq m1 m2 : m1 ⊆ m2 -> (map_sum m1 <= map_sum m2)%nat.
Proof.
  revert m2. induction m1 as [|i x m Hi IH] using map_ind; intros m2 Hs.
  { unfold map_sum. rewrite map_fold_empty. lia. }
  rewrite map_sum_insert by done.
  rewrite (map_sum_delete m2 i x) by (eapply lookup_weaken; [apply lookup_insert_eq|done]).
  enough (map_sum m <= map_sum (delete i m2))%nat by lia.
  apply IH. rewrite <- (delete_insert_id m i x Hi). by apply delete_mono.
Qed.
Lemma map_sum_insert_le m i x : (map_sum (<[i := x]> m) <= w x + map_sum m)%nat.
Proof.
  rewrite <- insert_delete_eq, map_sum_insert by apply lookup_delete_eq.
  pose proof (map_sum_subseteq (delete i m) m (delete_subseteq m i)). lia.
Qed.
End MapSum.

(** ** The nodes a search starts from *)

Lemma length_push_nodes maxnum target l x :
  (length (push_nodes maxnum target l x) <= Nat.max (length l) (Z.to_nat maxnum))%nat.
Proof.
  unfold push_nodes. set (ix := Search _ _). assert (ix <= length l)%nat as Hix by apply Search_le. clearbody ix.
  set (l1 := if _ <? _ then _ else _).
  assert (length l <= length l1 <= Nat.max (length l) (Z.to_nat maxnum))%nat as Hl.
  { subst l1. destruct (Z.ltb_spec (Z.of_nat (length l)) maxnum); rewrite ?length_app; simpl; lia. }
  clearbody l1. destruct (Nat.eqb_spec ix (length l1)); cbn [negb]; [lia|].
  rewrite !length_app, !length_take, length_drop. simpl. lia.
Qed.
Lemma length_Closest rt target maxnum : (length (Closest rt target maxnum) <= Z.to_nat maxnum)%nat.
Proof.
  unfold Closest. match goal with |- context [foldl push _ ?l] => generalize l end. intros l.
  enough (forall ns, length (nd_nodes (foldl push ns l))
            <= Nat.max (length (nd_nodes ns)) (Z.to_nat (nd_maxnum ns)))%nat
    as H by (specialize (H (mkNBD maxnum target [])); simpl in H; lia).
  induction l as [|x l IH]; intros ns; cbn [foldl]; [lia|]. specialize (IH (push ns x)).
  pose proof (length_push_nodes (nd_maxnum ns) (nd_target ns) (nd_nodes ns) x). unfold push in IH. simpl in IH.
  unfold push. lia.
Qed.

(** ** What a handler costs *)

Section Search.
Context {BL : Type} `{!Blacklist BL}.
Variable HandleInMessage : UDPAddr -> Message -> bool * Message.
Variable HandleOutMessage : UDPAddr -> Message -> bool * option error * Message.
Variable WriteTo : bytes -> UDPAddr -> nat * option error.
Variable customPeers : option (Hash -> Z -> bool -> list bytes).
Variable iter : gmap bytes peer -> list peer.
Variable LookupIP : bytes -> res (list IP).

#[local] Abbreviation Server := (Server (BL := BL)).
#[local] Abbreviation M := (M (BL := BL)).

(** The most nodes that a message names. *)
Variable N : nat.

(** The interceptor makes no query for peers of another message. *)
Hypothesis out_ok : forall u m,
  m_Q (HandleOutMessage u m).2 = queryMethodGetPeers -> m_Q m = queryMethodGetPeers.

Definition weight (t : transaction) : nat :=
  match t_OnResponse t with onGetPeersResp => reach N (Z.to_nat (t_Depth t - 1)) | _ => 0 end.
Definition open_work (m : gmap transactionkey transaction) : nat := map_sum weight m.
Definition sent_work (l : list transaction) : nat := foldr (fun t acc => weight t + acc)%nat 0%nat l.
(** Of the requests that are open, and of those that will be. *)
Definition tm_work (tm : transactionManager) : nat := (open_work (tm_trans tm) + sent_work (tm_sent tm))%nat.
Definition work (s : Server) : nat := tm_work (s_trans s).

Lemma open_work_delete m key t :
  m !! key = Some t -> open_work m = (weight t + open_work (delete key m))%nat.
Proof. apply map_sum_delete. Qed.
Lemma open_work_subseteq m1 m2 : m1 ⊆ m2 -> (open_work m1 <= open_work m2)%nat.
Proof. apply map_sum_subseteq. Qed.

Definition costs {A} (b : nat) (m : M A) (s : Server) : Prop :=
  post m s (fun _ s' evs => s_conf s' = s_conf s /\ (searches evs + work s' <= work s + b)%nat).

Lemma costs_post {A} b (m : M A) s (Q : A -> Server -> list event -> Prop) :
  post m s Q -> (forall a s' evs, Q a s' evs -> s_conf s' = s_conf s /\ (searches evs + work s' <= work s + b)%nat) ->
  costs b m s.
Proof. apply post_mono. Qed.
Lemma costs_le {A} b b' (m : M A) s : costs b m s -> (b <= b')%nat -> costs b' m s.
Proof. intros H Hb. eapply costs_post; [exact H|]. cbv beta. intros a s' evs [? ?]. split; [done|lia]. Qed.
Lemma costs_ret {A} (a : A) s : costs 0 (ret a) s.
Proof. apply post_ret. split; [done|]. unfold searches. simpl. lia. Qed.
Lemma costs_emit e s : is_search e = false -> costs 0 (emit e) s.
Proof.
  intros He. apply post_emit. split; [done|].
  unfold searches. rewrite filter_cons_False by (by rewrite He). simpl. lia.
Qed.
Lemma costs_panic {A} s : costs (A := A) 0 panic s.
Proof. apply post_panic. Qed.
Lemma costs_getS {A} b (k : Server -> M A) s : costs b (k s) s -> costs b (getS ≫= k) s.
Proof. intros H. apply post_bind, post_getS. exact H. Qed.
(** The first part may keep the rest from paying for what it has found out. *)
Lemma costs_bind_post {A C} (m : M A) (k : A -> M C) s b (Q : A -> nat -> Prop) :
  post m s (fun a s' evs => exists b1,
    Q a b1 /\ s_conf s' = s_conf s /\ (searches evs + work s' + b1 <= work s + b)%nat) ->
  (forall a b1 s', Q a b1 -> s_conf s' = s_conf s -> costs b1 (k a) s') -> costs b (m ≫= k) s.
Proof.
  intros Hm Hk. apply post_bind. eapply post_mono; [exact Hm|]. cbv beta. intros a s1 e1 (b1 & HQ & Hc & H1).
  eapply post_mono; [by apply (Hk a b1)|]. cbv beta. intros c s2 e2 [Hc2 H2].
  split; [congruence|]. rewrite searches_app. lia.
Qed.
Lemma costs_bind {A C} b1 b2 (m : M A) (k : A -> M C) s :
  costs b1 m s -> (forall a s', s_conf s' = s_conf s -> costs b2 (k a) s') -> costs (b1 + b2) (m ≫= k) s.
Proof.
  intros Hm Hk. apply (costs_bind_post _ _ _ _ (fun _ b => b = b2)); [|intros a ? s' ->; apply Hk].
  eapply post_mono; [exact Hm|]. cbv beta. intros a s' evs [? ?]. exists b2. split; [done|]. split; [done|lia].
Qed.
(** A first part that is free. *)
Lemma costs_then {A C} b (m : M A) (k : A -> M C) s :
  costs 0 m s -> (forall a s', s_conf s' = s_conf s -> costs b (k a) s') -> costs b (m ≫= k) s.
Proof. apply (costs_bind 0). Qed.
(** A first part that only looks. *)
Lemma costs_pure_bind {A C} b (m : M A) (k : A -> M C) s :
  (forall a s' e, m s = Some (a, s', e) -> s' = s /\ e = []) -> (forall a, costs b (k a) s) -> costs b (m ≫= k) s.
Proof. intros Hm Hk. apply post_bind. intros a s' e [-> ->]%Hm. apply Hk. Qed.
Lemma costs_putS s1 s :
  s_conf s1 = s_conf s -> (work s1 <= work s)%nat -> costs 0 (putS s1) s.
Proof. intros Hc Hw. apply post_putS. split; [done|]. unfold searches. simpl. lia. Qed.
Lemma costs_eachM {A} b (l : list A) (f : A -> M unit) s :
  (forall x s', s_conf s' = s_conf s -> costs b (f x) s') -> costs (length l * b) (eachM l f) s.
Proof.
  revert s. induction l as [|x l IH]; intros s H; simpl; [apply costs_ret|].
  apply costs_bind; [by apply H|]. intros _ s1 E1. apply IH. intros y s2 E2. apply H. congruence.
Qed.
Lemma costs_eachM_free {A} (l : list A) (f : A -> M unit) s :
  (forall x s', s_conf s' = s_conf s -> costs 0 (f x) s') -> costs 0 (eachM l f) s.
Proof. intros H. eapply costs_le; [by apply (costs_eachM 0)|lia]. Qed.

(** ** Parts that cost nothing *)

Ltac free :=
  repeat match goal with
  | |- forall _, _ => intro
  | |- costs 0 (ret _) _ => apply costs_ret
  | |- costs 0 (emit _) _ => apply costs_emit
  | |- costs 0 panic _ => apply costs_panic
  | |- costs 0 (putS _) _ => apply costs_putS
  | |- costs 0 (getS ≫= _) _ => apply costs_getS
  | |- costs 0 (_ ≫= _) _ => apply costs_then
  | |- costs 0 (eachM _ _) _ => apply costs_eachM_free
  | |- costs 0 (if ?b then _ else _) _ => destruct b eqn:?
  | |- costs 0 (match ?x with _ => _ end) _ => destruct x eqn:?
  | |- costs 0 (let '_ := ?x in _) _ => destruct x eqn:?
  | |- costs 0 (whenM _ _) _ => unfold whenM
  end; try apply Nat.le_refl; try done; eauto.

Lemma same_free (s s' : Server) : same_but_tables s s' -> s_conf s' = s_conf s /\ work s' = work s.
Proof. intros (H & _ & _ & _ & _ & _ & E). unfold work. by rewrite E. Qed.
Lemma AddNode_free n now s : costs 0 (AddNode n now) s.
Proof.
  eapply costs_post; [apply AddNode_post|]. cbv beta. intros st s' e (-> & [Hc Hw]%same_free & _).
  split; [done|]. rewrite Hw. unfold searches. simpl. lia.
Qed.
Lemma addNode_free a id ro now s : costs 0 (addNode a id ro now) s.
Proof. unfold addNode. pose proof AddNode_free. free. Qed.
Lemma addNode2_free n ro now s : costs 0 (addNode2 n ro now) s.
Proof. unfold addNode2. pose proof AddNode_free. free. Qed.
Lemma Done_free t r s : costs 0 (Done t r) s.
Proof. unfold Done. free. Qed.

(** ** Sending and asking *)

Definition asks (q : bytes) : nat := if bool_decide (q = queryMethodGetPeers) then 1 else 0.

Lemma send_costs a m now s : costs (asks (m_Q m)) (send HandleOutMessage WriteTo a m now) s.
Proof.
  unfold send. apply costs_getS. cbv zeta.
  match goal with
  | |- context [HandleOutMessage ?u ?m1] => pose proof (out_ok u m1) as Ho; set (x := HandleOutMessage u m1) in *
  end.
  cbn [m_Q] in Ho. assert (forall A (r : A) s, costs (asks (m_Q m)) (ret r) s) as Hr.
  { intros. eapply costs_le; [apply costs_ret|lia]. }
  clearbody x. destruct x as [[[] [e|]] m2]; try apply Hr. cbn [snd] in Ho. unfold _send.
  destruct (_ || _); [eapply costs_le; [apply costs_panic|lia]|].
  destruct (encodeMessage m2) as [data| |]; [|eapply costs_le; [apply costs_panic|lia]..].
  destruct (WriteTo _ _) as [n [e|]].
  - eapply costs_le; [|apply Nat.le_0_l]. free.
  - apply (costs_bind_post _ _ _ _ (fun _ b => b = 0%nat)); [|intros a0 b1 s' -> _; apply costs_ret].
    apply post_emit. exists 0%nat. split; [done|]. split; [done|].
    unfold searches, asks. rewrite filter_cons, filter_nil.
    cbn [is_search]. do 2 case_bool_decide; repeat case_decide; simpl; try done; try lia. by destruct Ho.
Qed.
Lemma send_free a m now s : m_Q m <> queryMethodGetPeers -> costs 0 (send HandleOutMessage WriteTo a m now) s.
Proof. intros H. eapply costs_le; [apply send_costs|]. unfold asks. by rewrite bool_decide_eq_false_2. Qed.
Lemma reply_free a tid r now s : costs 0 (reply HandleOutMessage WriteTo a tid r now) s.
Proof. unfold reply. free. by apply send_free. Qed.

Lemma sent_work_app l1 l2 : sent_work (l1 ++ l2) = (sent_work l1 + sent_work l2)%nat.
Proof. induction l1 as [|t l1 IH]; [done|]. cbn [app sent_work foldr]. unfold sent_work in *. lia. Qed.
Lemma work_sentTransaction (s : Server) t :
  work (set_trans s (sentTransaction (s_trans s) t)) = (weight t + work s)%nat.
Proof. unfold work, tm_work. cbn. rewrite sent_work_app. cbn. lia. Qed.
(** To add a transaction is to move its weight; one that was open under the same key is lost. *)
Lemma work_addSent tm i : (tm_work (addSent tm i) <= tm_work tm)%nat.
Proof.
  unfold addSent. destruct (tm_sent tm !! i) as [t|] eqn:E; [|lia]. unfold tm_work. cbn [AddTransaction tm_trans tm_sent].
  pose proof (map_sum_insert_le weight (tm_trans tm) (trans_key t) t) as H. unfold open_work.
  pose proof (take_drop_middle _ _ _ E) as Em. rewrite <- Em at 2. rewrite delete_take_drop, !sent_work_app.
  cbn [sent_work foldr]. unfold sent_work in *. lia.
Qed.

Lemma request_costs t now s :
  costs (asks (t_Query t) + weight t) (request HandleOutMessage WriteTo t now) s.
Proof.
  unfold request. apply costs_getS. destruct (isDisabled _ _); [eapply costs_le; [apply costs_ret|lia]|].
  apply costs_then; [cbn [GetTransactionID]; free|]. intros id s1 E1.
  apply costs_bind; [apply (send_costs _ (NewQueryMsg _ _ _))|].
  intros [w [e|]] s2 E2; cbn [snd]; [eapply costs_le; [apply costs_ret|lia]|].
  apply costs_getS. apply (costs_bind_post _ _ _ _ (fun _ b => b = 0%nat)); [|intros ? ? ? -> _; apply costs_ret].
  apply post_putS. exists 0%nat. split; [done|]. split; [done|]. unfold searches. cbn [length filter].
  match goal with
  | |- context [sentTransaction _ ?t2] =>
      pose proof (work_sentTransaction s2 t2) as H; change (weight t2) with (weight t) in H
  end.
  simpl in *. lia.
Qed.
Lemma request_free t now s :
  t_Query t <> queryMethodGetPeers -> t_OnResponse t <> onGetPeersResp ->
  costs 0 (request HandleOutMessage WriteTo t now) s.
Proof.
  intros Hq Ho. eapply costs_le; [apply request_costs|]. unfold asks, weight.
  rewrite bool_decide_eq_false_2 by done. by destruct (t_OnResponse t).
Qed.

(** ** Responses *)

Lemma getPeers_costs info a depth ids cb now s :
  costs (1 + reach N (Z.to_nat (depth - 1))) (getPeers HandleOutMessage WriteTo info a depth ids cb now) s.
Proof.
  unfold getPeers. apply costs_getS. eapply costs_le; [|apply Nat.eq_le_incl, Nat.add_0_r].
  apply costs_bind; [|free]. eapply costs_le; [apply request_costs|]. by apply Nat.eq_le_incl.
Qed.
Lemma findNode_free target a depth ids now s :
  costs 0 (findNode HandleOutMessage WriteTo target a depth ids now) s.
Proof. unfold findNode. apply costs_getS. by apply request_free. Qed.
Lemma Ping_free a cb now s : costs 0 (Ping HandleOutMessage WriteTo a cb now) s.
Proof. by apply request_free. Qed.

(** The new nodes are among those that the response names. *)
Lemma collect_costs target ro now l found nodes ids s :
  post (collect target ro now l found nodes ids) s (fun x s' evs =>
    (length x.1.2 <= length nodes + length l)%nat /\
    s_conf s' = s_conf s /\ (searches evs + work s' <= work s)%nat).
Proof.
  revert found nodes ids s. induction l as [|n l IH]; intros found nodes ids s; cbn [collect]; cbv zeta.
  { apply post_ret. split; [simpl; lia|]. split; [done|]. unfold searches. simpl. lia. }
  destruct (Hashes_Contains _ _).
  { eapply post_mono; [apply IH|]. cbv beta. intros x s' evs (H & ? & ?). split; [simpl in *; lia|done]. }
  apply post_bind. eapply post_mono; [apply addNode2_free|]. cbv beta. intros st s1 e1 [E1 H1].
  case_bool_decide; (eapply post_mono; [apply IH|]); cbv beta; intros x s' evs (H2 & ? & ?);
    (split; [rewrite ?length_app in H2; simpl in *; lia|]); (split; [congruence|]); rewrite searches_app; lia.
Qed.

Definition named (m : Message) : nat := length (rr_Nodes (m_R m) ++ rr_Nodes6 (m_R m)).

(** A response pays for the requests it makes with the request it answers. *)
Lemma get_peers_costs t a m now s :
  (named m <= N)%nat -> t_OnResponse t = onGetPeersResp ->
  costs (weight t) (handle_onGetPeersResp HandleOutMessage WriteTo t a m now) s.
Proof.
  intros Hn Ht. unfold weight. rewrite Ht. clear Ht. unfold handle_onGetPeersResp.
  apply costs_then; [free|]. intros _ s1 E1. destruct (negb _).
  { eapply costs_le; [|apply Nat.le_0_l]. pose proof Done_free. free. }
  apply costs_then; [apply Done_free|]. intros _ s2 E2. cbv zeta.
  destruct (Z.ltb_spec (t_Depth t - 1) 1); [eapply costs_le; [apply costs_ret|lia]|].
  replace (Z.to_nat (t_Depth t - 1)) with (S (Z.to_nat (t_Depth t - 1 - 1))) by lia. cbn [reach].
  set (c := (1 + reach N _)%nat).
  apply (costs_bind_post _ _ _ _ (fun x b => b = (N * c)%nat /\ (length x.1.2 <= N)%nat)).
  - eapply post_mono; [apply collect_costs|]. cbv beta. intros x s3 e3 (H1 & H2 & H3). exists (N * c)%nat.
    split; [split; [done|]|split; [done|lia]]. unfold named in Hn. simpl in H1. lia.
  - intros [[found nodes] ids] b1 s3 [-> Hl] E3. cbn [fst snd] in Hl.
    destruct (_ || _); [eapply costs_le; [apply costs_ret|lia]|].
    eapply costs_le; [apply (costs_eachM c)|by apply Nat.mul_le_mono_r]. intros n s4 E4. apply getPeers_costs.
Qed.
Lemma OnResponse_costs t a m now s :
  (named m <= N)%nat -> costs (weight t) (OnResponse HandleOutMessage WriteTo t a m now) s.
Proof.
  intros Hn. unfold OnResponse. destruct (t_OnResponse t) eqn:Ht; [..|by apply get_peers_costs|].
  - eapply costs_le; [apply costs_ret|lia].
  - eapply costs_le; [apply Done_free|lia].
  - eapply costs_le; [|apply Nat.le_0_l]. unfold handle_onFindNodeResp.
    apply costs_then; [apply Done_free|]. intros _ s1 E1. cbv zeta. destruct (_ <? 1); [apply costs_ret|].
    apply (costs_bind_post _ _ _ _ (fun _ b => b = 0%nat)).
    + eapply post_mono; [apply collect_costs|]. cbv beta. intros x s3 e3 (_ & H2 & H3). exists 0%nat. split; [done|].
      split; [done|lia].
    + pose proof findNode_free. intros [[found nodes] ids] ? s2 -> E2. free.
Qed.

Lemma popTransaction_pays tid a s :
  post (popTransaction tid a) s (fun t s' evs =>
    exists b, b = match t with Some t => weight t | None => 0%nat end /\
    s_conf s' = s_conf s /\ (searches evs + work s' + b <= work s + 0)%nat).
Proof.
  unfold popTransaction. apply post_bind, post_getS. unfold PopTransaction.
  destruct (tm_trans (s_trans s) !! _) as [t|] eqn:E; apply post_bind, post_putS, post_ret; eexists; (split; [done|]);
    (split; [done|]); unfold searches, work; simpl.
  - apply open_work_delete in E. unfold tm_work, transactionkey in *. simpl. lia.
  - lia.
Qed.

(** ** Packets, ticks and calls *)

Lemma handleQuery_free a m now s :
  costs 0 (handleQuery HandleOutMessage WriteTo customPeers iter a m now) s.
Proof.
  pose proof reply_free. unfold handleQuery, sendError. apply costs_getS.
  destruct (bool_decide _); [free|]. destruct (bool_decide _); [free|]. destruct (bool_decide _).
  - apply costs_pure_bind; [intros v s' e; apply getPeers_values_pure|free].
  - free. by apply send_free.
Qed.

Lemma handleMessage_free a m now s :
  (forall u, named (HandleInMessage u m).2 <= N)%nat ->
  costs 0 (handleMessage HandleInMessage HandleOutMessage WriteTo customPeers iter a m now) s.
Proof.
  intros Hn. specialize (Hn (k2nAddr a)). unfold handleMessage. destruct (HandleInMessage _ m) as [handled m'].
  cbn [snd] in Hn. pose proof handleQuery_free. pose proof addNode_free.
  assert (Hpop : forall s1 : Server, s_conf s1 = s_conf s -> forall k,
    (forall t s2, costs (weight t) (k (Some t)) s2) -> (forall s2, costs 0 (k None) s2) ->
    costs (A := unit) 0 (popTransaction (m_T m') a ≫= k) s1).
  { intros s1 _ k Hs Hz. eapply costs_bind_post; [apply popTransaction_pays|]. cbv beta.
    intros [t|] b s2 -> _; [apply Hs|apply Hz]. }
  destruct handled; [free|]. destruct (bool_decide _); [free|]. destruct (bool_decide _).
  - destruct (Hash_IsZero _); [free|]. apply costs_then; [free|]. intros st s1 E1. destruct (bool_decide _); [free|].
    apply Hpop; [done| |free]. intros t s2. by apply OnResponse_costs.
  - destruct (bool_decide _); [|free]. apply Hpop; [done| |free]. intros t s2.
    eapply costs_le; [apply Done_free|lia].
Qed.

Lemma table_tick_free ipv6 now s : costs 0 (table_tick HandleOutMessage WriteTo ipv6 now) s.
Proof.
  unfold table_tick. apply costs_getS. destruct (checkAllBuckets _ now) as [rt pings].
  pose proof Ping_free. apply costs_then; [apply costs_putS; by destruct ipv6|]. free.
Qed.
Lemma transaction_tick_free now s : costs 0 (transaction_tick now) s.
Proof.
  unfold transaction_tick. apply costs_getS. unfold transactions_tick. cbv zeta.
  apply costs_then; [apply costs_putS; [done|]; apply Nat.add_le_mono_r, open_work_subseteq, map_filter_subseteq|].
  intros _ s1 E1. apply costs_eachM_free. intros t s2 E2. apply Done_free.
Qed.

Lemma trans_add_free i s : costs 0 (trans_add i) s.
Proof. unfold trans_add. free. apply work_addSent. Qed.

(** The price of one search: what it asks first, and all that this leads to. *)
Definition search_cost (conf : Config) : nat :=
  2 * Z.to_nat (c_K conf) * (1 + reach N (Z.to_nat (c_SearchDepth conf - 1))).

Lemma length_closestOf (s : Server) ih : (length (closestOf s ih) <= 2 * Z.to_nat (c_K (s_conf s)))%nat.
Proof.
  unfold closestOf. rewrite length_app. pose proof (length_Closest (s_rt4 s) ih (c_K (s_conf s))).
  pose proof (length_Closest (s_rt6 s) ih (c_K (s_conf s))). destruct (s_ipv4 s), (s_ipv6 s); simpl in *; lia.
Qed.
Lemma GetPeers_costs ih cb now s :
  costs (search_cost (s_conf s)) (GetPeers HandleOutMessage WriteTo ih cb now) s.
Proof.
  unfold GetPeers. destruct (Hash_IsZero ih); [eapply costs_le; [apply costs_panic|lia]|].
  apply costs_getS. cbv zeta. destruct (_ =? _)%nat; [eapply costs_le; [|apply Nat.le_0_l]; free|].
  eapply costs_le; [|unfold search_cost; apply Nat.mul_le_mono_r, length_closestOf].
  apply costs_eachM. intros n s1 E1. apply getPeers_costs.
Qed.

Lemma announce_free ih port implied now l s :
  costs 0 (announce_loop HandleOutMessage WriteTo ih port implied now l) s.
Proof.
  revert s. induction l as [|n l IH]; intros s; cbn [announce_loop]; [free|]. apply costs_getS. cbv zeta.
  destruct (bool_decide _); [apply IH|]. apply costs_then; [by apply request_free|]. free.
Qed.
Lemma FindNode_free a target now s : costs 0 (FindNode HandleOutMessage WriteTo a target now) s.
Proof. unfold FindNode. pose proof findNode_free. free. Qed.
Lemma Bootstrap_free addrs now s :
  costs 0 (Bootstrap HandleOutMessage WriteTo LookupIP addrs now) s.
Proof. unfold Bootstrap, bootstrap_addr. pose proof FindNode_free. free. Qed.

(** What a call costs: only [GetPeers] starts a search. *)
Definition call_cost (conf : Config) (c : call) : nat :=
  match c with CallGetPeers _ _ => search_cost conf | _ => 0 end.
Lemma run_call_costs c now s :
  costs (call_cost (s_conf s) c) (run_call HandleOutMessage WriteTo LookupIP c now) s.
Proof.
  destruct c; cbn [run_call call_cost].
  - pose proof AddNode_free. free.
  - pose proof Ping_free. free.
  - apply GetPeers_costs.
  - pose proof FindNode_free. free.
  - unfold AnnouncePeer. pose proof announce_free. free.
  - apply Bootstrap_free.
Qed.

(** ** The life of a server *)

(** A packet of the size that [Run] reads names at most [N] nodes, also when the interceptor has seen it. *)
Variable L : nat.
Hypothesis few : forall u data m,
  (length data <= L)%nat -> decodeMessage data = Ok m -> (named (HandleInMessage u m).2 <= N)%nat.

Lemma handlePacket_free raddr data now s :
  (length data <= L)%nat ->
  costs 0 (handlePacket HandleInMessage HandleOutMessage WriteTo customPeers iter raddr data now) s.
Proof.
  intros Hd. unfold handlePacket. cbv zeta. apply costs_getS. destruct (isDisabled _ _); [free|].
  destruct (bl_In _ _); [free|]. destruct (decodeMessage data) as [m|e|] eqn:E; [|free..].
  destruct (bool_decide _); [free|]. apply handleMessage_free. intros u. by eapply few.
Qed.

Definition seen (outs : list output) : list event :=
  omap (fun o => match o with Seen e => Some e | Dumped _ _ => None end) outs.
Lemma seen_app o1 o2 : seen (o1 ++ o2) = seen o1 ++ seen o2.
Proof. apply omap_app. Qed.
Lemma seen_map evs : seen (map Seen evs) = evs.
Proof. unfold seen. induction evs as [|e evs IH]; simpl; [done|]. by f_equal. Qed.
Lemma searches_dump (l : life (BL := BL)) ipv6 : searches (seen (dump l ipv6)) = 0%nat.
Proof. unfold dump. by destruct (rt_dump _). Qed.

#[local] Abbreviation act :=
  (act HandleInMessage HandleOutMessage WriteTo customPeers iter LookupIP).
#[local] Abbreviation steps :=
  (steps HandleInMessage HandleOutMessage WriteTo customPeers iter LookupIP).

Definition action_cost (conf : Config) (a : action (BL := BL)) : nat :=
  match a with Call c _ => call_cost conf c | _ => 0 end.

(** What [act] may do to a life whose configuration is [conf]. *)
Definition pays (conf : Config) (b : nat) (l l' : life (BL := BL)) (outs : list output) : Prop :=
  s_conf (l_server l') = conf /\ (searches (seen outs) + work (l_server l') <= work (l_server l) + b)%nat.

Lemma on_server_pays b (m : M unit) l l' outs :
  costs b m (l_server l) -> on_server m l = Some (l', outs) -> pays (s_conf (l_server l)) b l l' outs.
Proof.
  unfold on_server. intros H. destruct (m (l_server l)) as [[[[] s'] evs]|] eqn:E; [|done]. intros [= <- <-].
  destruct (H _ _ _ E) as [H1 H2]. unfold pays. rewrite seen_map. done.
Qed.

Lemma act_pays l a l' outs :
  Z.to_nat (c_MsgSize (s_conf (l_server l))) = L -> act l a = Some (l', outs) ->
  pays (s_conf (l_server l)) (action_cost (s_conf (l_server l)) a) l l' outs.
Proof.
  intros HL. destruct a; cbn [DhtLife.act action_cost]; cbv zeta;
    try (intros [= <- <-]; (split; [done|]); rewrite ?searches_dump; unfold searches, work; simpl; lia).
  - apply on_server_pays, handlePacket_free. rewrite length_take. lia.
  - apply on_server_pays, table_tick_free.
  - destruct (_ <=? 0); [done|]. intros [= <- <-]. split; [done|]. unfold searches. simpl. lia.
  - apply on_server_pays, transaction_tick_free.
  - apply on_server_pays, trans_add_free.
  - apply on_server_pays, run_call_costs.
Qed.

(** How often [GetPeers] was called. *)
Definition is_GetPeers (a : action (BL := BL)) : bool :=
  match a with Call (CallGetPeers _ _) _ => true | _ => false end.
Definition calls (acts : list action) : nat := length (filter (fun a => is_GetPeers a = true) acts).

Lemma calls_snoc acts a conf :
  (calls acts * search_cost conf + action_cost conf a = calls (acts ++ [a]) * search_cost conf)%nat.
Proof.
  unfold calls. rewrite filter_app, length_app, filter_cons, filter_nil.
  destruct a as [| | | | | | | | | | | | | | |[] now|]; simpl; lia.
Qed.

Lemma steps_pay s0 acts l outs :
  Z.to_nat (c_MsgSize (s_conf s0)) = L -> steps (Server_Run s0) acts l outs ->
  s_conf (l_server l) = s_conf s0 /\
  (searches (seen outs) + work (l_server l) <= work s0 + calls acts * search_cost (s_conf s0))%nat.
Proof.
  intros HL. induction 1 as [|acts l1 outs a l2 outs' _ [IHc IH] _ E]; [split; [done|]; unfold searches; simpl; lia|].
  apply act_pays in E as [Ec E]; [|by rewrite IHc]. rewrite IHc in Ec, E. split; [done|].
  rewrite seen_app, searches_app, <- calls_snoc. lia.
Qed.
End Search.

(** The nodes that a packet has room for, in "nodes" and in "nodes6". *)
Definition packet_nodes (conf : Config) : nat :=
  Z.to_nat (c_MsgSize conf) / 26 + Z.to_nat (c_MsgSize conf) / 38.

Lemma decoded_few L data m :
  (length data <= L)%nat -> decodeMessage data = Ok m -> (named m <= L / 26 + L / 38)%nat.
Proof.
  intros Hd E. destruct (decoded_small L data m Hd E) as [H4 H6]. unfold named. rewrite length_app.
  apply (Nat.div_le_lower_bound L 26) in H4; [|done]. apply (Nat.div_le_lower_bound L 38) in H6; [|done]. lia.
Qed.

(** [C11] A search for peers ends, and it cannot be used to make the server send without bound.  Whatever packets
    come in, from whomever and in whatever order, and whatever the tickers and the user do in between: the
    [get_peers] queries that a server has sent, and those that its open requests can still lead to, are no
    more than [2 K (1 + N + ... + N^(SearchDepth-1))] for every call of [GetPeers], where [N] is the number of
    nodes that a packet of [MsgSize] bytes has room for.  Nothing but [GetPeers] makes the server ask. *)
Theorem searches_bounded {BL} `{!Blacklist BL} HandleInMessage HandleOutMessage WriteTo customPeers iter LookupIP
    conf protocols (bl : BL) token load4 load6 now acts l outs :
  (forall u m, m_Q (HandleOutMessage u m).2 = queryMethodGetPeers -> m_Q m = queryMethodGetPeers) ->
  (forall u m, named (HandleInMessage u m).2 <= named m)%nat ->
  steps HandleInMessage HandleOutMessage WriteTo customPeers iter LookupIP
    (Server_Run (NewServer conf protocols bl token load4 load6 now)) acts l outs ->
  (searches (seen outs) + work (packet_nodes conf) (l_server l)
   <= calls acts * search_cost (packet_nodes conf) conf)%nat.
Proof.
  intros Hout Hin Hst.
  destruct (steps_pay HandleInMessage HandleOutMessage WriteTo customPeers iter LookupIP (packet_nodes conf) Hout
              (Z.to_nat (c_MsgSize conf))
              (fun u data m Hd E => Nat.le_trans _ _ _ (Hin u m) (decoded_few _ data m Hd E))
              (NewServer conf protocols bl token load4 load6 now) acts l outs eq_refl Hst) as [_ H].
  exact H.
Qed.

(** ** Witness *)

(** Packets of 120 bytes, and a search of depth 2. *)
Definition search_config : Config := Config_set (mkConfig 0 (replicate 20 x01) false 120 2 0) (replicate 20 x02).
Definition search_server : Server (BL := blacklist) :=
  NewServer search_config [IPv4Protocol] (NewMemoryBlacklist 0) (B "token-01") None None 0.
(** The node that has pinged is asked, and names another one. *)
Definition search_acts : list (action (BL := blacklist)) :=
  [Packet (demo_udp x09) demo_ping (5 * Second); Call (CallGetPeers (replicate 20 x07) None) (6 * Second);
   TransAdd 0; Packet (demo_udp x09)
     (B "d1:rd2:id20:abcdefghij01234567895:nodes26:mnopqrstuvwxyz123456abcdefe1:t1:11:y1:re") (7 * Second)].
Definition search_run : life (BL := blacklist) * list output :=
  default (Server_Run search_server, []) (run_acts (Server_Run search_server) search_acts).

Lemma search_steps :
  steps through_in through_out socket None demo_walk (fun _ => Err EOF)
    (Server_Run search_server) search_acts search_run.1 search_run.2.
Proof.
  assert (E : option_map (fun _ => tt) (run_acts (Server_Run search_server) search_acts) = Some tt)
    by (vm_compute; reflexivity).
  unfold search_run. destruct (run_acts _ _) as [[l outs]|] eqn:R; [|discriminate E].
  eapply (run_acts_steps (Server_Run search_server) [] []); [apply steps_none|exact R].
Qed.

Lemma searches_bounded_witness :
  searches (seen search_run.2) = 2%nat /\ search_cost (packet_nodes search_config) search_config = 128%nat /\
  (searches (seen search_run.2) + work (packet_nodes search_config) (l_server search_run.1)
   <= calls search_acts * search_cost (packet_nodes search_config) search_config)%nat.
Proof.
  split; [vm_compute; reflexivity|]. split; [vm_compute; reflexivity|].
  apply (searches_bounded through_in through_out socket None demo_walk (fun _ => Err EOF)
           search_config [IPv4Protocol] (NewMemoryBlacklist 0) (B "token-01") None None 0
           search_acts search_run.1 search_run.2); [done|done|exact search_steps].
Defined.
