(* ===== verification/TableStore.v ===== *)
(** * The storage of the routing tables

    dht/routing_table_storage.go: the interface through which a routing table is saved when the server
    stops and loaded when it starts, its no-op implementation, and what a table is after a restart. *)

From S2P Require Import Prelude GoBytes GoNet GoTime Bencode Codec Hash MetaAddr KrpcAddr Krpc.
From S2P Require Import RoutingTable RoutingTableThms DhtManagers DhtServer DhtNetThms DhtLife.

(** ** The interface *)

Record RoutingTableStorage (St : Type) : Type := mkStorage {
  Load : St -> Hash -> bool -> list RoutingTableNode + error;
  Dump : St -> Hash -> list RoutingTableNode -> bool -> St * option error;
}.
Arguments Load {St} _ _ _ _.
Arguments Dump {St} _ _ _ _ _.

(** What the interface is for: a table that was dumped can be loaded, and the dumps of the two
    families and of different owners do not touch each other. *)
Class Keeps {St} (S : RoutingTableStorage St) : Prop := {
  Load_Dump st id nodes v6 : Load S (Dump S st id nodes v6).1 id v6 = inl nodes;
  Load_Dump_ne st id nodes v6 id' v6' : (id, v6) <> (id', v6') ->
    Load S (Dump S st id nodes v6).1 id' v6' = Load S st id' v6';
}.

(** [noopStorage] *)
Definition NewNoopRoutingTableStorage : RoutingTableStorage unit :=
  mkStorage unit (fun _ _ _ => inl []) (fun st _ _ _ => (st, None)).

(** A storage in memory, which keeps its promise. *)
Definition memoryStorage : RoutingTableStorage (gmap (bytes * bool) (list RoutingTableNode)) :=
  mkStorage _ (fun st id v6 => inl (default [] (st !! (id, v6))))
    (fun st id nodes v6 => (<[(id, v6) := nodes]> st, None)).
#[export] Instance memoryStorage_keeps : Keeps memoryStorage.
Proof.
  split; intros; simpl; [by rewrite lookup_insert_eq|by rewrite lookup_insert_ne].
Qed.

(** The storage after what a server has put out, and a table made from it. *)
Definition stored {St} (S : RoutingTableStorage St) (id : Hash) (st : St) (outs : list output) : St :=
  foldl (fun st o => match o with Dumped v6 nodes => (Dump S st id nodes v6).1 | Seen _ => st end) st outs.
Definition loaded {St} (S : RoutingTableStorage St) (id : Hash) (st : St) (v6 : bool)
    : option (list RoutingTableNode) :=
  match Load S st id v6 with inl nodes => Some nodes | inr _ => None end.

Lemma stored_app {St} (S : RoutingTableStorage St) id st outs1 outs2 :
  stored S id st (outs1 ++ outs2) = stored S id (stored S id st outs1) outs2.
Proof. apply foldl_app. Qed.

(** ** Loading bucket by bucket *)

Definition rtn_of (w : wrappedNode) : RoutingTableNode := mkRTNode (wn_Node w) (wn_LastChanged w).
Definition rtn_id (x : RoutingTableNode) : Hash := n_ID (rtn_Node x).
Definition fresh (now : Z) (x : RoutingTableNode) : bool := time_Sub now (rtn_LastChanged x) <? dubiousTimeout.
(** What is in bucket [i]. *)
Definition view (rt : routingTable) (i : nat) : list RoutingTableNode :=
  map (fun p => rtn_of (deref rt p)) (b_Nodes (get_bkt rt i)).
Definition in_bkt (root : Hash) (i : nat) (x : RoutingTableNode) : bool :=
  bucketid root (rtn_id x) =? Z.of_nat i.

(** No more nodes in a bucket than [K], and none of them twice. *)
Definition bucket_sound (k : Z) (nodes : list RoutingTableNode) : Prop :=
  NoDup (map rtn_id nodes) /\ Z.of_nat (length nodes) <= k.

Lemma dump_views rt : length (rt_bkts rt) = bktlen -> rt_dump rt = concat (map (view rt) (seq 0 bktlen)).
Proof.
  intros Hl. unfold rt_dump, rt_ptrs. rewrite <- Hl, concat_map, map_map. f_equal.
  apply list_eq. intros i. rewrite !list_lookup_fmap.
  destruct (rt_bkts rt !! i) as [b|] eqn:E; simpl.
  - rewrite lookup_seq_lt by (by eapply lookup_lt_Some). simpl. unfold view, get_bkt. simpl. by rewrite E.
  - by rewrite lookup_seq_ge by (by apply lookup_ge_None).
Qed.

Lemma view_with_new rt i n now j :
  rt_inv rt -> (i < bktlen)%nat ->
  view (with_new rt i n now (b_Nodes (get_bkt rt i))) j
  = view rt j ++ if decide (j = i) then [mkRTNode n now] else [].
Proof.
  intros Hinv Hi. assert (Hl : length (rt_bkts rt) = bktlen) by apply Hinv.
  assert (Hold : forall k, map (fun p => rtn_of (deref (with_new rt i n now (b_Nodes (get_bkt rt i))) p))
                             (b_Nodes (get_bkt rt k)) = view rt k).
  { intros k. apply map_ext_Forall. eapply Forall_impl; [apply (get_bkt_ok rt k Hinv)|].
    intros p (w & E & _). unfold deref. simpl. by rewrite lookup_app_l, E by (by eapply lookup_lt_Some). }
  assert (Hb : b_Nodes (get_bkt (with_new rt i n now (b_Nodes (get_bkt rt i))) j)
    = b_Nodes (get_bkt rt j) ++ if decide (j = i) then [length (rt_heap rt)] else []).
  { unfold get_bkt. simpl. case_decide as D; [subst j; by rewrite list_lookup_insert_eq by lia|].
    by rewrite list_lookup_insert_ne, app_nil_r by done. }
  unfold view at 1. rewrite Hb, map_app, Hold. f_equal. case_decide; [|done]. simpl.
  unfold deref. simpl. by rewrite lookup_app_r, Nat.sub_diag by lia.
Qed.

(** One node of the storage goes to the end of its bucket, when there is room and its id is new. *)
Lemma load_one rt x i :
  rt_inv rt -> Hash_wf (rtn_id x) -> in_bkt (rt_root rt) i x = true ->
  bucket_sound (rt_k rt) (view rt i ++ [x]) ->
  exists rt' st, rt_addNode rt (rtn_Node x) (rtn_LastChanged x) = Some (rt', st) /\
    rt_inv rt' /\ rt_root rt' = rt_root rt /\ rt_k rt' = rt_k rt /\
    forall j, view rt' j = view rt j ++ if decide (j = i) then [x] else [].
Proof.
  intros Hinv Hw Hb [Hnd Hle]. apply Z.eqb_eq in Hb.
  destruct (rt_addNode_Some rt (rtn_Node x) (rtn_LastChanged x) Hinv Hw) as (i' & Hi' & Hlt & E).
  assert (i' = i) as -> by (unfold rtn_id in Hb; lia).
  destruct (bucket_AddNode rt i (rtn_Node x) (rtn_LastChanged x)) as [rt' st] eqn:Ea. exists rt', st.
  split; [done|].
  assert (Hl : (i < length (rt_bkts rt))%nat) by (destruct Hinv as (_ & -> & _); done).
  assert (Hab : Forall (fun p => has_id (rtn_id x) (deref rt p) = false) (b_Nodes (get_bkt rt i))).
  { apply Forall_forall. intros p Hp. apply bool_decide_eq_false. intros Heq.
    rewrite map_app, NoDup_app in Hnd. destruct Hnd as (_ & Hd & _). apply (Hd (rtn_id x)).
    - apply list_elem_of_fmap. exists (rtn_of (deref rt p)). split; [done|].
      apply list_elem_of_fmap. by exists p.
    - simpl. set_solver. }
  assert (Hroom : Z.of_nat (length (b_Nodes (get_bkt rt i))) < rt_k rt).
  { rewrite length_app in Hle. unfold view in Hle. rewrite length_map in Hle. simpl in Hle. lia. }
  apply bucket_AddNode_cases in Ea; [|done]. cbv zeta in Ea.
  destruct Ea as [(p & Hp & Hid & _)|[(_ & _ & Hna)|[(_ & _ & _ & ->)|[(j & p & _ & Hk & _)|(_ & Hk & _)]]]]; try lia.
  - rewrite Forall_forall in Hab. specialize (Hab p Hp). by apply bool_decide_eq_false in Hab.
  - done.
  - split; [by apply with_new_inv|]. do 2 (split; [done|]). intros j.
    rewrite view_with_new by done. destruct x. done.
Qed.

Lemma filter_bkt root now i x nodes :
  filter (fun y => fresh now y && in_bkt root i y) (x :: nodes)
  = (if fresh now x && in_bkt root i x then [x] else []) ++ filter (fun y => fresh now y && in_bkt root i y) nodes.
Proof. rewrite filter_cons. destruct (fresh now x && in_bkt root i x); done. Qed.

(** The nodes a storage hands out end up, in their order, each in its bucket. *)
Lemma load_loop_view rt nodes now :
  rt_inv rt -> Forall (fun x => Hash_wf (rtn_id x)) nodes ->
  (forall i, bucket_sound (rt_k rt) (view rt i ++ filter (fun x => fresh now x && in_bkt (rt_root rt) i x) nodes)) ->
  rt_inv (load_loop rt nodes now) /\
  forall i, view (load_loop rt nodes now) i
  = view rt i ++ filter (fun x => fresh now x && in_bkt (rt_root rt) i x) nodes.
Proof.
  intros Hinv Hw. revert rt Hinv. induction Hw as [|x nodes Hx Hw IH]; intros rt Hinv Hs.
  { split; [done|]. intros i. by rewrite app_nil_r. }
  cbn [load_loop]. fold (fresh now x). destruct (fresh now x) eqn:Ef.
  - pose proof (bucketid_range _ _ (proj1 Hinv) Hx) as Hr.
    set (k := Z.to_nat (bucketid (rt_root rt) (rtn_id x))).
    assert (Hin : forall i, in_bkt (rt_root rt) i x = bool_decide (i = k)).
    { intros i. unfold in_bkt. case_bool_decide; [apply Z.eqb_eq|apply Z.eqb_neq]; unfold k in *; unfold rtn_id in *; lia. }
    destruct (load_one rt x k Hinv Hx) as (rt' & st & -> & Hinv' & Hroot & Hk & Hv).
    { rewrite Hin. by apply bool_decide_eq_true. }
    { specialize (Hs k). rewrite filter_bkt, Ef, Hin, bool_decide_eq_true_2, app_assoc in Hs by done.
      destruct Hs as [H1 H2]. split; [by rewrite map_app, NoDup_app in H1; apply H1|].
      rewrite length_app in H2. simpl in H2. lia. }
    assert (Hstep : forall i, view rt' i ++ filter (fun x => fresh now x && in_bkt (rt_root rt') i x) nodes
      = view rt i ++ filter (fun x => fresh now x && in_bkt (rt_root rt) i x) (x :: nodes)).
    { intros i. rewrite Hv, Hroot, filter_bkt, Ef, Hin, <- app_assoc. do 2 f_equal.
      case_decide; [by rewrite bool_decide_eq_true_2|by rewrite bool_decide_eq_false_2]. }
    destruct (IH rt' Hinv') as [H1 H2]; [intros i; rewrite Hstep, Hk; apply Hs|].
    split; [done|]. intros i. by rewrite H2, Hstep.
  - destruct (IH rt Hinv) as [H1 H2].
    { intros i. specialize (Hs i). by rewrite filter_bkt, Ef in Hs. }
    split; [done|]. intros i. by rewrite H2, filter_bkt, Ef.
Qed.

(** Taking the groups of a list out of it, one after the other. *)
Section Groups.
Context {A : Type} (p : A -> bool) (f : nat -> list A) (t : nat -> A -> bool).
Hypothesis Ht : forall i j x, x ∈ f j -> t i x = bool_decide (i = j).

Lemma filter_group_one i j :
  filter (fun x => p x && t i x) (f j) = if decide (i = j) then filter (fun x => p x) (f j) else [].
Proof.
  assert (H : Forall (fun x => t i x = bool_decide (i = j)) (f j)) by (apply Forall_forall; auto).
  induction H as [|x l Hx _ IH]; [by case_decide|].
  rewrite !filter_cons, IH, Hx. case_decide as D.
  - rewrite bool_decide_eq_true_2 by done. by destruct (p x).
  - rewrite bool_decide_eq_false_2 by done. by destruct (p x).
Qed.

Lemma filter_group i js :
  NoDup js -> filter (fun x => p x && t i x) (concat (map f js))
  = if decide (i ∈ js) then filter (fun x => p x) (f i) else [].
Proof.
  induction 1 as [|j js Hj _ IH]; simpl; [done|].
  rewrite filter_app, IH, filter_group_one. destruct (decide (i = j)) as [->|Hne].
  - rewrite (decide_False (P := j ∈ js)), decide_True, app_nil_r by set_solver. done.
  - simpl. destruct (decide (i ∈ js)); [by rewrite decide_True by set_solver|].
    by rewrite decide_False by set_solver.
Qed.

Lemma concat_groups js :
  NoDup js ->
  concat (map (fun i => filter (fun x => p x && t i x) (concat (map f js))) js)
  = filter (fun x => p x) (concat (map f js)).
Proof.
  intros Hnd. transitivity (concat (map (fun i => filter (fun x => p x) (f i)) js)).
  - f_equal. apply map_ext_in. intros i Hi%list_elem_of_In. by rewrite filter_group, decide_True.
  - clear Hnd. induction js as [|j js IH]; simpl; [done|]. by rewrite filter_app, IH.
Qed.
End Groups.

Lemma view_in_bkt rt : rt_inv rt -> forall i j x, x ∈ view rt j -> in_bkt (rt_root rt) i x = bool_decide (i = j).
Proof.
  intros Hinv i j x (p & -> & Hp)%list_elem_of_fmap.
  destruct (get_bkt_ok rt j Hinv) as [H _]. rewrite Forall_forall in H.
  destruct (H p Hp) as (w & E & _ & _ & Hb). unfold in_bkt, deref. rewrite E. unfold rtn_id. simpl. rewrite Hb.
  case_bool_decide; [apply Z.eqb_eq|apply Z.eqb_neq]; lia.
Qed.

Lemma filter_views now rt :
  rt_inv rt ->
  concat (map (fun i => filter (fun x => fresh now x && in_bkt (rt_root rt) i x) (rt_dump rt)) (seq 0 bktlen))
  = filter (fun x => fresh now x) (rt_dump rt).
Proof.
  intros Hinv. rewrite dump_views by apply Hinv.
  apply (concat_groups (fresh now) (view rt) (in_bkt (rt_root rt))); [by apply view_in_bkt|apply NoDup_seq].
Qed.

Lemma filter_bucket_sound now rt i :
  rt_inv rt -> bucket_sound (rt_k rt) (view rt i) ->
  bucket_sound (rt_k rt) (filter (fun x => fresh now x && in_bkt (rt_root rt) i x) (rt_dump rt)).
Proof.
  intros Hinv [Hnd Hle]. rewrite dump_views by apply Hinv.
  rewrite (filter_group (fresh now) (view rt) (in_bkt (rt_root rt))) by (apply NoDup_seq || by apply view_in_bkt).
  case_decide; [|split; [constructor|simpl; lia]].
  assert (Hsub : sublist (filter (fun x => fresh now x) (view rt i)) (view rt i)) by apply sublist_filter.
  split; [|apply sublist_length in Hsub; lia].
  eapply sublist_NoDup; [exact Hnd|]. by apply (fmap_sublist rtn_id).
Qed.

Lemma view_empty k v6 root i : view (emptyTable k v6 root) i = [].
Proof.
  unfold view, get_bkt, emptyTable. cbn [rt_bkts].
  destruct (replicate bktlen (mkBucket [] zeroTime) !! i) eqn:E; [|done].
  by apply lookup_replicate in E as [-> _].
Qed.

(** A table whose buckets are sound, loaded again, is what is still fresh of it. *)
Lemma reload rt v6 now :
  rt_inv rt -> (forall i, bucket_sound (rt_k rt) (view rt i)) ->
  let rt' := newRoutingTable (rt_k rt) v6 (rt_root rt) (Some (rt_dump rt)) now in
  rt_inv rt' /\ rt_dump rt' = filter (fun x => fresh now x) (rt_dump rt).
Proof.
  intros Hinv Hs. cbv zeta. unfold newRoutingTable.
  pose proof (emptyTable_inv (rt_k rt) v6 (rt_root rt) (proj1 Hinv)) as He.
  destruct (load_loop_view (emptyTable (rt_k rt) v6 (rt_root rt)) (rt_dump rt) now He) as [H1 H2].
  - rewrite dump_views by apply Hinv. apply Forall_concat, Forall_map, Forall_forall. intros i _.
    apply Forall_map. eapply Forall_impl; [apply (get_bkt_ok rt i Hinv)|].
    intros p (w & E & _ & Hw & _). unfold deref. by rewrite E.
  - intros i. rewrite view_empty. simpl. by apply filter_bucket_sound.
  - split; [done|]. rewrite dump_views by apply H1. rewrite <- filter_views by done. f_equal.
    apply map_ext. intros i. by rewrite H2, view_empty.
Qed.

(** ** A server stopped and started again *)

Section Restart.
Context {St : Type} (S : RoutingTableStorage St) `{!Keeps S}.
Context {BL : Type} `{!Blacklist BL}.
Variable HandleInMessage : UDPAddr -> Message -> bool * Message.
Variable HandleOutMessage : UDPAddr -> Message -> bool * option error * Message.
Variable WriteTo : bytes -> UDPAddr -> nat * option error.
Variable customPeers : option (Hash -> Z -> bool -> list bytes).
Variable iter : gmap bytes peer -> list peer.
Variable LookupIP : bytes -> res (list IP).

#[local] Abbreviation act := (act HandleInMessage HandleOutMessage WriteTo customPeers iter LookupIP).

Definition table_of (s : Server (BL := BL)) (v6 : bool) : routingTable := if v6 then s_rt6 s else s_rt4 s.

(** A table of a server that can be saved: valid, of this server, and with sound buckets.  (The buckets of a
    server are sound until [AddNode] replaces a bad node of a full bucket, [full_bucket_grows].) *)
Record saveable (s : Server (BL := BL)) (v6 : bool) : Prop := {
  sv_inv : rt_inv (table_of s v6);
  sv_root : rt_root (table_of s v6) = c_ID (s_conf s);
  sv_k : rt_k (table_of s v6) = c_K (s_conf s);
  sv_sound : forall i, bucket_sound (c_K (s_conf s)) (view (table_of s v6) i);
}.

(** What the storage has of a table after the table's goroutine has ended. *)
Lemma dump_loaded id st (l : life (BL := BL)) v6 :
  loaded S id (stored S id st (dump l v6)) v6 =
  match rt_dump (table_of (l_server l) v6) with [] => loaded S id st v6 | nodes => Some nodes end.
Proof.
  unfold loaded, dump, table_of in *. destruct (rt_dump _) eqn:E; simpl; [done|]. by rewrite Load_Dump.
Qed.

Lemma dump_other id st (l : life (BL := BL)) v6 v6' :
  v6 <> v6' -> Load S (stored S id st (dump l v6)) id v6' = Load S st id v6'.
Proof. intros Hne. unfold dump. destruct (rt_dump _); simpl; [done|]. apply Load_Dump_ne. congruence. Qed.

(** [C12] When a server has been closed and the goroutines of its routing tables have ended, in either
    order, a server started later with the same identity and the same storage has in each table the
    nodes of the old one that are not yet dubious, with their times, in the old order.  This is for tables
    whose buckets hold at most [K] nodes, none twice ([saveable]), and that are not empty: an empty table is
    not dumped, and the new one is then made from what the storage had before. *)
Theorem tables_survive_restart st (l l1 l2 : life (BL := BL)) first outs1 outs2 protocols (bl : BL) token now :
  saveable (l_server l) false -> saveable (l_server l) true ->
  act l (TableExit first) = Some (l1, outs1) -> act l1 (TableExit (negb first)) = Some (l2, outs2) ->
  let conf := s_conf (l_server l) in
  let st' := stored S (c_ID conf) st (outs1 ++ outs2) in
  let s' := NewServer conf protocols bl token
              (loaded S (c_ID conf) st' false) (loaded S (c_ID conf) st' true) now in
  forall v6,
    match rt_dump (table_of (l_server l) v6) with
    | [] => table_of s' v6 = newRoutingTable (c_K conf) v6 (c_ID conf) (loaded S (c_ID conf) st v6) now
    | nodes => rt_inv (table_of s' v6) /\ rt_dump (table_of s' v6) = filter (fun x => fresh now x) nodes
    end.
Proof.
  intros H4 H6 [= <- <-] [= <- <-] conf st' s' v6.
  assert (Hv : saveable (l_server l) v6) by (by destruct v6).
  assert (Hst : loaded S (c_ID conf) st' v6 =
    match rt_dump (table_of (l_server l) v6) with [] => loaded S (c_ID conf) st v6 | nodes => Some nodes end).
  { unfold st'. rewrite stored_app.
    destruct (decide (v6 = first)) as [->|Hne].
    - unfold loaded at 1. rewrite dump_other by (by destruct first). apply dump_loaded.
    - assert (v6 = negb first) as -> by (by destruct v6, first).
      etransitivity; [apply (dump_loaded (c_ID conf) _ (mkLife (l_server l) _ (l_exit l)))|]. cbn [l_server].
      unfold loaded at 1. by rewrite dump_other by (by destruct first). }
  assert (Ht : table_of s' v6 = newRoutingTable (c_K conf) v6 (c_ID conf) (loaded S (c_ID conf) st' v6) now).
  { by destruct v6. }
  rewrite Ht, Hst. destruct (rt_dump _) as [|x nodes] eqn:E; [done|]. unfold conf. rewrite <- E.
  rewrite <- (sv_root _ _ Hv), <- (sv_k _ _ Hv).
  apply reload; [apply Hv|]. rewrite (sv_k _ _ Hv). apply Hv.
Qed.
End Restart.

(** ** Witness *)

(** A server that learned of three nodes at different times and is stopped. *)
Definition saved_node (b : byte) : Node := mkNode (replicate 19 x00 ++ [b]) (NewAddr [x7f; x00; x00; x09] 6881).
Definition saved_config : Config := mkConfig 8 (replicate 20 x01) false 0 1024 0.
Definition saved_server : Server (BL := blacklist) :=
  let rt := newRoutingTable 8 false (replicate 20 x01)
    (Some [mkRTNode (saved_node x02) (Minute * 1); mkRTNode (saved_node x04) (Minute * 9);
           mkRTNode (saved_node x05) (Minute * 10)]) (Minute * 11) in
  set_rt4 (NewServer saved_config [IPv4Protocol] (NewMemoryBlacklist 0) (B "token-01") None None 0) rt.
Definition saved_life : life (BL := blacklist) :=
  (mkLife saved_server (mkThreads true true false false false false true) true).

#[local] Abbreviation demo_act :=
  (act through_in through_out socket None demo_walk (fun _ => Err EOF)).
#[local] Abbreviation restarted first now :=
  match demo_act saved_life (TableExit first) with
  | Some (l1, outs1) =>
      match demo_act l1 (TableExit (negb first)) with
      | Some (_, outs2) =>
          let st' := stored memoryStorage (replicate 20 x01) ∅ (outs1 ++ outs2) in
          NewServer saved_config [IPv4Protocol] (NewMemoryBlacklist 0) (B "token-02")
            (loaded memoryStorage (replicate 20 x01) st' false)
            (loaded memoryStorage (replicate 20 x01) st' true) now
      | None => saved_server
      end
  | None => saved_server
  end.

Lemma sound_all k rt :
  length (rt_bkts rt) = bktlen -> (0 <=? k) = true ->
  forallb (fun i => bool_decide (NoDup (map rtn_id (view rt i))) && (Z.of_nat (length (view rt i)) <=? k))
    (seq 0 bktlen) = true ->
  forall i, bucket_sound k (view rt i).
Proof.
  intros Hl Hk%Z.leb_le Hall i. rewrite forallb_forall in Hall.
  destruct (decide (i < bktlen)%nat) as [Hi|Hi].
  - specialize (Hall i). rewrite in_seq, andb_true_iff, bool_decide_eq_true, Z.leb_le in Hall. apply Hall. lia.
  - unfold view, get_bkt. rewrite (proj2 (lookup_ge_None (rt_bkts rt) i)) by lia. by split; [constructor|].
Qed.

Lemma saved_4 : saveable saved_server false.
Proof.
  split; try reflexivity.
  - apply (rt_reach_inv 8 false (replicate 20 x01)); [reflexivity|].
    apply newRoutingTable_reach. intros nodes x [= <-]. rewrite !elem_of_cons, elem_of_nil.
    by intros [-> | [-> | [-> |[]]]].
  - apply sound_all; reflexivity.
Qed.

Lemma saved_6 : saveable saved_server true.
Proof.
  split; try reflexivity; [by apply emptyTable_inv|].
  intros i. cbn [table_of]. change (s_rt6 saved_server) with (emptyTable 8 true (replicate 20 x01)).
  rewrite view_empty. split; [constructor|done].
Qed.

(** Seventeen minutes later the two nodes heard of last are back, the first is not. *)
Lemma tables_survive_restart_witness :
  map rtn_LastChanged (rt_dump (table_of saved_server false)) = [Minute * 1; Minute * 9; Minute * 10] /\
  map rtn_LastChanged (rt_dump (table_of (restarted true (Minute * 17)) false)) = [Minute * 9; Minute * 10] /\
  rt_inv (table_of (restarted true (Minute * 17)) false) /\
  rt_dump (table_of (restarted true (Minute * 17)) false)
  = filter (fun x => fresh (Minute * 17) x) (rt_dump (table_of saved_server false)).
Proof.
  split; [vm_compute; reflexivity|]. split; [vm_compute; reflexivity|].
  pose proof (tables_survive_restart memoryStorage through_in through_out socket None demo_walk (fun _ => Err EOF)
           ∅ saved_life _ _ true _ _ [IPv4Protocol] (NewMemoryBlacklist 0) (B "token-02") (Minute * 17)
           saved_4 saved_6 eq_refl eq_refl false) as H. cbv zeta in H.
  destruct (rt_dump (table_of (l_server saved_life) false)) as [|x nodes] eqn:E; [vm_compute in E; discriminate E|].
  change (rt_dump (table_of saved_server false)) with (rt_dump (table_of (l_server saved_life) false)).
  rewrite E. exact H.
Defined.
