(* ===== verification/PeerMessage.v ===== *)
(** * Messages of the peer protocol (peerprotocol/message.go, peerprotocol/protocol.go)

    [Pieces], [BitField] and [Message] with its encoder and decoder.  Readers are in
    memory: a reader is the list of bytes still to come, and its only error is [EOF]. *)

From S2P Require Import Prelude GoBytes Bencode Codec.

(** ** Message types *)

Definition MTypeChoke : Z := 0.
Definition MTypeUnchoke : Z := 1.
Definition MTypeInterested : Z := 2.
Definition MTypeNotInterested : Z := 3.
Definition MTypeHave : Z := 4.
Definition MTypeBitField : Z := 5.
Definition MTypeRequest : Z := 6.
Definition MTypePiece : Z := 7.
Definition MTypeCancel : Z := 8.
Definition MTypePort : Z := 9.
Definition MTypeSuggest : Z := 13.
Definition MTypeHaveAll : Z := 14.
Definition MTypeHaveNone : Z := 15.
Definition MTypeReject : Z := 16.
Definition MTypeAllowedFast : Z := 17.
Definition MTypeExtended : Z := 20.

Definition FastExtension (mt : Z) : bool := (MTypeSuggest <=? mt) && (mt <=? MTypeAllowedFast).

Definition MessageType_names : list (Z * bytes) :=
  [(MTypeChoke, B "Choke"); (MTypeUnchoke, B "Unchoke"); (MTypeInterested, B "Interested");
   (MTypeNotInterested, B "NotInterested"); (MTypeHave, B "Have"); (MTypeBitField, B "Bitfield");
   (MTypeRequest, B "Request"); (MTypePiece, B "Piece"); (MTypeCancel, B "Cancel"); (MTypePort, B "Port");
   (MTypeSuggest, B "Suggest"); (MTypeHaveAll, B "HaveAll"); (MTypeHaveNone, B "HaveNone");
   (MTypeReject, B "Reject"); (MTypeAllowedFast, B "AllowedFast"); (MTypeExtended, B "Extended")].
Definition MessageType_String (mt : Z) : bytes :=
  match find (fun tn => mt =? tn.1) MessageType_names with
  | Some (_, name) => name
  | None => B "MessageType(" ++ format_int mt ++ B ")"
  end.

(** ** [Pieces] *)

Definition Pieces : Type := list Z.

(** [sort.Sort]. *)
Fixpoint insert_sorted (x : Z) (l : list Z) : list Z :=
  match l with
  | [] => [x]
  | y :: l => if y <? x then y :: insert_sorted x l else x :: y :: l
  end.
Definition Pieces_Sort (ps : Pieces) : Pieces := foldr insert_sorted [] ps.

Definition Pieces_Append (ps : Pieces) (index : Z) : Pieces :=
  if existsb (Z.eqb index) ps then ps else Pieces_Sort (ps ++ [index]).

Fixpoint Pieces_Remove (ps : Pieces) (index : Z) : Pieces :=
  match ps with
  | [] => []
  | p :: ps => if p =? index then ps else p :: Pieces_Remove ps index
  end.

(** ** [BitField] *)

Abbreviation BitField := bytes.

Definition NewBitField (pieceNum : nat) (set : bool) : BitField :=
  replicate ((pieceNum + 7) / 8) (if set then xff else x00).

Definition bit_mask (index : Z) : Z := Z.shiftl 1 (7 - index mod 8).

(** [Set] and [Unset]: the new field, and whether the index was in range. *)
Definition BitField_CanSet (bf : BitField) (index : Z) : bool := index / 8 <? Z.of_nat (length bf).
Definition BitField_Set (bf : BitField) (index : Z) : BitField * bool :=
  let i := Z.to_nat (index / 8) in
  match bf !! i with
  | Some b => (<[i := z2b (Z.lor (b2z b) (bit_mask index))]> bf, true)
  | None => (bf, false)
  end.
Definition BitField_Unset (bf : BitField) (index : Z) : BitField * bool :=
  let i := Z.to_nat (index / 8) in
  match bf !! i with
  | Some b => (<[i := z2b (Z.ldiff (b2z b) (bit_mask index))]> bf, true)
  | None => (bf, false)
  end.
Definition BitField_IsSet (bf : BitField) (index : Z) : bool :=
  match bf !! Z.to_nat (index / 8) with
  | Some b => negb (Z.land (b2z b) (bit_mask index) =? 0)
  | None => false
  end.

Definition byte_bools (b : byte) : list bool :=
  map (fun i => Z.land (Z.shiftr (b2z b) i) 1 =? 1) [7; 6; 5; 4; 3; 2; 1; 0].
Definition BitField_Bools (bf : BitField) : list bool := concat (map byte_bools bf).

Definition indexes (n : nat) : list Z := map Z.of_nat (seq 0 n).
Definition BitField_Sets (bf : BitField) : Pieces :=
  List.filter (BitField_IsSet bf) (indexes (length bf * 8)).
Definition BitField_Unsets (bf : BitField) : Pieces :=
  List.filter (fun i => negb (BitField_IsSet bf i)) (indexes (length bf * 8)).

Fixpoint fromBools_loop (bf : BitField) (i : Z) (bs : list bool) : BitField :=
  match bs with
  | [] => bf
  | has :: bs => fromBools_loop (if has then fst (BitField_Set bf i) else bf) (i + 1) bs
  end.
Definition NewBitFieldFromBools (bs : list bool) : BitField :=
  fromBools_loop (NewBitField (length bs) false) 0 bs.

(** ** [Message] *)

Record Message : Type := mkMessage {
  pm_Keepalive : bool;
  pm_Type : Z;
  pm_Index : Z;
  pm_Begin : Z;
  pm_Length : Z;
  pm_Piece : bytes;
  pm_BitField : BitField;
  pm_ExtendedID : Z;
  pm_ExtendedPayload : bytes;
  pm_Port : Z;
  pm_UnknownTypePayload : bytes;
}.
#[export] Instance Message_eq_dec : EqDecision Message.
Proof. solve_decision. Defined.

Definition zeroMessage : Message := mkMessage false 0 0 0 0 [] [] 0 [] 0 [].
Definition set_Keepalive (m : Message) (x : bool) : Message :=
  mkMessage x (pm_Type m) (pm_Index m) (pm_Begin m) (pm_Length m) (pm_Piece m) (pm_BitField m)
    (pm_ExtendedID m) (pm_ExtendedPayload m) (pm_Port m) (pm_UnknownTypePayload m).
Definition set_Type (m : Message) (x : Z) : Message :=
  mkMessage (pm_Keepalive m) x (pm_Index m) (pm_Begin m) (pm_Length m) (pm_Piece m) (pm_BitField m)
    (pm_ExtendedID m) (pm_ExtendedPayload m) (pm_Port m) (pm_UnknownTypePayload m).
Definition set_Index (m : Message) (x : Z) : Message :=
  mkMessage (pm_Keepalive m) (pm_Type m) x (pm_Begin m) (pm_Length m) (pm_Piece m) (pm_BitField m)
    (pm_ExtendedID m) (pm_ExtendedPayload m) (pm_Port m) (pm_UnknownTypePayload m).
Definition set_Begin (m : Message) (x : Z) : Message :=
  mkMessage (pm_Keepalive m) (pm_Type m) (pm_Index m) x (pm_Length m) (pm_Piece m) (pm_BitField m)
    (pm_ExtendedID m) (pm_ExtendedPayload m) (pm_Port m) (pm_UnknownTypePayload m).
Definition set_Length (m : Message) (x : Z) : Message :=
  mkMessage (pm_Keepalive m) (pm_Type m) (pm_Index m) (pm_Begin m) x (pm_Piece m) (pm_BitField m)
    (pm_ExtendedID m) (pm_ExtendedPayload m) (pm_Port m) (pm_UnknownTypePayload m).
Definition set_Piece (m : Message) (x : bytes) : Message :=
  mkMessage (pm_Keepalive m) (pm_Type m) (pm_Index m) (pm_Begin m) (pm_Length m) x (pm_BitField m)
    (pm_ExtendedID m) (pm_ExtendedPayload m) (pm_Port m) (pm_UnknownTypePayload m).
Definition set_BitField (m : Message) (x : BitField) : Message :=
  mkMessage (pm_Keepalive m) (pm_Type m) (pm_Index m) (pm_Begin m) (pm_Length m) (pm_Piece m) x
    (pm_ExtendedID m) (pm_ExtendedPayload m) (pm_Port m) (pm_UnknownTypePayload m).
Definition set_Extended (m : Message) (id : Z) (x : bytes) : Message :=
  mkMessage (pm_Keepalive m) (pm_Type m) (pm_Index m) (pm_Begin m) (pm_Length m) (pm_Piece m)
    (pm_BitField m) id x (pm_Port m) (pm_UnknownTypePayload m).
Definition set_Port (m : Message) (x : Z) : Message :=
  mkMessage (pm_Keepalive m) (pm_Type m) (pm_Index m) (pm_Begin m) (pm_Length m) (pm_Piece m)
    (pm_BitField m) (pm_ExtendedID m) (pm_ExtendedPayload m) x (pm_UnknownTypePayload m).
Definition set_Unknown (m : Message) (x : bytes) : Message :=
  mkMessage (pm_Keepalive m) (pm_Type m) (pm_Index m) (pm_Begin m) (pm_Length m) (pm_Piece m)
    (pm_BitField m) (pm_ExtendedID m) (pm_ExtendedPayload m) (pm_Port m) x.

Definition one_of (t : Z) (l : list Z) : bool := existsb (Z.eqb t) l.

(** *** Encoding *)

Definition marshalBinaryType (m : Message) : bytes :=
  let t := pm_Type m in
  if one_of t [MTypeChoke; MTypeUnchoke; MTypeInterested; MTypeNotInterested; MTypeHaveAll; MTypeHaveNone]
  then []
  else if one_of t [MTypeHave] then be_encode 4 (pm_Index m)
  else if one_of t [MTypeRequest; MTypeCancel; MTypeReject]
  then be_encode 4 (pm_Index m) ++ be_encode 4 (pm_Begin m) ++ be_encode 4 (pm_Length m)
  else if one_of t [MTypeBitField] then pm_BitField m
  else if one_of t [MTypePiece] then be_encode 4 (pm_Index m) ++ be_encode 4 (pm_Begin m) ++ pm_Piece m
  else if one_of t [MTypeExtended] then z2b (pm_ExtendedID m) :: pm_ExtendedPayload m
  else if one_of t [MTypePort] then be_encode 2 (pm_Port m)
  else pm_UnknownTypePayload m.

(** [Encode] into an empty buffer, [MarshalBinary]. *)
Definition Message_Encode (m : Message) : bytes :=
  if pm_Keepalive m then [x00; x00; x00; x00]
  else
    let body := z2b (pm_Type m) :: marshalBinaryType m in
    be_encode 4 (u32 (Z.of_nat (length body))) ++ body.

(** *** Decoding *)

(** [io.ReadFull] of [k] bytes. *)
Definition readFull (k : nat) (r : bytes) : bytes * bytes * option error :=
  if (length r <? k)%nat
  then (r, [], Some (if (length r =? 0)%nat then EOF else ErrUnexpectedEOF))
  else (take k r, drop k r, None).

(** An [io.LimitedReader] over [r]: at most [N] more bytes. *)
Record LimitedReader : Type := mkLR { lr_R : bytes; lr_N : Z }.

Definition lr_readFull (lr : LimitedReader) (k : nat) : bytes * LimitedReader * option error :=
  let avail := take (Z.to_nat (lr_N lr)) (lr_R lr) in
  if (length avail <? k)%nat
  then (avail, mkLR (drop (length avail) (lr_R lr)) (lr_N lr - Z.of_nat (length avail)),
        Some (if (length avail =? 0)%nat then EOF else ErrUnexpectedEOF))
  else (take k avail, mkLR (drop k (lr_R lr)) (lr_N lr - Z.of_nat k), None).

(** [ioutil.ReadAll]. *)
Definition lr_readAll (lr : LimitedReader) : bytes * LimitedReader :=
  let avail := take (Z.to_nat (lr_N lr)) (lr_R lr) in
  (avail, mkLR (drop (length avail) (lr_R lr)) (lr_N lr - Z.of_nat (length avail))).

(** [readByte]: one [Read] of one byte. *)
Definition lr_readByte (lr : LimitedReader) : Z * LimitedReader * option error :=
  match lr_readFull lr 1 with
  | ([b], lr, None) => (b2z b, lr, None)
  | (_, lr, e) => (0, lr, match e with Some e => Some e | None => Some EOF end)
  end.

(** [binary.Read] of a big-endian integer of [k] bytes into a field. *)
Definition lr_readInt (lr : LimitedReader) (k : nat) (m : Message) (set : Message -> Z -> Message)
    (next : Message -> LimitedReader -> Message * LimitedReader * outcome)
    : Message * LimitedReader * outcome :=
  match lr_readFull lr k with
  | (_, lr, Some e) => (m, lr, Fail e)
  | (b, lr, None) => next (set m (be_decode b)) lr
  end.

Definition finish (m : Message) (lr : LimitedReader) : Message * LimitedReader * outcome := (m, lr, Done).

(** The [switch] of [Decode]. *)
Definition decodeBody (m : Message) (length : Z) (lr : LimitedReader) : Message * LimitedReader * outcome :=
  let t := pm_Type m in
  if one_of t [MTypeChoke; MTypeUnchoke; MTypeInterested; MTypeNotInterested; MTypeHaveAll; MTypeHaveNone]
  then (m, lr, Done)
  else if one_of t [MTypeHave; MTypeAllowedFast; MTypeSuggest] then lr_readInt lr 4 m set_Index finish
  else if one_of t [MTypeRequest; MTypeCancel; MTypeReject] then
    lr_readInt lr 4 m set_Index (fun m lr =>
    lr_readInt lr 4 m set_Begin (fun m lr =>
    lr_readInt lr 4 m set_Length finish))
  else if one_of t [MTypeBitField] then
    match lr_readFull lr (Z.to_nat (length - 1)) with
    | (_, lr, Some e) => (m, lr, Fail e)
    | (bs, lr, None) => (set_BitField m bs, lr, Done)
    end
  else if one_of t [MTypePiece] then
    lr_readInt lr 4 m set_Index (fun m lr =>
    lr_readInt lr 4 m set_Begin (fun m lr =>
      let n := Z.to_nat (lr_N lr) in
      match lr_readFull lr n with
      | (bs, lr, Some e) =>
          (set_Piece m (copy_into (replicate n x00) bs), lr, Fail (Errorf "reading piece data error"))
      | (bs, lr, None) => (set_Piece m bs, lr, Done)
      end))
  else if one_of t [MTypeExtended] then
    match lr_readByte lr with
    | (id, lr, Some e) => (set_Extended m 0 (pm_ExtendedPayload m), lr, Fail e)
    | (id, lr, None) => let '(bs, lr) := lr_readAll lr in (set_Extended m id bs, lr, Done)
    end
  else if one_of t [MTypePort] then lr_readInt lr 2 m set_Port finish
  else let '(bs, lr) := lr_readAll lr in (set_Unknown m bs, lr, Done).

Definition errMessageTooLong : error := Errorf "the peer message is too long".

(** [Message.Decode]: the message, what is left to read, and the error. *)
Definition Message_Decode (m : Message) (r : bytes) (maxLength : Z) : Message * bytes * outcome :=
  let '(b, r, err) := readFull 4 r in
  match err with
  | Some EOF => (m, r, Fail EOF)
  | Some _ => (m, r, Fail (Errorf "reading length error"))
  | None =>
      let length := be_decode b in
      if length =? 0 then (set_Keepalive m true, r, Done)
      else if (0 <? maxLength) && (maxLength <? length) then (m, r, Fail errMessageTooLong)
      else
        let m := set_Keepalive m false in
        let '(t, lr, err) := lr_readByte (mkLR r length) in
        let '(m, lr, o) :=
          match err with
          | Some e => (m, lr, Fail e)
          | None => decodeBody (set_Type m t) length lr
          end in
        (m, lr_R lr,
         match o with
         | Done => if lr_N lr =? 0 then Done else Fail (Errorf "bytes unused in message")
         | o => o
         end)
  end.

Definition DecodeToMessage (r : bytes) (maxLength : Z) : Message * bytes * outcome :=
  Message_Decode zeroMessage r maxLength.

Definition Message_UnmarshalBinary (m : Message) (data : bytes) : recv Message :=
  let '(m, _, o) := Message_Decode m data 0 in (m, o).
Definition Message_MarshalBinary (m : Message) : res bytes := Ok (Message_Encode m).

Example decode_request :
  DecodeToMessage (Message_Encode (mkMessage false MTypeRequest 1 2 3 [] [] 0 [] 0 []) ++ B "rest") 0
  = (mkMessage false MTypeRequest 1 2 3 [] [] 0 [] 0 [], B "rest", Done).
Proof. vm_compute. reflexivity. Qed.
