(* ===== verification/PeerMessageThms.v ===== *)
(** * Theorems about peer messages, bit fields and piece lists *)

From S2P Require Import Prelude GoBytes Bencode Codec PeerMessage.

(** ** Reading *)

Lemma readFull_app x y : readFull (length x) (x ++ y) = (x, y, None).
Proof.
  unfold readFull. rewrite length_app. destruct (Nat.ltb_spec (length x + length y) (length x)); [lia|].
  by destruct (take_drop_app_exact x y (length x) eq_refl) as [-> ->].
Qed.

Lemma lr_readFull_app x y N :
  Z.of_nat (length x) <= N ->
  lr_readFull (mkLR (x ++ y) N) (length x) = (x, mkLR y (N - Z.of_nat (length x)), None).
Proof.
  intros H. unfold lr_readFull. simpl. rewrite length_take, length_app.
  destruct (Nat.ltb_spec (Z.to_nat N `min` (length x + length y)) (length x)); [lia|].
  rewrite take_take, Nat.min_l by lia.
  by destruct (take_drop_app_exact x y (length x) eq_refl) as [-> ->].
Qed.

Lemma lr_readAll_app x y :
  lr_readAll (mkLR (x ++ y) (Z.of_nat (length x))) = (x, mkLR y 0).
Proof.
  unfold lr_readAll. simpl. rewrite Nat2Z.id.
  destruct (take_drop_app_exact x y (length x) eq_refl) as [-> ->]. f_equal. f_equal. lia.
Qed.

Lemma lr_readByte_cons b y N :
  1 <= N -> lr_readByte (mkLR (b :: y) N) = (b2z b, mkLR y (N - 1), None).
Proof.
  intros H. unfold lr_readByte. pose proof (lr_readFull_app [b] y N) as E. simpl length in E.
  cbn [app] in E. rewrite E by lia. done.
Qed.

Lemma lr_readInt_encode k z y N m set next :
  Z.of_nat k <= N -> 0 <= z < 256 ^ Z.of_nat k ->
  lr_readInt (mkLR (be_encode k z ++ y) N) k m set next = next (set m z) (mkLR y (N - Z.of_nat k)).
Proof.
  intros HN Hz. unfold lr_readInt. pose proof (lr_readFull_app (be_encode k z) y N) as E.
  rewrite length_be_encode in E. rewrite E by done. by rewrite be_decode_encode_small.
Qed.

(** ** Round trip *)

(** The Go types of the fields. *)
Definition typed (m : Message) : Prop :=
  is_u8 (pm_Type m) /\ is_u32 (pm_Index m) /\ is_u32 (pm_Begin m) /\ is_u32 (pm_Length m) /\
  is_u8 (pm_ExtendedID m) /\ is_u16 (pm_Port m).

(** The fields that the type of the message carries; the others are zero. *)
Definition relevant (m : Message) : Message :=
  if pm_Keepalive m then set_Keepalive zeroMessage true
  else
    let t := pm_Type m in
    let z := set_Type zeroMessage t in
    if one_of t [MTypeChoke; MTypeUnchoke; MTypeInterested; MTypeNotInterested; MTypeHaveAll; MTypeHaveNone]
    then z
    else if one_of t [MTypeHave] then set_Index z (pm_Index m)
    else if one_of t [MTypeRequest; MTypeCancel; MTypeReject]
    then set_Length (set_Begin (set_Index z (pm_Index m)) (pm_Begin m)) (pm_Length m)
    else if one_of t [MTypeBitField] then set_BitField z (pm_BitField m)
    else if one_of t [MTypePiece] then set_Piece (set_Begin (set_Index z (pm_Index m)) (pm_Begin m)) (pm_Piece m)
    else if one_of t [MTypeExtended] then set_Extended z (pm_ExtendedID m) (pm_ExtendedPayload m)
    else if one_of t [MTypePort] then set_Port z (pm_Port m)
    else set_Unknown z (pm_UnknownTypePayload m).

(** The types whose index the encoder drops. *)
Definition index_lost (t : Z) : bool := one_of t [MTypeAllowedFast; MTypeSuggest].

Lemma have_types t :
  index_lost t = false -> one_of t [MTypeHave; MTypeAllowedFast; MTypeSuggest] = one_of t [MTypeHave].
Proof. unfold index_lost, one_of. simpl. by destruct (t =? MTypeHave). Qed.

Lemma decodeBody_marshal m rest :
  typed m -> pm_Keepalive m = false -> index_lost (pm_Type m) = false ->
  decodeBody (set_Type zeroMessage (pm_Type m)) (Z.of_nat (S (length (marshalBinaryType m))))
    (mkLR (marshalBinaryType m ++ rest) (Z.of_nat (length (marshalBinaryType m))))
  = (relevant m, mkLR rest 0, Done).
Proof.
  intros (Ht & Hi & Hb & Hl & He & Hp) Hk Hlost. unfold decodeBody, relevant, marshalBinaryType.
  rewrite Hk. cbn [pm_Type set_Type zeroMessage]. rewrite have_types by done.
  destruct (one_of _ [MTypeChoke; _; _; _; _; _]); [done|].
  destruct (one_of _ [MTypeHave]).
  { rewrite length_be_encode, lr_readInt_encode by (done || lia). done. }
  destruct (one_of _ [MTypeRequest; _; _]).
  { rewrite !length_app, !length_be_encode, <- !app_assoc.
    rewrite !lr_readInt_encode by (done || lia). done. }
  destruct (one_of _ [MTypeBitField]).
  { replace (Z.to_nat (Z.of_nat (S (length (pm_BitField m))) - 1)) with (length (pm_BitField m)) by lia.
    rewrite lr_readFull_app, Z.sub_diag by lia. done. }
  destruct (one_of _ [MTypePiece]).
  { rewrite !length_app, !length_be_encode, <- !app_assoc.
    rewrite !lr_readInt_encode by (done || lia). cbn [lr_N].
    replace (Z.to_nat (Z.of_nat (4 + (4 + length (pm_Piece m))) - Z.of_nat 4 - Z.of_nat 4))
      with (length (pm_Piece m)) by lia.
    rewrite lr_readFull_app by lia. do 3 f_equal. lia. }
  destruct (one_of _ [MTypeExtended]).
  { cbn [length app]. rewrite lr_readByte_cons by lia.
    replace (Z.of_nat (S (length (pm_ExtendedPayload m))) - 1) with (Z.of_nat (length (pm_ExtendedPayload m))) by lia.
    rewrite lr_readAll_app, b2z_z2b, Z.mod_small by exact He. done. }
  destruct (one_of _ [MTypePort]).
  { rewrite length_be_encode, lr_readInt_encode by (done || lia). done. }
  by rewrite lr_readAll_app.
Qed.

Lemma Message_Decode_encode m rest maxLength :
  typed m -> index_lost (pm_Type m) = false ->
  Z.of_nat (length (Message_Encode m)) - 4 < 2 ^ 32 ->
  (maxLength = 0 \/ Z.of_nat (length (Message_Encode m)) - 4 <= maxLength) ->
  Message_Decode zeroMessage (Message_Encode m ++ rest) maxLength = (relevant m, rest, Done).
Proof.
  intros Hm Hlost Hlen Hmax. unfold Message_Decode, Message_Encode in *.
  destruct (pm_Keepalive m) eqn:Hk.
  { pose proof (readFull_app [x00; x00; x00; x00] rest) as E. simpl length in E. rewrite E.
    unfold relevant. by rewrite Hk. }
  set (body := z2b (pm_Type m) :: marshalBinaryType m) in *.
  rewrite length_app, length_be_encode in Hlen, Hmax.
  assert (Hu : u32 (Z.of_nat (length body)) = Z.of_nat (length body)) by (apply u32_id; unfold is_u32; lia).
  rewrite Hu, <- app_assoc. pose proof (readFull_app (be_encode 4 (Z.of_nat (length body))) (body ++ rest)) as E.
  rewrite length_be_encode in E. rewrite E, be32_roundtrip by (unfold is_u32; lia).
  assert (Hpos : 1 <= Z.of_nat (length body)) by (unfold body; simpl; lia).
  destruct (Z.eqb_spec (Z.of_nat (length body)) 0); [lia|].
  assert ((0 <? maxLength) && (maxLength <? Z.of_nat (length body)) = false) as ->.
  { destruct (Z.ltb_spec 0 maxLength), (Z.ltb_spec maxLength (Z.of_nat (length body))); simpl; try done; lia. }
  unfold body at 1. rewrite <- app_comm_cons, lr_readByte_cons by done.
  rewrite b2z_z2b, Z.mod_small by apply Hm.
  replace (Z.of_nat (length body) - 1) with (Z.of_nat (length (marshalBinaryType m))) by (unfold body; simpl; lia).
  change (set_Type (set_Keepalive zeroMessage false) (pm_Type m)) with (set_Type zeroMessage (pm_Type m)).
  unfold body. cbn [length]. by rewrite decodeBody_marshal.
Qed.

(** [C19] Peer messages survive the wire: every message whose fields have their Go types,
    except [Suggest] and [AllowedFast], is decoded back from its encoding with exactly the
    fields its type carries, whatever follows it on the connection, which is left unread;
    provided it is no longer than the reader's limit (0: no limit) and its length fits the four
    bytes it is written in.  The two that are left out do not come back ([suggest_index_lost]). *)
Theorem peer_message_roundtrip m rest maxLength :
  typed m -> index_lost (pm_Type m) = false ->
  Z.of_nat (length (Message_Encode m)) - 4 < 2 ^ 32 ->
  (maxLength = 0 \/ Z.of_nat (length (Message_Encode m)) - 4 <= maxLength) ->
  DecodeToMessage (Message_Encode m ++ rest) maxLength = (relevant m, rest, Done).
Proof. exact (Message_Decode_encode m rest maxLength). Qed.

Definition sample_piece : Message := mkMessage false MTypePiece 7 16384 0 (B "block") [] 0 [] 0 [].
Lemma sample_piece_typed : typed sample_piece.
Proof. by repeat split. Qed.
Lemma peer_message_roundtrip_witness :
  DecodeToMessage (Message_Encode sample_piece ++ B "next") 64 = (sample_piece, B "next", Done).
Proof.
  apply (peer_message_roundtrip sample_piece (B "next") 64 sample_piece_typed);
    [reflexivity|vm_compute; reflexivity|right; vm_compute; congruence].
Defined.

(** [Suggest] and [AllowedFast] messages lose their piece index: [Encode] writes the
    unknown-type payload instead, while [Decode] reads an index, so the message that
    [SendSuggest] or [SendAllowedFast] builds is a lone type byte, the same for every
    index, and decoding it fails with [EOF]. *)
Theorem suggest_index_lost t index :
  index_lost t = true ->
  let m := set_Index (set_Type zeroMessage t) index in
  Message_Encode m = be_encode 4 1 ++ [z2b t] /\
  exists m', DecodeToMessage (Message_Encode m) 0 = (m', [], Fail EOF).
Proof.
  unfold index_lost, one_of. simpl. rewrite orb_false_r, orb_true_iff, !Z.eqb_eq.
  intros [-> | ->]; (split; [reflexivity|]); eexists; vm_compute; reflexivity.
Qed.

Lemma suggest_index_lost_witness :
  let m := set_Index (set_Type zeroMessage MTypeSuggest) 77 in
  Message_Encode m = be_encode 4 1 ++ [z2b MTypeSuggest] /\
  exists m', DecodeToMessage (Message_Encode m) 0 = (m', [], Fail EOF).
Proof. exact (suggest_index_lost MTypeSuggest 77 eq_refl). Defined.

(** ** Decoding is exact *)

Lemma lr_readFull_ok lr k b lr' :
  lr_readFull lr k = (b, lr', None) ->
  lr_R lr = b ++ lr_R lr' /\ length b = k /\ lr_N lr' = lr_N lr - Z.of_nat k.
Proof.
  unfold lr_readFull. destruct (Nat.ltb_spec (length (take (Z.to_nat (lr_N lr)) (lr_R lr))) k) as [|H]; [done|].
  intros [= <- <-]. simpl. rewrite length_take in H. rewrite take_take, Nat.min_l by lia.
  rewrite take_drop, length_take. repeat split; lia.
Qed.

Lemma lr_readAll_ok lr b lr' :
  lr_readAll lr = (b, lr') -> lr_N lr' = 0 -> lr_R lr = b ++ lr_R lr' /\ lr_N lr = Z.of_nat (length b).
Proof.
  unfold lr_readAll. intros [= <- <-]. simpl. intros H. split; [|lia].
  rewrite length_take. destruct (decide (Z.to_nat (lr_N lr) <= length (lr_R lr))%nat).
  - by rewrite Nat.min_l, take_drop by lia.
  - rewrite Nat.min_r, drop_all, app_nil_r by lia. by rewrite firstn_all2 by lia.
Qed.

Lemma lr_readInt_ok lr k m set next m' lr' :
  lr_readInt lr k m set next = (m', lr', Done) ->
  exists b lr1, lr_R lr = b ++ lr_R lr1 /\ length b = k /\ lr_N lr1 = lr_N lr - Z.of_nat k /\
    next (set m (be_decode b)) lr1 = (m', lr', Done).
Proof.
  unfold lr_readInt. destruct (lr_readFull lr k) as [[b lr1] [e|]] eqn:E; [done|].
  apply lr_readFull_ok in E as (E1 & E2 & E3). eauto 10.
Qed.

Lemma be_encode_decode_len k b : length b = k -> be_encode k (be_decode b) = b.
Proof. intros <-. apply be_encode_decode. Qed.

(** Compute the fields of a message. *)
Ltac fields := cbn [pm_Keepalive pm_Type pm_Index pm_Begin pm_Length pm_Piece pm_BitField
  pm_ExtendedID pm_ExtendedPayload pm_Port pm_UnknownTypePayload set_Type set_Index set_Begin set_Length
  set_Piece set_BitField set_Extended set_Port set_Unknown zeroMessage].

(** What a successful [decodeBody] consumed is what [marshalBinaryType] writes. *)
Lemma decodeBody_exact t L lr m lr' :
  index_lost t = false -> 0 < L -> lr_N lr = L - 1 ->
  decodeBody (set_Type zeroMessage t) L lr = (m, lr', Done) -> lr_N lr' = 0 ->
  pm_Type m = t /\ pm_Keepalive m = false /\ lr_R lr = marshalBinaryType m ++ lr_R lr' /\
  L - 1 = Z.of_nat (length (marshalBinaryType m)).
Proof.
  intros Hlost HL HN. unfold decodeBody, marshalBinaryType. cbn [pm_Type set_Type zeroMessage].
  rewrite have_types by done.
  destruct (one_of t [MTypeChoke; _; _; _; _; _]) eqn:E0.
  { intros [= <- <-] Hz. fields. rewrite E0. simpl. repeat split; lia. }
  destruct (one_of t [MTypeHave]) eqn:E1.
  { intros H Hz. apply lr_readInt_ok in H as (b & lr1 & H1 & H2 & H3 & H). injection H as <- <-.
    fields. rewrite E0, E1, be_encode_decode_len by done. repeat split; [done|lia]. }
  destruct (one_of t [MTypeRequest; _; _]) eqn:E2.
  { intros H Hz. apply lr_readInt_ok in H as (b1 & lr1 & A1 & A2 & A3 & H).
    apply lr_readInt_ok in H as (b2 & lr2 & B1 & B2 & B3 & H).
    apply lr_readInt_ok in H as (b3 & lr3 & C1 & C2 & C3 & H). injection H as <- <-.
    fields. rewrite E0, E1, E2, !be_encode_decode_len by done. rewrite !length_app, A1, B1, C1, <- !app_assoc.
    repeat split; lia. }
  destruct (one_of t [MTypeBitField]) eqn:E3.
  { destruct (lr_readFull lr (Z.to_nat (L - 1))) as [[b lr1] [e|]] eqn:F; [done|]. intros [= <- <-] Hz.
    apply lr_readFull_ok in F as (F1 & F2 & F3). fields. rewrite E0, E1, E2, E3. repeat split; [done|lia]. }
  destruct (one_of t [MTypePiece]) eqn:E4.
  { intros H Hz. apply lr_readInt_ok in H as (b1 & lr1 & A1 & A2 & A3 & H).
    apply lr_readInt_ok in H as (b2 & lr2 & B1 & B2 & B3 & H).
    destruct (lr_readFull lr2 (Z.to_nat (lr_N lr2))) as [[b3 lr3] [e|]] eqn:F; [done|].
    injection H as <- <-. apply lr_readFull_ok in F as (C1 & C2 & C3).
    fields. rewrite E0, E1, E2, E3, E4, !be_encode_decode_len by done.
    rewrite !length_app, A1, B1, C1, <- !app_assoc. repeat split; lia. }
  destruct (one_of t [MTypeExtended]) eqn:E5.
  { unfold lr_readByte. destruct (lr_readFull lr 1) as [[b lr1] e] eqn:F.
    destruct b as [|b [|]], e as [e|]; try done.
    destruct (lr_readAll lr1) as [bs lr2] eqn:G. intros [= <- <-] Hz.
    apply lr_readFull_ok in F as (F1 & F2 & F3). apply lr_readAll_ok in G as [G1 G2]; [|done].
    fields. rewrite E0, E1, E2, E3, E4, E5, z2b_b2z, F1, G1. simpl. repeat split; lia. }
  destruct (one_of t [MTypePort]) eqn:E6.
  { intros H Hz. apply lr_readInt_ok in H as (b & lr1 & H1 & H2 & H3 & H). injection H as <- <-.
    fields. rewrite E0, E1, E2, E3, E4, E5, E6, be_encode_decode_len by done. repeat split; [done|lia]. }
  destruct (lr_readAll lr) as [bs lr2] eqn:G. intros [= <- <-] Hz. apply lr_readAll_ok in G as [G1 G2]; [|done].
  fields. rewrite E0, E1, E2, E3, E4, E5, E6. repeat split; [done|lia].
Qed.

(** [C20] Decoding accepts nothing but encodings: when [Decode] succeeds on a fresh message
    of any type but [Suggest] and [AllowedFast], the bytes it consumed are exactly the
    encoding of the message it returns, so no two byte strings are the same message, and
    the body respects the length limit. *)
Theorem peer_message_exact r maxLength m rest :
  DecodeToMessage r maxLength = (m, rest, Done) -> index_lost (pm_Type m) = false ->
  r = Message_Encode m ++ rest /\
  (0 < maxLength -> Z.of_nat (length (Message_Encode m)) - 4 <= maxLength).
Proof.
  unfold DecodeToMessage, Message_Decode, readFull. destruct (Nat.ltb_spec (length r) 4) as [|Hr].
  { by destruct (length r =? 0)%nat. }
  assert (Hb : length (take 4 r) = 4%nat) by (rewrite length_take; lia).
  set (b := take 4 r) in *. set (r' := drop 4 r).
  assert (Er : r = b ++ r') by (unfold b, r'; by rewrite take_drop).
  pose proof (be_decode_is_u32 b Hb) as [HL0 HL1].
  destruct (Z.eqb_spec (be_decode b) 0) as [E|E].
  { intros [= <- <-] _. change (Message_Encode (set_Keepalive zeroMessage true)) with (be_encode 4 0).
    split; [|simpl; lia]. rewrite Er. f_equal. rewrite <- (be_encode_decode_len 4 b Hb), E. done. }
  destruct ((0 <? maxLength) && (maxLength <? be_decode b)) eqn:Emax; [done|].
  unfold lr_readByte. destruct (lr_readFull (mkLR r' (be_decode b)) 1) as [[bt lr] e] eqn:F.
  destruct bt as [|bt [|]], e as [e|]; try done.
  apply lr_readFull_ok in F as (F1 & F2 & F3). simpl in F1, F3.
  destruct (decodeBody _ _ _) as [[m1 lr1] o] eqn:G. intros H Hlost.
  destruct o; try done. destruct (Z.eqb_spec (lr_N lr1) 0) as [Hz|]; [|done]. injection H as <- <-.
  change (set_Type (set_Keepalive zeroMessage false) (b2z bt)) with (set_Type zeroMessage (b2z bt)) in G.
  assert (Ht : pm_Type m1 = b2z bt).
  { clear -G. revert G. unfold decodeBody, lr_readInt. 
    repeat (case_match; simpl; try done; try (by intros [= <- <-])). }
  rewrite Ht in Hlost.
  destruct (decodeBody_exact (b2z bt) (be_decode b) lr m1 lr1 Hlost ltac:(lia) ltac:(lia) G Hz) as (_ & Hk & G1 & G2).
  unfold Message_Encode. rewrite Hk, Ht, z2b_b2z.
  assert (Hlen : Z.of_nat (length (bt :: marshalBinaryType m1)) = be_decode b) by (simpl; lia).
  rewrite Hlen, u32_id, be_encode_decode_len by done. split.
  - rewrite Er, F1, G1, <- app_assoc. done.
  - intros Hmax. rewrite length_app, Hb.
    apply andb_false_iff in Emax as [Em|Em]; [apply Z.ltb_ge in Em; lia|apply Z.ltb_ge in Em]. lia.
Qed.

Lemma peer_message_exact_witness :
  [x00; x00; x00; x03; x09; x1a; xe1] ++ B "more" = Message_Encode (set_Port (set_Type zeroMessage MTypePort) 6881) ++ B "more" /\
  (0 < 16 -> Z.of_nat (length (Message_Encode (set_Port (set_Type zeroMessage MTypePort) 6881))) - 4 <= 16).
Proof.
  apply (peer_message_exact ([x00; x00; x00; x03; x09; x1a; xe1] ++ B "more") 16
    (set_Port (set_Type zeroMessage MTypePort) 6881) (B "more")); vm_compute; reflexivity.
Defined.

(** ** Bit fields *)

Lemma land_bit a k : 0 <= k -> negb (Z.land a (Z.shiftl 1 k) =? 0) = Z.testbit a k.
Proof.
  intros Hk. rewrite Z.shiftl_1_l. destruct (Z.testbit a k) eqn:E.
  - apply negb_true_iff, Z.eqb_neq. intros H. apply (f_equal (fun z => Z.testbit z k)) in H.
    rewrite Z.land_spec, E, Z.pow2_bits_true, Z.bits_0 in H by done. done.
  - apply negb_false_iff, Z.eqb_eq, Z.bits_inj'. intros i Hi.
    rewrite Z.land_spec, Z.bits_0. destruct (decide (i = k)) as [->|]; [by rewrite E|].
    rewrite Z.pow2_bits_false by lia. apply andb_false_r.
Qed.

Lemma IsSet_testbit (bf : bytes) j :
  BitField_IsSet bf j =
  match bf !! Z.to_nat (j / 8) with Some b => Z.testbit (b2z b) (7 - j mod 8) | None => false end.
Proof.
  unfold BitField_IsSet, bit_mask. destruct (bf !! _); [|done].
  apply land_bit. pose proof (Z.mod_pos_bound j 8). lia.
Qed.

Lemma testbit_z2b z k : 0 <= k < 8 -> Z.testbit (b2z (z2b z)) k = Z.testbit z k.
Proof. intros Hk. rewrite b2z_z2b. change 256 with (2 ^ 8). apply Z.mod_pow2_bits_low. lia. Qed.

Lemma testbit_mask i k :
  0 <= k < 8 -> Z.testbit (bit_mask i) k = (k =? 7 - i mod 8).
Proof.
  intros Hk. unfold bit_mask. rewrite Z.shiftl_1_l. pose proof (Z.mod_pos_bound i 8 ltac:(lia)).
  destruct (Z.eqb_spec k (7 - i mod 8)) as [->|]; [by apply Z.pow2_bits_true; lia|].
  apply Z.pow2_bits_false. lia.
Qed.

Lemma same_bit i j : 0 <= i -> 0 <= j -> i / 8 = j / 8 -> (7 - j mod 8 =? 7 - i mod 8) = (i =? j).
Proof.
  intros Hi Hj E. destruct (Z.eqb_spec i j) as [->|Hne]; [apply Z.eqb_refl|].
  apply Z.eqb_neq. zdiv.
Qed.

(** Overwriting byte [i / 8] with [f]. *)
Lemma IsSet_update (bf : bytes) i j b f :
  0 <= i -> 0 <= j -> bf !! Z.to_nat (i / 8) = Some b ->
  BitField_IsSet (<[Z.to_nat (i / 8) := z2b f]> bf) j =
  if decide (i / 8 = j / 8) then Z.testbit f (7 - j mod 8) else BitField_IsSet bf j.
Proof.
  intros Hi Hj Hb. rewrite !IsSet_testbit. pose proof (Z.mod_pos_bound j 8 ltac:(lia)).
  pose proof (Z.div_pos i 8). pose proof (Z.div_pos j 8). case_decide as E.
  - rewrite E, list_lookup_insert_eq by (rewrite <- E; by eapply lookup_lt_Some).
    apply testbit_z2b. lia.
  - rewrite list_lookup_insert_ne by lia. done.
Qed.

Lemma CanSet_lookup bf i :
  0 <= i -> BitField_CanSet bf i = bool_decide (is_Some (bf !! Z.to_nat (i / 8))).
Proof.
  intros Hi. unfold BitField_CanSet. pose proof (Z.div_pos i 8).
  destruct (Z.ltb_spec (i / 8) (Z.of_nat (length bf))) as [H1|H1]; symmetry.
  - apply bool_decide_eq_true. apply lookup_lt_is_Some. lia.
  - apply bool_decide_eq_false. rewrite lookup_lt_is_Some. lia.
Qed.

(** A bit field is a set of piece indexes below eight times its length: [Set] adds the
    index when it is in range and says whether it was, [Unset] removes it, and neither
    touches another index or the length. *)
Theorem bitfield_set_laws bf i j :
  0 <= i -> 0 <= j ->
  BitField_IsSet (BitField_Set bf i).1 j = BitField_IsSet bf j || (BitField_CanSet bf i && (i =? j)) /\
  BitField_IsSet (BitField_Unset bf i).1 j = BitField_IsSet bf j && negb (i =? j) /\
  (BitField_Set bf i).2 = BitField_CanSet bf i /\ (BitField_Unset bf i).2 = BitField_CanSet bf i /\
  length (BitField_Set bf i).1 = length bf /\ length (BitField_Unset bf i).1 = length bf.
Proof.
  intros Hi Hj. rewrite CanSet_lookup by done. unfold BitField_Set, BitField_Unset.
  destruct (bf !! Z.to_nat (i / 8)) as [b|] eqn:E; cbn [fst snd].
  - rewrite !length_insert, (bool_decide_eq_true_2 (is_Some (Some b))) by eauto.
    rewrite !(IsSet_update bf i j b) by done. pose proof (Z.mod_pos_bound j 8 ltac:(lia)).
    case_decide as D.
    + rewrite IsSet_testbit, <- D, E, Z.lor_spec, Z.ldiff_spec, !testbit_mask, same_bit by (done || lia). done.
    + assert (i <> j) by congruence. destruct (Z.eqb_spec i j); [done|]. simpl.
      by rewrite orb_false_r, andb_true_r.
  - rewrite (bool_decide_eq_false_2 (is_Some None)) by (by intros []). simpl.
    rewrite orb_false_r. repeat split. destruct (Z.eqb_spec i j) as [->|]; simpl.
    + unfold BitField_IsSet. by rewrite E.
    + by rewrite andb_true_r.
Qed.

Lemma bitfield_set_laws_witness :
  let bf := NewBitField 10 false in
  BitField_IsSet (BitField_Set bf 9).1 9 = BitField_IsSet bf 9 || (BitField_CanSet bf 9 && (9 =? 9)) /\
  BitField_IsSet (BitField_Unset bf 9).1 9 = BitField_IsSet bf 9 && negb (9 =? 9) /\
  (BitField_Set bf 9).2 = BitField_CanSet bf 9 /\ (BitField_Unset bf 9).2 = BitField_CanSet bf 9 /\
  length (BitField_Set bf 9).1 = length bf /\ length (BitField_Unset bf 9).1 = length bf.
Proof. exact (bitfield_set_laws (NewBitField 10 false) 9 9 ltac:(lia) ltac:(lia)). Defined.

Lemma byte_bools_lookup b k : (k < 8)%nat -> byte_bools b !! k = Some (Z.testbit (b2z b) (7 - Z.of_nat k)).
Proof. intros Hk. do 8 (destruct k as [|k]; [destruct b; reflexivity|]). lia. Qed.

Lemma Bools_lookup bf k :
  (k < length bf * 8)%nat -> BitField_Bools bf !! k = Some (BitField_IsSet bf (Z.of_nat k)).
Proof.
  revert k. induction bf as [|b bf IH]; intros k Hk; simpl in Hk; [lia|].
  change (BitField_Bools (b :: bf)) with (byte_bools b ++ BitField_Bools bf).
  assert (Hl : length (byte_bools b) = 8%nat) by done. rewrite IsSet_testbit.
  destruct (decide (k < 8)%nat).
  - rewrite lookup_app_l by lia. rewrite byte_bools_lookup by done.
    rewrite Z.div_small, Z.mod_small by lia. done.
  - rewrite lookup_app_r by lia. rewrite Hl, IH by lia. f_equal. rewrite IsSet_testbit.
    replace (Z.of_nat k) with (Z.of_nat (k - 8) + 1 * 8) by lia.
    rewrite Z.div_add, Z.mod_add by lia.
    replace (Z.to_nat (Z.of_nat (k - 8) / 8 + 1)) with (S (Z.to_nat (Z.of_nat (k - 8) / 8))).
    + done.
    + pose proof (Z.div_pos (Z.of_nat (k - 8)) 8). lia.
Qed.

Lemma length_Bools bf : length (BitField_Bools bf) = (length bf * 8)%nat.
Proof. induction bf as [|b bf IH]; [done|]. simpl. unfold BitField_Bools in *. rewrite IH. lia. Qed.

Lemma fromBools_loop_spec bs bf i :
  0 <= i -> Z.of_nat (length bs) + i <= 8 * Z.of_nat (length bf) ->
  length (fromBools_loop bf i bs) = length bf /\
  forall j, 0 <= j ->
    BitField_IsSet (fromBools_loop bf i bs) j
    = BitField_IsSet bf j || ((i <=? j) && default false (bs !! Z.to_nat (j - i))).
Proof.
  revert bf i. induction bs as [|h bs IH]; intros bf i Hi Hl; simpl.
  - split; [done|]. intros j Hj. by rewrite andb_false_r, orb_false_r.
  - simpl in Hl. set (bf1 := if h then (BitField_Set bf i).1 else bf).
    assert (Hl1 : length bf1 = length bf) by (unfold bf1; destruct h; [by apply (bitfield_set_laws bf i i)|done]).
    destruct (IH bf1 (i + 1)) as [IH1 IH2]; [lia|lia|]. split; [congruence|]. intros j Hj.
    rewrite IH2 by done.
    assert (BitField_IsSet bf1 j = BitField_IsSet bf j || (h && (i =? j))) as ->.
    { unfold bf1. destruct h; simpl; [|by rewrite orb_false_r].
      destruct (bitfield_set_laws bf i j Hi Hj) as [-> _]. f_equal.
      unfold BitField_CanSet. destruct (Z.ltb_spec (i / 8) (Z.of_nat (length bf))); [done|]. zdiv. }
    rewrite <- orb_assoc. f_equal.
    destruct (Z.eqb_spec i j) as [->|Hne].
    + rewrite Z.sub_diag. simpl. rewrite andb_true_r.
      destruct (Z.leb_spec (j + 1) j); [lia|]. destruct (Z.leb_spec j j); [|lia]. simpl. by rewrite orb_false_r.
    + rewrite andb_false_r. simpl.
      destruct (Z.leb_spec (i + 1) j), (Z.leb_spec i j); try lia; simpl.
      replace (Z.to_nat (j - i)) with (S (Z.to_nat (j - (i + 1)))) by lia. done.
Qed.

(** A list of booleans and its bit field agree: [NewBitFieldFromBools] followed by
    [Bools] gives the list back, completed with [false] to a whole number of bytes. *)
Theorem bitfield_bools_roundtrip bs :
  BitField_Bools (NewBitFieldFromBools bs)
  = bs ++ replicate ((length bs + 7) / 8 * 8 - length bs) false.
Proof.
  assert (Hq : (length bs <= (length bs + 7) / 8 * 8)%nat).
  { pose proof (Nat.div_mod (length bs + 7) 8 ltac:(lia)).
    pose proof (Nat.mod_upper_bound (length bs + 7) 8 ltac:(lia)). lia. }
  unfold NewBitFieldFromBools. set (bf0 := NewBitField (length bs) false).
  assert (Hl0 : length bf0 = ((length bs + 7) / 8)%nat) by apply length_replicate.
  destruct (fromBools_loop_spec bs bf0 0) as [Hl Hs]; [lia|lia|].
  apply list_eq. intros k. destruct (decide (k < length bf0 * 8)%nat) as [Hk|Hk].
  - rewrite Bools_lookup, Hs by lia.
    assert (BitField_IsSet bf0 (Z.of_nat k) = false) as ->.
    { rewrite IsSet_testbit. unfold bf0, NewBitField. destruct (replicate _ _ !! _) as [b|] eqn:E; [|done].
      apply lookup_replicate in E as [-> _]. simpl. apply Z.bits_0. }
    replace (Z.to_nat (Z.of_nat k - 0)) with k by lia.
    destruct (Z.leb_spec 0 (Z.of_nat k)); [|lia]. cbn [orb andb].
    destruct (decide (k < length bs)%nat).
    + rewrite lookup_app_l by done. destruct (lookup_lt_is_Some_2 bs k ltac:(done)) as [x ->]. done.
    + rewrite lookup_app_r, (lookup_ge_None_2 bs) by lia. symmetry. apply lookup_replicate. split; [done|].
      rewrite Hl0 in Hk. lia.
  - rewrite lookup_ge_None_2 by (rewrite length_Bools; lia).
    rewrite lookup_ge_None_2; [done|]. rewrite length_app, length_replicate. lia.
Qed.

(** ** Piece lists *)

Lemma insert_sorted_perm x l : insert_sorted x l ≡ₚ x :: l.
Proof. induction l as [|y l IH]; simpl; [done|]. destruct (y <? x); [|done]. rewrite IH. apply perm_swap. Qed.
Lemma insert_sorted_sorted x l : StronglySorted Z.le l -> StronglySorted Z.le (insert_sorted x l).
Proof.
  induction 1 as [|y l Hs IH Hy]; simpl; [repeat constructor|].
  destruct (Z.ltb_spec y x).
  - constructor; [done|]. rewrite insert_sorted_perm. constructor; [lia|done].
  - constructor; [by constructor|]. constructor; [lia|]. eapply Forall_impl; [exact Hy|]. simpl. lia.
Qed.
Lemma Pieces_Sort_perm ps : Pieces_Sort ps ≡ₚ ps.
Proof. induction ps as [|p ps IH]; simpl; [done|]. rewrite insert_sorted_perm. by f_equiv. Qed.
Lemma Pieces_Sort_sorted ps : StronglySorted Z.le (Pieces_Sort ps).
Proof. induction ps; simpl; [constructor|]. by apply insert_sorted_sorted. Qed.

Lemma existsb_elem x (l : list Z) : existsb (Z.eqb x) l = bool_decide (x ∈ l).
Proof.
  destruct (existsb (Z.eqb x) l) eqn:E; symmetry.
  - apply bool_decide_eq_true. apply existsb_exists in E as (y & H1 & H2).
    apply Z.eqb_eq in H2. subst. by apply list_elem_of_In.
  - apply bool_decide_eq_false. intros H. rewrite <- not_true_iff_false in E. apply E.
    apply existsb_exists. exists x. split; [by apply list_elem_of_In|apply Z.eqb_refl].
Qed.

Lemma Pieces_Append_spec ps index :
  StronglySorted Z.le ps -> NoDup ps ->
  StronglySorted Z.le (Pieces_Append ps index) /\ NoDup (Pieces_Append ps index) /\
  (forall x, x ∈ Pieces_Append ps index <-> x = index \/ x ∈ ps).
Proof.
  intros Hs Hn. unfold Pieces_Append. rewrite existsb_elem. case_bool_decide as E.
  - split; [done|]. split; [done|]. intros x. split; [by right|]. by intros [-> |].
  - split; [apply Pieces_Sort_sorted|]. split.
    + rewrite Pieces_Sort_perm. apply NoDup_app. split; [done|]. split; [set_solver|apply NoDup_singleton].
    + intros x. rewrite Pieces_Sort_perm. set_solver.
Qed.

(** ** Names *)

(** The text of a message type tells which of the 256 it is. *)
Lemma MessageType_String_inj a b :
  is_u8 a -> is_u8 b -> MessageType_String a = MessageType_String b -> a = b.
Proof.
  intros Ha Hb E.
  assert (Hall : NoDup (map (fun i => MessageType_String (Z.of_nat i)) (seq 0 256)))
    by (apply (bool_decide_eq_true_1 _); vm_compute; reflexivity).
  assert (L : forall z, is_u8 z -> map (fun i => MessageType_String (Z.of_nat i)) (seq 0 256) !! Z.to_nat z
                                   = Some (MessageType_String z)).
  { intros z Hz. unfold is_u8 in Hz. rewrite list_lookup_fmap, lookup_seq_lt by lia. simpl. by rewrite Z2Nat.id by lia. }
  pose proof (L a Ha) as La. pose proof (L b Hb) as Lb. rewrite E in La.
  pose proof (NoDup_lookup _ _ _ _ Hall La Lb). unfold is_u8 in *. lia.
Qed.
