(* ===== verification/PeerConn.v ===== *)
(** * Connections of the peer protocol

    peerprotocol/handshake.go, peerprotocol/extension.go, peerprotocol/fastset.go and
    peerprotocol/peerconn.go; of peerprotocol/server.go only how a connection is made
    ([newServerConn]), the server itself is in [PeerServer].

    A [PeerConn] holds the bytes the peer will still send ([pc_in]) and those already
    sent to it ([pc_out]); the reads of the code consume the first, its writes append to
    the second.  Whether a write succeeds is a parameter.  A [Handler] is the set of
    optional interfaces it implements and what its methods do to the connection. *)

From S2P Require Import Prelude GoBytes GoNet GoCrypto GoTime Bencode Codec Hash PeerMessage.

(** ** Extension bits (handshake.go) *)

Definition ExtensionBitDHT : Z := 0.
Definition ExtensionBitFast : Z := 2.
Definition ExtensionBitExtended : Z := 20.

(** An array of eight bytes. *)
Definition ExtensionBits : Type := bytes.
Definition zeroExtensionBits : ExtensionBits := replicate 8 x00.

(** The index [7 - bit/8] is unsigned: a bit above 63 is out of range and panics. *)
Definition ext_update (f : Z -> Z -> Z) (eb : ExtensionBits) (bit : Z) : option ExtensionBits :=
  if bit <? 64 then
    let i := Z.to_nat (7 - bit / 8) in
    match eb !! i with
    | Some b => Some (<[i := z2b (f (b2z b) (Z.shiftl 1 (bit mod 8)))]> eb)
    | None => None
    end
  else None.
Definition ExtensionBits_Set : ExtensionBits -> Z -> option ExtensionBits := ext_update Z.lor.
Definition ExtensionBits_Unset : ExtensionBits -> Z -> option ExtensionBits := ext_update Z.ldiff.
Definition ExtensionBits_IsSet (eb : ExtensionBits) (bit : Z) : bool :=
  match eb !! Z.to_nat (7 - bit / 8) with
  | Some b => negb (Z.land (b2z b) (Z.shiftl 1 (bit mod 8)) =? 0)
  | None => false
  end.
Definition IsSupportDHT (eb : ExtensionBits) : bool := ExtensionBits_IsSet eb ExtensionBitDHT.
Definition IsSupportFast (eb : ExtensionBits) : bool := ExtensionBits_IsSet eb ExtensionBitFast.
Definition IsSupportExtended (eb : ExtensionBits) : bool := ExtensionBits_IsSet eb ExtensionBitExtended.

(** ** The handshake *)

Definition ProtocolHeader : bytes := x13 :: B "BitTorrent protocol".
Definition errInvalidProtocolHeader : error := Errorf "unexpected peer protocol header string".

Record HandshakeMsg : Type := mkHandshakeMsg {
  hm_ExtensionBits : ExtensionBits;
  hm_PeerID : Hash;
  hm_InfoHash : Hash;
}.
#[export] Instance HandshakeMsg_eq_dec : EqDecision HandshakeMsg.
Proof. solve_decision. Defined.
Definition NewHandshakeMsg (peerID infoHash : Hash) (es : list ExtensionBits) : HandshakeMsg :=
  mkHandshakeMsg (default zeroExtensionBits (head es)) peerID infoHash.
Definition zeroHandshakeMsg : HandshakeMsg := mkHandshakeMsg zeroExtensionBits zeroHash zeroHash.

(** [getPeerHandshakeMsg]: the message, the rest of the input, the error. *)
Definition getPeerHandshakeMsg (sock : bytes) : HandshakeMsg * bytes * option error :=
  let '(b, rest, err) := readFull 68 sock in
  match err with
  | Some e => (zeroHandshakeMsg, rest, Some e)
  | None =>
      if negb (bool_decide (take 20 b = ProtocolHeader))
      then (zeroHandshakeMsg, rest, Some errInvalidProtocolHeader)
      else (mkHandshakeMsg (take 8 (drop 20 b)) (take 20 (drop 48 b)) (take 20 (drop 28 b)), rest, None)
  end.

Definition handshake_bytes (msg : HandshakeMsg) : bytes :=
  ProtocolHeader ++ hm_ExtensionBits msg ++ hm_InfoHash msg ++ hm_PeerID msg.

(** [Handshake(sock, msg)]: the peer's message, the rest of the input, what was written, the
    error (on a socket whose writes succeed). *)
Definition Handshake (sock : bytes) (msg : HandshakeMsg)
    : HandshakeMsg * bytes * bytes * option error :=
  if Hash_IsZero (hm_InfoHash msg) then
    let '(ret, rest, err) := getPeerHandshakeMsg sock in
    match err with
    | Some e => (ret, rest, [], Some e)
    | None =>
        (ret, rest, handshake_bytes (mkHandshakeMsg (hm_ExtensionBits msg) (hm_PeerID msg) (hm_InfoHash ret)), None)
    end
  else
    let '(ret, rest, err) := getPeerHandshakeMsg sock in (ret, rest, handshake_bytes msg, err).

(** ** Extended messages (extension.go) *)

Definition ExtendedIDHandshake : Z := 0.
Definition errInvalidIP : error := Errorf "invalid ipv4 or ipv6".

Definition val_IP (v : gval) : IP := match v with VBytes ip => ip | _ => [] end.

(** [net.IP] has text methods, so package [bencode] writes an address as the string of its
    text. *)
Definition IPT : gtype :=
  TNamed (Methods None
    (Some (fun v text => let '(ip, err) := IP_UnmarshalText (val_IP v) text in
                        (VBytes ip, match err with None => Ok tt | Some e => Err e end)))
    None (Some (fun v => IP_MarshalText (val_IP v)))) TBytes.

Definition CompactIP_MarshalBencode (ci : IP) : res bytes :=
  let ip := if negb (length (To4 ci) =? 0)%nat then To4 ci else ci in
  EncodeBytes IPT (VBytes ip).
Definition CompactIP_UnmarshalBencode (ci : IP) (b : bytes) : recv IP :=
  match DecodeBytes b IPT (VBytes []) with
  | (v, Done) =>
      let ip := val_IP v in
      if (length ip =? 4)%nat || (length ip =? 16)%nat
      then (if negb (length (To4 ip) =? 0)%nat then To4 ip else ip, Done)
      else (ci, Fail errInvalidIP)
  | (_, o) => (ci, o)
  end.
Definition CompactIPT : gtype :=
  bencodeT val_IP VBytes TBytes CompactIP_UnmarshalBencode CompactIP_MarshalBencode.

Record ExtendedHandshakeMsg : Type := mkExtHandshake {
  eh_M : list (bytes * Z);
  eh_V : bytes;
  eh_Reqq : Z;
  eh_Port : Z;
  eh_IPv6 : IP;
  eh_IPv4 : IP;
  eh_YourIP : IP;
  eh_MetadataSize : Z;
}.
Definition zeroExtHandshake : ExtendedHandshakeMsg := mkExtHandshake [] [] 0 0 [] [] [] 0.
Definition ExtHandshakeT : gtype := TStruct [
  exported (B "M") (B "m") (TMap None (TUint 8));
  exported (B "V") (B "v,omitempty") TString;
  exported (B "Reqq") (B "reqq,omitempty") (TUint 64);
  exported (B "Port") (B "p,omitempty") (TUint 16);
  exported (B "IPv6") (B "ipv6,omitempty") IPT;
  exported (B "IPv4") (B "ipv4,omitempty") CompactIPT;
  exported (B "YourIP") (B "yourip,omitempty") CompactIPT;
  exported (B "MetadataSize") (B "metadata_size,omitempty") (TUint 64)].
Definition ExtHandshake_val (m : ExtendedHandshakeMsg) : gval :=
  VStruct [VMap (map (fun kv => (fst kv, VUint (snd kv))) (eh_M m)); VString (eh_V m);
           VUint (eh_Reqq m); VUint (eh_Port m); VBytes (eh_IPv6 m); VBytes (eh_IPv4 m);
           VBytes (eh_YourIP m); VUint (eh_MetadataSize m)].
Definition val_ExtHandshake (v : gval) : ExtendedHandshakeMsg :=
  match v with
  | VStruct [VMap m; VString s; VUint q; VUint p; VBytes ip6; VBytes ip4; VBytes your; VUint z] =>
      mkExtHandshake (map (fun kv => (fst kv, match snd kv with VUint z => z | _ => 0 end)) m) s q p
        ip6 ip4 your z
  | _ => zeroExtHandshake
  end.
Definition ExtHandshake_Decode (m : ExtendedHandshakeMsg) (b : bytes) : recv ExtendedHandshakeMsg :=
  let '(v, o) := DecodeBytes b ExtHandshakeT (ExtHandshake_val m) in (val_ExtHandshake v, o).
(** [Encode] hands its buffer out only when the encoder failed. *)
Definition ExtHandshake_Encode (m : ExtendedHandshakeMsg) : bytes * outcome :=
  let '(b, o) := Encode ExtHandshakeT (ExtHandshake_val m) in
  match o with Fail e => (b, Fail e) | o => ([], o) end.

Record UtMetadataExtendedMsg : Type := mkUtMetadata {
  um_MsgType : Z;
  um_Piece : Z;
  um_TotalSize : Z;
  um_Data : bytes;
}.
Definition UtMetadataT : gtype := TStruct [
  exported (B "MsgType") (B "msg_type") (TUint 8);
  exported (B "Piece") (B "piece") (TInt 64);
  exported (B "TotalSize") (B "total_size,omitempty") (TUint 64);
  exported (B "Data") (B "-") TBytes].
Definition UtMetadata_val (um : UtMetadataExtendedMsg) : gval :=
  VStruct [VUint (um_MsgType um); VInt (um_Piece um); VUint (um_TotalSize um); VBytes (um_Data um)].
Definition val_UtMetadata (v : gval) : UtMetadataExtendedMsg :=
  match v with
  | VStruct [VUint t; VInt p; VUint z; VBytes d] => mkUtMetadata t p z d
  | _ => mkUtMetadata 0 0 0 []
  end.
Definition UtMetadataExtendedMsgTypeData : Z := 1.

Definition EncodeToPayload (um : UtMetadataExtendedMsg) : res bytes :=
  let um := if negb (um_MsgType um =? UtMetadataExtendedMsgTypeData)
            then mkUtMetadata (um_MsgType um) (um_Piece um) 0 [] else um in
  let! b := EncodeBytes UtMetadataT (UtMetadata_val um) in Ok (b ++ um_Data um).

Definition DecodeFromPayload (um : UtMetadataExtendedMsg) (b : bytes) : recv UtMetadataExtendedMsg :=
  let '(d, v, o) := Decode (NewDecoder b) (TPtr UtMetadataT) (VPtr (Some (UtMetadata_val um))) in
  match v with
  | VPtr (Some v) =>
      let um := val_UtMetadata v in
      match o with
      | Done => (mkUtMetadata (um_MsgType um) (um_Piece um) (um_TotalSize um)
                   (drop (Z.to_nat (BytesParsed d)) b), Done)
      | o => (um, o)
      end
  | _ => (um, o)
  end.

Definition EncodeToBytes (um : UtMetadataExtendedMsg) : res bytes := EncodeToPayload um.

(** [Message.UtMetadataExtendedMsg] of message.go. *)
Definition Message_UtMetadataExtendedMsg (m : Message) : recv UtMetadataExtendedMsg :=
  if negb (pm_Type m =? MTypeExtended) then (mkUtMetadata 0 0 0 [], Panicked)
  else DecodeFromPayload (mkUtMetadata 0 0 0 []) (pm_ExtendedPayload m).

(** ** The allowed fast set (fastset.go) *)

Definition uint32Contains (ss : list Z) (s : Z) : bool := existsb (Z.eqb s) ss.

(** The inner loop over the five words of one digest. *)
Fixpoint fastset_inner (ws : list Z) (sz : Z) (set : list Z) (cur : nat) : list Z * nat :=
  match ws with
  | [] => (set, cur)
  | y :: ws =>
      if (cur <? length set)%nat then
        let index := y mod sz in
        if negb (uint32Contains set index) then fastset_inner ws sz (<[cur := index]> set) (S cur)
        else fastset_inner ws sz set cur
      else (set, cur)
  end.

(** The outer loop; [None] when it has not ended within [fuel] digests. *)
Fixpoint fastset_loop (fuel : nat) (x : bytes) (sz : Z) (set : list Z) (cur : nat) : option (list Z) :=
  if (cur <? length set)%nat then
    match fuel with
    | O => None
    | S fuel =>
        let x := Sha1.Sum x in
        let '(set, cur) := fastset_inner (map be_decode (chunks 4 x)) sz set cur in
        fastset_loop fuel x sz set cur
    end
  else Some set.

Definition fastset_seed (ip : IP) (infohash : Hash) : bytes :=
  let ip := if negb (length (To4 ip) =? 0)%nat then To4 ip else ip in
  take (length ip - 1) ip ++ replicate (Nat.min 1 (length ip)) x00 ++ infohash.

(** [y % sz] panics when there are no pieces. *)
Definition GenerateAllowedFastSet (fuel : nat) (set : list Z) (sz : Z) (ip : IP) (infohash : Hash)
    : option (res (list Z)) :=
  if (0 <? length set)%nat && (sz =? 0) then Some Panic
  else option_map Ok (fastset_loop fuel (fastset_seed ip infohash) sz set 0).

(** The first test vector of BEP 6. *)
Example fastset_bep6 :
  GenerateAllowedFastSet 3 (replicate 7 0) 1313 [x50; x04; x04; xc8] (replicate 20 xaa)
  = Some (Ok [1059; 431; 808; 1217; 287; 376; 1188]).
Proof. vm_compute. reflexivity. Qed.

(** ** Connections (peerconn.go) *)

Inductive ConnStage : Type := ConnStageConnected | ConnStageHandshook | ConnStageMessage.
#[export] Instance ConnStage_eq_dec : EqDecision ConnStage.
Proof. solve_decision. Defined.
Definition ConnStage_String (s : ConnStage) : bytes :=
  match s with
  | ConnStageConnected => B "connected"
  | ConnStageHandshook => B "handshook"
  | ConnStageMessage => B "message"
  end.
Definition IsConnected (s : ConnStage) : bool := bool_decide (s = ConnStageConnected).
Definition IsHandshook (s : ConnStage) : bool := bool_decide (s = ConnStageHandshook).
Definition IsMessage (s : ConnStage) : bool := bool_decide (s = ConnStageMessage).

Record PeerConn : Type := mkPeerConn {
  pc_in : bytes;
  pc_out : bytes;
  pc_InfoHash : Hash;
  pc_ID : Hash;
  pc_ExtBits : ExtensionBits;
  pc_PeerID : Hash;
  pc_PeerExtBits : ExtensionBits;
  pc_PeerStage : ConnStage;
  pc_Choked : bool;
  pc_Interested : bool;
  pc_PeerChoked : bool;
  pc_PeerInterested : bool;
  pc_MaxLength : Z;
  pc_Fasts : Pieces;
  pc_Suggests : Pieces;
  pc_BitField : BitField;
  pc_ExtHandshake : ExtendedHandshakeMsg;
}.

Definition NewPeerConn (input : bytes) (id infohash : Hash) : PeerConn :=
  mkPeerConn input [] infohash id zeroExtensionBits zeroHash zeroExtensionBits ConnStageConnected
    true false true false (256 * 1024) [] [] [] zeroExtHandshake.

(** [DialTimeout "tcp"] gives what the peer will send, or an error. *)
Definition NewPeerConnByDial (DialTimeout : bytes -> Z -> error + bytes) (addr : bytes) (id infohash : Hash)
    (dialTimeout : Z) : error + PeerConn :=
  match DialTimeout addr dialTimeout with
  | inl e => inl e
  | inr input => inr (NewPeerConn input id infohash)
  end.

Definition pc_set_io (pc : PeerConn) (i o : bytes) : PeerConn :=
  mkPeerConn i o (pc_InfoHash pc) (pc_ID pc) (pc_ExtBits pc) (pc_PeerID pc) (pc_PeerExtBits pc)
    (pc_PeerStage pc) (pc_Choked pc) (pc_Interested pc) (pc_PeerChoked pc) (pc_PeerInterested pc)
    (pc_MaxLength pc) (pc_Fasts pc) (pc_Suggests pc) (pc_BitField pc) (pc_ExtHandshake pc).
Definition pc_set_peer (pc : PeerConn) (h : Hash) (id : Hash) (bits : ExtensionBits) : PeerConn :=
  mkPeerConn (pc_in pc) (pc_out pc) h (pc_ID pc) (pc_ExtBits pc) id bits
    (pc_PeerStage pc) (pc_Choked pc) (pc_Interested pc) (pc_PeerChoked pc) (pc_PeerInterested pc)
    (pc_MaxLength pc) (pc_Fasts pc) (pc_Suggests pc) (pc_BitField pc) (pc_ExtHandshake pc).
Definition pc_set_stage (pc : PeerConn) (s : ConnStage) : PeerConn :=
  mkPeerConn (pc_in pc) (pc_out pc) (pc_InfoHash pc) (pc_ID pc) (pc_ExtBits pc) (pc_PeerID pc)
    (pc_PeerExtBits pc) s (pc_Choked pc) (pc_Interested pc) (pc_PeerChoked pc) (pc_PeerInterested pc)
    (pc_MaxLength pc) (pc_Fasts pc) (pc_Suggests pc) (pc_BitField pc) (pc_ExtHandshake pc).
Definition pc_set_local (pc : PeerConn) (choked interested : bool) : PeerConn :=
  mkPeerConn (pc_in pc) (pc_out pc) (pc_InfoHash pc) (pc_ID pc) (pc_ExtBits pc) (pc_PeerID pc)
    (pc_PeerExtBits pc) (pc_PeerStage pc) choked interested (pc_PeerChoked pc) (pc_PeerInterested pc)
    (pc_MaxLength pc) (pc_Fasts pc) (pc_Suggests pc) (pc_BitField pc) (pc_ExtHandshake pc).
Definition pc_set_remote (pc : PeerConn) (choked interested : bool) : PeerConn :=
  mkPeerConn (pc_in pc) (pc_out pc) (pc_InfoHash pc) (pc_ID pc) (pc_ExtBits pc) (pc_PeerID pc)
    (pc_PeerExtBits pc) (pc_PeerStage pc) (pc_Choked pc) (pc_Interested pc) choked interested
    (pc_MaxLength pc) (pc_Fasts pc) (pc_Suggests pc) (pc_BitField pc) (pc_ExtHandshake pc).
Definition pc_set_lists (pc : PeerConn) (fasts suggests : Pieces) (bf : BitField) : PeerConn :=
  mkPeerConn (pc_in pc) (pc_out pc) (pc_InfoHash pc) (pc_ID pc) (pc_ExtBits pc) (pc_PeerID pc)
    (pc_PeerExtBits pc) (pc_PeerStage pc) (pc_Choked pc) (pc_Interested pc) (pc_PeerChoked pc)
    (pc_PeerInterested pc) (pc_MaxLength pc) fasts suggests bf (pc_ExtHandshake pc).
Definition pc_set_ext (pc : PeerConn) (x : ExtendedHandshakeMsg) : PeerConn :=
  mkPeerConn (pc_in pc) (pc_out pc) (pc_InfoHash pc) (pc_ID pc) (pc_ExtBits pc) (pc_PeerID pc)
    (pc_PeerExtBits pc) (pc_PeerStage pc) (pc_Choked pc) (pc_Interested pc) (pc_PeerChoked pc)
    (pc_PeerInterested pc) (pc_MaxLength pc) (pc_Fasts pc) (pc_Suggests pc) (pc_BitField pc) x.

(** The read and write deadlines of the socket; [zeroTime] is none.  [SetTimeout] sets the
    deadlines and then, in every case, clears them. *)
Definition SetDeadline (deadlines : Z * Z) (t : Z) : Z * Z := (t, t).
Definition SetReadDeadline (deadlines : Z * Z) (t : Z) : Z * Z := (t, deadlines.2).
Definition SetWriteDeadline (deadlines : Z * Z) (t : Z) : Z * Z := (deadlines.1, t).
Definition SetTimeout (deadlines : Z * Z) (timeout now : Z) : Z * Z :=
  let deadlines := if 0 <? timeout then SetDeadline deadlines (now + timeout) else deadlines in
  SetDeadline deadlines zeroTime.
Definition SetReadTimeout (deadlines : Z * Z) (timeout now : Z) : Z * Z :=
  let deadlines := if 0 <? timeout then SetReadDeadline deadlines (now + timeout) else deadlines in
  SetReadDeadline deadlines zeroTime.
Definition SetWriteTimeout (deadlines : Z * Z) (timeout now : Z) : Z * Z :=
  let deadlines := if 0 <? timeout then SetWriteDeadline deadlines (now + timeout) else deadlines in
  SetWriteDeadline deadlines zeroTime.
(** [setReadTimeout] and [setWriteTimeout], which run before every read and write. *)
Definition set_read_timeout (deadlines : Z * Z) (ReadTimeout Timeout now : Z) : Z * Z :=
  if 0 <? ReadTimeout then SetReadTimeout deadlines ReadTimeout now
  else if 0 <? Timeout then SetReadTimeout deadlines Timeout now else deadlines.
Definition set_write_timeout (deadlines : Z * Z) (WriteTimeout Timeout now : Z) : Z * Z :=
  if 0 <? WriteTimeout then SetWriteTimeout deadlines WriteTimeout now
  else if 0 <? Timeout then SetWriteTimeout deadlines Timeout now else deadlines.

Definition PeerConn_Handshake (pc : PeerConn) : PeerConn * option error :=
  if negb (bool_decide (pc_PeerStage pc = ConnStageConnected))
  then (pc, Some (Errorf "the peer connection stage is not connected"))
  else
    let m := mkHandshakeMsg (pc_ExtBits pc) (pc_ID pc) (pc_InfoHash pc) in
    let '(rhm, rest, sent, err) := Handshake (pc_in pc) m in
    let pc := pc_set_io pc rest (pc_out pc ++ sent) in
    match err with
    | Some e => (pc, Some e)
    | None =>
        let pc := pc_set_peer pc (pc_InfoHash pc) (hm_PeerID rhm) (hm_ExtensionBits rhm) in
        if Hash_IsZero (pc_InfoHash pc) then
          (pc_set_stage (pc_set_peer pc (hm_InfoHash rhm) (hm_PeerID rhm) (hm_ExtensionBits rhm))
             ConnStageHandshook, None)
        else if negb (bool_decide (pc_InfoHash pc = hm_InfoHash rhm))
        then (pc, Some (Errorf "inconsistent infohash"))
        else (pc_set_stage pc ConnStageHandshook, None)
    end.

Definition ReadMsg (pc : PeerConn) : PeerConn * Message * outcome :=
  let '(m, rest, o) := Message_Decode zeroMessage (pc_in pc) (pc_MaxLength pc) in
  let pc := pc_set_io pc rest (pc_out pc) in
  match o with
  | Done =>
      if one_of (pm_Type m) [MTypeBitField; MTypeHaveAll; MTypeHaveNone] && negb (IsHandshook (pc_PeerStage pc))
      then (pc, m, Fail (Errorf "is not first message after handshake"))
      else (if IsHandshook (pc_PeerStage pc) then pc_set_stage pc ConnStageMessage else pc, m, Done)
  | o => (pc, m, o)
  end.

Section Write.
(** [Conn.Write] (how many bytes it took, and its error) and the hook [OnWriteMsg]. *)
Variable connWrite : bytes -> nat * option error.
Variable OnWriteMsg : option (PeerConn -> Message -> PeerConn * option error).

Definition WriteMsg (pc : PeerConn) (m : Message) : PeerConn * option error :=
  match OnWriteMsg with
  | Some f => f pc m
  | None =>
      let b := Message_Encode m in
      let '(n, err) := connWrite b in
      (pc_set_io pc (pc_in pc) (pc_out pc ++ take n b),
       match err with
       | Some e => Some e
       | None => if (n <? length b)%nat then Some ErrShortWrite else None
       end)
  end.

Definition msgOf (t : Z) : Message := set_Type zeroMessage t.
Definition SendKeepalive (pc : PeerConn) := WriteMsg pc (set_Keepalive zeroMessage true).
Definition SendChoke (pc : PeerConn) := WriteMsg pc (msgOf MTypeChoke).
Definition SendUnchoke (pc : PeerConn) := WriteMsg pc (msgOf MTypeUnchoke).
Definition SendInterested (pc : PeerConn) := WriteMsg pc (msgOf MTypeInterested).
Definition SendNotInterested (pc : PeerConn) := WriteMsg pc (msgOf MTypeNotInterested).
Definition SendBitfield (pc : PeerConn) (bits : BitField) := WriteMsg pc (set_BitField (msgOf MTypeBitField) bits).
Definition SendHave (pc : PeerConn) (index : Z) := WriteMsg pc (set_Index (msgOf MTypeHave) index).
Definition block_msg (t index begin length : Z) : Message :=
  set_Length (set_Begin (set_Index (msgOf t) index) begin) length.
Definition SendRequest (pc : PeerConn) (index begin length : Z) := WriteMsg pc (block_msg MTypeRequest index begin length).
Definition SendCancel (pc : PeerConn) (index begin length : Z) := WriteMsg pc (block_msg MTypeCancel index begin length).
Definition SendReject (pc : PeerConn) (index begin length : Z) := WriteMsg pc (block_msg MTypeReject index begin length).
Definition SendPiece (pc : PeerConn) (index begin : Z) (piece : bytes) :=
  WriteMsg pc (set_Piece (set_Begin (set_Index (msgOf MTypePiece) index) begin) piece).
Definition SendPort (pc : PeerConn) (port : Z) := WriteMsg pc (set_Port (msgOf MTypePort) port).
Definition SendHaveAll (pc : PeerConn) := WriteMsg pc (msgOf MTypeHaveAll).
Definition SendHaveNone (pc : PeerConn) := WriteMsg pc (msgOf MTypeHaveNone).
Definition SendSuggest (pc : PeerConn) (index : Z) := WriteMsg pc (set_Index (msgOf MTypeSuggest) index).
Definition SendAllowedFast (pc : PeerConn) (index : Z) := WriteMsg pc (set_Index (msgOf MTypeAllowedFast) index).
Definition SendExtMsg (pc : PeerConn) (extID : Z) (payload : bytes) :=
  WriteMsg pc (set_Extended (msgOf MTypeExtended) extID payload).
(** [Panic]: the encoder panicked, before anything was written. *)
Definition SendExtHandshakeMsg (pc : PeerConn) (m : ExtendedHandshakeMsg) : res (PeerConn * option error) :=
  match EncodeBytes ExtHandshakeT (ExtHandshake_val m) with
  | Ok b => Ok (SendExtMsg pc ExtendedIDHandshake b)
  | Err e => Ok (pc, Some e)
  | Panic => Panic
  end.

(** [SetChoked] and the like: the message first, then the flag, and only when it went out. *)
Definition set_local_flag (pc : PeerConn) (todo : bool) (send : PeerConn -> PeerConn * option error)
    (set : PeerConn -> PeerConn) : PeerConn * option error :=
  if todo then
    let '(pc, err) := send pc in
    match err with Some e => (pc, Some e) | None => (set pc, None) end
  else (pc, None).
Definition SetChoked (pc : PeerConn) := set_local_flag pc (negb (pc_Choked pc)) SendChoke
  (fun pc => pc_set_local pc true (pc_Interested pc)).
Definition SetUnchoked (pc : PeerConn) := set_local_flag pc (pc_Choked pc) SendUnchoke
  (fun pc => pc_set_local pc false (pc_Interested pc)).
Definition SetInterested (pc : PeerConn) := set_local_flag pc (negb (pc_Interested pc)) SendInterested
  (fun pc => pc_set_local pc (pc_Choked pc) true).
Definition SetNotInterested (pc : PeerConn) := set_local_flag pc (pc_Interested pc) SendNotInterested
  (fun pc => pc_set_local pc (pc_Choked pc) false).
End Write.

Definition PeerHasPiece (pc : PeerConn) (index : Z) : bool := BitField_IsSet (pc_BitField pc) index.

(** ** Handlers *)

(** The methods of [Handler], [Bep3Handler], [Bep5Handler], [Bep6Handler], [Bep10Handler]. *)
Inductive call : Type :=
  | OnHandShake
  | OnMessage (m : Message)
  | OnClose
  | CallChoke | CallUnchoke | CallInterested | CallNotInterested
  | CallHave (index : Z) | CallBitField (bits : BitField)
  | CallRequest (index begin length : Z)
  | CallPiece (index begin : Z) (piece : bytes)
  | CallCancel (index begin length : Z)
  | CallPort (port : Z)
  | CallHaveAll | CallHaveNone | CallSuggest (index : Z) | CallAllowedFast (index : Z)
  | CallReject (index begin length : Z)
  | OnExtHandShake
  | OnPayload (extid : Z) (payload : bytes).

Record Handler : Type := mkHandler {
  h_bep3 : bool;
  h_bep5 : bool;
  h_bep6 : bool;
  h_bep10 : bool;
  h_run : call -> PeerConn -> PeerConn * option error;
}.

(** The connection, the handler methods called, and how the call ended: a panic is not
    recovered. *)
Definition handled : Type := PeerConn * list call * res unit.
Definition invoke (h : Handler) (c : call) (pc : PeerConn) : handled :=
  let '(pc, err) := h_run h c pc in (pc, [c], match err with Some e => Err e | None => Ok tt end).

Definition ErrNotSupportDHT : error := Errorf "not support DHT extension".
Definition ErrNotSupportFast : error := Errorf "not support Fast extension".
Definition ErrNotSupportExtended : error := Errorf "not support Extended extension".
Definition ErrSecondExtHandshake : error := Errorf "second extended handshake".
Definition ErrNoExtMessageID : error := Errorf "no extended message id".
Definition ErrNoExtHandshake : error := Errorf "no extended handshake".

Definition handleExtMsg (pc : PeerConn) (h : Handler) (m : Message) : handled :=
  if pm_ExtendedID m =? ExtendedIDHandshake then
    if (0 <? length (eh_M (pc_ExtHandshake pc)))%nat then (pc, [], Err ErrSecondExtHandshake)
    else
      let '(x, o) := ExtHandshake_Decode (pc_ExtHandshake pc) (pm_ExtendedPayload m) in
      let pc := pc_set_ext pc x in
      match o with
      | Done =>
          if (length (eh_M x) =? 0)%nat then (pc, [], Err ErrNoExtMessageID)
          else invoke h OnExtHandShake pc
      | Fail e => (pc, [], Err e)
      | _ => (pc, [], Panic)
      end
  else if (length (eh_M (pc_ExtHandshake pc)) =? 0)%nat then (pc, [], Err ErrNoExtHandshake)
  else invoke h (OnPayload (pm_ExtendedID m) (pm_ExtendedPayload m)) pc.

Definition HandleMessage (pc : PeerConn) (msg : Message) (h : Handler) : handled :=
  let onMessage pc := invoke h (OnMessage msg) pc in
  let via (has : bool) (c : call) (pc : PeerConn) := if has then invoke h c pc else onMessage pc in
  let i := pm_Index msg in
  let t := pm_Type msg in
  if pm_Keepalive msg then (pc, [], Ok tt)
  else if t =? MTypeChoke then via (h_bep3 h) CallChoke (pc_set_remote pc true (pc_PeerInterested pc))
  else if t =? MTypeUnchoke then via (h_bep3 h) CallUnchoke (pc_set_remote pc false (pc_PeerInterested pc))
  else if t =? MTypeInterested then via (h_bep3 h) CallInterested (pc_set_remote pc (pc_PeerChoked pc) true)
  else if t =? MTypeNotInterested
  then via (h_bep3 h) CallNotInterested (pc_set_remote pc (pc_PeerChoked pc) false)
  else if t =? MTypeHave then
    via (h_bep3 h) (CallHave i) (pc_set_lists pc (pc_Fasts pc) (pc_Suggests pc) (BitField_Set (pc_BitField pc) i).1)
  else if t =? MTypeBitField then
    via (h_bep3 h) (CallBitField (pm_BitField msg)) (pc_set_lists pc (pc_Fasts pc) (pc_Suggests pc) (pm_BitField msg))
  else if t =? MTypeRequest then via (h_bep3 h) (CallRequest i (pm_Begin msg) (pm_Length msg)) pc
  else if t =? MTypePiece then via (h_bep3 h) (CallPiece i (pm_Begin msg) (pm_Piece msg)) pc
  else if t =? MTypeCancel then via (h_bep3 h) (CallCancel i (pm_Begin msg) (pm_Length msg)) pc
  else if t =? MTypePort then
    if negb (IsSupportDHT (pc_ExtBits pc)) then (pc, [], Err ErrNotSupportDHT)
    else via (h_bep5 h) (CallPort (pm_Port msg)) pc
  else if t =? MTypeSuggest then
    if negb (IsSupportFast (pc_ExtBits pc)) then (pc, [], Err ErrNotSupportFast)
    else via (h_bep6 h) (CallSuggest i)
           (pc_set_lists pc (pc_Fasts pc) (Pieces_Append (pc_Suggests pc) i) (pc_BitField pc))
  else if t =? MTypeHaveAll then
    if negb (IsSupportFast (pc_ExtBits pc)) then (pc, [], Err ErrNotSupportFast)
    else via (h_bep6 h) CallHaveAll pc
  else if t =? MTypeHaveNone then
    if negb (IsSupportFast (pc_ExtBits pc)) then (pc, [], Err ErrNotSupportFast)
    else via (h_bep6 h) CallHaveNone pc
  else if t =? MTypeReject then
    if negb (IsSupportFast (pc_ExtBits pc)) then (pc, [], Err ErrNotSupportFast)
    else via (h_bep6 h) (CallReject i (pm_Begin msg) (pm_Length msg)) pc
  else if t =? MTypeAllowedFast then
    if negb (IsSupportFast (pc_ExtBits pc)) then (pc, [], Err ErrNotSupportFast)
    else via (h_bep6 h) (CallAllowedFast i)
           (pc_set_lists pc (Pieces_Append (pc_Fasts pc) i) (pc_Suggests pc) (pc_BitField pc))
  else if t =? MTypeExtended then
    if negb (IsSupportExtended (pc_ExtBits pc)) then (pc, [], Err ErrNotSupportExtended)
    else if h_bep10 h then handleExtMsg pc h msg else onMessage pc
  else onMessage pc.

(** ** Accepted connections (server.go) *)

Definition newServerConn (id : Hash) (ext : ExtensionBits) (maxLength : Z) (input : bytes) : PeerConn :=
  mkPeerConn input [] zeroHash id ext zeroHash zeroExtensionBits ConnStageConnected
    true false true false maxLength [] [] [] zeroExtHandshake.
