(* ===== verification/PeerConnThms.v ===== *)
(** * Theorems about peer connections *)

From S2P Require Import Prelude GoBytes GoNet GoCrypto GoTime Bencode Codec Hash PeerMessage PeerMessageThms PeerConn.

(** ** The handshake *)

Definition hm_wf (m : HandshakeMsg) : Prop :=
  length (hm_ExtensionBits m) = 8%nat /\ Hash_wf (hm_PeerID m) /\ Hash_wf (hm_InfoHash m).

Lemma getPeerHandshakeMsg_bytes m rest :
  hm_wf m -> getPeerHandshakeMsg (handshake_bytes m ++ rest) = (m, rest, None).
Proof.
  intros (He & Hp & Hi). unfold Hash_wf, HashSize in *. unfold getPeerHandshakeMsg.
  assert (HP : length ProtocolHeader = 20%nat) by done.
  assert (Hl : length (handshake_bytes m) = 68%nat).
  { unfold handshake_bytes. rewrite !length_app, HP, He, Hp, Hi. done. }
  pose proof (readFull_app (handshake_bytes m) rest) as E. rewrite Hl in E. rewrite E.
  unfold handshake_bytes.
  destruct (take_drop_app_exact ProtocolHeader (hm_ExtensionBits m ++ hm_InfoHash m ++ hm_PeerID m) 20 HP) as [T1 D1].
  destruct (take_drop_app_exact (hm_ExtensionBits m) (hm_InfoHash m ++ hm_PeerID m) 8 He) as [T2 D2].
  destruct (take_drop_app_exact (hm_InfoHash m) (hm_PeerID m) 20 Hi) as [T3 D3].
  rewrite T1, bool_decide_eq_true_2 by done. simpl negb. cbv iota.
  replace (drop 48) with (fun l : bytes => drop (20 + (8 + 20)) l) by done.
  replace (drop 28) with (fun l : bytes => drop (20 + 8) l) by done. cbv beta.
  rewrite <- !drop_drop, D1, T2, D2, T3, D3, firstn_all2 by lia. by destruct m.
Qed.

(** The connecting side, which names the infohash. *)
Lemma PeerConn_Handshake_client pc bits peerID infohash rest :
  pc_PeerStage pc = ConnStageConnected -> pc_InfoHash pc = infohash -> infohash <> zeroHash ->
  hm_wf (mkHandshakeMsg bits peerID infohash) ->
  pc_in pc = handshake_bytes (mkHandshakeMsg bits peerID infohash) ++ rest ->
  exists c, PeerConn_Handshake pc = (c, None) /\ pc_in c = rest /\ pc_PeerStage c = ConnStageHandshook /\
    pc_MaxLength c = pc_MaxLength pc /\ pc_PeerID c = peerID /\ pc_PeerExtBits c = bits.
Proof.
  intros Hs <- Hz Hwf Hin. unfold PeerConn_Handshake, Handshake. rewrite Hs, Hin.
  rewrite bool_decide_eq_true_2 by done. cbn [negb hm_InfoHash].
  assert (Hash_IsZero (pc_InfoHash pc) = false) as Hz' by (unfold Hash_IsZero; by rewrite bool_decide_eq_false_2).
  rewrite Hz', getPeerHandshakeMsg_bytes by done. cbn [pc_InfoHash pc_set_io pc_set_peer].
  rewrite Hz', bool_decide_eq_true_2 by done. eexists. by repeat split.
Qed.

(** [C21] The handshake of two peers: the connecting side names the infohash, the accepting
    side takes it over (its own is zero).  Each decodes exactly what the other wrote, both
    reach the handshook stage with the other's id and extension bits and the same
    infohash, and bytes that follow the handshake stay unread. *)
Theorem handshake_agree client server after_c after_s :
  pc_PeerStage client = ConnStageConnected -> pc_PeerStage server = ConnStageConnected ->
  let mc := mkHandshakeMsg (pc_ExtBits client) (pc_ID client) (pc_InfoHash client) in
  let ms := mkHandshakeMsg (pc_ExtBits server) (pc_ID server) (pc_InfoHash client) in
  hm_wf mc -> hm_wf ms -> Hash_IsZero (pc_InfoHash client) = false -> pc_InfoHash server = zeroHash ->
  pc_in client = handshake_bytes ms ++ after_s -> pc_in server = handshake_bytes mc ++ after_c ->
  exists c s, PeerConn_Handshake client = (c, None) /\ PeerConn_Handshake server = (s, None) /\
    pc_out c = pc_out client ++ handshake_bytes mc /\ pc_out s = pc_out server ++ handshake_bytes ms /\
    pc_in c = after_s /\ pc_in s = after_c /\
    pc_PeerStage c = ConnStageHandshook /\ pc_PeerStage s = ConnStageHandshook /\
    pc_InfoHash c = pc_InfoHash client /\ pc_InfoHash s = pc_InfoHash client /\
    (pc_PeerID c, pc_PeerExtBits c) = (pc_ID server, pc_ExtBits server) /\
    (pc_PeerID s, pc_PeerExtBits s) = (pc_ID client, pc_ExtBits client).
Proof.
  intros Sc Ss mc ms Hc Hs Hz Hzs Ic Is. unfold PeerConn_Handshake, Handshake. rewrite Sc, Ss.
  rewrite !bool_decide_eq_true_2 by done. cbn [negb hm_InfoHash]. rewrite Hz, Hzs.
  assert (Hash_IsZero zeroHash = true) as -> by done.
  rewrite Ic, Is, !getPeerHandshakeMsg_bytes by done.
  cbn [pc_InfoHash pc_set_io pc_set_peer]. rewrite Hz, Hzs.
  assert (Hash_IsZero zeroHash = true) as -> by done.
  rewrite bool_decide_eq_true_2 by done. do 2 eexists. split; [done|]. split; [done|].
  by repeat split.
Qed.

Definition client0 : PeerConn :=
  NewPeerConn (handshake_bytes (mkHandshakeMsg zeroExtensionBits (replicate 20 x02) (replicate 20 x09)) ++ B "S")
    (replicate 20 x01) (replicate 20 x09).
Definition accept0 : PeerConn :=
  newServerConn (replicate 20 x02) zeroExtensionBits 262144
    (handshake_bytes (mkHandshakeMsg zeroExtensionBits (replicate 20 x01) (replicate 20 x09)) ++ B "C").

Lemma handshake_agree_witness :
  exists c s, PeerConn_Handshake client0 = (c, None) /\ PeerConn_Handshake accept0 = (s, None) /\
    pc_InfoHash c = pc_InfoHash s.
Proof.
  destruct (handshake_agree client0 accept0 (B "C") (B "S")) as (c & s & H1 & H2 & _ & _ & _ & _ & _ & _ & H3 & H4 & _);
    try reflexivity; try by repeat split.
  exists c, s. split; [exact H1|]. split; [exact H2|]. congruence.
Defined.

(** ** Reading consumes input *)

Definition left (lr : LimitedReader) : nat := length (lr_R lr).

Lemma lr_readFull_le lr k b lr' e : lr_readFull lr k = (b, lr', e) -> (left lr' <= left lr)%nat.
Proof.
  unfold lr_readFull, left. destruct (_ <? _)%nat; intros [= <- <- <-]; simpl; rewrite length_drop; lia.
Qed.
Lemma lr_readAll_le lr b lr' : lr_readAll lr = (b, lr') -> (left lr' <= left lr)%nat.
Proof. unfold lr_readAll, left. intros [= <- <-]. simpl. rewrite length_drop. lia. Qed.
Lemma lr_readByte_le lr z lr' e : lr_readByte lr = (z, lr', e) -> (left lr' <= left lr)%nat.
Proof.
  unfold lr_readByte. destruct (lr_readFull lr 1) as [[b l1] e1] eqn:F.
  pose proof (lr_readFull_le _ _ _ _ _ F). repeat case_match; naive_solver.
Qed.
(** A continuation that only reads. *)
Definition reads (next : Message -> LimitedReader -> Message * LimitedReader * outcome) : Prop :=
  forall m lr m' lr' o, next m lr = (m', lr', o) -> (left lr' <= left lr)%nat.
Lemma finish_reads : reads finish.
Proof. unfold reads, finish. naive_solver. Qed.
Lemma lr_readInt_reads k set next : reads next -> reads (fun m lr => lr_readInt lr k m set next).
Proof.
  intros Hn m lr m' lr' o. unfold lr_readInt. destruct (lr_readFull lr k) as [[b l1] e1] eqn:F.
  pose proof (lr_readFull_le _ _ _ _ _ F). destruct e1; [naive_solver|]. intros E. apply Hn in E. lia.
Qed.

Lemma decodeBody_reads L : reads (fun m lr => decodeBody m L lr).
Proof.
  pose proof finish_reads as Hf. intros m lr m' lr' o. unfold decodeBody.
  destruct (one_of _ [MTypeChoke; _; _; _; _; _]); [naive_solver|].
  destruct (one_of _ [MTypeHave; _; _]); [by apply lr_readInt_reads|].
  destruct (one_of _ [MTypeRequest; _; _]); [by apply lr_readInt_reads; do 2 apply lr_readInt_reads|].
  destruct (one_of _ [MTypeBitField]).
  { destruct (lr_readFull lr _) as [[b l1] e1] eqn:F. apply lr_readFull_le in F. destruct e1; naive_solver. }
  destruct (one_of _ [MTypePiece]).
  { apply lr_readInt_reads, lr_readInt_reads. intros m2 y2 a2 b2 c2. cbv beta zeta.
    destruct (lr_readFull y2 _) as [[b3 l3] e3] eqn:F. apply lr_readFull_le in F. destruct e3; naive_solver. }
  destruct (one_of _ [MTypeExtended]).
  { destruct (lr_readByte lr) as [[z l1] e1] eqn:F. apply lr_readByte_le in F. destruct e1; [naive_solver|].
    destruct (lr_readAll l1) eqn:G. apply lr_readAll_le in G. intros [= <- <- <-]. lia. }
  destruct (one_of _ [MTypePort]); [by apply lr_readInt_reads|].
  destruct (lr_readAll lr) eqn:G. apply lr_readAll_le in G. naive_solver.
Qed.

Lemma Message_Decode_consumes m r maxLength m' rest :
  Message_Decode m r maxLength = (m', rest, Done) -> (length rest < length r)%nat.
Proof.
  unfold Message_Decode, readFull. destruct (Nat.ltb_spec (length r) 4) as [|Hr].
  { by destruct (length r =? 0)%nat. }
  assert (Hrest : (length (drop 4 r) < length r)%nat) by (rewrite length_drop; lia).
  destruct (_ =? 0); [naive_solver|]. destruct (_ && _); [naive_solver|].
  destruct (lr_readByte _) as [[z l1] e1] eqn:F. apply lr_readByte_le in F. unfold left in F. simpl in F.
  destruct e1; [naive_solver|]. destruct (decodeBody _ _ _) as [[m2 l2] o2] eqn:G.
  apply decodeBody_reads in G. unfold left in G. intros [= <- <- _]. lia.
Qed.

Definition first_only (t : Z) : bool := one_of t [MTypeBitField; MTypeHaveAll; MTypeHaveNone].

Lemma ReadMsg_Done pc pc' m :
  ReadMsg pc = (pc', m, Done) ->
  (length (pc_in pc') < length (pc_in pc))%nat /\
  (first_only (pm_Type m) = true -> pc_PeerStage pc = ConnStageHandshook) /\
  pc_PeerStage pc' = (if IsHandshook (pc_PeerStage pc) then ConnStageMessage else pc_PeerStage pc).
Proof.
  unfold ReadMsg. destruct (Message_Decode zeroMessage (pc_in pc) (pc_MaxLength pc)) as [[m1 rest] o] eqn:E.
  destruct o; try done. apply Message_Decode_consumes in E.
  cbn [pc_PeerStage pc_set_io]. fold (first_only (pm_Type m1)). unfold IsHandshook.
  destruct (first_only (pm_Type m1)) eqn:Ft; case_bool_decide as Hh; simpl; try done;
    intros [= <- <-]; simpl; (split; [done|]); split; try done; by rewrite Ft.
Qed.

Lemma Message_Decode_fuel m r maxLength m' rest o :
  Message_Decode m r maxLength = (m', rest, o) -> o <> NoFuel /\ o <> Panicked.
Proof.
  unfold Message_Decode, readFull. destruct (_ <? _)%nat.
  { destruct (length r =? 0)%nat; naive_solver. }
  destruct (_ =? 0); [naive_solver|]. destruct (_ && _); [naive_solver|].
  destruct (lr_readByte _) as [[z l1] e1]. destruct e1; [naive_solver|].
  assert (Hb : forall x y a b c, decodeBody x y a = (b, c, Panicked) \/ decodeBody x y a = (b, c, NoFuel) -> False).
  { unfold decodeBody, lr_readInt, finish. intros x y a b c. repeat case_match; naive_solver. }
  destruct (decodeBody _ _ _) as [[m2 l2] o2] eqn:G. intros [= <- <- <-].
  destruct o2; try case_match; split; try done; intros ?; eapply Hb; eauto.
Qed.

Lemma ReadMsg_fuel pc pc' m o : ReadMsg pc = (pc', m, o) -> o <> NoFuel /\ o <> Panicked.
Proof.
  unfold ReadMsg. destruct (Message_Decode _ _ _) as [[m1 rest] o1] eqn:E. apply Message_Decode_fuel in E.
  destruct o1; try naive_solver. destruct (_ && _); naive_solver.
Qed.

(** ** The loop of the server *)

(** A handler may do what it likes with the connection, except to read from it or to turn
    its stage back. *)
Class WellBehaved (h : Handler) : Prop := {
  wb_in : forall c pc, pc_in (h_run h c pc).1 = pc_in pc;
  wb_stage : forall c pc, pc_PeerStage (h_run h c pc).1 = pc_PeerStage pc;
}.

(** The outcome of handling a message leaves input and stage as they are in [pc]. *)
Definition frame (pc : PeerConn) (x : handled) : Prop :=
  pc_in x.1.1 = pc_in pc /\ pc_PeerStage x.1.1 = pc_PeerStage pc.

Lemma frame_invoke pc h c p :
  WellBehaved h -> pc_in p = pc_in pc -> pc_PeerStage p = pc_PeerStage pc -> frame pc (invoke h c p).
Proof.
  intros W H1 H2. unfold invoke, frame. pose proof (wb_in c p). pose proof (wb_stage c p).
  destruct (h_run h c p). simpl in *. split; congruence.
Qed.
Lemma frame_ret pc p l e :
  pc_in p = pc_in pc -> pc_PeerStage p = pc_PeerStage pc -> frame pc (p, l, e).
Proof. done. Qed.
Lemma frame_if pc (b : bool) x y : frame pc x -> frame pc y -> frame pc (if b then x else y).
Proof. by destruct b. Qed.

Lemma HandleMessage_frame pc m h : WellBehaved h -> frame pc (HandleMessage pc m h).
Proof.
  intros W. unfold HandleMessage, handleExtMsg. cbv zeta.
  repeat first [apply frame_if | by apply frame_invoke | by apply frame_ret].
  destruct (ExtHandshake_Decode _ _) as [x []]; try (by apply frame_ret).
  apply frame_if; [by apply frame_ret|by apply frame_invoke].
Qed.

Definition noop : Handler := mkHandler true true true true (fun _ pc => (pc, None)).
#[export] Instance noop_wb : WellBehaved noop.
Proof. done. Qed.

Definition conn0 : PeerConn :=
  pc_set_stage (NewPeerConn (Message_Encode (set_BitField (msgOf MTypeBitField) [x80])
     ++ Message_Encode (msgOf MTypeUnchoke) ++ Message_Encode (msgOf MTypeHaveNone)) zeroHash zeroHash)
    ConnStageHandshook.

(** Extensions must be agreed on before they are used: a [Port], a fast-extension or an
    extended message is refused, without calling the handler and without changing the
    connection, when the local extension bits do not include the extension, and an extended
    payload is refused before the extended handshake, which can happen only once. *)
Theorem extension_gate pc m h :
  pm_Keepalive m = false ->
  (pm_Type m = MTypePort -> IsSupportDHT (pc_ExtBits pc) = false ->
     HandleMessage pc m h = (pc, [], Err ErrNotSupportDHT)) /\
  (FastExtension (pm_Type m) = true -> IsSupportFast (pc_ExtBits pc) = false ->
     HandleMessage pc m h = (pc, [], Err ErrNotSupportFast)) /\
  (pm_Type m = MTypeExtended -> IsSupportExtended (pc_ExtBits pc) = false ->
     HandleMessage pc m h = (pc, [], Err ErrNotSupportExtended)) /\
  (pm_Type m = MTypeExtended -> IsSupportExtended (pc_ExtBits pc) = true -> h_bep10 h = true ->
     (pm_ExtendedID m <> ExtendedIDHandshake -> eh_M (pc_ExtHandshake pc) = [] ->
        HandleMessage pc m h = (pc, [], Err ErrNoExtHandshake)) /\
     (pm_ExtendedID m = ExtendedIDHandshake -> eh_M (pc_ExtHandshake pc) <> [] ->
        HandleMessage pc m h = (pc, [], Err ErrSecondExtHandshake))).
Proof.
  intros Hk. unfold HandleMessage. rewrite Hk. repeat split.
  - intros -> E. simpl. by rewrite E.
  - unfold FastExtension, MTypeSuggest, MTypeAllowedFast. intros Hf E.
    assert (Ht : pm_Type m = 13 \/ pm_Type m = 14 \/ pm_Type m = 15 \/ pm_Type m = 16 \/ pm_Type m = 17) by lia.
    destruct Ht as [->|[->|[->|[->| ->]]]]; simpl; by rewrite E.
  - intros -> E. simpl. by rewrite E.
  - intros Hid HM. rewrite H, H1. simpl. rewrite H0. simpl. unfold handleExtMsg.
    apply Z.eqb_neq in Hid. by rewrite Hid, HM.
  - intros Hid HM. rewrite H, H1. simpl. rewrite H0. simpl. unfold handleExtMsg. rewrite Hid. simpl.
    destruct (eh_M (pc_ExtHandshake pc)); [done|]. done.
Qed.

Lemma extension_gate_witness :
  let m := set_Index (msgOf MTypeSuggest) 3 in
  HandleMessage conn0 m noop = (conn0, [], Err ErrNotSupportFast).
Proof.
  exact (proj1 (proj2 (extension_gate conn0 (set_Index (msgOf MTypeSuggest) 3) noop eq_refl)) eq_refl eq_refl).
Defined.

(** ** The allowed fast set *)

Section FastSet.
Variables (k : nat) (sz : Z).
Hypothesis sz_pos : 0 < sz.

(** The first [cur] entries are done: distinct indexes other than 0; the rest is zero. *)
Definition fast_inv (set : list Z) (cur : nat) : Prop :=
  exists done, set = done ++ replicate (k - cur) 0 /\ length done = cur /\ (cur <= k)%nat /\
    NoDup done /\ Forall (fun i => 0 < i < sz) done.

Lemma fast_inv_length set cur : fast_inv set cur -> length set = k.
Proof. intros (dn & -> & Hl & ? & _). rewrite length_app, length_replicate. lia. Qed.

Lemma uint32Contains_spec ss s : uint32Contains ss s = true <-> s ∈ ss.
Proof.
  unfold uint32Contains. rewrite existsb_exists. setoid_rewrite Z.eqb_eq.
  split; [intros (x & Hin & ->); by apply list_elem_of_In|].
  intros Hin. exists s. split; [by apply list_elem_of_In|done].
Qed.

Lemma fast_inv_add set cur index :
  fast_inv set cur -> (cur < k)%nat -> 0 <= index < sz -> uint32Contains set index = false ->
  fast_inv (<[cur := index]> set) (S cur).
Proof.
  intros (dn & -> & Hl & Hc & Hn & Hf) Hlt Hi Hnot.
  assert (index ∉ dn ++ replicate (k - cur) 0) as Hnin.
  { rewrite <- uint32Contains_spec, Hnot. done. }
  replace (k - cur)%nat with (S (k - S cur)) in * by lia. simpl replicate in *.
  rewrite not_elem_of_app, not_elem_of_cons in Hnin. destruct Hnin as (Hd & Hz & _).
  exists (dn ++ [index]). rewrite insert_app_r_alt by lia. rewrite Hl, Nat.sub_diag. simpl.
  split; [by rewrite <- app_assoc|]. rewrite length_app. simpl. split; [lia|]. split; [lia|]. split.
  - apply NoDup_app. split; [done|]. split; [|apply NoDup_singleton]. set_solver.
  - apply Forall_app. split; [done|]. constructor; [lia|constructor].
Qed.

Lemma fastset_inner_inv ws set cur :
  Forall (fun y => 0 <= y) ws -> fast_inv set cur ->
  let '(set', cur') := fastset_inner ws sz set cur in fast_inv set' cur'.
Proof.
  intros Hws. revert set cur. induction Hws as [|y ws Hy _ IH]; intros set cur I; [done|].
  cbn [fastset_inner]. pose proof (fast_inv_length _ _ I) as Hl.
  destruct (Nat.ltb_spec cur (length set)); [|done].
  destruct (uint32Contains set (y mod sz)) eqn:E; cbn [negb]; [by apply IH|].
  apply IH, fast_inv_add; [done|lia| |done]. by apply Z.mod_pos_bound.
Qed.

Lemma digest_words x : Forall (fun y => 0 <= y) (map be_decode (chunks 4 x)).
Proof. apply Forall_map, Forall_true. intros c. apply be_decode_range. Qed.

Lemma fastset_loop_inv fuel x set cur set' :
  fast_inv set cur -> fastset_loop fuel x sz set cur = Some set' -> fast_inv set' k.
Proof.
  revert x set cur. induction fuel as [|fuel IH]; intros x set cur I; cbn [fastset_loop].
  all: pose proof (fast_inv_length _ _ I) as Hl.
  all: destruct (Nat.ltb_spec cur (length set)) as [Hlt|Hge].
  2,4: intros [= <-]; assert (cur = k) as -> by (destruct I as (? & ? & ? & ? & _); lia); done.
  1: done.
  pose proof (fastset_inner_inv _ set cur (digest_words (Sha1.Sum x)) I) as I'.
  destruct (fastset_inner _ sz set cur) as [set1 cur1]. by apply IH.
Qed.

(** There are [sz - 1] indexes other than 0. *)
Lemma fast_inv_bound set cur : fast_inv set cur -> Z.of_nat cur <= sz - 1.
Proof.
  intros (dn & _ & <- & _ & Hn & Hf).
  assert (dn ⊆+ seqZ 1 (sz - 1)) as Hs.
  { apply NoDup_submseteq; [done|]. intros i Hi. rewrite Forall_forall in Hf.
    apply elem_of_seqZ. specialize (Hf i Hi). lia. }
  apply submseteq_length in Hs. rewrite length_seqZ in Hs. lia.
Qed.

Lemma fastset_loop_stuck fuel x set cur :
  sz <= Z.of_nat k -> fast_inv set cur -> fastset_loop fuel x sz set cur = None.
Proof.
  intros Hk. revert x set cur. induction fuel as [|fuel IH]; intros x set cur I; cbn [fastset_loop].
  all: pose proof (fast_inv_length _ _ I) as Hl; pose proof (fast_inv_bound _ _ I) as Hb.
  all: destruct (Nat.ltb_spec cur (length set)); [|lia].
  1: done.
  pose proof (fastset_inner_inv _ set cur (digest_words (Sha1.Sum x)) I) as I'.
  destruct (fastset_inner _ sz set cur) as [set1 cur1]. by apply IH.
Qed.

Lemma fast_inv_init : fast_inv (replicate k 0) 0.
Proof.
  exists []. rewrite Nat.sub_0_r. simpl. repeat split; try lia; constructor.
Qed.
End FastSet.

(** [C40] The allowed fast set: whenever the generator returns, the set it leaves has the
    length asked for and holds distinct piece indexes of the torrent.  Index 0 is never
    among them, because the zeros of the array count as members, so that asking for as
    many indexes as there are pieces (or more) never returns. *)
Theorem allowed_fast_set k sz ip infohash :
  0 < sz ->
  (forall fuel set, GenerateAllowedFastSet fuel (replicate k 0) sz ip infohash = Some (Ok set) ->
     length set = k /\ NoDup set /\ Forall (fun i => 0 < i < sz) set) /\
  (sz <= Z.of_nat k -> forall fuel, GenerateAllowedFastSet fuel (replicate k 0) sz ip infohash = None).
Proof.
  intros Hsz. unfold GenerateAllowedFastSet.
  destruct (Z.eqb_spec sz 0); [lia|]. rewrite andb_false_r. split.
  - intros fuel set E. destruct (fastset_loop _ _ _ _ _) as [set'|] eqn:F; [|done].
    injection E as <-. apply (fastset_loop_inv k sz Hsz) in F; [|apply fast_inv_init].
    destruct F as (dn & -> & Hl & _ & Hn & Hf). rewrite Nat.sub_diag, app_nil_r. done.
  - intros Hk fuel. by rewrite (fastset_loop_stuck k sz Hsz) by (done || apply fast_inv_init).
Qed.

Lemma allowed_fast_set_witness :
  (length [1059; 431; 808] = 3%nat /\ NoDup [1059; 431; 808] /\ Forall (fun i => 0 < i < 1313) [1059; 431; 808]) /\
  forall fuel, GenerateAllowedFastSet fuel (replicate 4 0) 4 [x50; x04; x04; xc8] (replicate 20 xaa) = None.
Proof.
  split.
  - apply (proj1 (allowed_fast_set 3 1313 [x50; x04; x04; xc8] (replicate 20 xaa) ltac:(done)) 1%nat).
    vm_compute. reflexivity.
  - apply (proj2 (allowed_fast_set 4 4 [x50; x04; x04; xc8] (replicate 20 xaa) ltac:(done))). done.
Defined.
