(* ===== verification/PeerExtThms.v ===== *)
(** * Theorems about extended messages

    The extended handshake and the "ut_metadata" message through the struct encoder and
    decoder of package [bencode], and the two forms of [CompactIP]. *)

From S2P Require Import Prelude GoBytes GoNet GoCrypto IPText Bencode BencodeFacts BencodeRoundtrip.
From S2P Require Import Codec BencodeStruct Hash PeerMessage PeerConn.

(** ** [CompactIP] *)

Definition legal (ip : IP) : Prop := (length ip = 4 \/ length ip = 16)%nat.

(** An address as [CompactIP.UnmarshalBencode] stores it. *)
Definition shortest (ip : IP) : IP := if negb (length (To4 ip) =? 0)%nat then To4 ip else ip.

Lemma shortest_legal ip : legal ip -> legal (shortest ip).
Proof.
  intros H. unfold shortest. destruct (To4_length ip) as [E|E]; rewrite E; [done|]. by left.
Qed.
Lemma shortest_To16 ip : legal ip -> shortest (To16 ip) = shortest ip.
Proof.
  intros [H|H]; [|by rewrite To16_id]. unfold shortest. by rewrite To4_To16, To4_id, H by done.
Qed.
Lemma To16_shortest ip : legal ip -> To16 (shortest ip) = To16 ip.
Proof.
  intros H. unfold shortest. destruct (To4_length ip) as [E|E]; rewrite E; [done|]. cbn [Nat.eqb negb].
  destruct H as [H|H]; [by rewrite To4_id|]. unfold To4 in *. rewrite H in *. cbn [Nat.eqb andb] in *.
  case_bool_decide as D; [|done]. rewrite (To16_id ip) by done. unfold To16. rewrite E. cbn [Nat.eqb].
  rewrite <- D. apply take_drop.
Qed.

Lemma IP_text_enc ip : legal ip -> enc_as IPT (VBytes ip) (str (IP_String ip)).
Proof.
  intros H. eapply enc_as_text; [done..|]. cbv beta. unfold val_IP, IP_MarshalText.
  destruct H as [H|H]; by rewrite H.
Qed.
Lemma IP_text_short ip : legal ip -> short (IP_String ip).
Proof. intros H. apply length_IP_String in H. unfold short. lia. Qed.
Lemma IP_text_dec ip old : legal ip -> dec_as IPT (VBytes old) (str (IP_String ip)) (VBytes (To16 ip)).
Proof.
  intros H. eapply dec_as_text; [done|done|by apply IP_text_short|]. cbv beta. unfold val_IP, IP_UnmarshalText.
  pose proof (ParseIP_String ip H) as P.
  destruct (IP_String ip) as [|c l]; [done|]. by rewrite P.
Qed.

Definition CompactIP_bytes (ip : IP) : bytes := str (IP_String (shortest ip)).

Lemma CompactIP_marshal ip : legal ip -> CompactIP_MarshalBencode ip = Ok (CompactIP_bytes ip).
Proof. intros H. by apply EncodeBytes_as, IP_text_enc, shortest_legal. Qed.

Lemma CompactIP_unmarshal ip old :
  legal ip -> CompactIP_UnmarshalBencode old (CompactIP_bytes ip) = (shortest ip, Done).
Proof.
  intros H. unfold CompactIP_UnmarshalBencode, CompactIP_bytes.
  rewrite (DecodeBytes_as _ _ _ _ (IP_text_dec (shortest ip) [] (shortest_legal ip H))).
  rewrite To16_shortest by done. cbn [val_IP]. fold (shortest (To16 ip)). rewrite shortest_To16 by done.
  destruct (To16_length ip) as [E|E]; rewrite E; [|by rewrite orb_true_r].
  unfold To16 in E. destruct H as [H|H]; rewrite H in E; cbn in E; [done|]. by rewrite E in H.
Qed.

(** [CompactIP] is not compact: a slice of a [net.IP] is a [net.IP], so package
    [bencode] writes it through [MarshalText] as the string of its text and reads it through
    [UnmarshalText].  Two peers that run this code understand each other: every address of
    four or sixteen bytes comes back, in four bytes when it is an IPv4 address.  The compact
    form of BEP 10, the four bytes themselves, is refused (when none of them is a colon). *)
Theorem compact_ip_text old ip :
  legal ip ->
  (CompactIP_MarshalBencode ip = Ok (CompactIP_bytes ip) /\
   CompactIP_UnmarshalBencode old (CompactIP_bytes ip) = (shortest ip, Done)) /\
  (length ip = 4%nat -> ":"%byte ∉ ip -> exists e, CompactIP_UnmarshalBencode old (str ip) = (old, Fail e)).
Proof.
  intros H. split; [split; [by apply CompactIP_marshal|by apply CompactIP_unmarshal]|].
  intros Hl Hc. unfold CompactIP_UnmarshalBencode, DecodeBytes, Decode. rewrite Nat.add_succ_r.
  cbn [decodeInto indirect IPT UnmarshalBencode UnmarshalText NewDecoder raw].
  rewrite (decodeString_enc _ (Some TBytes) (VBytes []) ip []);
    [|rewrite Hl; done|done|by rewrite app_nil_r].
  unfold val_IP, IP_UnmarshalText. rewrite ParseIP_four_bytes by done. rewrite Hl. cbn. by eexists.
Qed.

Lemma compact_ip_text_witness :
  (CompactIP_MarshalBencode [x0a; x00; x00; x01] = Ok (B "8:10.0.0.1") /\
   CompactIP_UnmarshalBencode [] (B "8:10.0.0.1") = ([x0a; x00; x00; x01], Done)) /\
  exists e, CompactIP_UnmarshalBencode [] (str [x0a; x00; x00; x01]) = ([], Fail e).
Proof.
  destruct (compact_ip_text [] [x0a; x00; x00; x01] (or_introl eq_refl)) as [H1 H2].
  split; [exact H1|]. apply H2; [reflexivity|]. apply (bool_decide_unpack _). vm_compute. exact I.
Defined.

Lemma CompactIP_enc ip : legal ip -> enc_as CompactIPT (VBytes ip) (CompactIP_bytes ip).
Proof. intros H. apply bencodeT_enc. by apply CompactIP_marshal. Qed.
Lemma CompactIP_dec ip : legal ip -> dec_as CompactIPT (VBytes []) (CompactIP_bytes ip) (VBytes (shortest ip)).
Proof.
  intros H. apply bencodeT_dec; [by apply raw_as_str, IP_text_short, shortest_legal|].
  by apply CompactIP_unmarshal.
Qed.

(** ** The "ut_metadata" message *)

Record UtMetadata_wf (um : UtMetadataExtendedMsg) : Prop := {
  um_type_wf : is_u8 (um_MsgType um); um_piece_wf : is_i64 (um_Piece um);
  um_size_wf : 0 <= um_TotalSize um < 2 ^ 64 }.

(** Only a "data" message carries its size and its data. *)
Definition sent (um : UtMetadataExtendedMsg) : UtMetadataExtendedMsg :=
  if um_MsgType um =? UtMetadataExtendedMsgTypeData then um
  else mkUtMetadata (um_MsgType um) (um_Piece um) 0 [].

Lemma sent_wf um : UtMetadata_wf um -> UtMetadata_wf (sent um).
Proof. intros [H1 H2 H3]. unfold sent. destruct (_ =? _); by split. Qed.

Definition UtMetadata_entries (um : UtMetadataExtendedMsg) : list (bytes * bytes) :=
  (B "msg_type", int (um_MsgType um)) :: (B "piece", int (um_Piece um)) ::
  opt (um_TotalSize um =? 0) (B "total_size", int (um_TotalSize um)) ++ [].

Lemma UtMetadata_sorted um :
  sort_by_key (readStruct UtMetadataT (UtMetadata_val um)) =
  (B "msg_type", (TUint 8, VUint (um_MsgType um))) :: (B "piece", (TInt 64, VInt (um_Piece um))) ::
  opt (um_TotalSize um =? 0) (B "total_size", (TUint 64, VUint (um_TotalSize um))) ++ [].
Proof.
  transitivity (sort_by_key (
    (B "msg_type", (TUint 8, VUint (um_MsgType um))) :: (B "piece", (TInt 64, VInt (um_Piece um))) ::
    opt (um_TotalSize um =? 0) (B "total_size", (TUint 64, VUint (um_TotalSize um))) ++ []));
    [reflexivity|]. by destruct (um_TotalSize um =? 0).
Qed.

Lemma UtMetadata_enc um :
  EncodeBytes UtMetadataT (UtMetadata_val um) = Ok (dictionary (UtMetadata_entries um)).
Proof.
  apply EncodeBytes_as. intros [|f] Hf; [lia|]. apply enc_as_struct. rewrite UtMetadata_sorted.
  unfold UtMetadata_val in Hf. cbn [depth foldr] in Hf. unfold UtMetadata_entries.
  entries; [apply enc_as_uint|apply enc_as_int|apply enc_as_uint].
Qed.

Lemma UtMetadata_dec um :
  UtMetadata_wf um ->
  dec_as UtMetadataT (UtMetadata_val (mkUtMetadata 0 0 0 [])) (dictionary (UtMetadata_entries um))
    (UtMetadata_val (mkUtMetadata (um_MsgType um) (um_Piece um) (um_TotalSize um) [])).
Proof.
  intros [H1 H2 H3]. apply dec_as_struct. unfold UtMetadata_entries. repeat fill.
  all: first [by apply dec_as_uint|by apply dec_as_int|omitted].
Qed.

(** A payload is its dictionary and, behind it, the data. *)
Definition UtMetadata_payload (um : UtMetadataExtendedMsg) : bytes :=
  dictionary (UtMetadata_entries um) ++ um_Data um.

Lemma EncodeToBytes_payload um : EncodeToBytes um = Ok (UtMetadata_payload (sent um)).
Proof.
  unfold EncodeToBytes, EncodeToPayload, UtMetadata_payload, sent.
  destruct (um_MsgType um =? UtMetadataExtendedMsgTypeData); cbn [negb]; cbv zeta; by rewrite UtMetadata_enc.
Qed.

Lemma DecodeFromPayload_payload um :
  UtMetadata_wf um -> DecodeFromPayload (mkUtMetadata 0 0 0 []) (UtMetadata_payload um) = (um, Done).
Proof.
  intros H. unfold DecodeFromPayload, UtMetadata_payload.
  destruct (Decode_as _ _ _ _ (um_Data um) (dec_as_ptr _ _ _ _ (UtMetadata_dec _ H))) as (d' & D & N).
  unfold UtMetadataT in *. rewrite D. cbv zeta. rewrite N, Nat2Z.id.
  cbn [UtMetadata_val val_UtMetadata um_MsgType um_Piece um_TotalSize].
  rewrite drop_app, Nat.sub_diag, drop_all. cbn [app drop]. by destruct um.
Qed.

(** The payload [EncodeToBytes] writes for a "ut_metadata" message is read back by
    [Message.UtMetadataExtendedMsg]: the dictionary gives the type, the piece and the size,
    and the data is exactly what follows the dictionary, whatever bytes it holds.  A message
    that is not of type "data" arrives without size and data. *)
Theorem ut_metadata_roundtrip um :
  UtMetadata_wf um ->
  exists b, EncodeToBytes um = Ok b /\
    forall m, pm_Type m = MTypeExtended -> pm_ExtendedPayload m = b ->
      Message_UtMetadataExtendedMsg m = (sent um, Done).
Proof.
  intros H. apply sent_wf in H. exists (UtMetadata_payload (sent um)).
  split; [apply EncodeToBytes_payload|]. intros m Ht Hb.
  unfold Message_UtMetadataExtendedMsg. rewrite Ht, Hb. by apply DecodeFromPayload_payload.
Qed.

Lemma ut_metadata_roundtrip_witness :
  exists b, EncodeToBytes (mkUtMetadata 1 2 1024 (B "12345")) = Ok b /\
    forall m, pm_Type m = MTypeExtended -> pm_ExtendedPayload m = b ->
      Message_UtMetadataExtendedMsg m = (mkUtMetadata 1 2 1024 (B "12345"), Done).
Proof.
  apply (ut_metadata_roundtrip (mkUtMetadata 1 2 1024 (B "12345"))).
  split; unfold is_u8, is_i64; simpl; lia.
Defined.

(** ** The extended handshake *)

Definition ip_wf (ip : IP) : Prop := ip = [] \/ legal ip.

Record ExtHandshake_wf (m : ExtendedHandshakeMsg) : Prop := {
  eh_M_keys : NoDup (map fst (eh_M m));
  eh_M_wf : Forall (fun kv => short kv.1 /\ is_u8 kv.2) (eh_M m);
  eh_V_wf : short (eh_V m); eh_Reqq_wf : 0 <= eh_Reqq m < 2 ^ 64; eh_Port_wf : is_u16 (eh_Port m);
  eh_IPv6_wf : ip_wf (eh_IPv6 m); eh_IPv4_wf : ip_wf (eh_IPv4 m); eh_YourIP_wf : ip_wf (eh_YourIP m);
  eh_Size_wf : 0 <= eh_MetadataSize m < 2 ^ 64 }.

(** What the peer gets: the map as a map (here in key order), the [net.IP] in sixteen bytes,
    the others in their shortest form. *)
Definition received_ext (m : ExtendedHandshakeMsg) : ExtendedHandshakeMsg :=
  mkExtHandshake (sort_by_key (eh_M m)) (eh_V m) (eh_Reqq m) (eh_Port m)
    (To16 (eh_IPv6 m)) (shortest (eh_IPv4 m)) (shortest (eh_YourIP m)) (eh_MetadataSize m).

Definition vuints (l : list (bytes * Z)) : list (bytes * gval) := map (fun kv => (kv.1, VUint kv.2)) l.
Definition ids_bytes (l : list (bytes * Z)) : bytes :=
  dictionary (map (fun kv => (kv.1, int kv.2)) (sort_by_key l)).

Lemma ids_enc l : enc_as (TMap None (TUint 8)) (VMap (vuints l)) (ids_bytes l).
Proof.
  apply enc_as_map. unfold vuints. rewrite sort_by_key_map. induction (sort_by_key l); constructor; [|done].
  split; [done|]. split; [done|]. apply enc_as_uint.
Qed.
Lemma ids_dec l :
  NoDup (map fst l) -> Forall (fun kv => short kv.1 /\ is_u8 kv.2) l ->
  dec_as (TMap None (TUint 8)) (VMap []) (ids_bytes l) (VMap (vuints (sort_by_key l))).
Proof.
  intros Hnd H. apply dec_as_map.
  - rewrite <- (sort_by_key_perm l) in H. induction H as [|[k z] l' [Hk Hz] _ IH]; constructor; [|done].
    split; [done|]. split; [done|]. apply dec_as_uint; [lia|exact Hz].
  - unfold vuints. rewrite map_map. cbn [fst]. change (fun x : bytes * Z => x.1) with (@fst bytes Z).
    by rewrite sort_by_key_perm.
Qed.

Definition ExtHandshake_entries (m : ExtendedHandshakeMsg) : list (bytes * bytes) :=
  opt (length (eh_IPv4 m) =? 0)%nat (B "ipv4", CompactIP_bytes (eh_IPv4 m)) ++
  opt (length (eh_IPv6 m) =? 0)%nat (B "ipv6", str (IP_String (eh_IPv6 m))) ++
  (B "m", ids_bytes (eh_M m)) ::
  opt (eh_MetadataSize m =? 0) (B "metadata_size", int (eh_MetadataSize m)) ++
  opt (eh_Port m =? 0) (B "p", int (eh_Port m)) ++
  opt (eh_Reqq m =? 0) (B "reqq", int (eh_Reqq m)) ++
  opt (length (eh_V m) =? 0)%nat (B "v", str (eh_V m)) ++
  opt (length (eh_YourIP m) =? 0)%nat (B "yourip", CompactIP_bytes (eh_YourIP m)) ++ [].

Lemma ExtHandshake_sorted m :
  sort_by_key (readStruct ExtHandshakeT (ExtHandshake_val m)) =
  opt (length (eh_IPv4 m) =? 0)%nat (B "ipv4", (CompactIPT, VBytes (eh_IPv4 m))) ++
  opt (length (eh_IPv6 m) =? 0)%nat (B "ipv6", (IPT, VBytes (eh_IPv6 m))) ++
  (B "m", (TMap None (TUint 8), VMap (vuints (eh_M m)))) ::
  opt (eh_MetadataSize m =? 0) (B "metadata_size", (TUint 64, VUint (eh_MetadataSize m))) ++
  opt (eh_Port m =? 0) (B "p", (TUint 16, VUint (eh_Port m))) ++
  opt (eh_Reqq m =? 0) (B "reqq", (TUint 64, VUint (eh_Reqq m))) ++
  opt (length (eh_V m) =? 0)%nat (B "v", (TString, VString (eh_V m))) ++
  opt (length (eh_YourIP m) =? 0)%nat (B "yourip", (CompactIPT, VBytes (eh_YourIP m))) ++ [].
Proof.
  destruct m as [M v q p ip6 ip4 your z]. unfold ExtHandshake_val.
  cbn [eh_M eh_V eh_Reqq eh_Port eh_IPv6 eh_IPv4 eh_YourIP eh_MetadataSize].
  transitivity (sort_by_key (
    (B "m", (TMap None (TUint 8), VMap (vuints M))) ::
    opt (length v =? 0)%nat (B "v", (TString, VString v)) ++
    opt (q =? 0) (B "reqq", (TUint 64, VUint q)) ++
    opt (p =? 0) (B "p", (TUint 16, VUint p)) ++
    opt (length ip6 =? 0)%nat (B "ipv6", (IPT, VBytes ip6)) ++
    opt (length ip4 =? 0)%nat (B "ipv4", (CompactIPT, VBytes ip4)) ++
    opt (length your =? 0)%nat (B "yourip", (CompactIPT, VBytes your)) ++
    opt (z =? 0) (B "metadata_size", (TUint 64, VUint z)) ++ [])); [reflexivity|].
  destruct (length v =? 0)%nat, (q =? 0), (p =? 0), (length ip6 =? 0)%nat, (length ip4 =? 0)%nat,
    (length your =? 0)%nat, (z =? 0); reflexivity.
Qed.

Lemma ip_legal ip : ip_wf ip -> (length ip =? 0)%nat = false -> legal ip.
Proof. by intros [-> |]. Qed.

Lemma ExtHandshake_enc m :
  ExtHandshake_wf m ->
  EncodeBytes ExtHandshakeT (ExtHandshake_val m) = Ok (dictionary (ExtHandshake_entries m)).
Proof.
  intros []. apply EncodeBytes_as. intros [|f] Hf; [lia|]. apply enc_as_struct.
  rewrite ExtHandshake_sorted. unfold ExtHandshake_val in Hf. fold (vuints (eh_M m)) in Hf.
  cbn [depth foldr] in Hf. unfold ExtHandshake_entries. entries.
  - by apply CompactIP_enc, ip_legal.
  - by apply IP_text_enc, ip_legal.
  - apply ids_enc.
  - apply enc_as_uint.
  - apply enc_as_uint.
  - apply enc_as_uint.
  - apply enc_as_string.
  - by apply CompactIP_enc, ip_legal.
Qed.

Lemma ExtHandshake_dec m :
  ExtHandshake_wf m ->
  dec_as ExtHandshakeT (ExtHandshake_val zeroExtHandshake) (dictionary (ExtHandshake_entries m))
    (ExtHandshake_val (received_ext m)).
Proof.
  intros []. apply dec_as_struct. unfold ExtHandshake_entries. repeat fill.
  all: first [by apply dec_as_uint|by apply dec_as_string|by apply ids_dec
             |by apply CompactIP_dec, ip_legal|by apply IP_text_dec, ip_legal|idtac].
  all: destruct m as [M v q p ip6 ip4 your z].
  all: cbn [received_ext eh_M eh_V eh_Reqq eh_Port eh_IPv6 eh_IPv4 eh_YourIP eh_MetadataSize] in *; omitted.
Qed.

Lemma ExtHandshake_Decode_bytes m :
  ExtHandshake_wf m ->
  ExtHandshake_Decode zeroExtHandshake (dictionary (ExtHandshake_entries m)) = (received_ext m, Done).
Proof.
  intros H. unfold ExtHandshake_Decode. rewrite (DecodeBytes_as _ _ _ _ (ExtHandshake_dec m H)). f_equal.
  unfold ExtHandshake_val, val_ExtHandshake. rewrite map_map. cbn [fst snd].
  rewrite (map_ext _ id) by (by intros []). by rewrite map_id.
Qed.

(** [C24] The extended handshake: [SendExtHandshakeMsg] writes one extended message with id 0,
    and the peer that handles it has afterwards, in [ExtendedHandshakeMsg], every field of the
    sender; its handler is called unless the sender announced no extended message, which is an
    error.  The addresses come in the forms of [received_ext]. *)
Theorem ext_handshake_exchange m connWrite hook pc :
  ExtHandshake_wf m ->
  exists b, SendExtHandshakeMsg connWrite hook pc m = Ok (SendExtMsg connWrite hook pc ExtendedIDHandshake b) /\
    forall peer h msg,
      pc_ExtHandshake peer = zeroExtHandshake ->
      pm_ExtendedID msg = ExtendedIDHandshake -> pm_ExtendedPayload msg = b ->
      handleExtMsg peer h msg =
      (let peer := pc_set_ext peer (received_ext m) in
       if (length (eh_M m) =? 0)%nat then (peer, [], Err ErrNoExtMessageID)
       else invoke h OnExtHandShake peer).
Proof.
  intros H. exists (dictionary (ExtHandshake_entries m)). split.
  - unfold SendExtHandshakeMsg. by rewrite ExtHandshake_enc.
  - intros peer h msg Hz Hi Hb. unfold handleExtMsg. rewrite Hi, Hz, Hb, ExtHandshake_Decode_bytes by done.
    cbn [Z.eqb eh_M zeroExtHandshake length received_ext]. by rewrite sort_by_key_perm.
Qed.

Definition sample_ext : ExtendedHandshakeMsg :=
  mkExtHandshake [(B "ut_pex", 2); (B "ut_metadata", 1)] (B "go-bt") 250 6881
    (replicate 15 x00 ++ [x01]) [x0a; x00; x00; x01] [] 31235.

Lemma sample_ext_wf : ExtHandshake_wf sample_ext.
Proof.
  split; try (unfold is_u16; simpl; lia); try done.
  - apply (bool_decide_unpack _). vm_compute. exact I.
  - repeat (apply Forall_cons; split; [split; [done|unfold is_u8; simpl; lia]|]). constructor.
  - right. by right.
  - right. by left.
  - by left.
Qed.

Lemma ext_handshake_exchange_witness :
  let connWrite := fun b : bytes => (length b, None) in
  let pc := newServerConn zeroHash zeroExtensionBits 0 [] in
  exists b, SendExtHandshakeMsg connWrite None pc sample_ext = Ok (SendExtMsg connWrite None pc 0 b) /\
    forall peer h msg,
      pc_ExtHandshake peer = zeroExtHandshake -> pm_ExtendedID msg = 0 -> pm_ExtendedPayload msg = b ->
      handleExtMsg peer h msg = invoke h OnExtHandShake (pc_set_ext peer (received_ext sample_ext)).
Proof.
  exact (ext_handshake_exchange sample_ext (fun b => (length b, None)) None
    (newServerConn zeroHash zeroExtensionBits 0 []) sample_ext_wf).
Defined.

(** [ExtendedHandshakeMsg.Encode] itself gives nothing: it hands its buffer out only when the
    encoder has failed. *)
Lemma ext_handshake_encode_empty m : ExtHandshake_wf m -> ExtHandshake_Encode m = ([], Done).
Proof.
  intros H. apply ExtHandshake_enc in H. unfold EncodeBytes in H. unfold ExtHandshake_Encode, Encode.
  destruct (encodeValue _ _ _) as [b []]; done.
Qed.
