(* ===== verification/PeerServer.v ===== *)
(** * The peer protocol server (peerprotocol/server.go, noop_handler.go)

    A server takes connections from its listener and serves each of them: handshake,
    message loop, closing.  The goroutines of two connections share nothing but the
    handler, which is a function of the connection here; so the server serves one connection
    after the other.  What [ErrorLog] is called with is part of the results. *)

From S2P Require Import Prelude GoBytes GoNet Bencode Codec Hash MetaAddr PeerMessage PeerConn.

(** ** Configuration *)

(** [ErrorLog] is left out; [cf_HandleMessage] is the nil function when it is [None]. *)
Record Config : Type := mkConfig {
  cf_ExtBits : ExtensionBits;
  cf_MaxLength : Z;
  cf_Timeout : Z;
  cf_HandleMessage : option (PeerConn -> Message -> Handler -> handled);
}.
Definition zeroConfig : Config := mkConfig zeroExtensionBits 0 0 None.
Definition Config_set (c : Config) (conf : option Config) : Config :=
  let c := default c conf in
  mkConfig (cf_ExtBits c) (if cf_MaxLength c =? 0 then 262144 else cf_MaxLength c) (cf_Timeout c)
    (match cf_HandleMessage c with Some f => Some f | None => Some HandleMessage end).

Record Server : Type := mkServer { sv_ID : Hash; sv_Handler : Handler; sv_Config : Config }.
Definition NewServer (id : Hash) (h : Handler) (c : option Config) : res Server :=
  if Hash_IsZero id then Panic else Ok (mkServer id h (Config_set zeroConfig c)).
(** The listener is what [Listen] gives; with no id it is open already when the panic comes. *)
Definition NewServerByListen {Ln} (Listen : bytes -> bytes -> error + Ln) (network address : bytes) (id : Hash)
    (h : Handler) (c : option Config) : res (Ln * Server) :=
  match Listen network address with
  | inl err => Err err
  | inr ln => let! s := NewServer id h c in Ok (ln, s)
  end.

(** ** One connection *)

(** What a connection does: the methods of the handler that are called, and [pc.Close]. *)
Inductive act : Type :=
  | Calls (c : call)
  | Closes.

Section Serve.
Variable s : Server.

(** The connection at the end, the messages passed to [Config.HandleMessage], the calls, and how
    the loop ended ([Done]: the peer closed the connection). *)
Fixpoint loopRun (fuel : nat) (pc : PeerConn) (h : Handler)
    : PeerConn * list Message * list act * outcome :=
  match fuel with
  | O => (pc, [], [], NoFuel)
  | S fuel =>
      let '(pc, m, o) := ReadMsg pc in
      match o with
      | Done =>
          match cf_HandleMessage (sv_Config s) with
          | None => (pc, [m], [], Panicked)
          | Some handle =>
              let '(pc, calls, ret) := handle pc m h in
              match ret with
              | Panic => (pc, [m], map Calls calls, Panicked)
              | Err e => (pc, [m], map Calls calls, Fail e)
              | Ok _ =>
                  let '(pc, ms, acts, o) := loopRun fuel pc h in (pc, m :: ms, map Calls calls ++ acts, o)
              end
          end
      | Fail EOF => (pc, [], [], Done)
      | o => (pc, [], [], o)
      end
  end.

(** Every message takes at least four bytes of input, which bounds the loop. *)
Definition handlePeerMessage (pc : PeerConn) : PeerConn * list Message * list act * outcome :=
  match PeerConn_Handshake pc with
  | (pc, Some e) => (pc, [], [Closes], Fail e)
  | (pc, None) =>
      let '(pc, err) := h_run (sv_Handler s) OnHandShake pc in
      match err with
      | Some e => (pc, [], [Calls OnHandShake; Closes], Fail e)
      | None =>
          let '(pc, ms, acts, o) := loopRun (S (length (pc_in pc))) pc (sv_Handler s) in
          let '(pc, _) := h_run (sv_Handler s) OnClose pc in
          (pc, ms, Calls OnHandShake :: acts ++ [Calls OnClose; Closes], o)
      end
  end.

Record served : Type := mkServed {
  sd_conn : PeerConn; sd_messages : list Message; sd_acts : list act; sd_outcome : outcome; sd_log : list error }.
Definition handleConn (input : bytes) : served :=
  let pc := newServerConn (sv_ID s) (cf_ExtBits (sv_Config s)) (cf_MaxLength (sv_Config s)) input in
  let '(pc, ms, acts, o) := handlePeerMessage pc in
  mkServed pc ms acts o (match o with Fail e => [e] | _ => [] end).
End Serve.

(** ** The accept loop *)

(** [strings.Contains]. *)
Fixpoint contains (s sub : bytes) : bool :=
  HasPrefix s sub || match s with [] => false | _ :: s => contains s sub end.

(** The listener gives connections (what their peers send) and then, when it is closed or
    broken, an error with its text; [None] when the server still waits for the next. *)
Fixpoint Run_loop (s : Server) (accepts : list (bytes + bytes)) : list served * option (list bytes) :=
  match accepts with
  | [] => ([], None)
  | inl err :: _ => ([], Some (if contains err (B "closed") then [] else [err]))
  | inr input :: accepts =>
      let '(served, log) := Run_loop s accepts in (handleConn s input :: served, log)
  end.
Definition Run (s : Server) (accepts : list (bytes + bytes)) : list served * option (list bytes) :=
  Run_loop (mkServer (sv_ID s) (sv_Handler s) (Config_set (sv_Config s) None)) accepts.

(** ** Handlers that do nothing (noop_handler.go) *)

(** The methods a type has: what each returns. *)
Definition methods : Type := call -> option (option error).
Definition NoopHandler : methods := fun c =>
  match c with OnClose | OnHandShake | OnMessage _ => Some None | _ => None end.
Definition NoopBep3Handler : methods := fun c =>
  match c with
  | CallUnchoke | CallRequest _ _ _ | CallHave _ | CallBitField _ | CallPiece _ _ _
  | CallChoke | CallInterested | CallNotInterested | CallCancel _ _ _ => Some None
  | _ => None
  end.
Definition NoopBep5Handler : methods := fun c => match c with CallPort _ => Some None | _ => None end.
Definition NoopBep6Handler : methods := fun c =>
  match c with
  | CallHaveAll | CallHaveNone | CallSuggest _ | CallAllowedFast _ | CallReject _ _ _ => Some None
  | _ => None
  end.
Definition NoopBep10Handler : methods := fun c =>
  match c with OnExtHandShake | OnPayload _ _ => Some None | _ => None end.

(** A type that embeds some of them: the first that has the method runs it. *)
Definition embed (bep3 bep5 bep6 bep10 : bool) : Handler :=
  let ms := NoopHandler :: (if bep3 then [NoopBep3Handler] else []) ++ (if bep5 then [NoopBep5Handler] else [])
            ++ (if bep6 then [NoopBep6Handler] else []) ++ (if bep10 then [NoopBep10Handler] else []) in
  mkHandler bep3 bep5 bep6 bep10
    (fun c pc => (pc, default (Some (Errorf "no such method")) (head (omap (fun m : methods => m c) ms)))).
