(* ===== verification/PeerServerThms.v ===== *)
(** * Theorems about the peer protocol server

    The life of a connection from accept to close, whatever the peer sends; and what arrives
    when the peer is a well-behaved one. *)

From S2P Require Import Prelude GoBytes GoNet Bencode Codec Hash MetaAddr PeerMessage PeerMessageThms.
From S2P Require Import PeerConn PeerConnThms PeerServer.

(** ** Any peer *)

(** The methods for messages. *)
Definition ordinary (c : call) : Prop := match c with OnHandShake | OnClose => False | _ => True end.

Lemma ordinary_if (b : bool) (x y : handled) :
  Forall ordinary x.1.2 -> Forall ordinary y.1.2 -> Forall ordinary (if b then x else y).1.2.
Proof. by destruct b. Qed.
Lemma ordinary_invoke h c pc : ordinary c -> Forall ordinary (invoke h c pc).1.2.
Proof. intros H. unfold invoke. destruct (h_run h c pc). by apply Forall_singleton. Qed.
Lemma HandleMessage_ordinary pc m h : Forall ordinary (HandleMessage pc m h).1.2.
Proof.
  unfold HandleMessage, handleExtMsg. cbv zeta.
  repeat first [apply ordinary_if | by apply ordinary_invoke | by constructor].
  destruct (ExtHandshake_Decode _ _) as [x []]; try (by constructor).
  apply ordinary_if; [by constructor|by apply ordinary_invoke].
Qed.

(** A server whose handler and [Config.HandleMessage] leave the reading of the connection to it, and the two
    methods about the connection itself; the default of [HandleMessage] does. *)
Class ServerWellBehaved (s : Server) : Prop := {
  sw_handler : WellBehaved (sv_Handler s);
  sw_handle : forall f, cf_HandleMessage (sv_Config s) = Some f ->
    forall pc m, frame pc (f pc m (sv_Handler s)) /\ Forall ordinary (f pc m (sv_Handler s)).1.2;
}.
#[export] Instance default_wb id h cf :
  WellBehaved h -> cf_HandleMessage cf = None -> ServerWellBehaved (mkServer id h (Config_set zeroConfig (Some cf))).
Proof.
  intros W E. split; [done|]. cbn. rewrite E. intros f [= <-] pc m.
  split; [by apply HandleMessage_frame|apply HandleMessage_ordinary].
Qed.

Lemma loopRun_spec s : ServerWellBehaved s -> forall pc pc' ms acts o,
  loopRun s (S (length (pc_in pc))) pc (sv_Handler s) = (pc', ms, acts, o) ->
  o <> NoFuel /\ (exists cs, acts = map Calls cs /\ Forall ordinary cs) /\
  Forall (fun m => first_only (pm_Type m) = false) (tail ms) /\
  (pc_PeerStage pc <> ConnStageHandshook -> Forall (fun m => first_only (pm_Type m) = false) ms).
Proof.
  intros W pc. assert (Hfuel : (length (pc_in pc) < S (length (pc_in pc)))%nat) by lia.
  revert Hfuel. generalize (S (length (pc_in pc))). intros fuel. revert pc.
  induction fuel as [|fuel IH]; intros pc Hf pc' ms acts o; [lia|]. cbn [loopRun].
  assert (N : exists cs, @nil act = map Calls cs /\ Forall ordinary cs) by (by exists []).
  destruct (ReadMsg pc) as [[pc1 m] o1] eqn:E. destruct (ReadMsg_fuel _ _ _ _ E) as [Ho1 _].
  destruct o1 as [|e| |]; [|destruct e; intros [= <- <- <- <-]; repeat split; (done || constructor)|..].
  - apply ReadMsg_Done in E as (Hlt & Hfirst & Hst).
    assert (Hm : pc_PeerStage pc <> ConnStageHandshook -> first_only (pm_Type m) = false).
    { intros Hn. destruct (first_only (pm_Type m)); [|done]. by destruct Hn, Hfirst. }
    destruct (cf_HandleMessage (sv_Config s)) as [f|] eqn:Ef.
    2:{ intros [= <- <- <- <-]. repeat split; [done..|constructor|]. intros Hn. constructor; [auto|constructor]. }
    destruct (sw_handle f Ef pc1 m) as [[Hin Hstage] Hord].
    destruct (f pc1 m (sv_Handler s)) as [[pc2 c2] err]. cbn [fst snd] in Hin, Hstage, Hord.
    destruct err as [u|e|].
    2,3: intros [= <- <- <- <-]; split; [done|]; split; [by exists c2|]; split; [constructor|];
      intros Hn; constructor; [auto|constructor].
    + destruct (loopRun s fuel pc2 (sv_Handler s)) as [[[pc3 ms3] c3] o3] eqn:R. intros [= <- <- <- <-].
      destruct (IH pc2 ltac:(rewrite Hin; lia) _ _ _ _ R) as (I1 & (cs & -> & Hcs) & I2 & I3).
      assert (Hn2 : pc_PeerStage pc2 <> ConnStageHandshook).
      { rewrite Hstage, Hst. unfold IsHandshook. case_bool_decide; done. }
      split; [done|]. split; [exists (c2 ++ cs); split; [by rewrite map_app|by apply Forall_app]|].
      split; [by apply I3|]. intros Hn. constructor; [auto|by apply I3].
  - intros [= <- <- <- <-]. repeat split; (done || constructor).
  - done.
Qed.

(** The input begins with a handshake. *)
Definition handshaken (input : bytes) : Prop := (68 <= length input)%nat /\ take 20 input = ProtocolHeader.
Lemma server_handshake pc pc' :
  pc_InfoHash pc = zeroHash -> PeerConn_Handshake pc = (pc', None) -> handshaken (pc_in pc).
Proof.
  intros Hz. unfold PeerConn_Handshake, Handshake, getPeerHandshakeMsg, readFull, handshaken. cbn [hm_InfoHash]. rewrite Hz.
  assert (Hash_IsZero zeroHash = true) as -> by done.
  destruct (negb _); [done|]. destruct (Nat.ltb_spec (length (pc_in pc)) 68) as [|Hl].
  { by destruct (length (pc_in pc) =? 0)%nat. }
  rewrite take_take, Nat.min_l by lia. case_bool_decide as Hp; [|done]. done.
Qed.

(** The life of a connection, as the handler sees it. *)
Inductive session : list act -> Prop :=
  | session_no_handshake : session [Closes]
  | session_refused : session [Calls OnHandShake; Closes]
  | session_served cs :
      Forall ordinary cs -> session (Calls OnHandShake :: map Calls cs ++ [Calls OnClose; Closes]).

(** [C22] The life of a connection, for every input: serving it ends; the connection is closed, as the
    last thing; the handler is called only when the input begins with a handshake, first with
    [OnHandShake], and when it accepts that, with [OnClose] at the end and messages
    in between; a [BitField], [HaveAll] or [HaveNone] is handled only as the first
    message; and the error log tells a failure, but not the end of the input.  A handler that panics
    ends the loop too: then [OnClose] and [Close] are run on the way out of the goroutine, and nothing is logged. *)
Theorem server_session s input :
  ServerWellBehaved s ->
  let r := handleConn s input in
  sd_outcome r <> NoFuel /\ session (sd_acts r) /\
  (sd_acts r <> [Closes] -> handshaken input) /\
  Forall (fun m => first_only (pm_Type m) = false) (tail (sd_messages r)) /\
  (sd_log r = [] <-> forall e, sd_outcome r <> Fail e).
Proof.
  intros W. unfold handleConn, handlePeerMessage. set (pc := newServerConn _ _ _ _).
  destruct (PeerConn_Handshake pc) as [pc1 [e|]] eqn:H.
  { split; [done|split; [exact session_no_handshake|]]. split; [done|split; [constructor|cbn; naive_solver]]. }
  apply server_handshake in H; [|done]. cbn in H.
  destruct (h_run (sv_Handler s) OnHandShake pc1) as [pc2 [e|]] eqn:E2.
  { split; [done|split; [exact session_refused|]]. split; [done|split; [constructor|cbn; naive_solver]]. }
  destruct (loopRun s _ pc2 _) as [[[pc3 ms] acts] o] eqn:R.
  destruct (loopRun_spec s W _ _ _ _ _ R) as (Ho & (cs & -> & Hcs) & Hms & _).
  destruct (h_run (sv_Handler s) OnClose pc3) as [pc4 e4]. cbn.
  split; [done|]. split; [by constructor|]. split; [done|]. split; [done|]. destruct o; naive_solver.
Qed.

(** ** A well-behaved peer *)

(** The methods a handler has. *)
Definition supported (h : Handler) (c : call) : bool :=
  match c with
  | OnHandShake | OnMessage _ | OnClose => true
  | CallPort _ => h_bep5 h
  | CallHaveAll | CallHaveNone | CallSuggest _ | CallAllowedFast _ | CallReject _ _ _ => h_bep6 h
  | OnExtHandShake | OnPayload _ _ => h_bep10 h
  | _ => h_bep3 h
  end.
(** A handler that only listens, like those of noop_handler.go. *)
Class Listener (h : Handler) : Prop := listens c pc : supported h c = true -> h_run h c pc = (pc, None).
#[export] Instance embed_listens b3 b5 b6 b10 : Listener (embed b3 b5 b6 b10).
Proof. intros c pc. destruct b3, b5, b6, b10, c; done. Qed.

#[export] Instance embed_wb b3 b5 b6 b10 : WellBehaved (embed b3 b5 b6 b10).
Proof. by split. Qed.

(** Which method a message belongs to. *)
Definition method_of (h : Handler) (m : Message) : list (Z * (bool * call)) :=
  let i := pm_Index m in
  [(MTypeChoke, (h_bep3 h, CallChoke)); (MTypeUnchoke, (h_bep3 h, CallUnchoke));
   (MTypeInterested, (h_bep3 h, CallInterested)); (MTypeNotInterested, (h_bep3 h, CallNotInterested));
   (MTypeHave, (h_bep3 h, CallHave i)); (MTypeBitField, (h_bep3 h, CallBitField (pm_BitField m)));
   (MTypeRequest, (h_bep3 h, CallRequest i (pm_Begin m) (pm_Length m)));
   (MTypePiece, (h_bep3 h, CallPiece i (pm_Begin m) (pm_Piece m)));
   (MTypeCancel, (h_bep3 h, CallCancel i (pm_Begin m) (pm_Length m)));
   (MTypePort, (h_bep5 h, CallPort (pm_Port m)));
   (MTypeSuggest, (h_bep6 h, CallSuggest i)); (MTypeHaveAll, (h_bep6 h, CallHaveAll));
   (MTypeHaveNone, (h_bep6 h, CallHaveNone)); (MTypeReject, (h_bep6 h, CallReject i (pm_Begin m) (pm_Length m)));
   (MTypeAllowedFast, (h_bep6 h, CallAllowedFast i))].
(** A message goes to its method when the handler has it, and to [OnMessage] when not. *)
Definition calls_of (h : Handler) (m : Message) : list call :=
  if pm_Keepalive m then []
  else match List.find (fun e => pm_Type m =? e.1) (method_of h m) with
       | Some (_, (true, c)) => [c]
       | _ => [OnMessage m]
       end.

Definition all_extensions (bits : ExtensionBits) : Prop :=
  IsSupportDHT bits = true /\ IsSupportFast bits = true /\ IsSupportExtended bits = true.
(** What handling a message leaves as it is. *)
Definition same_conn (pc pc' : PeerConn) : Prop :=
  pc_in pc' = pc_in pc /\ pc_out pc' = pc_out pc /\ pc_PeerStage pc' = pc_PeerStage pc /\
  pc_ExtBits pc' = pc_ExtBits pc /\ pc_MaxLength pc' = pc_MaxLength pc.

Lemma invoke_listener h c pc : Listener h -> supported h c = true -> invoke h c pc = (pc, [c], Ok tt).
Proof. intros L H. unfold invoke. by rewrite listens. Qed.

Lemma HandleMessage_listener h pc m :
  Listener h -> all_extensions (pc_ExtBits pc) -> pm_Type m <> MTypeExtended \/ h_bep10 h = false ->
  exists pc', HandleMessage pc m h = (pc', calls_of h m, Ok tt) /\ same_conn pc pc'.
Proof.
  intros L (Hd & Hf & He) Hx. unfold HandleMessage, calls_of. cbv zeta. destruct (pm_Keepalive m); [by eexists|].
  assert (forall (b : bool) c pc', same_conn pc pc' -> (b = true -> supported h c = true) ->
    exists pc2, (if b then invoke h c pc' else invoke h (OnMessage m) pc') =
      (pc2, match b with true => [c] | false => [OnMessage m] end, Ok tt) /\ same_conn pc pc2) as V.
  { intros b c pc' Hs Hb. exists pc'. split; [|done]. destruct b; by rewrite invoke_listener by auto. }
  rewrite Hd, Hf, He. unfold method_of. cbn [List.find fst negb].
  repeat match goal with
         | |- exists _, (if ?t =? MTypeExtended then _ else _) = _ /\ _ => fail 1
         | |- exists _, (if ?b then _ else _) = _ /\ _ =>
             destruct b; [apply V; [by repeat split|exact (fun H => H)]|]
         end.
  destruct (pm_Type m =? MTypeExtended) eqn:Ex.
  - apply Z.eqb_eq in Ex. destruct Hx as [Hx|Hx]; [done|]. rewrite Hx. rewrite invoke_listener by done. by eexists.
  - rewrite invoke_listener by done. by eexists.
Qed.

(** What a peer may send: a message of the Go types with nothing but the fields of its type, short enough, and
    no extended message when the handler takes those apart. *)
Record sendable (h : Handler) (maxLength : Z) (m : Message) : Prop := {
  sm_typed : typed m; sm_relevant : relevant m = m; sm_kept : index_lost (pm_Type m) = false;
  sm_u32 : Z.of_nat (length (Message_Encode m)) - 4 < 2 ^ 32;
  sm_length : maxLength = 0 \/ Z.of_nat (length (Message_Encode m)) - 4 <= maxLength;
  sm_ext : pm_Type m <> MTypeExtended \/ h_bep10 h = false }.

Lemma ReadMsg_sent h pc m rest :
  sendable h (pc_MaxLength pc) m -> pc_in pc = Message_Encode m ++ rest ->
  (pc_PeerStage pc <> ConnStageHandshook -> first_only (pm_Type m) = false) ->
  exists pc', ReadMsg pc = (pc', m, Done) /\ pc_in pc' = rest /\ pc_out pc' = pc_out pc /\
    pc_PeerStage pc' <> ConnStageHandshook /\ pc_ExtBits pc' = pc_ExtBits pc /\ pc_MaxLength pc' = pc_MaxLength pc /\
    pc_PeerChoked pc' = pc_PeerChoked pc.
Proof.
  intros [] Hin Hf. unfold ReadMsg. rewrite Hin, Message_Decode_encode, sm_relevant0 by done.
  fold (first_only (pm_Type m)). cbn [pc_PeerStage pc_set_io]. unfold IsHandshook. case_bool_decide as Hs.
  - rewrite andb_false_r. eexists. by repeat split.
  - rewrite (Hf Hs). eexists. by repeat split.
Qed.

Lemma loopRun_sent s h ms : Listener h -> cf_HandleMessage (sv_Config s) = Some HandleMessage ->
  forall fuel pc, (length (pc_in pc) < fuel)%nat -> pc_in pc = concat (map Message_Encode ms) ->
  all_extensions (pc_ExtBits pc) -> Forall (sendable h (pc_MaxLength pc)) ms ->
  Forall (fun m => first_only (pm_Type m) = false) (tail ms) ->
  (pc_PeerStage pc <> ConnStageHandshook -> Forall (fun m => first_only (pm_Type m) = false) ms) ->
  exists pc', loopRun s fuel pc h = (pc', ms, map Calls (concat (map (calls_of h) ms)), Done) /\
    pc_out pc' = pc_out pc.
Proof.
  intros L Hh. induction ms as [|m ms IH]; intros fuel pc Hfuel Hin Hext Hsend Htail Hall;
    (destruct fuel as [|fuel]; [lia|]); cbn [loopRun].
  { unfold ReadMsg. rewrite Hin. cbn. by eexists. }
  apply Forall_cons in Hsend as [Hm Hms]. cbn [map concat tail] in *.
  destruct (ReadMsg_sent h pc m _ Hm Hin) as (pc1 & E & H1 & H2 & H3 & H4 & H5 & _).
  { intros Hs. specialize (Hall Hs). by inversion Hall. }
  rewrite E, Hh. destruct (HandleMessage_listener h pc1 m L) as (pc2 & E2 & G1 & G2 & G3 & G4 & G5).
  { by rewrite H4. }
  { by destruct Hm. }
  rewrite E2. destruct (IH fuel pc2) as (pc3 & -> & Hout).
  - apply ReadMsg_Done in E as [Hlt _]. rewrite G1. lia.
  - congruence.
  - congruence.
  - by rewrite G5, H5.
  - by destruct ms; inversion Htail.
  - done.
  - exists pc3. split; [by rewrite map_app|congruence].
Qed.

(** The accepting side takes over the infohash. *)
Lemma PeerConn_Handshake_server pc bits peerID infohash rest :
  pc_PeerStage pc = ConnStageConnected -> pc_InfoHash pc = zeroHash ->
  hm_wf (mkHandshakeMsg bits peerID infohash) ->
  pc_in pc = handshake_bytes (mkHandshakeMsg bits peerID infohash) ++ rest ->
  exists c, PeerConn_Handshake pc = (c, None) /\ pc_in c = rest /\ pc_PeerStage c = ConnStageHandshook /\
    pc_ExtBits c = pc_ExtBits pc /\ pc_MaxLength c = pc_MaxLength pc /\
    pc_out c = pc_out pc ++ handshake_bytes (mkHandshakeMsg (pc_ExtBits pc) (pc_ID pc) infohash).
Proof.
  intros Hs Hz Hwf Hin. unfold PeerConn_Handshake, Handshake. rewrite Hs, Hin.
  rewrite bool_decide_eq_true_2 by done. cbn [negb hm_InfoHash]. rewrite Hz.
  assert (Hash_IsZero zeroHash = true) as Hz' by done. rewrite Hz', getPeerHandshakeMsg_bytes by done.
  cbn [pc_InfoHash pc_set_io pc_set_peer]. rewrite Hz, Hz'. eexists. by repeat split.
Qed.

(** [C23] Client and server together: what a peer sends behind its handshake arrives, at a server that announces
    all extensions, handles messages by the default and has a handler none of whose methods fails
    ([Listener]).  The server answers with its own handshake for the same infohash; every message, in order,
    reaches its method (or [OnMessage]) with its fields, and the connection ends without an error when
    the peer closes it.  The messages are those that [sendable] describes: typed, within the limit on their
    length, neither [Suggest] nor [AllowedFast], whose index is lost, and not [Extended] when the handler
    takes those apart (for them see [ext_handshake_exchange]); a [BitField], [HaveAll] or [HaveNone] is
    the first one only. *)
Theorem server_delivers id h cf s bits peerID infohash ms :
  NewServer id h (Some cf) = Ok s -> cf_HandleMessage cf = None -> all_extensions (cf_ExtBits cf) -> Listener h ->
  hm_wf (mkHandshakeMsg bits peerID infohash) ->
  Forall (sendable h (cf_MaxLength (sv_Config s))) ms ->
  Forall (fun m => first_only (pm_Type m) = false) (tail ms) ->
  let r := handleConn s (handshake_bytes (mkHandshakeMsg bits peerID infohash) ++ concat (map Message_Encode ms)) in
  sd_messages r = ms /\
  sd_acts r = Calls OnHandShake :: map Calls (concat (map (calls_of h) ms)) ++ [Calls OnClose; Closes] /\
  sd_outcome r = Done /\ sd_log r = [] /\
  pc_out (sd_conn r) = handshake_bytes (mkHandshakeMsg (cf_ExtBits cf) id infohash).
Proof.
  unfold NewServer. destruct (Hash_IsZero id); [done|]. set (s0 := mkServer _ _ _).
  intros [= <-] Hcf Hext L Hwf Hms Htail. unfold handleConn, handlePeerMessage. set (pc := newServerConn _ _ _ _).
  destruct (PeerConn_Handshake_server pc bits peerID infohash (concat (map Message_Encode ms)))
    as (c & -> & Hin & Hstage & Hbits & Hmax & Hout); [done..|].
  change (sv_Handler s0) with h. rewrite (listens OnHandShake) by done.
  destruct (loopRun_sent s0 h ms L) with (fuel := S (length (pc_in c))) (pc := c) as (pc' & E & Hout');
    [by cbn; rewrite Hcf|lia|done|by rewrite Hbits|by rewrite Hmax|done|done|].
  rewrite E, (listens OnClose) by done. cbn. by rewrite Hout', Hout.
Qed.

(** ** Witnesses *)

Definition all_bits : ExtensionBits := [x00; x00; x00; x00; x00; x10; x00; x05].
Definition demo_config : Config := mkConfig all_bits 0 0 None.
Definition demo_server (h : Handler) : Server := mkServer (replicate 20 x02) h (Config_set zeroConfig (Some demo_config)).
Definition demo_handshake : bytes := handshake_bytes (mkHandshakeMsg zeroExtensionBits (replicate 20 x01) (replicate 20 x09)).

(** A bit field that comes too late ends the connection. *)
Lemma server_session_witness :
  let input := demo_handshake ++ Message_Encode (msgOf MTypeUnchoke)
                 ++ Message_Encode (set_BitField (msgOf MTypeBitField) [x80]) in
  let r := handleConn (demo_server (embed true true true true)) input in
  sd_acts r = [Calls OnHandShake; Calls CallUnchoke; Calls OnClose; Closes] /\ length (sd_log r) = 1%nat /\
  sd_outcome r <> NoFuel /\ session (sd_acts r).
Proof.
  intros input r.
  assert (ServerWellBehaved (demo_server (embed true true true true))) as W.
  { exact (default_wb _ _ demo_config (embed_wb _ _ _ _) eq_refl). }
  destruct (server_session (demo_server (embed true true true true)) input W) as (Ho & Hs & _).
  split; [vm_compute; reflexivity|]. split; [vm_compute; reflexivity|]. split; [exact Ho|exact Hs].
Defined.

Definition demo_messages : list Message :=
  [set_BitField (msgOf MTypeBitField) [x80]; msgOf MTypeInterested; set_Keepalive zeroMessage true;
   set_Port (msgOf MTypePort) 6881; set_Extended (msgOf MTypeExtended) 3 (B "d1:ai1ee"); set_Unknown (msgOf 99) (B "?")].
Lemma demo_sendable : Forall (sendable (embed true false true false) 262144) demo_messages.
Proof.
  repeat (apply Forall_cons_2; [split; try reflexivity; first
    [by repeat split|right; vm_compute; congruence|by left|by right]|]); constructor.
Qed.
Lemma server_delivers_witness :
  let r := handleConn (demo_server (embed true false true false)) (demo_handshake ++ concat (map Message_Encode demo_messages)) in
  sd_messages r = demo_messages /\
  sd_acts r = map Calls [OnHandShake; CallBitField [x80]; CallInterested; OnMessage (set_Port (msgOf MTypePort) 6881);
    OnMessage (set_Extended (msgOf MTypeExtended) 3 (B "d1:ai1ee")); OnMessage (set_Unknown (msgOf 99) (B "?")); OnClose]
    ++ [Closes] /\
  sd_outcome r = Done.
Proof.
  destruct (server_delivers (replicate 20 x02) (embed true false true false) demo_config
    (demo_server (embed true false true false)) zeroExtensionBits (replicate 20 x01) (replicate 20 x09) demo_messages)
    as (H1 & H2 & H3 & _).
  - reflexivity.
  - reflexivity.
  - repeat split; reflexivity.
  - exact (embed_listens true false true false).
  - repeat split; reflexivity.
  - exact demo_sendable.
  - vm_compute. repeat constructor.
  - split; [exact H1|]. split; [exact H2|exact H3].
Defined.
