(* ===== verification/BlockHandler.v ===== *)
(** * The block download handler (downloader/block_handler.go)

    A handler of the peer protocol that embeds the no-op handlers and asks for the next block
    whenever one arrives, is rejected, or the peer unchokes.  [OnBlock] and [ReqBlock] are the
    functions of the user. *)

From S2P Require Import Prelude GoBytes GoNet Bencode Codec Hash MetaAddr PeerMessage PeerMessageThms.
From S2P Require Import PeerConn PeerConnThms PeerServer PeerServerThms.

(** ErrChoked of peerconn.go. *)
Definition ErrChoked : error := Errorf "choked".

Record BlockDownloadHandler : Type := NewBlockDownloadHandler {
  bh_PieceNum : Z;
  bh_ReqBlock : option (PeerConn -> PeerConn * option error);
  bh_OnBlock : option (Z -> Z -> bytes -> option error);
}.

Section BlockHandler.
Variable fd : BlockDownloadHandler.

Definition request (pc : PeerConn) : PeerConn * option error :=
  match bh_ReqBlock fd with
  | None => (pc, None)
  | Some f => if pc_PeerChoked pc then (pc, Some ErrChoked) else f pc
  end.
Definition set_bits (pc : PeerConn) (bf : BitField) : PeerConn :=
  pc_set_lists pc (pc_Fasts pc) (pc_Suggests pc) bf.

Definition Piece (pc : PeerConn) (i b : Z) (p : bytes) : PeerConn * option error :=
  match bh_OnBlock fd with
  | Some f => match f i b p with Some e => (pc, Some e) | None => request pc end
  | None => request pc
  end.
Definition Unchoke (pc : PeerConn) : PeerConn * option error := request pc.
Definition Have (pc : PeerConn) (index : Z) : PeerConn * option error :=
  (set_bits pc (BitField_Set (pc_BitField pc) index).1, None).
Definition HaveAll (pc : PeerConn) : PeerConn * option error :=
  (if 0 <? bh_PieceNum fd then set_bits pc (NewBitField (Z.to_nat (bh_PieceNum fd)) true) else pc, None).
Definition Reject (pc : PeerConn) (index begin length : Z) : PeerConn * option error :=
  request (set_bits pc (BitField_Unset (pc_BitField pc) index).1).

(** The methods of the struct, those of the embedded no-op handlers under its own. *)
Definition block_handler : Handler :=
  mkHandler true false true false (fun c pc =>
    match c with
    | CallPiece i b p => Piece pc i b p
    | CallUnchoke => Unchoke pc
    | CallHave index => Have pc index
    | CallHaveAll => HaveAll pc
    | CallReject index begin length => Reject pc index begin length
    | c => h_run (embed true false true false) c pc
    end).
End BlockHandler.

(** ** What it makes of a connection *)

(** It is well behaved when [ReqBlock] only writes. *)
#[export] Instance block_handler_wb fd :
  (forall f pc, bh_ReqBlock fd = Some f -> pc_in (f pc).1 = pc_in pc /\ pc_PeerStage (f pc).1 = pc_PeerStage pc) ->
  WellBehaved (block_handler fd).
Proof.
  intros H. assert (forall pc, pc_in (request fd pc).1 = pc_in pc /\ pc_PeerStage (request fd pc).1 = pc_PeerStage pc) as R.
  { intros pc. unfold request. destruct (bh_ReqBlock fd); [|done]. destruct (pc_PeerChoked pc); [done|auto]. }
  assert (forall pc i b p, pc_in (Piece fd pc i b p).1 = pc_in pc /\ pc_PeerStage (Piece fd pc i b p).1 = pc_PeerStage pc) as P.
  { intros pc i b p. unfold Piece. destruct (bh_OnBlock fd) as [f|]; [destruct (f i b p)|]; auto. }
  split; intros c pc; destruct c; try done; try apply P; try apply R; try (unfold h_run; cbn; unfold HaveAll; by destruct (0 <? _)).
  all: unfold h_run; cbn; unfold Reject; rewrite ?(proj1 (R _)), ?(proj2 (R _)); done.
Qed.

(** A peer that chokes has to reject the requests it will not serve (BEP 6); the handler answers the first
    [Reject] with an error, which ends the connection, although nothing went wrong. *)
Lemma reject_after_choke s fd f index begin len rest pc :
  cf_HandleMessage (sv_Config s) = Some HandleMessage -> bh_ReqBlock fd = Some f ->
  IsSupportFast (pc_ExtBits pc) = true -> pc_MaxLength pc = 0 -> is_u32 index -> is_u32 begin -> is_u32 len ->
  let choke := msgOf MTypeChoke in
  let reject := set_Length (set_Begin (set_Index (msgOf MTypeReject) index) begin) len in
  pc_in pc = Message_Encode choke ++ Message_Encode reject ++ rest ->
  exists pc', loopRun s (S (length (pc_in pc))) pc (block_handler fd) =
    (pc', [choke; reject], map Calls [CallChoke; CallReject index begin len], Fail ErrChoked).
Proof.
  intros Hh Hf Hfast Hmax Hi Hb Hl choke reject Hin.
  assert (Hs1 : sendable (block_handler fd) (pc_MaxLength pc) choke) by (split; try done; by left).
  destruct (ReadMsg_sent _ pc choke _ Hs1 Hin) as (pc1 & E1 & H1 & _ & _ & B1 & M1 & _); [done|].
  assert (Hs2 : sendable (block_handler fd) 0 reject).
  { split; [|reflexivity..|by left|by left].
    split; [done|split; [exact Hi|split; [exact Hb|split; [exact Hl|done]]]]. }
  set (pc2 := pc_set_remote pc1 true (pc_PeerInterested pc1)).
  destruct (ReadMsg_sent (block_handler fd) pc2 reject rest) as (pc3 & E3 & _ & _ & _ & B3 & _ & C3);
    [cbn; by rewrite M1, Hmax|exact H1|done|].
  assert (exists n, length (pc_in pc) = S (S n)) as (n & ->) by (rewrite Hin; by eexists).
  cbn [loopRun]. rewrite E1, Hh.
  assert (HandleMessage pc1 choke (block_handler fd) = (pc2, [CallChoke], Ok tt)) as -> by done.
  cbn [loopRun]. rewrite E3.
  assert (HandleMessage pc3 reject (block_handler fd) =
    (set_bits pc3 (BitField_Unset (pc_BitField pc3) index).1, [CallReject index begin len], Err ErrChoked)) as ->; [|by eexists].
  unfold HandleMessage. cbn. rewrite B3. cbn. rewrite B1, Hfast. unfold invoke, block_handler. cbn. unfold Reject, request. rewrite Hf. cbn. by rewrite C3.
Qed.
