(* ===== verification/UdpTracker.v ===== *)
(** * The UDP tracker (tracker/udptracker: udp.go, udp_server.go, udp_client.go)

    The binary forms of BEP 15 and BEP 41, the server as a transformer of its state and
    of the handler's, and the client over a socket.  Parameters: the [ServerHandler] (with a
    state of its own) and, for the client, the world behind its socket: [Write], [Read]
    (a datagram cut to the buffer, or an error; [UdpConn] makes it from a socket and a context) and the clock. *)

From S2P Require Import Prelude GoBytes GoNet GoTime Bencode Codec Hash MetaAddr.

Definition maxBufSize : Z := 2048.
Definition ProtocolID : Z := 0x41727101980.
Definition ActionConnect : Z := 0.
Definition ActionAnnounce : Z := 1.
Definition ActionScrape : Z := 2.
Definition ActionError : Z := 3.

(** [b[i:j]] and [b[i:]]. *)
Definition slice (b : bytes) (i j : nat) : res bytes :=
  match go_slice b i j with Some x => Ok x | None => Panic end.
Definition slice_from (b : bytes) (i : nat) : res bytes := slice b i (length b).

(** ** Extensions (BEP 41) *)

Definition EndOfOptions : Z := 0.
Definition Nop : Z := 1.
Definition URLData : Z := 2.

Definition ExtensionType_String (et : Z) : bytes :=
  if et =? EndOfOptions then B "EndOfOptions"
  else if et =? Nop then B "Nop"
  else if et =? URLData then B "URLData"
  else B "ExtensionType(" ++ format_int et ++ B ")".

Record Extension : Type := mkExtension { ext_Type : Z; ext_Length : Z; ext_Data : bytes }.
#[export] Instance Extension_eq_dec : EqDecision Extension.
Proof. solve_decision. Defined.
Definition zeroExtension : Extension := mkExtension 0 0 [].

Definition NewEndOfOptions : Extension := mkExtension EndOfOptions 0 [].
Definition NewNop : Extension := mkExtension Nop 0 [].
Definition NewURLData (data : bytes) : Extension :=
  mkExtension URLData (u8 (Z.of_nat (length data))) data.

Definition Extension_EncodeTo (e : Extension) : res bytes :=
  let _len := u8 (Z.of_nat (length (ext_Data e))) in
  if (ext_Length e =? 0) && negb (_len =? 0)
  then Ok (z2b (ext_Type e) :: z2b _len :: ext_Data e)
  else if negb (_len =? ext_Length e) then Panic
  else Ok (z2b (ext_Type e) :: z2b (ext_Length e) :: ext_Data e).

(** [spare] is what the array of [b] holds between its length and its capacity, which Go's
    [b[2:parsed]] may reach into. *)
Definition Extension_DecodeFrom (spare : bytes) (e : Extension) (b : bytes) : res (Extension * nat) :=
  match b with
  | [] => Ok (e, 0%nat)
  | [t] => Ok (mkExtension (b2z t) (ext_Length e) (ext_Data e), 1%nat)
  | t :: l :: _ =>
      if 0 <? b2z l then
        let parsed := (2 + Z.to_nat (b2z l))%nat in
        let! data := slice (b ++ spare) 2 parsed in
        Ok (mkExtension (b2z t) (b2z l) data, parsed)
      else Ok (mkExtension (b2z t) (b2z l) (ext_Data e), 2%nat)
  end.

(** ** The announce request *)

Record AnnounceRequest : Type := mkAnnounceRequest {
  ar_InfoHash : Hash;
  ar_PeerID : Hash;
  ar_Downloaded : Z;
  ar_Left : Z;
  ar_Uploaded : Z;
  ar_Event : Z;
  ar_Key : Z;
  ar_NumWant : Z;
  ar_Port : Z;
  ar_Exts : list Extension;
}.
#[export] Instance AnnounceRequest_eq_dec : EqDecision AnnounceRequest.
Proof. solve_decision. Defined.
Definition zeroAnnounceRequest : AnnounceRequest :=
  mkAnnounceRequest zeroHash zeroHash 0 0 0 0 0 0 0 [].

(** [for len(b) > 0 { ... }]: every round parses at least a byte. *)
Fixpoint decodeExts (fuel : nat) (spare : bytes) (exts : list Extension) (b : bytes)
    : res (list Extension) :=
  match b, fuel with
  | [], _ => Ok exts
  | _, O => Panic
  | _, S fuel =>
      let! '(ext, parsed) := Extension_DecodeFrom spare zeroExtension b in
      let! rest := slice_from b parsed in
      decodeExts fuel spare (exts ++ [ext]) rest
  end.

Definition AnnounceRequest_DecodeFrom (spare : bytes) (r : AnnounceRequest) (b : bytes)
    : res AnnounceRequest :=
  let! ih := slice b 0 20 in let! ih := NewHash ih in
  let! id := slice b 20 40 in let! id := NewHash id in
  let! downloaded := slice b 40 48 in
  let! left := slice b 48 56 in
  let! uploaded := slice b 56 64 in
  let! event := slice b 64 68 in
  let! key := slice b 72 76 in
  let! numWant := slice b 76 80 in
  let! port := slice b 80 82 in
  let! b := slice_from b 82 in
  let! exts := decodeExts (length b) spare (ar_Exts r) b in
  Ok (mkAnnounceRequest ih id (i64 (be_decode downloaded)) (i64 (be_decode left))
        (i64 (be_decode uploaded)) (be_decode event) (i32 (be_decode key))
        (i32 (be_decode numWant)) (be_decode port) exts).

Definition AnnounceRequest_EncodeTo (r : AnnounceRequest) : res bytes :=
  let numWant := if ar_NumWant r <=? 0 then -1 else ar_NumWant r in
  let! exts := res_mapM Extension_EncodeTo (ar_Exts r) in
  Ok (ar_InfoHash r ++ ar_PeerID r ++
      be_encode 8 (ar_Downloaded r) ++ be_encode 8 (ar_Left r) ++ be_encode 8 (ar_Uploaded r) ++
      be_encode 4 (ar_Event r) ++ be_encode 4 0 ++
      be_encode 4 (ar_Key r) ++ be_encode 4 numWant ++ be_encode 2 (ar_Port r) ++ concat exts).

(** ** Responses *)

Record AnnounceResponse : Type := mkAnnounceResponse {
  an_Interval : Z;
  an_Leechers : Z;
  an_Seeders : Z;
  an_Addresses : list CompactAddr;
}.
#[export] Instance AnnounceResponse_eq_dec : EqDecision AnnounceResponse.
Proof. solve_decision. Defined.

Definition encodeAddress (ipv4 : bool) (addr : CompactAddr) : res bytes :=
  let ip := if ipv4 then To4 (ca_IP addr) else To16 (ca_IP addr) in
  if (length ip =? 0)%nat then Panic
  else Ok (CompactAddr_WriteBinary (mkCompactAddr ip (ca_Port addr))).

Definition AnnounceResponse_EncodeTo (r : AnnounceResponse) (ipv4 : bool) : res bytes :=
  let! addrs := res_mapM (encodeAddress ipv4) (an_Addresses r) in
  Ok (be_encode 4 (an_Interval r) ++ be_encode 4 (an_Leechers r) ++ be_encode 4 (an_Seeders r) ++
      concat addrs).

Definition decodeAddress (c : bytes) : res CompactAddr :=
  match CompactAddr_UnmarshalBinary zeroCompactAddr c with (a, Done) => Ok a | _ => Panic end.

Definition AnnounceResponse_DecodeFrom (b : bytes) (ipv4 : bool) : res AnnounceResponse :=
  let! interval := slice b 0 4 in
  let! leechers := slice b 4 8 in
  let! seeders := slice b 8 12 in
  let! b := slice_from b 12 in
  let step := ((if ipv4 then 4 else 16) + 2)%nat in
  let! addrs := res_mapM decodeAddress (chunks step b) in
  Ok (mkAnnounceResponse (be_decode interval) (be_decode leechers) (be_decode seeders) addrs).

Record ScrapeResponse : Type := mkScrapeResponse {
  sc_Seeders : Z;
  sc_Leechers : Z;
  sc_Completed : Z;
}.
#[export] Instance ScrapeResponse_eq_dec : EqDecision ScrapeResponse.
Proof. solve_decision. Defined.

Definition ScrapeResponse_EncodeTo (r : ScrapeResponse) : bytes :=
  be_encode 4 (sc_Seeders r) ++ be_encode 4 (sc_Completed r) ++ be_encode 4 (sc_Leechers r).

Definition ScrapeResponse_DecodeFrom (b : bytes) : res ScrapeResponse :=
  let! seeders := slice b 0 4 in
  let! completed := slice b 4 8 in
  let! leechers := slice b 8 12 in
  Ok (mkScrapeResponse (be_decode seeders) (be_decode leechers) (be_decode completed)).

Definition encodeResponseHeader (action tid : Z) : bytes := be_encode 4 action ++ be_encode 4 tid.

(** ** The server *)

(** What a handler answers: a value or the text of its error. *)
Record ServerHandler (H : Type) : Type := mkServerHandler {
  OnConnect : H -> UDPAddr -> H * option bytes;
  OnAnnounce : H -> UDPAddr -> AnnounceRequest -> H * (bytes + AnnounceResponse);
  OnScrap : H -> UDPAddr -> list Hash -> H * (bytes + list ScrapeResponse);
}.
Arguments OnConnect {H} _ _ _.
Arguments OnAnnounce {H} _ _ _ _.
Arguments OnScrap {H} _ _ _ _.

Record wrappedPeerAddr : Type := mkWrappedPeerAddr { wa_Addr : UDPAddr; wa_Time : Z }.

Section Server.
Context {H : Type} (handler : ServerHandler H).

Record Server : Type := mkServer {
  us_cid : Z;
  us_conns : gmap Z wrappedPeerAddr;
  us_handler : H;
}.

Definition NewServer (h : H) : Server := mkServer 0 ∅ h.

Definition getConnectionID (s : Server) : Z * Server :=
  let cid := u64 (us_cid s + 1) in (cid, mkServer cid (us_conns s) (us_handler s)).

Definition addConnection (s : Server) (cid : Z) (raddr : UDPAddr) (now : Z) : Server :=
  mkServer (us_cid s) (<[cid := mkWrappedPeerAddr raddr now]> (us_conns s)) (us_handler s).

Definition checkConnection (s : Server) (cid : Z) (raddr : UDPAddr) : bool :=
  match us_conns s !! cid with
  | Some w => (ua_Port (wa_Addr w) =? ua_Port raddr) && bool_decide (ua_IP (wa_Addr w) = ua_IP raddr)
  | None => false
  end.

Definition set_handler (s : Server) (h : H) : Server := mkServer (us_cid s) (us_conns s) h.

(** A round of [cleanConnectionID]. *)
Definition cleanConnectionID (s : Server) (interval now : Z) : Server :=
  mkServer (us_cid s)
    (filter (fun kv => ~ (interval < time_Sub now (wa_Time kv.2))) (us_conns s)) (us_handler s).

(** The packets of [sendError], [sendConnResp], [sendAnnounceResp], [sendScrapResp]. *)
Definition sendError (tid : Z) (reason : bytes) : bytes := encodeResponseHeader ActionError tid ++ reason.
Definition sendConnResp (tid cid : Z) : bytes := encodeResponseHeader ActionConnect tid ++ be_encode 8 cid.
Definition sendAnnounceResp (raddr : UDPAddr) (tid : Z) (resp : AnnounceResponse) : res bytes :=
  let! b := AnnounceResponse_EncodeTo resp (negb (bool_decide (To4 (ua_IP raddr) = []))) in
  Ok (encodeResponseHeader ActionAnnounce tid ++ b).
Definition sendScrapResp (tid : Z) (rs : list ScrapeResponse) : bytes :=
  encodeResponseHeader ActionScrape tid ++ concat (map ScrapeResponse_EncodeTo rs).

(** The [switch] of [handlePacket] on the action of a request that is connected. *)
Definition serve_request (spare : bytes) (s : Server) (raddr : UDPAddr) (action tid : Z) (b : bytes)
    : res (Server * bytes) :=
  if action =? ActionAnnounce then
    if (length b <? (if negb (bool_decide (To4 (ua_IP raddr) = [])) then 82 else 94))%nat
    then Ok (s, sendError tid (B "invalid announce request"))
    else
      let! req := AnnounceRequest_DecodeFrom spare zeroAnnounceRequest b in
      match OnAnnounce handler (us_handler s) raddr req with
      | (h, inl err) => Ok (set_handler s h, sendError tid err)
      | (h, inr resp) =>
          let! p := sendAnnounceResp raddr tid resp in Ok (set_handler s h, p)
      end
  else if action =? ActionScrape then
    let! infohashes := res_mapM NewHash (chunks 20 b) in
    if (length infohashes =? 0)%nat then Ok (s, sendError tid (B "no infohash"))
    else
      match OnScrap handler (us_handler s) raddr infohashes with
      | (h, inl err) => Ok (set_handler s h, sendError tid err)
      | (h, inr resps) => Ok (set_handler s h, sendScrapResp tid resps)
      end
  else Ok (s, sendError tid (B "unkwnown action")).

(** The body of [handlePacket] behind the header: the new state and the packet sent to
    [raddr] (every path sends exactly one). *)
Definition serve (spare : bytes) (s : Server) (raddr : UDPAddr) (cid action tid : Z) (b : bytes) (now : Z)
    : res (Server * bytes) :=
  if (cid =? ProtocolID) && (action =? ActionConnect) then
    match OnConnect handler (us_handler s) raddr with
    | (h, Some err) => Ok (set_handler s h, sendError tid err)
    | (h, None) =>
        let '(cid, s) := getConnectionID (set_handler s h) in
        Ok (addConnection s cid raddr now, sendConnResp tid cid)
    end
  else if negb (checkConnection s cid raddr) then Ok (s, sendError tid (B "connection is expired"))
  else serve_request spare s raddr action tid b.

Definition handlePacket (spare : bytes) (s : Server) (raddr : UDPAddr) (b : bytes) (now : Z)
    : res (Server * bytes) :=
  let! cid := slice b 0 8 in
  let! action := slice b 8 12 in
  let! tid := slice b 12 16 in
  let! b := slice_from b 16 in
  serve spare s raddr (be_decode cid) (be_decode action) (be_decode tid) b now.

(** A round of the loop of [Run]: a packet of less than sixteen bytes is skipped. *)
Definition Run_round (spare : bytes) (s : Server) (raddr : UDPAddr) (b : bytes) (now : Z)
    : res (Server * option bytes) :=
  if (length b <? 16)%nat then Ok (s, None)
  else let! '(s, p) := handlePacket spare s raddr b now in Ok (s, Some p).
End Server.
Arguments Server H : clear implicits.
Arguments mkServer {H} _ _ _.

(** ** The client *)

Record Client : Type := mkClient {
  uc_MaxBufSize : Z;
  uc_id : Hash;
  uc_last : Z;
  uc_cid : Z;
  uc_tid : Z;
  uc_ipv4 : bool;
}.

(** [local] is the text of the local address of the socket. *)
Definition NewClient (local : bytes) (id random : Hash) : Client :=
  mkClient maxBufSize (if Hash_IsZero id then random else id) zeroTime 0 0
    (existsb (fun c => bool_decide (c = "."%byte)) local).

Section Client.
Context {W : Type}.
Variable net_Write : W -> bytes -> W * nat * option error.
Variable net_Read : W -> nat -> W * (error + bytes).
Variable net_Now : W -> Z.

Definition getTranID (c : Client) : Z * Client :=
  let tid := u32 (uc_tid c + 1) in
  (tid, mkClient (uc_MaxBufSize c) (uc_id c) (uc_last c) (uc_cid c) tid (uc_ipv4 c)).

Definition parseError (b : bytes) : Z * bytes := (be_decode (take 4 b), drop 4 b).

Definition send (w : W) (b : bytes) : W * option error :=
  match net_Write w b with
  | (w, n, None) => (w, if (n <? length b)%nat then Some ErrShortWrite else None)
  | (w, _, err) => (w, err)
  end.

(** The reading half of a request: the header of the answer is checked against the action
    and the transaction; [min_len] is the length checked before the transaction id.  The
    bytes after the header are returned. *)
Definition readAnswer (w : W) (bufSize : nat) (want : Z) (min_len : nat) (tid : Z) (notAction : error)
    : W * (error + bytes) :=
  match net_Read w bufSize with
  | (w, inl err) => (w, inl err)
  | (w, inr data) =>
      (w, if (length data <? 8)%nat then inl ErrShortBuffer
          else
            let action := be_decode (take 4 data) in
            if action =? want then
              if (length data <? min_len)%nat then inl ErrShortBuffer
              else if negb (be_decode (take 4 (drop 4 data)) =? tid)
              then inl (Errorf "expect transaction id")
              else inr (drop 8 data)
            else if action =? ActionError
            then inl (Errorf (String.string_of_list_byte (parseError (drop 4 data)).2))
            else inl notAction)
  end.

Definition connect (c : Client) (w : W) : Client * W * option error :=
  let '(tid, c) := getTranID c in
  match send w (be_encode 8 ProtocolID ++ be_encode 4 ActionConnect ++ be_encode 4 tid) with
  | (w, Some err) => (c, w, Some err)
  | (w, None) =>
      match readAnswer w 32 ActionConnect 16 tid (Errorf "tracker response is not connect action") with
      | (w, inr data) =>
          (mkClient (uc_MaxBufSize c) (uc_id c) (net_Now w) (be_decode (take 8 data)) (uc_tid c)
             (uc_ipv4 c), w, None)
      | (w, inl err) => (c, w, Some err)
      end
  end.

Definition client_getConnectionID (c : Client) (w : W) : Client * W * (error + Z) :=
  if Minute <? time_Sub (net_Now w) (uc_last c) then
    match connect c w with
    | (c, w, None) => (c, w, inr (uc_cid c))
    | (c, w, Some err) => (c, w, inl err)
    end
  else (c, w, inr (uc_cid c)).

Definition bufSize (c : Client) : nat :=
  Z.to_nat (if uc_MaxBufSize c <=? 0 then maxBufSize else uc_MaxBufSize c).

Definition announce (c : Client) (w : W) (req : AnnounceRequest) : Client * W * res AnnounceResponse :=
  match client_getConnectionID c w with
  | (c, w, inl err) => (c, w, Err err)
  | (c, w, inr cid) =>
      let '(tid, c) := getTranID c in
      match AnnounceRequest_EncodeTo req with
      | Ok b =>
          match send w (be_encode 8 cid ++ be_encode 4 ActionAnnounce ++ be_encode 4 tid ++ b) with
          | (w, Some err) => (c, w, Err err)
          | (w, None) =>
              match readAnswer w (bufSize c) ActionAnnounce 16 tid
                      (Errorf "tracker response is not connect action") with
              | (w, inl err) => (c, w, Err err)
              | (w, inr data) => (c, w, AnnounceResponse_DecodeFrom data (uc_ipv4 c))
              end
          end
      | Err err => (c, w, Err err)
      | Panic => (c, w, Panic)
      end
  end.

Definition set_PeerID (r : AnnounceRequest) (id : Hash) : AnnounceRequest :=
  mkAnnounceRequest (ar_InfoHash r) id (ar_Downloaded r) (ar_Left r) (ar_Uploaded r) (ar_Event r)
    (ar_Key r) (ar_NumWant r) (ar_Port r) (ar_Exts r).

Definition Announce (c : Client) (w : W) (r : AnnounceRequest) : Client * W * res AnnounceResponse :=
  if Hash_IsZero (ar_InfoHash r) then (c, w, Panic)
  else announce c w (set_PeerID r (uc_id c)).

Definition scrape (c : Client) (w : W) (ihs : list Hash) : Client * W * res (list ScrapeResponse) :=
  match client_getConnectionID c w with
  | (c, w, inl err) => (c, w, Err err)
  | (c, w, inr cid) =>
      let '(tid, c) := getTranID c in
      match send w (be_encode 8 cid ++ be_encode 4 ActionScrape ++ be_encode 4 tid ++ concat ihs) with
      | (w, Some err) => (c, w, Err err)
      | (w, None) =>
          match readAnswer w (bufSize c) ActionScrape 8 tid
                  (Errorf "tracker response is not connect action") with
          | (w, inl err) => (c, w, Err err)
          | (w, inr data) => (c, w, res_mapM ScrapeResponse_DecodeFrom (chunks 12 data))
          end
      end
  end.
End Client.
