(* ===== verification/UdpTrackerThms.v ===== *)
(** * Theorems about the UDP tracker

    The binary forms round-trip; the server serves announces and scrapes only to the address a
    connection id was given to; a client and a server together carry a request to the
    handler and its answer back. *)

From S2P Require Import Prelude GoBytes GoNet GoTime Bencode Codec Hash MetaAddr UdpTracker.

(** ** Slices of concatenations *)

Lemma slice_skip x y i j :
  (length x <= i)%nat -> (i <= j)%nat ->
  slice (x ++ y) i j = slice y (i - length x) (j - length x).
Proof.
  intros Hi Hj. unfold slice, go_slice. rewrite length_app.
  destruct (decide (i <= j <= length x + length y)%nat),
    (decide (i - length x <= j - length x <= length y)%nat); try lia; [|done].
  f_equal. rewrite drop_app_ge by done. f_equal. lia.
Qed.

Lemma slice_head x y j : length x = j -> slice (x ++ y) 0 j = Ok x.
Proof.
  intros <-. unfold slice, go_slice. rewrite length_app.
  destruct (decide _); [|lia]. rewrite Nat.sub_0_r. rewrite drop_0. by rewrite take_app_length.
Qed.

Lemma slice_all x j : length x = j -> slice x 0 j = Ok x.
Proof. intros H. rewrite <- (app_nil_r x) at 1. by apply slice_head. Qed.

Lemma slice_from_exact x y i : length x = i -> slice_from (x ++ y) i = Ok y.
Proof.
  intros <-. unfold slice_from. rewrite slice_skip, length_app by (rewrite ?length_app; lia).
  rewrite Nat.sub_diag. apply slice_all. lia.
Qed.

Lemma slice_from_skip x y i :
  (length x <= i)%nat -> slice_from (x ++ y) i = slice_from y (i - length x).
Proof.
  intros Hi. unfold slice_from, slice, go_slice. rewrite length_app.
  destruct (decide (i <= _ <= _)%nat), (decide (i - length x <= _ <= _)%nat); try lia; [|done].
  f_equal. rewrite drop_app_ge by done. f_equal. lia.
Qed.

Lemma NewHash_wf h : Hash_wf h -> NewHash h = Ok h.
Proof.
  intros Hh. unfold NewHash. rewrite Hh. simpl Nat.ltb. cbv iota.
  rewrite firstn_all2 by (rewrite Hh; done). by rewrite copy_into_exact.
Qed.

Lemma u32_be z : be_decode (be_encode 4 z) = u32 z.
Proof. apply be_decode_encode. Qed.
Lemma u64_be z : be_decode (be_encode 8 z) = u64 z.
Proof. apply be_decode_encode. Qed.
Lemma u16_be z : be_decode (be_encode 2 z) = u16 z.
Proof. apply be_decode_encode. Qed.

(** [fields]: reads the fields of a packet that is written as a concatenation of integers
    and hashes. *)
Ltac width x :=
  lazymatch x with
  | be_encode ?n _ => n
  | _ => lazymatch goal with H : Hash_wf x |- _ => constr:(20%nat) end
  end.
Ltac width_proof := first [apply length_be_encode | assumption].
Ltac field :=
  match goal with
  | |- context [slice (?x ++ ?y) ?i ?j] =>
      let n := width x in
      first
        [ rewrite (slice_head x y j) by width_proof
        | let k := eval cbv in (i - n)%nat in
          let l := eval cbv in (j - n)%nat in
          let E := fresh in
          assert (length x = n) as E by width_proof;
          rewrite (slice_skip x y i j) by (rewrite ?E; lia);
          rewrite E; change (i - n)%nat with k; change (j - n)%nat with l; clear E ]
  | |- context [slice (be_encode ?n ?z) 0 ?n] =>
      rewrite (slice_all (be_encode n z) n) by width_proof
  | |- context [slice_from (?x ++ ?y) ?i] =>
      let n := width x in
      first
        [ rewrite (slice_from_exact x y i) by width_proof
        | let k := eval cbv in (i - n)%nat in
          let E := fresh in
          assert (length x = n) as E by width_proof;
          rewrite (slice_from_skip x y i) by (rewrite E; lia);
          rewrite E; change (i - n)%nat with k; clear E ]
  | |- context [NewHash ?h] => rewrite (NewHash_wf h) by assumption
  end.
Ltac fields := repeat (field; cbn [res_bind]).

(** ** Extensions *)

Definition ext_wf (e : Extension) : Prop :=
  is_u8 (ext_Type e) /\ (length (ext_Data e) <= 255)%nat /\
  (ext_Length e = 0 \/ ext_Length e = Z.of_nat (length (ext_Data e))).
(** The length that is sent. *)
Definition ext_norm (e : Extension) : Extension :=
  mkExtension (ext_Type e) (Z.of_nat (length (ext_Data e))) (ext_Data e).

Definition ext_bytes (e : Extension) : bytes :=
  z2b (ext_Type e) :: z2b (Z.of_nat (length (ext_Data e))) :: ext_Data e.

Lemma Extension_EncodeTo_wf e : ext_wf e -> Extension_EncodeTo e = Ok (ext_bytes e).
Proof.
  intros (_ & Hl & Hlen). unfold Extension_EncodeTo, ext_bytes.
  rewrite u8_id by (unfold is_u8; lia).
  destruct Hlen as [-> | ->].
  - destruct (Z.eqb_spec (Z.of_nat (length (ext_Data e))) 0) as [->|]; done.
  - rewrite Z.eqb_refl. by destruct (_ =? 0).
Qed.

Lemma Extension_DecodeFrom_bytes spare e rest :
  ext_wf e ->
  Extension_DecodeFrom spare zeroExtension (ext_bytes e ++ rest)
  = Ok (ext_norm e, length (ext_bytes e)).
Proof.
  intros ([Ht1 Ht2] & Hl & _). unfold ext_bytes. cbn [Extension_DecodeFrom app].
  rewrite !b2z_z2b, !Z.mod_small by lia.
  destruct (Z.ltb_spec 0 (Z.of_nat (length (ext_Data e)))) as [H|H].
  - rewrite Nat2Z.id.
    change (slice _ 2 _) with
      (slice ([z2b (ext_Type e); z2b (Z.of_nat (length (ext_Data e)))] ++ (ext_Data e ++ rest) ++ spare)
         2 (2 + length (ext_Data e))).
    rewrite slice_skip by (simpl; lia). rewrite <- app_assoc.
    change (2 - length [_; _])%nat with 0%nat. by rewrite slice_head by (simpl; lia).
  - assert (ext_Data e = []) as E by (apply length_zero_iff_nil; lia).
    unfold ext_norm. rewrite E. done.
Qed.

Lemma decodeExts_bytes spare es fuel acc :
  Forall ext_wf es -> (length (concat (map ext_bytes es)) <= fuel)%nat ->
  decodeExts fuel spare acc (concat (map ext_bytes es)) = Ok (acc ++ map ext_norm es).
Proof.
  intros Hes. revert fuel acc. induction Hes as [|e es He _ IH]; intros fuel acc Hf.
  - simpl. rewrite app_nil_r. by destruct fuel.
  - cbn [map concat] in *. rewrite length_app in Hf. destruct fuel as [|fuel]; [simpl in Hf; lia|].
    pose proof (Extension_DecodeFrom_bytes spare e (concat (map ext_bytes es)) He) as E.
    pose proof (slice_from_exact (ext_bytes e) (concat (map ext_bytes es)) _ eq_refl) as F.
    unfold ext_bytes at 1. cbn [decodeExts app].
    change (z2b (ext_Type e) :: z2b (Z.of_nat (length (ext_Data e))) :: ext_Data e ++ ?r)
      with (ext_bytes e ++ r).
    rewrite E. cbn [res_bind]. rewrite F. cbn [res_bind].
    rewrite IH by (simpl in Hf; lia). by rewrite <- app_assoc.
Qed.

(** ** The announce request *)

Definition request_wf (r : AnnounceRequest) : Prop :=
  Hash_wf (ar_InfoHash r) /\ Hash_wf (ar_PeerID r) /\
  is_i64 (ar_Downloaded r) /\ is_i64 (ar_Left r) /\ is_i64 (ar_Uploaded r) /\
  is_u32 (ar_Event r) /\ is_i32 (ar_Key r) /\ is_i32 (ar_NumWant r) /\ is_u16 (ar_Port r) /\
  Forall ext_wf (ar_Exts r).

(** What the server sees of a request: [NumWant] is -1 unless it is positive, and the
    lengths of the extensions are filled in. *)
Definition request_norm (r : AnnounceRequest) : AnnounceRequest :=
  mkAnnounceRequest (ar_InfoHash r) (ar_PeerID r) (ar_Downloaded r) (ar_Left r) (ar_Uploaded r)
    (ar_Event r) (ar_Key r) (if ar_NumWant r <=? 0 then -1 else ar_NumWant r) (ar_Port r)
    (map ext_norm (ar_Exts r)).

Definition exts_bytes (r : AnnounceRequest) : bytes := concat (map ext_bytes (ar_Exts r)).

Lemma encode_exts es :
  Forall ext_wf es -> res_mapM Extension_EncodeTo es = Ok (map ext_bytes es).
Proof.
  intros H. apply res_mapM_Forall2. induction H as [|e es He _ IH]; constructor; [|done].
  by apply Extension_EncodeTo_wf.
Qed.

(** The announce request round-trips, whatever lies in the buffer after the packet:
    the encoder writes 82 bytes and the extensions, and the decoder reads the request
    back with [NumWant] -1 for "default" and the extension lengths filled in. *)
Theorem udp_announce_request_roundtrip spare r :
  request_wf r ->
  exists b, AnnounceRequest_EncodeTo r = Ok b /\ length b = (82 + length (exts_bytes r))%nat /\
    AnnounceRequest_DecodeFrom spare zeroAnnounceRequest b = Ok (request_norm r).
Proof.
  intros (Hh & Hi & Hd & Hl & Hu & He & Hk & Hn & Hp & Hx).
  unfold AnnounceRequest_EncodeTo. rewrite encode_exts by done. cbn [res_bind].
  eexists. split; [done|]. split.
  { rewrite !length_app, !length_be_encode, Hh, Hi. done. }
  unfold AnnounceRequest_DecodeFrom. fields. rewrite decodeExts_bytes by done. cbn [res_bind].
  rewrite !u64_be, !u32_be, u16_be, !i64_u64, !i32_u32, u32_id, u16_id; try done.
  unfold is_i32 in *. destruct (Z.leb_spec (ar_NumWant r) 0); lia.
Qed.

(** ** Responses *)

Definition addr_for (ipv4 : bool) (a : CompactAddr) : CompactAddr :=
  mkCompactAddr (if ipv4 then To4 (ca_IP a) else To16 (ca_IP a)) (ca_Port a).
Definition ip_len (ipv4 : bool) : nat := if ipv4 then 4 else 16.

Definition response_wf (ipv4 : bool) (r : AnnounceResponse) : Prop :=
  is_u32 (an_Interval r) /\ is_u32 (an_Leechers r) /\ is_u32 (an_Seeders r) /\
  Forall (fun a => is_u16 (ca_Port a) /\ ca_IP (addr_for ipv4 a) <> []) (an_Addresses r).
(** What the client sees: the addresses in the form of the address family. *)
Definition response_norm (ipv4 : bool) (r : AnnounceResponse) : AnnounceResponse :=
  mkAnnounceResponse (an_Interval r) (an_Leechers r) (an_Seeders r)
    (map (addr_for ipv4) (an_Addresses r)).

Lemma addr_for_wf ipv4 a :
  is_u16 (ca_Port a) -> ca_IP (addr_for ipv4 a) <> [] -> addr_wf (ip_len ipv4) (addr_for ipv4 a).
Proof.
  intros Hp Hi. split; [|done]. unfold addr_for in *. destruct ipv4; simpl in *.
  - by destruct (To4_length (ca_IP a)).
  - by destruct (To16_length (ca_IP a)).
Qed.

Lemma encodeAddress_wf ipv4 a :
  ca_IP (addr_for ipv4 a) <> [] ->
  encodeAddress ipv4 a = Ok (CompactAddr_WriteBinary (addr_for ipv4 a)).
Proof.
  intros Hi. unfold encodeAddress.
  change (if ipv4 then To4 (ca_IP a) else To16 (ca_IP a)) with (ca_IP (addr_for ipv4 a)).
  cbv zeta. destruct (Nat.eqb_spec (length (ca_IP (addr_for ipv4 a))) 0) as [E|]; [|done].
  by apply length_zero_iff_nil in E.
Qed.

Lemma decodeAddress_wf ipv4 a :
  addr_wf (ip_len ipv4) a -> decodeAddress (CompactAddr_WriteBinary a) = Ok a.
Proof.
  intros H. unfold decodeAddress. rewrite (CompactAddr_dec_enc (ip_len ipv4)); [done| |done].
  destruct ipv4; [by left|by right].
Qed.

(** The announce response round-trips: when every address has a form in the family of
    the client, the encoder does not panic and the decoder gives the response back with
    the addresses in that form, in order. *)
Theorem udp_announce_response_roundtrip ipv4 r :
  response_wf ipv4 r ->
  exists b, AnnounceResponse_EncodeTo r ipv4 = Ok b /\
    length b = (12 + (ip_len ipv4 + 2) * length (an_Addresses r))%nat /\
    AnnounceResponse_DecodeFrom b ipv4 = Ok (response_norm ipv4 r).
Proof.
  intros (Hi & Hl & Hs & Ha). set (ws := map (fun a => CompactAddr_WriteBinary (addr_for ipv4 a)) (an_Addresses r)).
  assert (Hw : Forall (fun w => length w = (ip_len ipv4 + 2)%nat) ws).
  { apply Forall_map. eapply Forall_impl; [exact Ha|]. intros a [Hp Hn].
    destruct (addr_for_wf ipv4 a Hp Hn) as [Hlen _]. by rewrite length_WriteBinary, Hlen. }
  unfold AnnounceResponse_EncodeTo.
  assert (res_mapM (encodeAddress ipv4) (an_Addresses r) = Ok ws) as ->.
  { rewrite <- (map_id (an_Addresses r)) at 1. apply res_mapM_map. intros a Hin.
    rewrite Forall_forall in Ha. by apply encodeAddress_wf, Ha. }
  cbn [res_bind]. eexists. split; [done|]. split.
  { rewrite !length_app, !length_be_encode, (length_concat_const _ _ Hw).
    unfold ws. rewrite length_map. lia. }
  unfold AnnounceResponse_DecodeFrom. fields.
  change ((if ipv4 then 4 else 16) + 2)%nat with (ip_len ipv4 + 2)%nat.
  rewrite chunks_concat by (done || lia). unfold ws.
  rewrite (res_mapM_map _ _ (addr_for ipv4)).
  - cbn [res_bind]. unfold response_norm. by rewrite !u32_be, !u32_id.
  - intros a Hin. rewrite Forall_forall in Ha. destruct (Ha a Hin).
    by apply (decodeAddress_wf ipv4), addr_for_wf.
Qed.

Definition scrape_wf (r : ScrapeResponse) : Prop :=
  is_u32 (sc_Seeders r) /\ is_u32 (sc_Leechers r) /\ is_u32 (sc_Completed r).

Lemma length_ScrapeResponse r : length (ScrapeResponse_EncodeTo r) = 12%nat.
Proof. unfold ScrapeResponse_EncodeTo. by rewrite !length_app, !length_be_encode. Qed.

Lemma ScrapeResponse_roundtrip r :
  scrape_wf r -> ScrapeResponse_DecodeFrom (ScrapeResponse_EncodeTo r) = Ok r.
Proof.
  intros (? & ? & ?). unfold ScrapeResponse_DecodeFrom, ScrapeResponse_EncodeTo. fields.
  rewrite !u32_be, !u32_id by done. by destruct r.
Qed.

Lemma ScrapeResponses_roundtrip rs :
  Forall scrape_wf rs ->
  res_mapM ScrapeResponse_DecodeFrom (chunks 12 (concat (map ScrapeResponse_EncodeTo rs))) = Ok rs.
Proof.
  intros H. rewrite chunks_concat; [|lia|].
  - rewrite (res_mapM_map _ _ id), map_id; [done|]. intros r Hr.
    rewrite Forall_forall in H. by apply ScrapeResponse_roundtrip, H.
  - apply Forall_map, Forall_true. apply length_ScrapeResponse.
Qed.

(** ** The server *)

Section ServerThms.
Context {H : Type} (handler : ServerHandler H).

(** The connection id that a packet to [raddr] gives out, as it is on the wire. *)
Definition given (raddr : UDPAddr) (p : bytes) : list (Z * UDPAddr) :=
  if be_decode (take 4 p) =? ActionConnect then [(be_decode (drop 8 p), raddr)] else [].

(** The states of a server, with the connection ids it has given out, last first. *)
Inductive reachable (h0 : H) : Server H -> list (Z * UDPAddr) -> Prop :=
  | reach_new : reachable h0 (NewServer h0) []
  | reach_packet s log spare raddr b now s' p :
      reachable h0 s log -> Run_round handler spare s raddr b now = Ok (s', Some p) ->
      reachable h0 s' (given raddr p ++ log)
  | reach_skip s log spare raddr b now s' :
      reachable h0 s log -> Run_round handler spare s raddr b now = Ok (s', None) ->
      reachable h0 s' log
  | reach_clean s log interval now :
      reachable h0 s log -> reachable h0 (cleanConnectionID s interval now) log.

Lemma given_header raddr action tid body :
  is_u32 action ->
  given raddr (encodeResponseHeader action tid ++ body) =
  if action =? ActionConnect then [(be_decode body, raddr)] else [].
Proof.
  intros Ha. unfold given, encodeResponseHeader. rewrite <- app_assoc.
  rewrite take_app_length' by (by rewrite length_be_encode). rewrite be32_roundtrip by done.
  rewrite app_assoc, drop_app_length'; [done|]. by rewrite length_app, !length_be_encode.
Qed.

(** How the server's own state moves: a new connection, or none. *)
Inductive moves (raddr : UDPAddr) (now : Z) (s s' : Server H) : list (Z * UDPAddr) -> Prop :=
  | moves_same : us_cid s' = us_cid s -> us_conns s' = us_conns s -> moves raddr now s s' []
  | moves_conn :
      us_cid s' = u64 (us_cid s + 1) ->
      us_conns s' = <[us_cid s' := mkWrappedPeerAddr raddr now]> (us_conns s) ->
      moves raddr now s s' [(us_cid s', raddr)].

Lemma moves_error raddr now s h tid reason :
  moves raddr now s (set_handler s h) (given raddr (sendError tid reason)).
Proof.
  unfold sendError. rewrite given_header by (vm_compute; intuition congruence).
  by apply moves_same.
Qed.
Lemma moves_error' raddr now s tid reason :
  moves raddr now s s (given raddr (sendError tid reason)).
Proof. pose proof (moves_error raddr now s (us_handler s) tid reason). by destruct s. Qed.
Hint Resolve moves_error moves_error' : core.

Lemma given_error raddr tid reason : given raddr (sendError tid reason) = [].
Proof. unfold sendError. by rewrite given_header by (vm_compute; intuition congruence). Qed.

(** Serving a request gives out no connection id, and leaves the connections alone. *)
Lemma serve_request_same spare s raddr action tid b s' p :
  serve_request handler spare s raddr action tid b = Ok (s', p) ->
  us_cid s' = us_cid s /\ us_conns s' = us_conns s /\ given raddr p = [].
Proof.
  unfold serve_request. intros E. destruct (action =? ActionAnnounce).
  { destruct (_ <? _)%nat; [simplify_eq; by rewrite given_error|].
    apply res_bind_Ok in E as (req & _ & E).
    destruct (OnAnnounce _ _ _ _) as [h [err|resp]]; [simplify_eq; by rewrite given_error|].
    apply res_bind_Ok in E as (q & Eq & E). injection E as <- <-.
    unfold sendAnnounceResp in Eq. apply res_bind_Ok in Eq as (w & _ & Eq). apply (inj Ok) in Eq as <-.
    by rewrite given_header by (vm_compute; intuition congruence). }
  destruct (action =? ActionScrape); [|simplify_eq; by rewrite given_error].
  apply res_bind_Ok in E as (ihs & _ & E).
  destruct (_ =? 0)%nat; [simplify_eq; by rewrite given_error|].
  destruct (OnScrap _ _ _ _) as [h [err|resp]]; [simplify_eq; by rewrite given_error|].
  injection E as <- <-. unfold sendScrapResp.
  by rewrite given_header by (vm_compute; intuition congruence).
Qed.

Lemma serve_moves spare s raddr cid action tid b now s' p :
  serve handler spare s raddr cid action tid b now = Ok (s', p) ->
  moves raddr now s s' (given raddr p).
Proof.
  unfold serve. intros E. destruct (_ && _).
  { unfold getConnectionID in E. cbv zeta in E.
    destruct (OnConnect _ _ _) as [h [err|]]; injection E as <- <-; [auto|].
    unfold sendConnResp. rewrite given_header by (vm_compute; intuition congruence).
    rewrite be64_roundtrip by apply u64_range. by apply moves_conn. }
  destruct (negb (checkConnection _ _ _)); [simplify_eq; auto|].
  apply serve_request_same in E as (E1 & E2 & ->). by apply moves_same.
Qed.

Lemma handlePacket_parse spare s raddr cid action tid b now :
  is_u64 cid -> is_u32 action -> is_u32 tid ->
  handlePacket handler spare s raddr (be_encode 8 cid ++ be_encode 4 action ++ be_encode 4 tid ++ b) now
  = serve handler spare s raddr cid action tid b now.
Proof.
  intros. unfold handlePacket. fields. by rewrite be64_roundtrip, !be32_roundtrip.
Qed.

(** Any packet of at least sixteen bytes has this shape. *)
Lemma header_shape b :
  (16 <= length b)%nat ->
  exists cid action tid rest, is_u64 cid /\ is_u32 action /\ is_u32 tid /\
    b = be_encode 8 cid ++ be_encode 4 action ++ be_encode 4 tid ++ rest.
Proof.
  intros Hb. set (x := take 8 b). set (y := take 4 (drop 8 b)). set (z := take 4 (drop 12 b)).
  assert (length x = 8%nat) as Hx by (unfold x; rewrite length_take; lia).
  assert (length y = 4%nat) as Hy by (unfold y; rewrite length_take, length_drop; lia).
  assert (length z = 4%nat) as Hz by (unfold z; rewrite length_take, length_drop; lia).
  exists (be_decode x), (be_decode y), (be_decode z), (drop 16 b).
  split; [pose proof (be_decode_range x) as R; by rewrite Hx in R|].
  split; [by apply be_decode_is_u32|]. split; [by apply be_decode_is_u32|].
  pose proof (be_encode_decode x) as Ex. rewrite Hx in Ex.
  pose proof (be_encode_decode y) as Ey. rewrite Hy in Ey.
  pose proof (be_encode_decode z) as Ez. rewrite Hz in Ez.
  rewrite Ex, Ey, Ez. unfold x, y, z.
  rewrite <- (take_drop 8 b) at 1. f_equal.
  rewrite <- (take_drop 4 (drop 8 b)) at 1. f_equal. rewrite drop_drop.
  change (8 + 4)%nat with 12%nat. rewrite <- (take_drop 4 (drop 12 b)) at 1. by rewrite drop_drop.
Qed.

Lemma round_moves spare s raddr b now s' p :
  Run_round handler spare s raddr b now = Ok (s', Some p) -> moves raddr now s s' (given raddr p).
Proof.
  unfold Run_round. destruct (Nat.ltb_spec (length b) 16) as [|Hb]; [done|]. intros E.
  apply res_bind_Ok in E as ([s1 p1] & E & [= <- <-]).
  destruct (header_shape b Hb) as (cid & action & tid & rest & ? & ? & ? & ->).
  rewrite handlePacket_parse in E by done. by eapply serve_moves.
Qed.

Lemma round_skip spare s raddr b now s' :
  Run_round handler spare s raddr b now = Ok (s', None) -> s' = s.
Proof.
  unfold Run_round. destruct (_ <? _)%nat; [by intros [= ->]|]. intros E.
  by apply res_bind_Ok in E as ([s1 p1] & E & [=]).
Qed.

(** The counter is the number of ids given out; the ids are distinct; a connection is kept
    for an address only under an id that was given to it. *)
Definition inv (s : Server H) (log : list (Z * UDPAddr)) : Prop :=
  us_cid s = Z.of_nat (length log) /\ Forall (fun e => 1 <= e.1 <= us_cid s) log /\
  NoDup log.*1 /\
  (forall cid w, us_conns s !! cid = Some w -> (cid, wa_Addr w) ∈ log).

Lemma inv_move raddr now s s' log l :
  inv s log -> moves raddr now s s' l -> Z.of_nat (length (l ++ log)) < 2 ^ 64 -> inv s' (l ++ log).
Proof.
  intros (Hc & Hr & Hn & Hm) M Hlen. unfold inv. destruct M as [E1 E2|E1 E2]; simpl in *.
  - by rewrite E1, E2.
  - rewrite u64_id in E1 by (unfold is_u64; lia). rewrite E2, E1. rewrite Hc in Hr |- *.
    repeat split.
    + lia.
    + constructor; [simpl; lia|]. eapply Forall_impl; [exact Hr|]. simpl. lia.
    + constructor; [|done]. intros Hin. apply list_elem_of_fmap in Hin as ([c a] & E & Hin).
      rewrite Forall_forall in Hr. specialize (Hr _ Hin). simpl in *. lia.
    + intros cid w Hl. destruct (decide (cid = Z.of_nat (length log) + 1)) as [->|].
      * rewrite lookup_insert_eq in Hl. injection Hl as <-. by left.
      * rewrite lookup_insert_ne in Hl by done. right. by apply Hm.
Qed.

Lemma reachable_inv h0 s log :
  reachable h0 s log -> Z.of_nat (length log) < 2 ^ 64 -> inv s log.
Proof.
  induction 1 as [|s log spare raddr b now s' p _ IH E|s log spare raddr b now s' _ IH E
                 |s log interval now _ IH]; intros Hl.
  - repeat split; try constructor. intros cid w. simpl. by rewrite lookup_empty.
  - apply round_moves in E. eapply inv_move; [apply IH|exact E|done].
    rewrite length_app in Hl. lia.
  - apply round_skip in E as ->. auto.
  - destruct (IH Hl) as (? & ? & ? & Hm). repeat split; try done.
    intros cid w Hw. simpl in Hw. apply map_lookup_filter_Some in Hw as [Hw _]. by apply Hm.
Qed.

(** Requests are answered only on a connection id given to the sender: whatever
    packets and cleanings came before (fewer than 2^64 connections), the ids given out
    are distinct, and a request (other than a connection request) whose id was not
    given to exactly the ip and port it comes from is refused with the error
    "connection is expired", under its own transaction id, without calling the handler
    and without any change of state. *)
Theorem udp_server_authenticates h0 s log spare raddr b now :
  reachable h0 s log -> Z.of_nat (length log) < 2 ^ 64 -> (16 <= length b)%nat ->
  NoDup log.*1 /\
  let cid := be_decode (take 8 b) in
  let action := be_decode (take 4 (drop 8 b)) in
  let tid := be_decode (take 4 (drop 12 b)) in
  (cid, raddr) ∉ log -> ~ (cid = ProtocolID /\ action = ActionConnect) ->
  handlePacket handler spare s raddr b now = Ok (s, sendError tid (B "connection is expired")).
Proof.
  intros R Hl Hb. destruct (reachable_inv h0 s log R Hl) as (_ & _ & Hn & Hm). split; [done|].
  destruct (header_shape b Hb) as (cid & action & tid & rest & Hc & Ha & Ht & ->).
  rewrite handlePacket_parse by done.
  rewrite take_app_length' by (by rewrite length_be_encode).
  rewrite drop_app_length' by (by rewrite length_be_encode).
  rewrite take_app_length' by (by rewrite length_be_encode).
  rewrite (app_assoc (be_encode 8 cid)), drop_app_length' by (by rewrite length_app, !length_be_encode).
  rewrite take_app_length' by (by rewrite length_be_encode).
  rewrite be64_roundtrip, !be32_roundtrip by done. cbv zeta. intros Hnot Hnc.
  unfold serve, serve_request. destruct (Z.eqb_spec cid ProtocolID), (Z.eqb_spec action ActionConnect);
    simpl; try (by destruct Hnc).
  all: assert (checkConnection s cid raddr = false) as ->; [|done].
  all: unfold checkConnection; destruct (us_conns s !! cid) as [[[ip port] t]|] eqn:E; [|done].
  all: apply Hm in E; simpl in *.
  all: apply andb_false_iff; destruct raddr as [ip' port']; simpl in *.
  all: destruct (Z.eqb_spec port port') as [->|]; [right|by left].
  all: apply bool_decide_eq_false_2; by intros ->.
Qed.
End ServerThms.

(** A handler that accepts every connection and answers with fixed values. *)
Definition demoHandler (resp : AnnounceResponse) : ServerHandler nat :=
  mkServerHandler _ (fun n _ => (S n, None)) (fun n _ _ => (S n, inr resp))
    (fun n _ ihs => (S n, inr (map (fun _ => mkScrapeResponse 1 2 3) ihs))).
Definition demoAddr : UDPAddr := mkUDPAddr [x0a; x00; x00; x01] 4000.
Definition demoResponse : AnnounceResponse :=
  mkAnnounceResponse 60 1 2 [mkCompactAddr [x01; x02; x03; x04] 80].

Lemma udp_server_authenticates_witness :
  let hd := demoHandler demoResponse in
  let other := mkUDPAddr [x0a; x00; x00; x01] 4001 in
  let conn := be_encode 8 ProtocolID ++ be_encode 4 ActionConnect ++ be_encode 4 7 in
  let scrape := be_encode 8 1 ++ be_encode 4 ActionScrape ++ be_encode 4 9 ++ replicate 20 x05 in
  exists s, reachable hd O s [(1, demoAddr)] /\
    handlePacket hd [] s other scrape 5 = Ok (s, sendError 9 (B "connection is expired")).
Proof.
  intros hd other conn scrape.
  set (s := mkServer 1 {[1 := mkWrappedPeerAddr demoAddr 3]} 1%nat : Server nat).
  assert (R : reachable hd O s [(1, demoAddr)]).
  { apply (reach_packet hd O (NewServer O) [] [] demoAddr conn 3 s (sendConnResp 7 1)).
    - constructor.
    - reflexivity. }
  exists s. split; [exact R|].
  apply (udp_server_authenticates hd O s [(1, demoAddr)] [] other scrape 5 R).
  - done.
  - vm_compute. lia.
  - intros Hin. apply list_elem_of_singleton in Hin. vm_compute in Hin. congruence.
  - intros [E _]. vm_compute in E. congruence.
Defined.

(** ** A client and a server

    The world behind the client's socket is the server itself, with the buffers of the
    default size: a datagram, cut to the size of the buffer, is handled at once and its
    reply waits to be read. *)
Section Exchange.
Context {H : Type} (handler : ServerHandler H) (raddr : UDPAddr) (now : Z).

Record world : Type := mkWorld { w_server : Server H; w_queue : list bytes }.

Definition w_Write (w : world) (b : bytes) : world * nat * option error :=
  match Run_round handler [] (w_server w) raddr (take (Z.to_nat maxBufSize) b) now with
  | Ok (s, Some p) => (mkWorld s (w_queue w ++ [p]), length b, None)
  | Ok (s, None) => (mkWorld s (w_queue w), length b, None)
  | _ => (w, length b, None)
  end.
Definition w_Read (w : world) (n : nat) : world * (error + bytes) :=
  match w_queue w with
  | p :: q => (mkWorld (w_server w) q, inr (take n p))
  | [] => (w, inl (Errorf "i/o timeout"))
  end.
Definition w_Now (_ : world) : Z := now.

Definition ipv4_addr : bool := negb (bool_decide (To4 (ua_IP raddr) = [])).

(** A request that the server answers with [hdr ++ body]. *)
Lemma send_served s s' cid action tid b p :
  is_u64 cid -> is_u32 action -> is_u32 tid ->
  (16 + length b <= 2048)%nat -> serve handler [] s raddr cid action tid b now = Ok (s', p) ->
  send w_Write (mkWorld s []) (be_encode 8 cid ++ be_encode 4 action ++ be_encode 4 tid ++ b)
  = (mkWorld s' [p], None).
Proof.
  intros Hc Ha Ht Hb E. unfold send, w_Write, Run_round.
  set (pkt := be_encode 8 cid ++ _).
  assert (16 <= length pkt)%nat as Hl.
  { unfold pkt. rewrite !length_app, !length_be_encode. lia. }
  rewrite (firstn_all2 pkt) by (unfold pkt; rewrite !length_app, !length_be_encode; exact Hb).
  destruct (Nat.ltb_spec (length pkt) 16); [lia|]. unfold pkt. cbn [w_server w_queue].
  rewrite handlePacket_parse, E by done. cbn [res_bind]. by rewrite Nat.ltb_irrefl.
Qed.

Lemma readAnswer_ok s n want min_len tid body err :
  is_u32 want -> is_u32 tid -> (8 + length body <= n)%nat -> (min_len <= 8 + length body)%nat ->
  readAnswer w_Read (mkWorld s [encodeResponseHeader want tid ++ body]) n want min_len tid err
  = (mkWorld s [], inr body).
Proof.
  intros Hw Ht Hn Hm. unfold readAnswer, w_Read, encodeResponseHeader. cbn [w_queue w_server].
  set (p := _ ++ body).
  assert (length p = (8 + length body)%nat) as Hp.
  { unfold p. by rewrite !length_app, !length_be_encode. }
  rewrite firstn_all2 by lia. rewrite Hp.
  destruct (Nat.ltb_spec (8 + length body) 8); [lia|].
  unfold p. rewrite <- app_assoc, take_app_length' by (by rewrite length_be_encode).
  rewrite be32_roundtrip, Z.eqb_refl by done.
  destruct (Nat.ltb_spec (8 + length body) min_len); [lia|].
  rewrite drop_app_length' by (by rewrite length_be_encode).
  rewrite take_app_length' by (by rewrite length_be_encode).
  rewrite be32_roundtrip, Z.eqb_refl by done. cbn [negb].
  by rewrite app_assoc, drop_app_length' by (by rewrite length_app, !length_be_encode).
Qed.

Lemma readAnswer_error s n want min_len tid body err :
  want <> ActionError -> (8 + length body <= n)%nat ->
  readAnswer w_Read (mkWorld s [sendError tid body]) n want min_len tid err
  = (mkWorld s [], inl (Errorf (String.string_of_list_byte body))).
Proof.
  intros Hw Hn. unfold readAnswer, w_Read, sendError, encodeResponseHeader. cbn [w_queue w_server].
  set (p := _ ++ body).
  assert (length p = (8 + length body)%nat) as Hp.
  { unfold p. by rewrite !length_app, !length_be_encode. }
  rewrite firstn_all2 by lia. rewrite Hp.
  destruct (Nat.ltb_spec (8 + length body) 8); [lia|].
  unfold p. rewrite <- app_assoc, take_app_length' by (by rewrite length_be_encode).
  rewrite be32_roundtrip by (vm_compute; intuition congruence).
  destruct (Z.eqb_spec ActionError want); [congruence|]. rewrite Z.eqb_refl.
  unfold parseError. cbn [snd].
  rewrite drop_app_length' by (by rewrite length_be_encode).
  by rewrite drop_app_length' by (by rewrite length_be_encode).
Qed.

(** The server after it has accepted [raddr], the client after it has read the id. *)
Definition connected_server (s : Server H) (h : H) : Server H :=
  let cid := u64 (us_cid s + 1) in
  mkServer cid (<[cid := mkWrappedPeerAddr raddr now]> (us_conns s)) h.
Definition connected_client (c : Client) (s : Server H) : Client :=
  mkClient (uc_MaxBufSize c) (uc_id c) now (u64 (us_cid s + 1)) (u32 (uc_tid c + 1)) (uc_ipv4 c).

Lemma connect_ok c s h :
  OnConnect handler (us_handler s) raddr = (h, None) ->
  connect w_Write w_Read w_Now c (mkWorld s [])
  = (connected_client c s, mkWorld (connected_server s h) [], None).
Proof.
  intros E. unfold connect, getTranID. cbv zeta.
  pose proof (u32_range (uc_tid c + 1)) as Ht. set (tid := u32 (uc_tid c + 1)) in *.
  pose proof (u64_range (us_cid s + 1)) as Hc.
  rewrite <- (app_nil_r (be_encode 4 tid)).
  rewrite (send_served s (connected_server s h) ProtocolID ActionConnect tid []
             (sendConnResp tid (u64 (us_cid s + 1)))); [|done|done|done|simpl; lia|].
  - unfold sendConnResp. rewrite readAnswer_ok; [|done|done|rewrite length_be_encode; lia..].
    rewrite take_ge by (by rewrite length_be_encode). by rewrite be64_roundtrip.
  - unfold serve, serve_request. rewrite !Z.eqb_refl. cbn [andb]. by rewrite E.
Qed.

Lemma connected_check s h : checkConnection (connected_server s h) (u64 (us_cid s + 1)) raddr = true.
Proof.
  unfold checkConnection, connected_server. cbn [us_conns]. rewrite lookup_insert_eq. cbn [wa_Addr].
  by rewrite Z.eqb_refl, bool_decide_eq_true_2.
Qed.

(** The connection a request of the client uses: a new one when the last is older than a
    minute, and the last one otherwise. *)
Inductive link (c : Client) (s : Server H) : Client -> Server H -> Prop :=
  | link_connect h :
      Minute < time_Sub now (uc_last c) -> OnConnect handler (us_handler s) raddr = (h, None) ->
      link c s (connected_client c s) (connected_server s h)
  | link_reuse :
      ~ Minute < time_Sub now (uc_last c) -> is_u64 (uc_cid c) ->
      checkConnection s (uc_cid c) raddr = true -> link c s c s.

Lemma getConnectionID_link c s c1 s1 :
  link c s c1 s1 ->
  client_getConnectionID w_Write w_Read w_Now c (mkWorld s [])
    = (c1, mkWorld s1 [], inr (uc_cid c1)) /\
  is_u64 (uc_cid c1) /\ checkConnection s1 (uc_cid c1) raddr = true /\
  uc_ipv4 c1 = uc_ipv4 c /\ uc_MaxBufSize c1 = uc_MaxBufSize c.
Proof.
  unfold client_getConnectionID, w_Now at 1.
  intros [h Hm E|Hm Hc Hk]; destruct (Z.ltb_spec Minute (time_Sub now (uc_last c))); try lia.
  - rewrite (connect_ok c s h E). repeat split; [apply u64_range..|]. apply connected_check.
  - done.
Qed.

Lemma serve_announce s1 cid tid r b :
  checkConnection s1 cid raddr = true ->
  AnnounceRequest_DecodeFrom [] zeroAnnounceRequest b = Ok r ->
  serve handler [] s1 raddr cid ActionAnnounce tid b now =
  if (length b <? (if ipv4_addr then 82 else 94))%nat
  then Ok (s1, sendError tid (B "invalid announce request"))
  else match OnAnnounce handler (us_handler s1) raddr r with
       | (h, inl err) => Ok (set_handler s1 h, sendError tid err)
       | (h, inr resp) =>
           let! p := sendAnnounceResp raddr tid resp in Ok (set_handler s1 h, p)
       end.
Proof.
  intros Hk Hd. unfold serve, serve_request. change (ActionAnnounce =? ActionConnect) with false.
  rewrite andb_false_r, Hk. cbn [negb]. rewrite Z.eqb_refl. fold ipv4_addr. by rewrite Hd.
Qed.

Lemma udp_announce_served c s c1 s1 r resp h2 :
  link c s c1 s1 -> Hash_IsZero (ar_InfoHash r) = false ->
  request_wf (set_PeerID r (uc_id c)) ->
  OnAnnounce handler (us_handler s1) raddr (request_norm (set_PeerID r (uc_id c))) = (h2, inr resp) ->
  response_wf ipv4_addr resp -> uc_ipv4 c = ipv4_addr ->
  (20 + (ip_len ipv4_addr + 2) * length (an_Addresses resp) <= bufSize c)%nat ->
  (ipv4_addr = true \/ 12 <= length (exts_bytes r))%nat -> (98 + length (exts_bytes r) <= 2048)%nat ->
  Announce w_Write w_Read w_Now c (mkWorld s []) r
    = (snd (getTranID c1), mkWorld (set_handler s1 h2) [], Ok (response_norm ipv4_addr resp)).
Proof.
  intros L Hz Hr Ho Hresp H4 Hsz H6 Hbuf. unfold Announce. rewrite Hz. unfold announce.
  destruct (getConnectionID_link _ _ _ _ L) as (-> & Hcid & Hk & E4 & Eb).
  unfold getTranID. cbv zeta. cbn [uc_cid uc_ipv4 bufSize uc_MaxBufSize].
  pose proof (u32_range (uc_tid c1 + 1)) as Ht. set (tid := u32 (uc_tid c1 + 1)) in *.
  destruct (udp_announce_request_roundtrip [] _ Hr) as (b & -> & Hlb & Hd).
  destruct (udp_announce_response_roundtrip ipv4_addr resp Hresp) as (rb & He & Hlr & Hdr).
  rewrite (send_served s1 (set_handler s1 h2) _ ActionAnnounce tid b
             (encodeResponseHeader ActionAnnounce tid ++ rb)); [|done|done|done|change (exts_bytes (set_PeerID r (uc_id c))) with (exts_bytes r) in Hlb; lia|].
  - unfold bufSize in *. cbn [uc_MaxBufSize]. rewrite Eb.
    rewrite readAnswer_ok by (done || lia). by rewrite E4, H4, Hdr.
  - rewrite (serve_announce _ _ _ _ _ Hk Hd), Ho. unfold sendAnnounceResp.
    fold ipv4_addr. rewrite He. cbn [res_bind].
    change (exts_bytes (set_PeerID r (uc_id c))) with (exts_bytes r) in Hlb.
    destruct (Nat.ltb_spec (length b) (if ipv4_addr then 82 else 94)) as [Hlt|]; [|done].
    destruct H6 as [E|E]; [rewrite E in Hlt|destruct ipv4_addr]; lia.
Qed.

(** [C32] Announcing end to end: whether the client connects first or still holds a
    connection, the handler of the server receives exactly the client's request (with the
    client's peer id, and [NumWant] -1 for the default), and the client returns exactly the
    handler's answer, with the addresses in the form of its family; nothing is left
    unread.  The request has to fit the 2048 bytes of the server's buffer and the answer those of the client's;
    and from an IPv6 address the request must carry at least twelve bytes of extensions: with fewer it is
    refused ([udp_announce_ipv6_refused]). *)
Theorem udp_announce_exchange c s c1 s1 r resp h2 :
  link c s c1 s1 -> Hash_IsZero (ar_InfoHash r) = false ->
  request_wf (set_PeerID r (uc_id c)) ->
  OnAnnounce handler (us_handler s1) raddr (request_norm (set_PeerID r (uc_id c))) = (h2, inr resp) ->
  response_wf ipv4_addr resp -> uc_ipv4 c = ipv4_addr ->
  (20 + (ip_len ipv4_addr + 2) * length (an_Addresses resp) <= bufSize c)%nat ->
  (ipv4_addr = true \/ 12 <= length (exts_bytes r))%nat -> (98 + length (exts_bytes r) <= 2048)%nat ->
  exists c', Announce w_Write w_Read w_Now c (mkWorld s []) r
    = (c', mkWorld (set_handler s1 h2) [], Ok (response_norm ipv4_addr resp)).
Proof. intros. eexists. by apply udp_announce_served. Qed.

(** An announce without extensions is refused when it comes from an IPv6 address, however
    well formed: the server asks for ninety-four bytes where the request has
    eighty-two. *)
Theorem udp_announce_ipv6_refused c s c1 s1 r :
  link c s c1 s1 -> Hash_IsZero (ar_InfoHash r) = false ->
  request_wf (set_PeerID r (uc_id c)) -> ipv4_addr = false ->
  (length (exts_bytes r) < 12)%nat -> (32 <= bufSize c)%nat ->
  exists c', Announce w_Write w_Read w_Now c (mkWorld s []) r
    = (c', mkWorld s1 [], Err (Errorf "invalid announce request")).
Proof.
  intros L Hz Hr H4 Hx Hsz. unfold Announce. rewrite Hz. unfold announce.
  destruct (getConnectionID_link _ _ _ _ L) as (-> & Hcid & Hk & E4 & Eb).
  unfold getTranID. cbv zeta. cbn [uc_cid uc_ipv4 bufSize uc_MaxBufSize].
  pose proof (u32_range (uc_tid c1 + 1)) as Ht. set (tid := u32 (uc_tid c1 + 1)) in *.
  destruct (udp_announce_request_roundtrip [] _ Hr) as (b & -> & Hlb & Hd).
  rewrite (send_served s1 s1 _ ActionAnnounce tid b
             (sendError tid (B "invalid announce request")));
    [|done|done|done|change (exts_bytes (set_PeerID r (uc_id c))) with (exts_bytes r) in Hlb; lia|].
  - unfold bufSize in *. cbn [uc_MaxBufSize]. rewrite Eb.
    rewrite readAnswer_error; [by eexists|done|exact Hsz].
  - rewrite (serve_announce _ _ _ _ _ Hk Hd), H4.
    change (exts_bytes (set_PeerID r (uc_id c))) with (exts_bytes r) in Hlb.
    destruct (Nat.ltb_spec (length b) 94) as [|]; [done|lia].
Qed.

Lemma udp_scrape_served c s c1 s1 ihs rs h2 :
  link c s c1 s1 -> Forall Hash_wf ihs -> ihs <> [] ->
  OnScrap handler (us_handler s1) raddr ihs = (h2, inr rs) ->
  Forall scrape_wf rs -> (8 + 12 * length rs <= bufSize c)%nat -> (16 + 20 * length ihs <= 2048)%nat ->
  scrape w_Write w_Read w_Now c (mkWorld s []) ihs
    = (snd (getTranID c1), mkWorld (set_handler s1 h2) [], Ok rs).
Proof.
  intros L Hi Hne Ho Hrs Hsz Hbuf. unfold scrape.
  destruct (getConnectionID_link _ _ _ _ L) as (-> & Hcid & Hk & E4 & Eb).
  unfold getTranID. cbv zeta. cbn [uc_cid uc_ipv4 bufSize uc_MaxBufSize].
  pose proof (u32_range (uc_tid c1 + 1)) as Ht. set (tid := u32 (uc_tid c1 + 1)) in *.
  assert (Hlr : length (concat (map ScrapeResponse_EncodeTo rs)) = (12 * length rs)%nat).
  { rewrite (length_concat_const 12), length_map; [done|].
    apply Forall_map, Forall_true. apply length_ScrapeResponse. }
  rewrite (send_served s1 (set_handler s1 h2) _ ActionScrape tid (concat ihs) (sendScrapResp tid rs));
    [|done|done|done|rewrite (length_concat_const _ ihs Hi); exact Hbuf|].
  - unfold bufSize, sendScrapResp in *. cbn [uc_MaxBufSize]. rewrite Eb.
    rewrite readAnswer_ok by (done || lia). by rewrite ScrapeResponses_roundtrip.
  - unfold serve, serve_request. change (ActionScrape =? ActionConnect) with false. rewrite andb_false_r, Hk.
    cbn [negb]. change (ActionScrape =? ActionAnnounce) with false. rewrite Z.eqb_refl.
    rewrite chunks_concat by (done || lia). rewrite <- (map_id ihs) at 1.
    rewrite (res_mapM_map _ _ id), map_id; [|intros x Hx; rewrite Forall_forall in Hi; by apply NewHash_wf, Hi].
    cbn [res_bind]. destruct (Nat.eqb_spec (length ihs) 0) as [E|]; [by apply length_zero_iff_nil in E|].
    by rewrite Ho.
Qed.

(** Scraping end to end: the handler receives exactly the info hashes asked for, and the
    client returns exactly its answers, in order, as long as both datagrams fit the
    buffers. *)
Theorem udp_scrape_exchange c s c1 s1 ihs rs h2 :
  link c s c1 s1 -> Forall Hash_wf ihs -> ihs <> [] ->
  OnScrap handler (us_handler s1) raddr ihs = (h2, inr rs) ->
  Forall scrape_wf rs -> (8 + 12 * length rs <= bufSize c)%nat -> (16 + 20 * length ihs <= 2048)%nat ->
  exists c', scrape w_Write w_Read w_Now c (mkWorld s []) ihs
    = (c', mkWorld (set_handler s1 h2) [], Ok rs).
Proof. intros. eexists. by apply udp_scrape_served. Qed.
End Exchange.

Definition demoRequest : AnnounceRequest :=
  mkAnnounceRequest (replicate 20 x07) zeroHash 1 2 3 2 9 0 6881 [].
Definition demoClient : Client := NewClient (B "10.0.0.1:4000") (replicate 20 x08) zeroHash.

Lemma demo_link now :
  Minute < time_Sub now zeroTime ->
  link (demoHandler demoResponse) demoAddr now demoClient (NewServer O)
    (connected_client now demoClient (NewServer O)) (connected_server demoAddr now (NewServer O) 1%nat).
Proof. intros Hn. by apply link_connect. Qed.

Lemma udp_announce_exchange_witness :
  let now := 100 * Minute in
  exists c', Announce (w_Write (demoHandler demoResponse) demoAddr now) w_Read (w_Now now)
               demoClient (mkWorld (NewServer O) []) demoRequest
    = (c', mkWorld (set_handler (connected_server demoAddr now (NewServer O) 1%nat) 2%nat) [],
       Ok demoResponse).
Proof.
  intros now.
  apply (udp_announce_exchange (demoHandler demoResponse) demoAddr now demoClient (NewServer O)
           (connected_client now demoClient (NewServer O)) (connected_server demoAddr now (NewServer O) 1%nat)
           demoRequest demoResponse 2%nat).
  - by apply demo_link.
  - reflexivity.
  - repeat split; try done; vm_compute; congruence.
  - reflexivity.
  - repeat split; try done. repeat constructor; done.
  - reflexivity.
  - vm_compute. lia.
  - by left.
  - vm_compute. lia.
Defined.

Lemma udp_announce_ipv6_refused_witness :
  let now := 100 * Minute in
  let raddr := mkUDPAddr (replicate 16 x20) 4000 in
  exists c', Announce (w_Write (demoHandler demoResponse) raddr now) w_Read (w_Now now)
               demoClient (mkWorld (NewServer O) []) demoRequest
    = (c', mkWorld (connected_server raddr now (NewServer O) 1%nat) [],
       Err (Errorf "invalid announce request")).
Proof.
  intros now raddr.
  apply (udp_announce_ipv6_refused (demoHandler demoResponse) raddr now demoClient (NewServer O)
           (connected_client now demoClient (NewServer O)) (connected_server raddr now (NewServer O) 1%nat)
           demoRequest).
  - by apply link_connect.
  - reflexivity.
  - repeat split; try done; vm_compute; congruence.
  - reflexivity.
  - vm_compute. lia.
  - vm_compute. lia.
Defined.

Lemma udp_scrape_exchange_witness :
  let now := 100 * Minute in
  exists c', scrape (w_Write (demoHandler demoResponse) demoAddr now) w_Read (w_Now now)
               demoClient (mkWorld (NewServer O) []) [replicate 20 x07]
    = (c', mkWorld (set_handler (connected_server demoAddr now (NewServer O) 1%nat) 2%nat) [],
       Ok [mkScrapeResponse 1 2 3]).
Proof.
  intros now.
  apply (udp_scrape_exchange (demoHandler demoResponse) demoAddr now demoClient (NewServer O)
           (connected_client now demoClient (NewServer O)) (connected_server demoAddr now (NewServer O) 1%nat)
           [replicate 20 x07] [mkScrapeResponse 1 2 3] 2%nat).
  - by apply demo_link.
  - by repeat constructor.
  - done.
  - reflexivity.
  - repeat constructor; done.
  - vm_compute. lia.
  - vm_compute. lia.
Defined.
