(* ===== verification/UdpLife.v ===== *)
(** * The life of a UDP tracker server

    tracker/udptracker/udp_server.go: [Run] starts the goroutine of [cleanConnectionID] and reads
    packets, and every request is handled by a goroutine of its own.  A goroutine is the [stage]
    it has come to; between two stages it touches at most one thing that goroutines share (the
    handler, the counter, the map of connections under its lock), so how they interleave is the
    order of the actions.  The lock is a [sync.RWMutex]: who holds it is read off the stages.  Go also
    keeps new readers out while a writer waits, which only takes interleavings away.  What is given to
    [send] is an output; that a write fails is only logged.  A buffer of the pool belongs to its
    request until that has ended. *)

From S2P Require Import Prelude GoBytes GoNet GoTime Bencode Codec Hash MetaAddr UdpTracker.

Section Life.
Context {H : Type} (handler : ServerHandler H).

Inductive stage : Type :=
  | Arrived (spare b : bytes)                           (* at the start of [handlePacket] *)
  | Accepted (tid : Z)                                  (* [OnConnect] has said yes *)
  | Numbered (tid cid : Z)                              (* at [Lock] in [addConnection] *)
  | Writing (tid cid now : Z)                           (* holds the lock for writing *)
  | Recorded (tid cid : Z)                              (* at [sendConnResp] *)
  | Unchecked (cid action tid : Z) (spare b : bytes)    (* at [RLock] in [checkConnection] *)
  | Reading (cid action tid : Z) (spare b : bytes)      (* holds the lock for reading *)
  | Connected (cid action tid : Z) (spare b : bytes)    (* at the [switch] *)
  | Answering (p : bytes)                               (* at [send] *)
  | Ended.
Record request : Type := mkRequest { rq_Addr : UDPAddr; rq_stage : stage }.

(** The goroutine of [cleanConnectionID]. *)
Inductive cleaner : Type :=
  | Waiting
  | Cleaning (now : Z)                                  (* holds the lock for reading *)
  | Stopped.

Record system : Type := mkSystem {
  sy_server : Server H;
  sy_requests : list request;
  sy_cleaner : cleaner;
  sy_reading : bool;
  sy_exit : bool;
}.
Definition Run (s : Server H) : system := mkSystem s [] Waiting true false.

Definition cleanInterval : Z := Minute * 2.

Inductive output : Type :=
  | Numbers (raddr : UDPAddr) (cid : Z)                 (* the counter gave [cid] *)
  | Serves (raddr : UDPAddr) (cid : Z)                  (* the check let the request through *)
  | Sends (raddr : UDPAddr) (p : bytes).

(** [handleRequest], one stage further. *)
Definition handleRequest (s : Server H) (raddr : UDPAddr) (st : stage) (now : Z)
    : res (Server H * stage * list output) :=
  match st with
  | Arrived spare b =>
      let! cid := slice b 0 8 in
      let! action := slice b 8 12 in
      let! tid := slice b 12 16 in
      let! b := slice_from b 16 in
      let '(cid, action, tid) := (be_decode cid, be_decode action, be_decode tid) in
      if (cid =? ProtocolID) && (action =? ActionConnect) then
        match OnConnect handler (us_handler s) raddr with
        | (h, Some err) => Ok (set_handler s h, Answering (sendError tid err), [])
        | (h, None) => Ok (set_handler s h, Accepted tid, [])
        end
      else Ok (s, Unchecked cid action tid spare b, [])
  | Accepted tid => let '(cid, s) := getConnectionID s in Ok (s, Numbered tid cid, [Numbers raddr cid])
  | Numbered tid cid => Ok (s, Writing tid cid now, [])
  | Writing tid cid t => Ok (addConnection s cid raddr t, Recorded tid cid, [])
  | Recorded tid cid => Ok (s, Ended, [Sends raddr (sendConnResp tid cid)])
  | Unchecked cid action tid spare b => Ok (s, Reading cid action tid spare b, [])
  | Reading cid action tid spare b =>
      if checkConnection s cid raddr then Ok (s, Connected cid action tid spare b, [Serves raddr cid])
      else Ok (s, Answering (sendError tid (B "connection is expired")), [])
  | Connected cid action tid spare b =>
      let! '(s, p) := serve_request handler spare s raddr action tid b in Ok (s, Answering p, [])
  | Answering p => Ok (s, Ended, [Sends raddr p])
  | Ended => Ok (s, Ended, [])
  end.

(** ** The lock *)

Definition is_writing (r : request) : bool := match rq_stage r with Writing _ _ _ => true | _ => false end.
Definition is_reading (r : request) : bool := match rq_stage r with Reading _ _ _ _ _ => true | _ => false end.
Definition is_ended (r : request) : bool := match rq_stage r with Ended => true | _ => false end.
Definition is_cleaning (c : cleaner) : bool := match c with Cleaning _ => true | _ => false end.

Definition can_RLock (sy : system) : bool := negb (existsb is_writing (sy_requests sy)).
Definition can_Lock (sy : system) : bool :=
  can_RLock sy && negb (existsb is_reading (sy_requests sy)) && negb (is_cleaning (sy_cleaner sy)).

(** ** The actions *)

Inductive action : Type :=
  | Receive (raddr : UDPAddr) (spare b : bytes)         (* [ReadFrom] in [Run] *)
  | ReadFailed
  | Step (i : nat) (now : Z)                            (* the goroutine of a request *)
  | Tick (now : Z)                                      (* [cleanConnectionID] *)
  | Clean
  | CleanExit
  | Close.

Definition enabled (sy : system) (a : action) : bool :=
  match a with
  | Receive _ _ _ | ReadFailed => sy_reading sy
  | Step i _ =>
      match sy_requests sy !! i with
      | None => false
      | Some r =>
          match rq_stage r with
          | Ended => false
          | Unchecked _ _ _ _ _ => can_RLock sy
          | Numbered _ _ => can_Lock sy
          | _ => true
          end
      end
  | Tick _ => match sy_cleaner sy with Waiting => can_RLock sy | _ => false end
  | Clean => is_cleaning (sy_cleaner sy)
  | CleanExit => match sy_cleaner sy with Waiting => sy_exit sy | _ => false end
  | Close => true
  end.

(** A panic in a goroutine ends the program. *)
Definition act (sy : system) (a : action) : res (system * list output) :=
  let '(mkSystem s rs c rd ex) := sy in
  match a with
  | Receive raddr spare b =>
      if (length b <? 16)%nat then Ok (sy, [])
      else Ok (mkSystem s (rs ++ [mkRequest raddr (Arrived spare b)]) c rd ex, [])
  | ReadFailed => Ok (mkSystem s rs c false ex, [])
  | Step i now =>
      match rs !! i with
      | None => Ok (sy, [])
      | Some r =>
          let! '(s, st, outs) := handleRequest s (rq_Addr r) (rq_stage r) now in
          Ok (mkSystem s (<[i := mkRequest (rq_Addr r) st]> rs) c rd ex, outs)
      end
  | Tick now => Ok (mkSystem s rs (Cleaning now) rd ex, [])
  | Clean =>
      match c with
      | Cleaning now => Ok (mkSystem (cleanConnectionID s cleanInterval now) rs Waiting rd ex, [])
      | _ => Ok (sy, [])
      end
  | CleanExit => Ok (mkSystem s rs Stopped rd ex, [])
  | Close => Ok (mkSystem s rs c rd true, [])
  end.

Inductive steps (sy : system) : list action -> system -> list output -> Prop :=
  | steps_none : steps sy [] sy []
  | steps_one acts sy1 outs a sy2 outs' :
      steps sy acts sy1 outs -> enabled sy1 a = true -> act sy1 a = Ok (sy2, outs') ->
      steps sy (acts ++ [a]) sy2 (outs ++ outs').

(** A request whose goroutine nothing interrupts. *)
Fixpoint alone (fuel : nat) (s : Server H) (raddr : UDPAddr) (st : stage) (now : Z)
    : res (Server H * list output) :=
  match fuel, st with
  | _, Ended => Ok (s, [])
  | O, _ => Panic
  | S fuel, _ =>
      let! '(s, st, outs) := handleRequest s raddr st now in
      let! '(s, outs') := alone fuel s raddr st now in
      Ok (s, outs ++ outs')
  end.
End Life.
Arguments system H : clear implicits.
