(* ===== verification/UdpLifeThms.v ===== *)
(** * Theorems about the life of a UDP tracker server

    For every interleaving of the goroutines: connection ids authenticate addresses, every request
    is answered once, and who is in the map of connections with whom; and that two packets can end it. *)

From S2P Require Import Prelude GoBytes GoNet GoTime Bencode Codec Hash MetaAddr.
From S2P Require Import UdpTracker UdpTrackerThms UdpLife.

Section Life.
Context {H : Type} (handler : ServerHandler H).

(** ** Connection ids *)

(** The connection ids that were given out, last first, with whom they were given to. *)
Definition granted (outs : list output) : list (Z * UDPAddr) :=
  reverse (omap (fun o => match o with Numbers raddr cid => Some (cid, raddr) | _ => None end) outs).

Lemma granted_app outs outs' : granted (outs ++ outs') = granted outs' ++ granted outs.
Proof. unfold granted. by rewrite omap_app, reverse_app. Qed.

(** What a goroutine has come to is backed by the ids that were given out. *)
Definition stage_ok (log : list (Z * UDPAddr)) (raddr : UDPAddr) (st : stage) : Prop :=
  match st with
  | Numbered _ cid | Writing _ cid _ | Recorded _ cid | Connected cid _ _ _ _ => (cid, raddr) ∈ log
  | Answering p => given raddr p = []
  | _ => True
  end.
Definition output_ok (log : list (Z * UDPAddr)) (o : output) : Prop :=
  match o with
  | Serves raddr cid => (cid, raddr) ∈ log
  | Sends raddr p => given raddr p ⊆ log
  | Numbers _ _ => True
  end.

Lemma stage_ok_mono log log' raddr st : log ⊆ log' -> stage_ok log raddr st -> stage_ok log' raddr st.
Proof. destruct st; simpl; auto. Qed.

Lemma inv_number (s : Server H) raddr log :
  inv s log -> Z.of_nat (S (length log)) < 2 ^ 64 ->
  inv (getConnectionID s).2 (((getConnectionID s).1, raddr) :: log).
Proof.
  intros (Hc & Hr & Hn & Hm) Hl. unfold inv, getConnectionID. simpl.
  rewrite u64_id by (unfold is_u64; lia). rewrite Hc in Hr |- *. split; [lia|].
  split; [constructor; [simpl; lia|]; eapply Forall_impl; [exact Hr|]; simpl; lia|].
  split; [|intros; right; by apply Hm]. constructor; [|done].
  intros ([c a] & E & Hin)%list_elem_of_fmap. rewrite Forall_forall in Hr. specialize (Hr _ Hin).
  simpl in *. lia.
Qed.

Lemma inv_record (s : Server H) cid raddr now log :
  inv s log -> (cid, raddr) ∈ log -> inv (addConnection s cid raddr now) log.
Proof.
  intros (Hc & Hr & Hn & Hm) Hin. do 3 (split; [done|]). intros c w. simpl.
  destruct (decide (c = cid)) as [->|].
  - rewrite lookup_insert_eq. by intros [= <-].
  - rewrite lookup_insert_ne by done. apply Hm.
Qed.

Lemma checkConnection_log (s : Server H) cid raddr log :
  inv s log -> checkConnection s cid raddr = true -> (cid, raddr) ∈ log.
Proof.
  intros (_ & _ & _ & Hm). unfold checkConnection.
  destruct (us_conns s !! cid) as [w|] eqn:E; [|done].
  intros [E1%Z.eqb_eq E2%bool_decide_eq_true]%andb_true_iff. apply Hm in E.
  destruct w as [[ip port] t], raddr. simpl in *. by subst.
Qed.

Lemma request_inv s raddr st now s' st' outs log :
  inv s log -> stage_ok log raddr st -> handleRequest handler s raddr st now = Ok (s', st', outs) ->
  Z.of_nat (length (granted outs ++ log)) < 2 ^ 64 ->
  inv s' (granted outs ++ log) /\ stage_ok (granted outs ++ log) raddr st' /\
  (outs = [] \/ exists o, outs = [o] /\ output_ok log o).
Proof.
  intros Hi Hs E Hl. destruct st; simpl in E, Hs.
  - repeat match type of E with res_bind _ _ = Ok _ => apply res_bind_Ok in E as (? & _ & E) end.
    cbv zeta in E. destruct (_ && _); [|by simplify_eq; auto].
    destruct (OnConnect _ _ _) as [h [err|]]; simplify_eq; split; auto.
    split; [|by left]. apply given_error.
  - injection E as <- <- <-. simpl in *. split; [|split; [left|right; eexists; by split]].
    exact (inv_number s raddr log Hi Hl).
  - simplify_eq. simpl. auto.
  - simplify_eq. simpl. split; [by apply inv_record|]. auto.
  - simplify_eq. simpl. split; [done|]. split; [done|]. right. eexists. split; [done|].
    simpl. unfold sendConnResp. rewrite given_header by (vm_compute; intuition congruence).
    rewrite be64_roundtrip.
    + intros x ->%list_elem_of_singleton. done.
    + destruct Hi as (Hc & Hr & _). rewrite Forall_forall in Hr. specialize (Hr _ Hs).
      unfold is_u64. simpl in *. lia.
  - simplify_eq. simpl. auto.
  - destruct (checkConnection s cid raddr) eqn:Ec; simplify_eq; simpl.
    + pose proof (checkConnection_log _ _ _ _ Hi Ec). split; [done|]. split; [done|]. right. eexists. by split.
    + split; [done|]. split; [apply given_error|by left].
  - apply res_bind_Ok in E as ([s1 p] & E & [= <- <- <-]).
    apply serve_request_same in E as (E1 & E2 & E3). simpl. split; [|auto].
    unfold inv. by rewrite E1, E2.
  - simplify_eq. simpl. split; [done|]. split; [done|]. right. eexists. split; [done|]. simpl. rewrite Hs. set_solver.
  - simplify_eq. simpl. auto.
Qed.

Definition life_ok (sy : system H) (log : list (Z * UDPAddr)) : Prop :=
  inv (sy_server sy) log /\ Forall (fun r => stage_ok log (rq_Addr r) (rq_stage r)) (sy_requests sy).

Lemma inv_clean (s : Server H) interval now log : inv s log -> inv (cleanConnectionID s interval now) log.
Proof.
  intros (? & ? & ? & Hm). do 3 (split; [done|]). intros cid w Hw.
  apply map_lookup_filter_Some in Hw as [Hw _]. by apply Hm.
Qed.

Lemma act_ok sy a sy' outs log :
  life_ok sy log -> act handler sy a = Ok (sy', outs) -> Z.of_nat (length (granted outs ++ log)) < 2 ^ 64 ->
  life_ok sy' (granted outs ++ log) /\ (outs = [] \/ exists o, outs = [o] /\ output_ok log o).
Proof.
  destruct sy as [s rs c rd ex]. unfold life_ok. simpl. intros [Hi Hs] E Hl.
  destruct a as [raddr spare b| |i now|now| | |]; simpl in E; simplify_eq; auto.
  - destruct (_ <? _)%nat; simplify_eq; [auto|]. simpl. split; [|by left]. split; [done|].
    apply Forall_app. split; [done|]. by repeat constructor.
  - destruct (rs !! i) as [r|] eqn:Er; [|simplify_eq; auto].
    apply res_bind_Ok in E as ([[s' st] outs'] & E & [= <- <-]).
    pose proof (proj1 (Forall_lookup _ _) Hs i r Er) as Hr.
    destruct (request_inv _ _ _ _ _ _ _ _ Hi Hr E Hl) as (H1 & H2 & H3). simpl. split; [|done].
    split; [done|]. apply Forall_insert; [|done].
    eapply Forall_impl; [exact Hs|]. intros x. apply stage_ok_mono. set_solver.
  - destruct c; simplify_eq; simpl; auto. split; [|by left]. split; [by apply inv_clean|done].
Qed.

(** Every output is backed by what was given out before it. *)
Definition justified (outs : list output) : Prop :=
  forall before o after, outs = before ++ o :: after -> output_ok (granted before) o.

Lemma justified_snoc outs o : justified outs -> output_ok (granted outs) o -> justified (outs ++ [o]).
Proof.
  intros H1 H2 before x after E. destruct after as [|y after _] using rev_ind.
  - apply app_inj_tail in E as [<- <-]. done.
  - rewrite app_comm_cons, app_assoc in E. apply app_inj_tail in E as [E _]. by eapply H1.
Qed.

Lemma steps_ok h0 acts sy outs :
  steps handler (Run (NewServer h0)) acts sy outs -> Z.of_nat (length (granted outs)) < 2 ^ 64 ->
  life_ok sy (granted outs) /\ justified outs.
Proof.
  induction 1 as [|acts sy1 outs a sy2 outs' _ IH _ E]; intros Hl.
  - split; [|by intros [|] ? ?]. split; [|constructor]. repeat split; try constructor.
    intros cid w. simpl. by rewrite lookup_empty.
  - rewrite granted_app in Hl |- *. destruct IH as [Hok Hj]; [rewrite length_app in Hl; lia|].
    destruct (act_ok _ _ _ _ _ Hok E Hl) as [H1 [-> |(o & -> & H2)]]; (split; [done|]).
    + by rewrite app_nil_r.
    + by apply justified_snoc.
Qed.

(** [C28] Connection ids authenticate addresses, however the goroutines of the server interleave: as long as
    fewer than 2^64 connections were made, no id is given out twice; a request gets past the check only
    if its id was given out, before that, to exactly the ip and port it comes from; and a packet that
    carries an id goes to the address that the id was given to, and to no other. *)
Theorem udp_life_authenticates h0 acts sy outs :
  steps handler (Run (NewServer h0)) acts sy outs -> Z.of_nat (length (granted outs)) < 2 ^ 64 ->
  NoDup (granted outs).*1 /\
  (forall before raddr cid after,
     outs = before ++ Serves raddr cid :: after -> (cid, raddr) ∈ granted before) /\
  (forall before raddr p after,
     outs = before ++ Sends raddr p :: after -> given raddr p ⊆ granted before).
Proof.
  intros Hst Hl. destruct (steps_ok _ _ _ _ Hst Hl) as [[(_ & _ & Hn & _) _] Hj].
  split; [done|]. split; intros before raddr x after E; exact (Hj _ _ _ E).
Qed.

(** ** One request *)

Definition sent (outs : list output) : list (UDPAddr * bytes) :=
  omap (fun o => match o with Sends raddr p => Some (raddr, p) | _ => None end) outs.

Lemma arrived_parse s raddr spare cid action tid b now :
  is_u64 cid -> is_u32 action -> is_u32 tid ->
  handleRequest handler s raddr (Arrived spare (be_encode 8 cid ++ be_encode 4 action ++ be_encode 4 tid ++ b)) now
  = if (cid =? ProtocolID) && (action =? ActionConnect) then
      match OnConnect handler (us_handler s) raddr with
      | (h, Some err) => Ok (set_handler s h, Answering (sendError tid err), [])
      | (h, None) => Ok (set_handler s h, Accepted tid, [])
      end
    else Ok (s, Unchecked cid action tid spare b, []).
Proof. intros. unfold handleRequest. fields. by rewrite be64_roundtrip, !be32_roundtrip. Qed.

Lemma alone_more fuel s raddr st now :
  st <> Ended ->
  alone handler (S fuel) s raddr st now
  = let! '(s, st, outs) := handleRequest handler s raddr st now in
    let! '(s, outs') := alone handler fuel s raddr st now in Ok (s, outs ++ outs').
Proof. by destruct st. Qed.

(** A request that is handled without interruption does what [handlePacket] says: the state it leaves,
    the one packet it sends, and whether it panics. *)
Theorem request_alone s raddr spare b now :
  (16 <= length b)%nat ->
  match handlePacket handler spare s raddr b now with
  | Ok (s', p) =>
      exists outs, alone handler 5 s raddr (Arrived spare b) now = Ok (s', outs) /\ sent outs = [(raddr, p)]
  | Err e => alone handler 5 s raddr (Arrived spare b) now = Err e
  | Panic => alone handler 5 s raddr (Arrived spare b) now = Panic
  end.
Proof.
  intros Hb. destruct (header_shape b Hb) as (cid & action & tid & rest & Hc & Ha & Ht & ->).
  rewrite handlePacket_parse, alone_more, arrived_parse by done. unfold serve.
  destruct ((cid =? ProtocolID) && (action =? ActionConnect)).
  { destruct (OnConnect _ _ _) as [h [err|]]; cbn [res_bind]; eexists; (split; [reflexivity|done]). }
  cbn [res_bind]. do 2 (rewrite alone_more by done; cbn [handleRequest res_bind]).
  destruct (checkConnection s cid raddr); cbn [negb res_bind]; [|by eexists].
  rewrite alone_more by done. cbn [handleRequest].
  destruct (serve_request _ _ _ _ _ _ _) as [[s' p]|e|]; cbn [res_bind]; try done. by eexists.
Qed.

(** ** Every request is answered *)

Definition count {A} (f : A -> bool) (l : list A) : nat := length (filter (fun x => f x = true) l).

Lemma length_count_app {A} (f : A -> bool) l1 l2 : count f (l1 ++ l2) = (count f l1 + count f l2)%nat.
Proof. unfold count. by rewrite filter_app, length_app. Qed.
Lemma count_cons {A} (f : A -> bool) x l : count f (x :: l) = ((if f x then 1 else 0) + count f l)%nat.
Proof. unfold count. rewrite filter_cons. by destruct (f x). Qed.
Lemma count_insert {A} (f : A -> bool) l i x y :
  l !! i = Some x ->
  (count f (<[i := y]> l) + (if f x then 1 else 0) = count f l + (if f y then 1 else 0))%nat.
Proof.
  intros Hi. rewrite <- (take_drop_middle l i x Hi) at 2.
  rewrite insert_take_drop by (by eapply lookup_lt_Some). rewrite !length_count_app, !count_cons. lia.
Qed.

(** The packets that were read from an address and are long enough for a request; what was sent to it;
    and its requests that are still being handled. *)
Definition received (raddr : UDPAddr) : list action -> nat :=
  count (fun a => match a with
                  | Receive r _ b => bool_decide (r = raddr) && negb (length b <? 16)%nat
                  | _ => false
                  end).
Definition answers (raddr : UDPAddr) : list output -> nat :=
  count (fun o => match o with Sends r _ => bool_decide (r = raddr) | _ => false end).
Definition pending (raddr : UDPAddr) (sy : system H) : nat :=
  count (fun r => bool_decide (rq_Addr r = raddr) && negb (is_ended r)) (sy_requests sy).

Lemma request_answers s a st now s' st' outs raddr :
  handleRequest handler s a st now = Ok (s', st', outs) -> st <> Ended ->
  answers raddr outs = if bool_decide (a = raddr) && is_ended (mkRequest a st') then 1%nat else 0%nat.
Proof.
  intros E Hne. destruct st; simpl in E; try done.
  - repeat match type of E with res_bind _ _ = Ok _ => apply res_bind_Ok in E as (? & _ & E) end.
    cbv zeta in E. destruct (_ && _); [|simplify_eq; by rewrite andb_false_r].
    destruct (OnConnect _ _ _) as [h [err|]]; simplify_eq; by rewrite andb_false_r.
  - injection E as <- <- <-. by rewrite andb_false_r.
  - simplify_eq. by rewrite andb_false_r.
  - simplify_eq. by rewrite andb_false_r.
  - simplify_eq. unfold answers. rewrite count_cons. simpl. by case_bool_decide.
  - simplify_eq. by rewrite andb_false_r.
  - destruct (checkConnection _ _ _); simplify_eq; by rewrite andb_false_r.
  - apply res_bind_Ok in E as ([s1 p] & E & [= <- <- <-]). by rewrite andb_false_r.
  - simplify_eq. unfold answers. rewrite count_cons. simpl. by case_bool_decide.
Qed.

Lemma act_counts sy a sy' outs raddr :
  enabled sy a = true -> act handler sy a = Ok (sy', outs) ->
  (received raddr [a] + pending raddr sy = answers raddr outs + pending raddr sy')%nat.
Proof.
  destruct sy as [s rs c rd ex]. unfold received, pending. rewrite count_cons. intros En E.
  destruct a as [r spare b| |i now|now| | |]; simpl in E, En |- *; simplify_eq; try done.
  - destruct (length b <? 16)%nat; simplify_eq; simpl; [by rewrite andb_false_r|].
    rewrite length_count_app, count_cons. simpl. rewrite !andb_true_r.
     change (count _ (@nil request)) with 0%nat. cbn. lia.
  - destruct (rs !! i) as [r|] eqn:Er; [|done].
    apply res_bind_Ok in E as ([[s' st] outs'] & E & [= <- <-]).
    assert (Hne : rq_stage r <> Ended) by (intros Hx; by rewrite Hx in En).
    rewrite (request_answers _ _ _ _ _ _ _ raddr E Hne). simpl.
    pose proof (count_insert (fun r => bool_decide (rq_Addr r = raddr) && negb (is_ended r)) rs i r
                  (mkRequest (rq_Addr r) st) Er) as Hc. simpl in Hc.
    assert (is_ended r = false) as Hend by (unfold is_ended; by destruct (rq_stage r)).
    rewrite Hend in Hc. change (count _ (@nil action)) with 0%nat in *.
    case_bool_decide; simpl in *; [|lia]. destruct (is_ended _); simpl in *; lia.
  - destruct c; simplify_eq; done.
Qed.

Lemma steps_counts sy0 acts sy outs raddr :
  steps handler sy0 acts sy outs ->
  (received raddr acts + pending raddr sy0 = answers raddr outs + pending raddr sy)%nat.
Proof.
  induction 1 as [|acts sy1 outs a sy2 outs' _ IH En E]; [done|].
  unfold received, answers in *. rewrite !length_count_app.
  pose proof (act_counts _ _ _ _ raddr En E) as Ha. unfold received, answers in Ha. lia.
Qed.

(** How many stages are before a goroutine. *)
Definition work (st : stage) : nat :=
  match st with
  | Ended => 0 | Answering _ | Recorded _ _ => 1
  | Connected _ _ _ _ _ | Writing _ _ _ => 2 | Reading _ _ _ _ _ | Numbered _ _ => 3
  | Unchecked _ _ _ _ _ | Accepted _ => 4 | Arrived _ _ => 5
  end.
Definition total_work (sy : system H) : nat :=
  (sum_list (map (fun r => work (rq_stage r)) (sy_requests sy)) + if is_cleaning (sy_cleaner sy) then 1 else 0)%nat.

(** The goroutines that are under way, and nothing new. *)
Definition on_the_way (a : action) : Prop := match a with Step _ _ | Clean => True | _ => False end.

Lemma request_work s raddr st now s' st' outs :
  st <> Ended -> handleRequest handler s raddr st now = Ok (s', st', outs) -> (work st' < work st)%nat.
Proof.
  intros Hne E. destruct st; simpl in E |- *; try done; simplify_eq; simpl; try lia.
  - repeat match type of E with res_bind _ _ = Ok _ => apply res_bind_Ok in E as (? & _ & E) end.
    cbv zeta in E. destruct (_ && _); [|simplify_eq; simpl; lia].
    destruct (OnConnect _ _ _) as [h [err|]]; simplify_eq; simpl; lia.
  - destruct (checkConnection _ _ _); simplify_eq; simpl; lia.
  - apply res_bind_Ok in E as ([s1 p] & E & [= <- <- <-]). simpl. lia.
Qed.

Lemma sum_insert (f : request -> nat) l i x y :
  l !! i = Some x -> (sum_list (map f (<[i := y]> l)) + f x = sum_list (map f l) + f y)%nat.
Proof.
  intros Hi. rewrite <- (take_drop_middle l i x Hi) at 2.
  rewrite insert_take_drop by (by eapply lookup_lt_Some).
  rewrite !map_app. simpl.
  induction (take i l); simpl; lia.
Qed.

Lemma act_work sy a sy' outs :
  on_the_way a -> enabled sy a = true -> act handler sy a = Ok (sy', outs) -> (total_work sy' < total_work sy)%nat.
Proof.
  destruct sy as [s rs c rd ex]. unfold total_work. intros Hw En E.
  destruct a as [| |i now| | | |]; try done; simpl in *.
  - destruct (rs !! i) as [r|] eqn:Er; [|done].
    apply res_bind_Ok in E as ([[s' st] outs'] & E & [= <- <-]). simpl.
    assert (Hne : rq_stage r <> Ended) by (intros Hx; by rewrite Hx in En).
    apply request_work in E; [|done].
    pose proof (sum_insert (fun r => work (rq_stage r)) rs i r (mkRequest (rq_Addr r) st) Er). simpl in *. lia.
  - destruct c; simplify_eq. simpl. lia.
Qed.

(** A goroutine that is under way is never stuck for good: one of them can go on. *)
Lemma can_go_on (sy : system H) :
  forallb is_ended (sy_requests sy) = false -> exists a, on_the_way a /\ enabled sy a = true.
Proof.
  destruct sy as [s rs c rd ex]. simpl. intros Hne.
  destruct (existsb is_writing rs) eqn:Hw.
  { apply existsb_exists in Hw as (r & [i Hi]%list_elem_of_In%list_elem_of_lookup & Hr).
    exists (Step i 0). split; [done|]. simpl. rewrite Hi. unfold is_writing in Hr. by destruct (rq_stage r). }
  assert (Hr : exists i r, rs !! i = Some r /\ is_ended r = false).
  { apply not_true_iff_false in Hne. rewrite forallb_forall in Hne.
    destruct (list_exist_dec (fun r => is_ended r = false) rs (fun r => decide (is_ended r = false))) as [Hx|Hx].
    - destruct Hx as (r & [i Hi]%list_elem_of_lookup & Hr). by exists i, r.
    - exfalso. apply Hne. intros r Hin%list_elem_of_In. destruct (is_ended r) eqn:E; [done|].
      exfalso. apply Hx. by exists r. }
  destruct (existsb is_reading rs) eqn:Hrd.
  { apply existsb_exists in Hrd as (r & [i Hi]%list_elem_of_In%list_elem_of_lookup & Hr').
    exists (Step i 0). split; [done|]. simpl. rewrite Hi. unfold is_reading in Hr'. by destruct (rq_stage r). }
  destruct c as [|t|] eqn:Hc; [|by exists Clean|].
  all: destruct Hr as (i & r & Hi & He); exists (Step i 0); (split; [done|]); simpl; rewrite Hi;
    unfold is_ended in He; destruct (rq_stage r); try done;
    unfold can_Lock, can_RLock; simpl; by rewrite Hw, ?Hrd.
Qed.

Lemma steps_more sy a sy1 outs1 acts sy2 outs2 :
  enabled sy a = true -> act handler sy a = Ok (sy1, outs1) -> steps handler sy1 acts sy2 outs2 ->
  steps handler sy (a :: acts) sy2 (outs1 ++ outs2).
Proof.
  intros En E. induction 1 as [|acts sy2 outs2 a' sy3 outs3 _ IH En' E'].
  - rewrite app_nil_r. apply (steps_one handler sy [] sy [] a sy1 outs1); [constructor|done|done].
  - rewrite app_assoc, app_comm_cons. by eapply steps_one.
Qed.

(** The goroutines that are under way end, unless one of them panics. *)
Lemma run_out n (sy : system H) :
  (total_work sy <= n)%nat ->
  exists acts sy' outs, steps handler sy acts sy' outs /\ Forall on_the_way acts /\ (length acts <= n)%nat /\
    (forallb is_ended (sy_requests sy') = true \/
     exists a, on_the_way a /\ enabled sy' a = true /\ forall r, act handler sy' a <> Ok r).
Proof.
  revert sy. induction n as [|n IH]; intros sy Hn; (destruct (forallb is_ended (sy_requests sy)) eqn:He;
    [exists [], sy, []; repeat split; [constructor|constructor|simpl; lia|by left]|]);
    destruct (can_go_on sy He) as (a & Ha & En);
    destruct (act handler sy a) as [[sy1 outs1]|e|] eqn:E;
    try (exists [], sy, []; repeat split; [constructor|constructor|simpl; lia|right; exists a; by rewrite E]).
  - pose proof (act_work _ _ _ _ Ha En E). lia.
  - pose proof (act_work _ _ _ _ Ha En E). destruct (IH sy1) as (acts & sy' & outs & Hst & Hf & Hl & Hend); [lia|].
    exists (a :: acts), sy', (outs1 ++ outs). split; [by eapply steps_more|].
    split; [by constructor|]. split; [simpl; lia|done].
Qed.

Lemma received_on_the_way raddr acts : Forall on_the_way acts -> received raddr acts = 0%nat.
Proof. induction 1 as [|a acts Ha _ IH]; [done|]. unfold received in *. rewrite count_cons. by destruct a. Qed.

Lemma pending_ended raddr (sy : system H) : forallb is_ended (sy_requests sy) = true -> pending raddr sy = 0%nat.
Proof.
  unfold pending. induction (sy_requests sy) as [|r rs IH]; simpl; [done|].
  intros [E1 E2]%andb_true_iff. rewrite count_cons, E1, IH by done. by rewrite andb_false_r.
Qed.

(** [C29] Every request is answered, and only once.  Whatever happens, as many packets were sent to an address
    as requests came from it and are no longer being handled.  And no deadlock: with no further packet, no tick
    and no limit but the work that is left, the goroutines can all be brought to their end, and then every
    request has its answer; unless one of them panics. *)
Theorem requests_answered s0 acts sy outs :
  steps handler (Run s0) acts sy outs ->
  (forall raddr, received raddr acts = answers raddr outs + pending raddr sy)%nat /\
  exists acts' sy' outs', steps handler sy acts' sy' outs' /\
    Forall on_the_way acts' /\ (length acts' <= total_work sy)%nat /\
    ((forall raddr, answers raddr (outs ++ outs') = received raddr acts) \/
     exists a, on_the_way a /\ enabled sy' a = true /\ forall r, act handler sy' a <> Ok r).
Proof.
  intros Hst.
  assert (Hc : forall raddr, (received raddr acts = answers raddr outs + pending raddr sy)%nat).
  { intros raddr. pose proof (steps_counts _ _ _ _ raddr Hst) as E. rewrite <- E.
    change (pending raddr (Run s0)) with 0%nat. lia. }
  split; [done|]. destruct (run_out (total_work sy) sy) as (acts' & sy' & outs' & H1 & H2 & H3 & [He|Hp]); [lia|..].
  - exists acts', sy', outs'. do 3 (split; [done|]). left. intros raddr.
    pose proof (steps_counts _ _ _ _ raddr H1) as E.
    rewrite received_on_the_way, (pending_ended raddr sy') in E by done.
    unfold answers in *. rewrite length_count_app, Hc. unfold answers. lia.
  - exists acts', sy', outs'. do 3 (split; [done|]). by right.
Qed.

(** ** The lock *)

Lemma existsb_count {A} (f : A -> bool) l : existsb f l = negb (count f l =? 0)%nat.
Proof. induction l as [|x l IH]; [done|]. simpl. rewrite count_cons, IH. by destruct (f x). Qed.

Definition writers (sy : system H) : nat := count is_writing (sy_requests sy).
Definition readers (sy : system H) : nat :=
  (count is_reading (sy_requests sy) + if is_cleaning (sy_cleaner sy) then 1 else 0)%nat.
Definition lock_ok (sy : system H) : Prop :=
  (writers sy <= 1)%nat /\ (writers sy = 1%nat -> readers sy = 0%nat).

Lemma can_RLock_writers (sy : system H) : can_RLock sy = (writers sy =? 0)%nat.
Proof. unfold can_RLock, writers. rewrite existsb_count, negb_involutive. done. Qed.
Lemma can_Lock_free (sy : system H) : can_Lock sy = true -> writers sy = 0%nat /\ readers sy = 0%nat.
Proof.
  unfold can_Lock.
  rewrite can_RLock_writers, existsb_count, negb_involutive, !andb_true_iff, !Nat.eqb_eq, negb_true_iff.
  unfold readers. intros [[H1 H2] H3]. by rewrite H2, H3.
Qed.

(** A goroutine gets the lock only from the stage at which it asks for it. *)
Lemma request_lock s raddr st now s' st' outs r' :
  handleRequest handler s raddr st now = Ok (s', st', outs) -> rq_stage r' = st' ->
  (is_writing r' = true -> exists tid cid, st = Numbered tid cid) /\
  (is_reading r' = true -> exists cid action tid spare b, st = Unchecked cid action tid spare b).
Proof.
  intros E <-. unfold is_writing, is_reading. destruct (rq_stage r'); (split; [|]); try done; intros _;
    destruct st; simpl in E; simplify_eq; eauto 8;
    repeat match type of E with res_bind _ _ = Ok _ => apply res_bind_Ok in E as (? & _ & E) end;
    cbv zeta in E; repeat case_match; simplify_eq.
Qed.

Lemma act_lock sy a sy' outs :
  enabled sy a = true -> act handler sy a = Ok (sy', outs) -> lock_ok sy -> lock_ok sy'.
Proof.
  destruct sy as [s rs c rd ex]. intros En E Hl.
  destruct a as [r spare b| |i now|now| | |]; simpl in En, E; simplify_eq; try done.
  - destruct (_ <? _)%nat; simplify_eq; [done|]. unfold lock_ok, writers, readers in *. simpl in *.
    rewrite !length_count_app. change (count is_writing [_]) with 0%nat.
     change (count is_reading [_]) with 0%nat. by rewrite !Nat.add_0_r.
  - destruct (rs !! i) as [r|] eqn:Er; [|done].
    apply res_bind_Ok in E as ([[s' st] outs'] & E & [= <- <-]).
    set (r' := mkRequest (rq_Addr r) st) in *.
    destruct (request_lock _ _ _ _ _ _ _ r' E eq_refl) as [Hw Hr].
    pose proof (count_insert is_writing rs i r r' Er) as Cw.
    pose proof (count_insert is_reading rs i r r' Er) as Cr.
    destruct (is_writing r').
    { destruct Hw as (tid & cid & Hst); [done|]. rewrite Hst in En. apply can_Lock_free in En as [F1 F2].
      destruct (is_reading r'); [destruct Hr as (? & ? & ? & ? & ? & ?); [done|congruence]|].
      unfold lock_ok, writers, readers in *. simpl in *.
       destruct (is_writing r), (is_reading r), (is_cleaning c); lia. }
    destruct (is_reading r').
    { destruct Hr as (? & ? & ? & ? & ? & Hst); [done|]. rewrite Hst, can_RLock_writers in En.
      apply Nat.eqb_eq in En. unfold lock_ok, writers, readers in *. simpl in *.
      destruct (is_writing r), (is_reading r); lia. }
    unfold lock_ok, writers, readers in *. simpl in *. destruct (is_writing r), (is_reading r); lia.
  - destruct c; [|done|done]. rewrite can_RLock_writers in En. apply Nat.eqb_eq in En.
    unfold lock_ok, writers, readers in *. simpl in *. lia.
  - destruct c; simplify_eq. unfold lock_ok, writers, readers in *. simpl in *. lia.
  - destruct c; simplify_eq. unfold lock_ok, writers, readers in *. simpl in *. lia.
Qed.

Lemma steps_lock s0 acts sy outs : steps handler (Run s0) acts sy outs -> lock_ok sy.
Proof. induction 1 as [|acts sy1 outs a sy2 outs' _ IH En E]; [by split; [apply Nat.le_0_l|]|by eapply act_lock]. Qed.

(** [C30] The lock of the connections.  Who writes to the map in [addConnection] is alone with it, whatever
    the interleaving.  But [cleanConnectionID] deletes under the lock for readers: from every server, whatever
    connections it has, there is a run at whose end the deletion and a lookup of [checkConnection] are
    both next to go, which is the concurrent map access that Go ends the program for. *)
Theorem lock_discipline s0 :
  (forall acts sy outs, steps handler (Run s0) acts sy outs ->
     (writers sy <= 1)%nat /\ (writers sy = 1%nat -> readers sy = 0%nat)) /\
  exists acts sy outs i r now,
    steps handler (Run s0) acts sy outs /\ sy_server sy = s0 /\ sy_requests sy !! i = Some r /\ is_reading r = true /\
    sy_cleaner sy = Cleaning now /\ enabled sy (Step i now) = true /\ enabled sy Clean = true.
Proof.
  split; [intros acts sy outs; apply steps_lock|].
  set (a := mkUDPAddr [] 0). set (req := mkRequest a (Reading 0 0 0 [] [])).
  exists ([] ++ [Receive a [] (replicate 16 x00)] ++ [Step 0 0] ++ [Step 0 0] ++ [Tick 0]),
    (mkSystem s0 [req] (Cleaning 0) true false), [], 0%nat, req, 0.
  split; [|done]. cbn [app].
  apply (steps_more _ _ (mkSystem s0 [mkRequest a (Arrived [] (replicate 16 x00))] Waiting true false) [] _ _ []);
    [done|done|].
  apply (steps_more _ _ (mkSystem s0 [mkRequest a (Unchecked 0 0 0 [] [])] Waiting true false) [] _ _ []);
    [done|done|].
  apply (steps_more _ _ (mkSystem s0 [req] Waiting true false) [] _ _ []); [done|done|].
  apply (steps_more _ _ (mkSystem s0 [req] (Cleaning 0) true false) [] _ _ []); [done|done|]. constructor.
Qed.

(** ** Two packets bring the server down *)

(** An extension that announces more data than there is: the slice behind it is out of range. *)
Lemma decodeExts_overlong fuel spare acc t l rest :
  (length rest < Z.to_nat (b2z l))%nat -> decodeExts fuel spare acc (t :: l :: rest) = Panic.
Proof.
  intros Hl. destruct fuel; [done|]. cbn [decodeExts Extension_DecodeFrom].
  destruct (Z.ltb_spec 0 (b2z l)); [|lia].
  unfold slice at 1. destruct (go_slice _ 2 _); [|done]. cbn [res_bind].
  unfold slice_from, slice, go_slice. by rewrite decide_False by (simpl; lia).
Qed.

Lemma decodeExts_empty fuel spare acc rest :
  decodeExts (S fuel) spare acc (x00 :: x00 :: rest) = decodeExts fuel spare (acc ++ [zeroExtension]) rest.
Proof.
  cbn [decodeExts Extension_DecodeFrom res_bind]. change (0 <? b2z x00) with false. cbn [res_bind].
  assert (slice_from (x00 :: x00 :: rest) 2 = Ok rest) as ->; [|done].
  unfold slice_from, slice, go_slice. rewrite decide_True by (simpl; lia). f_equal.
  cbn [length Nat.sub drop]. rewrite Nat.sub_0_r. by apply take_ge.
Qed.

(** An announce request of zeros, long enough for both families, whose last extension says that it has a
    byte and has none. *)
Definition overlong : bytes := replicate 94 x00 ++ [x02; x01].

Lemma overlong_panics s spare raddr tid :
  serve_request handler spare s raddr ActionAnnounce tid overlong = Panic.
Proof.
  assert (E : AnnounceRequest_DecodeFrom spare zeroAnnounceRequest overlong = Panic).
  { change (AnnounceRequest_DecodeFrom spare zeroAnnounceRequest overlong)
      with (let! exts := decodeExts 14 spare [] (replicate 12 x00 ++ [x02; x01]) in
            Ok (mkAnnounceRequest (replicate 20 x00) (replicate 20 x00) 0 0 0 0 0 0 0 exts)).
    cbn [replicate app]. rewrite !decodeExts_empty, decodeExts_overlong; [done|]. vm_compute. lia. }
  unfold serve_request. rewrite Z.eqb_refl, E.
  destruct (bool_decide _); reflexivity.
Qed.

(** [C31] Anybody the handler accepts can end the server with two packets, sent from one address: the connection
    request, and an announce with an extension that is longer than the packet.  The panic is in a goroutine, and
    nothing recovers it. *)
Theorem two_packets_end_server s h spare raddr tid now :
  OnConnect handler (us_handler s) raddr = (h, None) -> is_u32 tid ->
  exists s' cid,
    handlePacket handler spare s raddr (be_encode 8 ProtocolID ++ be_encode 4 ActionConnect ++ be_encode 4 tid) now
    = Ok (s', sendConnResp tid cid) /\
    forall spare' tid' now', is_u32 tid' ->
      handlePacket handler spare' s' raddr
        (be_encode 8 cid ++ be_encode 4 ActionAnnounce ++ be_encode 4 tid' ++ overlong) now' = Panic.
Proof.
  intros Hc Ht. rewrite <- (app_nil_r (be_encode 4 tid)), handlePacket_parse by done.
  unfold serve at 1. rewrite !Z.eqb_refl, Hc. cbn [andb getConnectionID].
  eexists _, _. split; [reflexivity|]. intros spare' tid' now' Ht'.
  rewrite handlePacket_parse by (done || apply u64_range). unfold serve.
  change (ActionAnnounce =? ActionConnect) with false. rewrite andb_false_r.
  assert (checkConnection _ _ raddr = true) as ->; [|apply overlong_panics].
  unfold checkConnection. simpl. by rewrite lookup_insert_eq, Z.eqb_refl, bool_decide_eq_true_2.
Qed.
End Life.

(** ** Two clients at once *)

Section Run.
Context {H : Type} (handler : ServerHandler H).

(** Take the actions of a list, as long as they can be taken. *)
Fixpoint run_acts (sy : system H) (acts : list action) : option (system H * list output) :=
  match acts with
  | [] => Some (sy, [])
  | a :: acts =>
      if enabled sy a then
        match act handler sy a with
        | Ok (sy, outs) =>
            match run_acts sy acts with Some (sy, outs') => Some (sy, outs ++ outs') | None => None end
        | _ => None
        end
      else None
  end.

Lemma run_life_steps sy acts sy' outs : run_acts sy acts = Some (sy', outs) -> steps handler sy acts sy' outs.
Proof.
  revert sy outs. induction acts as [|a acts IH]; intros sy outs; cbn [run_acts]; [intros [= <- <-]; constructor|].
  destruct (enabled sy a) eqn:En; [|done]. destruct (act handler sy a) as [[sy1 o1]| |] eqn:E; try done.
  destruct (run_acts sy1 acts) as [[sy2 o2]|] eqn:R; [|done]. intros [= <- <-].
  eapply steps_more; [done|done|]. by apply IH.
Qed.
End Run.

Definition otherAddr : UDPAddr := mkUDPAddr [x0a; x00; x00; x01] 4001.
Definition conn_packet (tid : Z) : bytes := be_encode 8 ProtocolID ++ be_encode 4 ActionConnect ++ be_encode 4 tid.
Definition scrape_packet (cid tid : Z) : bytes :=
  be_encode 8 cid ++ be_encode 4 ActionScrape ++ be_encode 4 tid ++ replicate 20 x05.

(** Both connect; the second overtakes the first and gets the id 1.  Then the second uses the id 2 of the
    first, and is refused, and the first uses it, and is served; its answer is not yet sent. *)
Definition demo_acts : list action :=
  [Receive demoAddr [] (conn_packet 7); Receive otherAddr [] (conn_packet 8); Step 0 1; Step 1 1; Step 1 1; Step 0 1;
   Step 0 2; Step 0 2; Step 1 3; Step 1 3; Step 1 3; Step 0 3;
   Receive otherAddr [] (scrape_packet 2 9); Step 2 4; Step 2 4; Receive demoAddr [] (scrape_packet 2 10); Step 3 4;
   Step 3 4; Step 2 4; Step 3 4; Step 3 4; Step 2 5].
Definition demo_run : system nat * list output :=
  default (Run (NewServer 0%nat), []) (run_acts (demoHandler demoResponse) (Run (NewServer 0%nat)) demo_acts).

Lemma demo_life_steps : steps (demoHandler demoResponse) (Run (NewServer 0%nat)) demo_acts demo_run.1 demo_run.2.
Proof.
  apply run_life_steps. unfold demo_run.
  assert (E : is_Some (run_acts (demoHandler demoResponse) (Run (NewServer 0%nat)) demo_acts))
    by (vm_compute; by eexists).
  destruct E as [[sy outs] ->]. done.
Qed.

Definition demo_out : list output :=
  [Numbers otherAddr 1; Numbers demoAddr 2; Sends otherAddr (sendConnResp 8 1); Sends demoAddr (sendConnResp 7 2);
   Serves demoAddr 2; Sends otherAddr (sendError 9 (B "connection is expired"))].
Lemma demo_outs : demo_run.2 = demo_out.
Proof. vm_compute. reflexivity. Qed.

Lemma udp_life_authenticates_witness :
  demo_run.2 = demo_out /\ NoDup (granted demo_run.2).*1 /\
  (forall before raddr cid after,
     demo_run.2 = before ++ Serves raddr cid :: after -> (cid, raddr) ∈ granted before).
Proof.
  split; [exact demo_outs|].
  destruct (udp_life_authenticates (demoHandler demoResponse) 0%nat demo_acts demo_run.1 demo_run.2 demo_life_steps)
    as (H1 & H2 & _); [by rewrite demo_outs|done].
Defined.

Lemma requests_answered_witness :
  received demoAddr demo_acts = 2%nat /\ answers demoAddr demo_run.2 = 1%nat /\ pending demoAddr demo_run.1 = 1%nat /\
  exists acts' sy' outs', steps (demoHandler demoResponse) demo_run.1 acts' sy' outs' /\ (length acts' <= 1)%nat.
Proof.
  destruct (requests_answered (demoHandler demoResponse) (NewServer 0%nat) demo_acts demo_run.1 demo_run.2
              demo_life_steps)
    as [_ (acts' & sy' & outs' & H1 & _ & H2 & _)].
  do 3 (split; [vm_compute; reflexivity|]). exists acts', sy', outs'. split; [exact H1|exact H2].
Defined.

Lemma request_alone_witness :
  exists outs, alone (demoHandler demoResponse) 5 (NewServer 0%nat) demoAddr (Arrived [] (conn_packet 7)) 3
    = Ok (mkServer 1 {[1 := mkWrappedPeerAddr demoAddr 3]} 1%nat, outs) /\ sent outs = [(demoAddr, sendConnResp 7 1)].
Proof.
  pose proof (request_alone (demoHandler demoResponse) (NewServer 0%nat) demoAddr [] (conn_packet 7) 3) as E.
  assert (Hp : handlePacket (demoHandler demoResponse) [] (NewServer 0%nat) demoAddr (conn_packet 7) 3
               = Ok (mkServer 1 {[1 := mkWrappedPeerAddr demoAddr 3]} 1%nat, sendConnResp 7 1))
    by (vm_compute; reflexivity).
  rewrite Hp in E. apply E. vm_compute. lia.
Defined.

Lemma two_packets_end_server_witness :
  exists s' cid,
    handlePacket (demoHandler demoResponse) [] (NewServer 0%nat) demoAddr (conn_packet 7) 3
    = Ok (s', sendConnResp 7 cid) /\
    handlePacket (demoHandler demoResponse) (replicate 100 x00) s' demoAddr
      (be_encode 8 cid ++ be_encode 4 ActionAnnounce ++ be_encode 4 8 ++ overlong) 4 = Panic.
Proof.
  destruct (two_packets_end_server (demoHandler demoResponse) (NewServer 0%nat) 1%nat [] demoAddr 7 3 eq_refl)
    as (s' & cid & H1 & H2); [by vm_compute|].
  exists s', cid. split; [exact H1|]. apply H2. by vm_compute.
Defined.
