(* ===== verification/UdpConn.v ===== *)
(** * The connection of a UDP tracker client

    tracker/udptracker/udp_client.go: dialling, closing, and [readResp], which waits for a response
    until its context ends.  The socket has a deadline for reading, as sockets of package net have; what is behind
    it is a world [W].  A context is asked when the client waits: [Some e] means that it ends first,
    with the error [e].  The read that is left behind then is a goroutine of its own; what it still takes
    from the world is the argument [late]. *)

From S2P Require Import Prelude GoBytes GoNet GoTime Bencode Codec Hash MetaAddr UdpTracker UdpTrackerThms.

Definition ErrTimeout : error := Errorf "i/o timeout".
Definition ErrNetClosed : error := Errorf "use of closed network connection".

Section Conn.
Context {W : Type}.
Variable udp_Write : W -> bytes -> W * nat * option error.
Variable udp_Read : W -> nat -> W * (error + bytes).
Variable udp_Now : W -> Z.
Variable late : W -> W.

Record conn : Type := mkConn { cn_world : W; cn_deadline : Z; cn_closed : bool }.
Definition set_world (cn : conn) (w : W) : conn := mkConn w (cn_deadline cn) (cn_closed cn).
Definition conn_Now (cn : conn) : Z := udp_Now (cn_world cn).

(** [Write] and [Read] of [net.UDPConn]: a deadline that has passed makes a read fail at once. *)
Definition conn_Write (cn : conn) (b : bytes) : conn * nat * option error :=
  if cn_closed cn then (cn, 0%nat, Some ErrNetClosed)
  else let '(w, n, err) := udp_Write (cn_world cn) b in (set_world cn w, n, err).
Definition deadline_passed (cn : conn) : bool :=
  negb (cn_deadline cn =? zeroTime) && (cn_deadline cn <=? conn_Now cn).
Definition conn_Read (cn : conn) (n : nat) : conn * (error + bytes) :=
  if cn_closed cn then (cn, inl ErrNetClosed)
  else if deadline_passed cn then (cn, inl ErrTimeout)
  else let '(w, r) := udp_Read (cn_world cn) n in (set_world cn w, r).
Definition SetReadDeadline (cn : conn) (t : Z) : conn := mkConn (cn_world cn) t (cn_closed cn).

Definition Ctx : Type := W -> option error.

Definition readResp (ctx : Ctx) (cn : conn) (n : nat) : conn * (error + bytes) :=
  match ctx (cn_world cn) with
  | Some err => (SetReadDeadline (set_world cn (late (cn_world cn))) (conn_Now cn), inl err)
  | None => conn_Read cn n
  end.

(** [dial] gives the text of the local address and the connection. *)
Definition NewClientByDial (dial : bytes -> bytes -> error + (bytes * conn)) (network address : bytes)
    (id random : Hash) : error + (Client * conn) :=
  match dial network address with
  | inl err => inl err
  | inr (local, cn) => inr (NewClient local id random, cn)
  end.
Definition Client_Close (cn : conn) : conn := mkConn (cn_world cn) (cn_deadline cn) true.

(** The requests of a user, each with its context, and what they return. *)
Inductive call : Type :=
  | CallAnnounce (ctx : Ctx) (req : AnnounceRequest)
  | CallScrape (ctx : Ctx) (infohashes : list Hash).
Inductive answer : Type :=
  | Announced (r : res AnnounceResponse)
  | Scraped (r : res (list ScrapeResponse)).

Definition run_call (c : Client) (cn : conn) (k : call) : Client * conn * answer :=
  match k with
  | CallAnnounce ctx req =>
      let '(c, cn, r) := Announce conn_Write (readResp ctx) conn_Now c cn req in (c, cn, Announced r)
  | CallScrape ctx ihs =>
      let '(c, cn, r) := scrape conn_Write (readResp ctx) conn_Now c cn ihs in (c, cn, Scraped r)
  end.
Fixpoint run_calls (c : Client) (cn : conn) (ks : list call) : Client * conn * list answer :=
  match ks with
  | [] => (c, cn, [])
  | k :: ks =>
      let '(c, cn, a) := run_call c cn k in
      let '(c, cn, rest) := run_calls c cn ks in (c, cn, a :: rest)
  end.

(** ** A context that ends *)

Definition failed (a : answer) : Prop :=
  match a with Announced (Ok _) | Scraped (Ok _) => False | _ => True end.

(** The clock of the world does not go back, and it is not at its zero. *)
Class Clock : Prop := {
  now_Write w b : udp_Now w <= udp_Now (udp_Write w b).1.1;
  now_Read w n : udp_Now w <= udp_Now (udp_Read w n).1;
  now_late w : udp_Now w <= udp_Now (late w);
  now_pos w : zeroTime < udp_Now w;
}.
Context {clock : Clock}.

(** Nothing can be read any more. *)
Definition dead (cn : conn) : Prop := cn_closed cn = true \/ deadline_passed cn = true.

Lemma dead_later cn w : dead cn -> conn_Now cn <= udp_Now w -> dead (set_world cn w).
Proof.
  unfold dead, deadline_passed, conn_Now. simpl. intros [|[E1 E2%Z.leb_le]%andb_true_iff] Hw; [by left|right].
  rewrite E1. apply Z.leb_le. simpl in *. lia.
Qed.

Lemma write_dead cn b : dead cn -> dead (conn_Write cn b).1.1.
Proof.
  intros Hd. unfold conn_Write. destruct (cn_closed cn) eqn:E; [done|].
  pose proof (now_Write (cn_world cn) b) as Hn. destruct (udp_Write _ _) as [[w n] err]. by apply dead_later.
Qed.

Lemma cancel_dead ctx cn n e : ctx (cn_world cn) = Some e -> dead (readResp ctx cn n).1.
Proof.
  intros E. unfold readResp. rewrite E. right. unfold deadline_passed, conn_Now, SetReadDeadline, set_world.
  simpl. pose proof (now_pos (cn_world cn)). pose proof (now_late (cn_world cn)).
  apply andb_true_iff. rewrite negb_true_iff, Z.eqb_neq, Z.leb_le. lia.
Qed.

Lemma read_dead ctx cn n : dead cn -> dead (readResp ctx cn n).1 /\ exists e, (readResp ctx cn n).2 = inl e.
Proof.
  intros Hd. destruct (ctx (cn_world cn)) as [e|] eqn:E.
  - split; [by eapply cancel_dead|]. unfold readResp. rewrite E. by eexists.
  - unfold readResp, conn_Read. rewrite E. destruct (cn_closed cn) eqn:Ec; [split; [done|by eexists]|].
    destruct Hd as [Hd|Hd]; [congruence|]. rewrite Hd. split; [|by eexists]. by right.
Qed.

(** A request on a dead connection: it fails, and the connection stays dead. *)
Definition fails {A} (x : Client * conn * A) (bad : A -> Prop) : Prop := dead x.1.2 /\ bad x.2.

Lemma send_dead cn b : dead cn -> dead (send conn_Write cn b).1.
Proof.
  intros Hd. unfold send. pose proof (write_dead cn b Hd) as Hw. by destruct (conn_Write cn b) as [[cn' n] [e|]].
Qed.

Lemma answer_dead ctx cn size want min_len tid e :
  dead cn -> dead (readAnswer (readResp ctx) cn size want min_len tid e).1 /\
  exists err, (readAnswer (readResp ctx) cn size want min_len tid e).2 = inl err.
Proof.
  intros Hd. unfold readAnswer. destruct (read_dead ctx cn size Hd) as [Hr [err E]].
  destruct (readResp ctx cn size) as [cn' r]. simpl in *. subst r. split; [done|by eexists].
Qed.

(** Write the packet and wait for the answer. *)
Ltac exchange Hd :=
  match goal with
  | |- context [send conn_Write ?cn ?b] =>
      let H := fresh in pose proof (send_dead cn b Hd) as H; destruct (send conn_Write cn b) as [? [?|]];
      [by split|]; cbn [fst] in H;
      match goal with
      | |- context [readAnswer (readResp ?ctx) ?cn' ?n ?want ?m ?tid ?e] =>
          let H2 := fresh in let E := fresh in
          destruct (answer_dead ctx cn' n want m tid e H) as [H2 [? E]];
          destruct (readAnswer (readResp ctx) cn' n want m tid e) as [? ?]; cbn [fst snd] in H2, E; subst;
          by split
      end
  end.

Lemma connect_dead ctx c cn :
  dead cn -> fails (connect conn_Write (readResp ctx) conn_Now c cn) (fun r => r <> None).
Proof. intros Hd. unfold connect, fails. destruct (getTranID c) as [tid c1]. exchange Hd. Qed.

Lemma connection_dead ctx c cn :
  dead cn -> dead (client_getConnectionID conn_Write (readResp ctx) conn_Now c cn).1.2.
Proof.
  intros Hd. unfold client_getConnectionID. destruct (_ <? _); [|done].
  destruct (connect_dead ctx c cn Hd) as [Hc _]. by destruct (connect _ _ _ _ _) as [[c1 cn1] [e|]].
Qed.

Lemma call_dead c cn k : dead cn -> fails (run_call c cn k) failed.
Proof.
  intros Hd. unfold run_call, fails. destruct k as [ctx req|ctx ihs].
  - unfold Announce. destruct (Hash_IsZero _); [by split|]. unfold announce.
    pose proof (connection_dead ctx c cn Hd) as Hc.
    destruct (client_getConnectionID _ _ _ _ _) as [[c1 cn1] [e|cid]]; [by split|]. cbn [fst snd] in Hc.
    destruct (getTranID c1) as [tid c2]. destruct (AnnounceRequest_EncodeTo _); [|by split|by split]. exchange Hc.
  - unfold scrape. pose proof (connection_dead ctx c cn Hd) as Hc.
    destruct (client_getConnectionID _ _ _ _ _) as [[c1 cn1] [e|cid]]; [by split|]. cbn [fst snd] in Hc.
    destruct (getTranID c1) as [tid c2]. exchange Hc.
Qed.

(** [C33] Once a context has ended a wait, the client is of no more use: the deadline that [readResp] leaves on
    the socket is never taken back, so whatever requests follow, with whatever contexts, none of them gets an
    answer, although their packets go out and the tracker answers them. *)
Theorem cancelled_client_fails ctx cn n e c ks c' cn' answers :
  ctx (cn_world cn) = Some e ->
  run_calls c (readResp ctx cn n).1 ks = (c', cn', answers) -> Forall failed answers.
Proof.
  intros Hc. pose proof (cancel_dead ctx cn n e Hc) as Hd. revert Hd. generalize (readResp ctx cn n).1.
  intros cn0 Hd. revert c cn0 Hd answers. induction ks as [|k ks IH]; intros c cn0 Hd answers; cbn [run_calls].
  - intros [= _ _ <-]. constructor.
  - destruct (call_dead c cn0 k Hd) as [H1 H2]. destruct (run_call c cn0 k) as [[c1 cn1] a]. cbn [fst snd] in *.
    destruct (run_calls c1 cn1 ks) as [[c2 cn2] rest] eqn:E. intros [= -> -> <-].
    constructor; [done|]. by eapply (IH c1).
Qed.
End Conn.

(** ** Witness *)

#[export] Instance demo_clock {H} (handler : ServerHandler H) raddr now :
  zeroTime < now -> Clock (w_Write handler raddr now) w_Read (w_Now now) id.
Proof. intros. split; intros; simpl; unfold w_Now; lia. Qed.

Definition demo_time : Z := Minute * 2.
Definition demo_conn : conn (W := world (H := nat)) := mkConn (mkWorld (NewServer 0%nat) []) zeroTime false.
Definition live {W} : Ctx (W := W) := fun _ => None.
Definition ended {W} : Ctx (W := W) := fun _ => Some (Errorf "context deadline exceeded").

#[local] Abbreviation demo_Write := (w_Write (demoHandler demoResponse) demoAddr demo_time).
#[local] Abbreviation demo_Now := (w_Now demo_time).

(** The same announce is answered by the tracker, and fails when a wait was cut off before. *)
Lemma cancelled_client_fails_witness :
  (run_calls demo_Write w_Read demo_Now id demoClient demo_conn [CallAnnounce live demoRequest]).2
  = [Announced (Ok demoResponse)] /\
  Forall failed
    (run_calls demo_Write w_Read demo_Now id demoClient (readResp w_Read demo_Now id ended demo_conn 32).1
       [CallAnnounce live demoRequest; CallScrape live [replicate 20 x01]]).2.
Proof.
  split; [vm_compute; reflexivity|].
  destruct (run_calls _ _ _ _ _ _ [CallAnnounce live demoRequest; _]) as [[c' cn'] answers] eqn:E.
  eapply (cancelled_client_fails demo_Write w_Read demo_Now id
            (clock := demo_clock (demoHandler demoResponse) demoAddr demo_time eq_refl) ended demo_conn 32
            (Errorf "context deadline exceeded") demoClient _ c' cn' answers eq_refl E).
Defined.
