(* ===== verification/Info.v ===== *)
(** * Files and pieces of a torrent (metainfo/info.go, file.go, piece.go, internal/helper/io.go)

    [int64] arithmetic is written with its wrap-around; division is Go's (toward zero), and
    panics on zero.  [filepath.Join] is that of Unix.  A reader is the bytes it delivers and
    the error it ends with.  Parameters: [open] of [GeneratePiecesFromFiles], and
    [sort.Sort] in [Merge], whose order of equal elements is not specified. *)

From S2P Require Import Prelude GoBytes GoNet GoCrypto Bencode Codec Hash.

(** ** [path/filepath] *)

Definition Separator : byte := "/"%byte.

Fixpoint split_path (cur : bytes) (s : bytes) : list bytes :=
  match s with
  | [] => [rev cur]
  | c :: s => if bool_decide (c = Separator) then rev cur :: split_path [] s else split_path (c :: cur) s
  end.

Fixpoint clean_loop (rooted : bool) (out : list bytes) (cs : list bytes) : list bytes :=
  match cs with
  | [] => rev out
  | c :: cs =>
      clean_loop rooted
        (if bool_decide (c = []) || bool_decide (c = B ".") then out
         else if bool_decide (c = B "..") then
           match out with
           | [] => if rooted then [] else [c]
           | top :: rest => if bool_decide (top = B "..") then c :: out else rest
           end
         else c :: out) cs
  end.

Definition filepath_Clean (path : bytes) : bytes :=
  let rooted := bool_decide (head path = Some Separator) in
  let p := join [Separator] (clean_loop rooted [] (split_path [] path)) in
  if rooted then Separator :: p else if bool_decide (p = []) then B "." else p.

Fixpoint filepath_Join (elems : list bytes) : bytes :=
  match elems with
  | [] => []
  | e :: rest =>
      if bool_decide (e = []) then filepath_Join rest else filepath_Clean (join [Separator] elems)
  end.

Example Join_ex : filepath_Join [B "a//b"; B ".."; B "./c"] = B "a/c".
Proof. vm_compute. reflexivity. Qed.

(** ** [Info] and [File] *)

Record File : Type := mkFile { f_Length : Z; f_Paths : list bytes }.
#[export] Instance File_eq_dec : EqDecision File.
Proof. solve_decision. Defined.

Record Info : Type := mkInfo {
  i_Name : bytes;
  i_PieceLength : Z;
  i_Pieces : Hashes;
  i_Length : Z;
  i_Files : list File;
}.

Definition IsDir (info : Info) : bool := negb (length (i_Files info) =? 0)%nat.
Definition CountPieces (info : Info) : Z := Z.of_nat (length (i_Pieces info)).

Definition TotalLength (info : Info) : Z :=
  if IsDir info then foldl (fun ret fi => i64 (ret + f_Length fi)) 0 (i_Files info)
  else i_Length info.

Definition PieceOffset (info : Info) (index offset : Z) : Z :=
  i64 (i64 (index * i_PieceLength info) + offset).

Definition AllFiles (info : Info) : list File :=
  if IsDir info then i_Files info else [mkFile (i_Length info) []].

(** The loop of [GetFileByOffset]: [inl] is its [return], [inr] the variables behind it. *)
Fixpoint getFile_loop (fs : list File) (file : File) (fileOffset : Z) : (File * Z) + (File * Z) :=
  match fs with
  | [] => inr (file, fileOffset)
  | file :: fs =>
      if fileOffset <? f_Length file then inl (file, fileOffset)
      else if (fileOffset =? f_Length file) && (length fs =? 0)%nat then inl (file, fileOffset)
      else getFile_loop fs file (i64 (fileOffset - f_Length file))
  end.

Definition GetFileByOffset (info : Info) (offset : Z) : res (File * Z) :=
  if negb (IsDir info) then
    if i_Length info <? offset then Panic
    else Ok (mkFile (i_Length info) [i_Name info], offset)
  else
    match getFile_loop (i_Files info) (mkFile 0 []) offset with
    | inl r => Ok r
    | inr (file, fileOffset) => if f_Length file <? fileOffset then Panic else Ok (file, fileOffset)
    end.

Definition File_Path (f : File) (info : Info) : bytes :=
  if IsDir info then filepath_Join (i_Name info :: f_Paths f) else i_Name info.
Definition File_PathWithPrefix (f : File) (prefix : bytes) (info : Info) : bytes :=
  if IsDir info then filepath_Join (prefix :: i_Name info :: f_Paths f)
  else filepath_Join [prefix; i_Name info].

Fixpoint offset_loop (path : bytes) (info : Info) (ret : Z) (fs : list File) : res Z :=
  match fs with
  | [] => Panic
  | file :: fs =>
      if bool_decide (path = File_Path file info) then Ok ret
      else offset_loop path info (i64 (ret + f_Length file)) fs
  end.
Definition File_Offset (f : File) (info : Info) : res Z :=
  offset_loop (File_Path f info) info 0 (AllFiles info).

(** ** Pieces of a file *)

Record FilePiece : Type := mkFilePiece { fp_Index : Z; fp_Offset : Z; fp_Length : Z }.
#[export] Instance FilePiece_eq_dec : EqDecision FilePiece.
Proof. solve_decision. Defined.
Definition FilePieces : Type := list FilePiece.

(** The [for] loop over the whole pieces in the middle. *)
Definition middle (info : Info) (first last : Z) : FilePieces :=
  map (fun i => mkFilePiece (u32 i) 0 (u32 (i_PieceLength info))) (seqZ (first + 1) (last - first - 1)).

Definition File_FilePieces (f : File) (info : Info) : res FilePieces :=
  if f_Length f <? 1 then Ok []
  else
    let! startOffset := File_Offset f info in
    if i_PieceLength info =? 0 then Panic
    else
      let startPieceIndex := Z.quot startOffset (i_PieceLength info) in
      let startPieceOffset := Z.rem startOffset (i_PieceLength info) in
      let endOffset := i64 (startOffset + f_Length f) in
      let endPieceIndex := Z.quot endOffset (i_PieceLength info) in
      let endPieceOffset := Z.rem endOffset (i_PieceLength info) in
      if startPieceIndex =? endPieceIndex then
        Ok [mkFilePiece (u32 startPieceIndex) (u32 startPieceOffset) (u32 (endPieceOffset - startPieceOffset))]
      else if endPieceIndex - startPieceIndex + 1 <? 0 then Panic
      else
        Ok (mkFilePiece (u32 startPieceIndex) (u32 startPieceOffset)
              (u32 (i_PieceLength info - startPieceOffset))
            :: middle info startPieceIndex endPieceIndex
            ++ [mkFilePiece (u32 endPieceIndex) 0 (u32 endPieceOffset)]).

Definition TotalOffset (fp : FilePiece) (pieceLength : Z) : Z :=
  i64 (i64 (fp_Index fp * pieceLength) + fp_Offset fp).

Definition BlockSize : Z := 16384.
Record PieceBlock : Type := mkPieceBlock { pb_Index : Z; pb_Offset : Z; pb_Length : Z }.

(** [PieceBlocks.Less], the order that [sort.Sort] puts them in. *)
Definition pb_Less (a b : PieceBlock) : bool :=
  if pb_Index a <? pb_Index b then true
  else if (pb_Index a =? pb_Index b) && (pb_Offset a <? pb_Offset b) then true
  else false.

Fixpoint blocks_loop (fuel : nat) (index offset rest : Z) : list PieceBlock :=
  match fuel with
  | O => []
  | S fuel =>
      if 0 <? rest then
        let length := if rest <? BlockSize then rest else BlockSize in
        mkPieceBlock index offset length :: blocks_loop fuel index (u32 (offset + length)) (u32 (rest - length))
      else []
  end.
Definition Blocks (fp : FilePiece) : list PieceBlock :=
  blocks_loop (S (Z.to_nat (fp_Length fp / BlockSize))) (fp_Index fp) (fp_Offset fp) (fp_Length fp).

(** ** Merging *)

(** [FilePieces.Less]. *)
Definition fp_Less (a b : FilePiece) : bool :=
  (fp_Index a <? fp_Index b) || ((fp_Index a =? fp_Index b) && (fp_Offset a <? fp_Offset b)).

(** The loop of [merge] with the open range ([index], [offset], [length]), and the [append]
    behind it (its guard always holds). *)
Fixpoint merge_loop (index offset length : Z) (fpset : FilePieces) (results : FilePieces) : FilePieces :=
  match fpset with
  | [] => results ++ [mkFilePiece index offset length]
  | fp :: fpset =>
      if u32 (offset + length) =? fp_Offset fp
      then merge_loop index offset (u32 (length + fp_Length fp)) fpset results
      else merge_loop index (fp_Offset fp) (fp_Length fp) fpset
             (results ++ [mkFilePiece index offset length])
  end.
Definition merge (fpset results : FilePieces) : FilePieces :=
  match fpset with
  | [] => results
  | [fp] => results ++ [fp]
  | fp :: rest => merge_loop (fp_Index fp) (fp_Offset fp) (fp_Length fp) rest results
  end.

(** The loop of [Merge]: [cur] is [fps[lastpos:i]]. *)
Fixpoint Merge_loop (curindex : Z) (cur : FilePieces) (fps results : FilePieces) : FilePieces :=
  match fps with
  | [] => merge cur results
  | fp :: fps =>
      if negb (fp_Index fp =? curindex)
      then Merge_loop (fp_Index fp) [fp] fps (merge cur results)
      else Merge_loop curindex (cur ++ [fp]) fps results
  end.

Definition Merge (sort_Sort : FilePieces -> FilePieces) (fps : FilePieces) : FilePieces :=
  if (length fps <? 2)%nat then fps
  else
    match sort_Sort fps with
    | [] => []
    | (fp :: _) as sorted => Merge_loop (fp_Index fp) [] sorted []
    end.

(** ** Piece hashes *)

Record Piece : Type := mkPiece { p_info : Info; p_index : Z }.
Definition Info_Piece (info : Info) (index : Z) : res Piece :=
  if CountPieces info <=? index then Panic else Ok (mkPiece info index).
Definition Piece_Offset (p : Piece) : Z := i64 (p_index p * i_PieceLength (p_info p)).
Definition Piece_Hash (p : Piece) : res Hash :=
  if p_index p <? 0 then Panic
  else match i_Pieces (p_info p) !! Z.to_nat (p_index p) with Some h => Ok h | None => Panic end.
Definition Piece_Length (p : Piece) : Z :=
  if p_index p =? CountPieces (p_info p) - 1
  then i64 (TotalLength (p_info p) - i64 (p_index p * i_PieceLength (p_info p)))
  else i_PieceLength (p_info p).

Record reader : Type := mkReader { rd_data : bytes; rd_end : error }.

(** [helper.CopyNBuffer] into memory: the bytes copied, the reader behind them, the error. *)
Definition CopyNBuffer (src : reader) (n : Z) : bytes * reader * option error :=
  let avail := Z.of_nat (length (rd_data src)) in
  if n <=? avail then
    (take (Z.to_nat n) (rd_data src), mkReader (drop (Z.to_nat n) (rd_data src)) (rd_end src), None)
  else (rd_data src, mkReader [] (rd_end src), Some (rd_end src)).

Fixpoint generate_loop (fuel : nat) (r : reader) (pieceLength : Z) (hs : Hashes) : res Hashes :=
  match fuel with
  | O => Panic
  | S fuel =>
      let '(written, r, err) := CopyNBuffer r pieceLength in
      let! hs := (if (0 <? length written)%nat
                  then let! h := NewHash (Sha1.Sum written) in Ok (hs ++ [h]) else Ok hs) in
      match err with
      | Some EOF => Ok hs
      | Some e => Err e
      | None => generate_loop fuel r pieceLength hs
      end
  end.
(** [make([]byte, n)] panics for a negative [n], and the copy for an empty buffer. *)
Definition GeneratePieces (r : reader) (pieceLength : Z) : res Hashes :=
  if pieceLength <=? 0 then Panic
  else generate_loop (S (length (rd_data r))) r pieceLength [].

(** What [writeFiles] writes, and its error. *)
Fixpoint writeFiles (open : File -> error + reader) (files : list File) : bytes * option error :=
  match files with
  | [] => ([], None)
  | file :: files =>
      match open file with
      | inl err => ([], Some (Errorf "error opening"))
      | inr r =>
          let '(written, _, _) := CopyNBuffer r (f_Length file) in
          if negb (Z.of_nat (length written) =? f_Length file)
          then (written, Some (Errorf "error copying"))
          else let '(rest, err) := writeFiles open files in (written ++ rest, err)
      end
  end.

Definition GeneratePiecesFromFiles (open : File -> error + reader) (files : list File) (pieceLength : Z)
    : res Hashes :=
  if pieceLength <=? 0 then Err (Errorf "piece length must be a positive integer")
  else
    let '(data, err) := writeFiles open files in
    GeneratePieces (mkReader data (match err with Some e => e | None => EOF end)) pieceLength.

Example generate_ex :
  res_map (@length Hash) (GeneratePieces (mkReader (replicate 25 x01) EOF) 10) = Ok 3%nat.
Proof. vm_compute. reflexivity. Qed.
