(* ===== verification/InfoThms.v ===== *)
(** * Theorems about the files and pieces of a torrent *)

From S2P Require Import Prelude GoBytes GoNet GoCrypto Bencode Codec Hash Info.

(** ** Offsets *)

Definition sum_len (fs : list File) : Z := foldr (fun f a => f_Length f + a) 0 fs.

(** The total length fits an [int64], and no length is negative. *)
Definition info_wf (info : Info) : Prop :=
  Forall (fun f => 0 <= f_Length f) (AllFiles info) /\ sum_len (AllFiles info) < 2 ^ 63.

Lemma sum_len_cons f fs : sum_len (f :: fs) = f_Length f + sum_len fs.
Proof. done. Qed.

Lemma sum_len_app fs gs : sum_len (fs ++ gs) = sum_len fs + sum_len gs.
Proof. induction fs as [|f fs IH]; simpl; [done|]. rewrite IH. lia. Qed.

Lemma sum_len_nonneg fs : Forall (fun f => 0 <= f_Length f) fs -> 0 <= sum_len fs.
Proof. induction 1; simpl; lia. Qed.

Lemma sum_fold fs a :
  Forall (fun f => 0 <= f_Length f) fs -> 0 <= a -> a + sum_len fs < 2 ^ 63 ->
  foldl (fun ret fi => i64 (ret + f_Length fi)) a fs = a + sum_len fs.
Proof.
  intros H. revert a. induction H as [|f fs Hf Hfs IH]; intros a Ha Hs; simpl in *; [lia|].
  pose proof (sum_len_nonneg _ Hfs).
  rewrite i64_id by (unfold is_i64; lia). rewrite IH; lia.
Qed.

Lemma TotalLength_sum info : info_wf info -> TotalLength info = sum_len (AllFiles info).
Proof.
  intros [Hn Hs]. unfold TotalLength, AllFiles in *. destruct (IsDir info); simpl in *; [|lia].
  by rewrite sum_fold.
Qed.

(** Where the loop of [GetFileByOffset] stops. *)
Lemma getFile_loop_spec fs file off :
  Forall (fun f => 0 <= f_Length f) fs -> fs <> [] -> 0 <= off < 2 ^ 63 ->
  (off <= sum_len fs -> exists i f k, getFile_loop fs file off = inl (f, k) /\
     fs !! i = Some f /\ sum_len (take i fs) + k = off /\ 0 <= k <= f_Length f /\
     (k = f_Length f -> off = sum_len fs)) /\
  (sum_len fs < off -> exists f, last fs = Some f /\ getFile_loop fs file off = inr (f, off - sum_len fs)).
Proof.
  intros H. revert file off. induction H as [|f fs Hf Hfs IH]; intros file off Hne Hoff; [done|].
  cbn [getFile_loop]. pose proof (sum_len_nonneg _ Hfs) as Hpos. rewrite sum_len_cons.
  destruct (Z.ltb_spec off (f_Length f)) as [Hlt|Hge].
  { split; [|lia]. intros _. exists 0%nat, f, off. simpl. repeat split; lia. }
  destruct fs as [|g fs].
  - rewrite andb_true_r. simpl. destruct (Z.eqb_spec off (f_Length f)) as [->|].
    + split; [|lia]. intros _. exists 0%nat, f, (f_Length f). simpl. repeat split; lia.
    + split; [simpl; lia|]. intros _. exists f. split; [done|].
      rewrite i64_id by (unfold is_i64; lia). do 2 f_equal. lia.
  - rewrite andb_false_r. rewrite i64_id by (unfold is_i64; lia).
    destruct (IH f (off - f_Length f) ltac:(done) ltac:(lia)) as [I1 I2]. split.
    + intros Hle. destruct I1 as (i & f' & k & E & Hi & Hs & Hk & Hend); [lia|].
      exists (S i), f', k. split; [exact E|]. split; [exact Hi|].
      rewrite firstn_cons, sum_len_cons. split; [lia|]. split; [done|]. intros Hk'. apply Hend in Hk'. lia.
    + intros Hgt. destruct I2 as (f' & Hl & E); [lia|]. exists f'. split; [done|].
      rewrite E. do 2 f_equal. lia.
Qed.

(** [GetFileByOffset] finds the file that holds a byte of the torrent: for every offset
    up to the total length it returns a file of the torrent and the offset inside it, so
    that the lengths of the files before it and the offset add up to the argument; the
    offset is the length of the file only at the very end.  Behind the end, a directory
    torrent panics only when the excess is larger than the last file; otherwise the excess
    itself is returned as an offset in the last file. *)
Theorem get_file_by_offset info offset :
  info_wf info -> IsDir info = true -> 0 <= offset < 2 ^ 63 ->
  (offset <= TotalLength info -> exists i f k, GetFileByOffset info offset = Ok (f, k) /\
     i_Files info !! i = Some f /\ sum_len (take i (i_Files info)) + k = offset /\
     0 <= k <= f_Length f /\ (k = f_Length f -> offset = TotalLength info)) /\
  (TotalLength info < offset -> exists f, last (i_Files info) = Some f /\
     GetFileByOffset info offset =
       if f_Length f <? offset - TotalLength info then Panic else Ok (f, offset - TotalLength info)).
Proof.
  intros W D Ho. rewrite (TotalLength_sum _ W). destruct W as [Hn Hs].
  unfold AllFiles in *. rewrite D in *. unfold GetFileByOffset. rewrite D. cbn [negb].
  assert (i_Files info <> []) as Hne.
  { intros E. unfold IsDir in D. by rewrite E in D. }
  destruct (getFile_loop_spec (i_Files info) (mkFile 0 []) offset Hn Hne Ho) as [G1 G2]. split.
  - intros Hle. destruct (G1 Hle) as (i & f & k & -> & R). by exists i, f, k.
  - intros Hgt. destruct (G2 Hgt) as (f & Hl & ->). by exists f.
Qed.

Definition demoInfo : Info :=
  mkInfo (B "d") 16 [] 0 [mkFile 10 [B "a"]; mkFile 0 [B "b"]; mkFile 30 [B "c"]].

Lemma demoInfo_wf : info_wf demoInfo.
Proof. split; [repeat constructor; simpl; lia|vm_compute; done]. Qed.

Lemma get_file_by_offset_witness :
  (exists i f k, GetFileByOffset demoInfo 25 = Ok (f, k) /\
     i_Files demoInfo !! i = Some f /\ sum_len (take i (i_Files demoInfo)) + k = 25 /\
     0 <= k <= f_Length f /\ (k = f_Length f -> 25 = TotalLength demoInfo)) /\
  (exists f, last (i_Files demoInfo) = Some f /\
     GetFileByOffset demoInfo 50 =
       if f_Length f <? 50 - TotalLength demoInfo then Panic else Ok (f, 50 - TotalLength demoInfo)).
Proof.
  split.
  - apply (get_file_by_offset demoInfo 25 demoInfo_wf); [reflexivity|lia|vm_compute; congruence].
  - apply (get_file_by_offset demoInfo 50 demoInfo_wf); [reflexivity|lia|vm_compute; congruence].
Defined.

(** ** The pieces of a file *)

(** No earlier file has the path of file [i]. *)
Definition first_with_path (info : Info) (i : nat) (f : File) : Prop :=
  forall j g, (j < i)%nat -> AllFiles info !! j = Some g -> File_Path g info <> File_Path f info.

Lemma offset_loop_spec info path fs i f a :
  Forall (fun f => 0 <= f_Length f) fs -> 0 <= a -> a + sum_len fs < 2 ^ 63 ->
  fs !! i = Some f -> File_Path f info = path ->
  (forall j g, (j < i)%nat -> fs !! j = Some g -> File_Path g info <> path) ->
  offset_loop path info a fs = Ok (a + sum_len (take i fs)).
Proof.
  intros H. revert i a. induction H as [|g fs Hg Hfs IH]; intros i a Ha Hs Hi Hp Hj; [done|].
  cbn [offset_loop]. rewrite sum_len_cons in Hs. pose proof (sum_len_nonneg _ Hfs).
  destruct i as [|i]; simpl in Hi.
  - injection Hi as ->. rewrite bool_decide_eq_true_2 by done. simpl. f_equal. lia.
  - rewrite bool_decide_eq_false_2; [|intros E; by apply (Hj 0%nat g); [lia|done|]].
    rewrite i64_id by (unfold is_i64; lia).
    rewrite (IH i) by (done || lia || (intros j g' Hlt E; apply (Hj (S j) g'); [lia|done])).
    rewrite firstn_cons, sum_len_cons. f_equal. lia.
Qed.

Lemma File_Offset_spec info i f :
  info_wf info -> AllFiles info !! i = Some f -> first_with_path info i f ->
  File_Offset f info = Ok (sum_len (take i (AllFiles info))).
Proof.
  intros [Hn Hs] Hi Hf. unfold File_Offset.
  by rewrite (offset_loop_spec info (File_Path f info) (AllFiles info) i f 0) by (done || lia).
Qed.

Lemma sum_take info i f :
  info_wf info -> AllFiles info !! i = Some f ->
  0 <= sum_len (take i (AllFiles info)) /\
  sum_len (take i (AllFiles info)) + f_Length f <= TotalLength info.
Proof.
  intros W Hi. rewrite (TotalLength_sum _ W). destruct W as [Hn _].
  rewrite <- (take_drop_middle _ _ _ Hi) at 3. rewrite sum_len_app, sum_len_cons.
  pose proof (sum_len_nonneg (take i (AllFiles info)) (Forall_take _ _ _ Hn)).
  pose proof (sum_len_nonneg (drop (S i) (AllFiles info)) (Forall_drop _ _ _ Hn)). lia.
Qed.

(** The ranges [fps] follow each other from [start] to [stop], each inside its piece. *)
Fixpoint covers (pl start : Z) (fps : FilePieces) (stop : Z) : Prop :=
  match fps with
  | [] => start = stop
  | fp :: fps =>
      fp_Index fp * pl + fp_Offset fp = start /\ 0 <= fp_Length fp /\
      0 <= fp_Offset fp /\ fp_Offset fp + fp_Length fp <= pl /\
      covers pl (start + fp_Length fp) fps stop
  end.

Lemma covers_app pl a fps b gps c : covers pl a fps b -> covers pl b gps c -> covers pl a (fps ++ gps) c.
Proof.
  revert a. induction fps as [|fp fps IH]; intros a; simpl; [by intros ->|].
  intros (? & ? & ? & ? & ?) ?. repeat split; auto.
Qed.

Lemma covers_middle info n a :
  0 < i_PieceLength info < 2 ^ 32 -> 0 <= a -> a + Z.of_nat n <= 2 ^ 32 ->
  covers (i_PieceLength info) (a * i_PieceLength info)
    (map (fun i => mkFilePiece (u32 i) 0 (u32 (i_PieceLength info))) (seqZ a (Z.of_nat n)))
    ((a + Z.of_nat n) * i_PieceLength info).
Proof.
  intros Hp. rewrite (u32_id (i_PieceLength info)) by (unfold is_u32; lia).
  revert a. induction n as [|n IH]; intros a Ha Hn.
  - simpl. lia.
  - rewrite seqZ_cons by lia. cbn [map covers fp_Index fp_Offset fp_Length].
    rewrite (u32_id a) by (unfold is_u32; lia). repeat split; try lia.
    replace (Z.pred (Z.of_nat (S n))) with (Z.of_nat n) by lia.
    replace (a * i_PieceLength info + i_PieceLength info)
      with (Z.succ a * i_PieceLength info) by lia.
    replace (a + Z.of_nat (S n)) with (Z.succ a + Z.of_nat n) by lia. apply IH; lia.
Qed.

Lemma quot_rem_facts a b pl :
  0 < pl -> 0 <= a < b -> b / pl < 2 ^ 32 ->
  Z.quot a pl = a / pl /\ Z.rem a pl = a mod pl /\ Z.quot b pl = b / pl /\ Z.rem b pl = b mod pl /\
  a = a / pl * pl + a mod pl /\ b = b / pl * pl + b mod pl /\
  0 <= a mod pl < pl /\ 0 <= b mod pl < pl /\ 0 <= a / pl <= b / pl /\ a / pl < 2 ^ 32.
Proof.
  intros Hp Ha Hb. rewrite !Z.quot_div_nonneg, !Z.rem_mod_nonneg by lia.
  pose proof (Z.div_mod a pl). pose proof (Z.div_mod b pl).
  pose proof (Z.mod_pos_bound a pl Hp). pose proof (Z.mod_pos_bound b pl Hp).
  assert (0 <= a / pl) by (apply Z.div_pos; lia).
  assert (a / pl <= b / pl) by (apply Z.div_le_mono; lia). repeat split; lia.
Qed.

(** The pieces of a file cover exactly the file: they start at the file's offset in the
    torrent, follow each other without gap or overlap, lie inside their piece, and end at
    the end of the file.  When the file ends on a piece boundary the last of them is
    empty, and only then. *)
Theorem file_pieces_cover info i f :
  info_wf info -> 0 < i_PieceLength info < 2 ^ 32 -> TotalLength info / i_PieceLength info < 2 ^ 32 ->
  AllFiles info !! i = Some f -> first_with_path info i f -> 1 <= f_Length f ->
  exists fps start, File_Offset f info = Ok start /\ File_FilePieces f info = Ok fps /\
    covers (i_PieceLength info) start fps (start + f_Length f) /\
    exists fp, last fps = Some fp /\
      (fp_Length fp = 0 <-> (start + f_Length f) mod i_PieceLength info = 0).
Proof.
  intros W Hp Ht Hi Hf Hl. pose proof (sum_take _ _ _ W Hi) as [Hs0 Hs1].
  unfold File_FilePieces. rewrite (File_Offset_spec _ _ _ W Hi Hf).
  assert (TotalLength info < 2 ^ 63) as Hmax by (rewrite (TotalLength_sum _ W); apply W).
  set (a := sum_len (take i (AllFiles info))) in *. set (pl := i_PieceLength info) in *.
  destruct (Z.ltb_spec (f_Length f) 1); [lia|]. cbn [res_bind].
  destruct (Z.eqb_spec pl 0); [lia|].
  rewrite i64_id by (unfold is_i64; lia).
  assert (Hdiv : (a + f_Length f) / pl < 2 ^ 32).
  { eapply Z.le_lt_trans; [|exact Ht]. apply Z.div_le_mono; lia. }
  destruct (quot_rem_facts a (a + f_Length f) pl ltac:(lia) ltac:(lia) Hdiv)
    as (-> & -> & -> & -> & Ea & Eb & Ra & Rb & Hle & Hlt).
  set (b := a + f_Length f) in *.
  destruct (Z.eqb_spec (a / pl) (b / pl)) as [E|NE].
  - rewrite E in Ea |- *. eexists _, a. split; [done|]. split; [done|].
    cbn [covers fp_Index fp_Offset fp_Length].
    rewrite !u32_id by (unfold is_u32; lia). split; [repeat split; lia|].
    eexists. split; [done|]. cbn [fp_Length]. fold b. split; lia.
  - destruct (Z.ltb_spec (b / pl - a / pl + 1) 0); [lia|].
    eexists _, a. split; [done|]. split; [done|]. split.
    + cbn [covers fp_Index fp_Offset fp_Length]. rewrite !(u32_id (a / pl)), !(u32_id (a mod pl)),
        !(u32_id (pl - a mod pl)) by (unfold is_u32; lia).
      repeat split; try lia. apply (covers_app _ _ _ (b / pl * pl)).
      * unfold middle. fold pl.
        replace (b / pl - a / pl - 1) with (Z.of_nat (Z.to_nat (b / pl - a / pl - 1))) by lia.
        pose proof (covers_middle info (Z.to_nat (b / pl - a / pl - 1)) (a / pl + 1) Hp ltac:(lia) ltac:(lia)) as C.
        fold pl in C. replace (a / pl + 1 + Z.of_nat (Z.to_nat (b / pl - a / pl - 1))) with (b / pl) in C by lia.
        replace (a + (pl - a mod pl)) with ((a / pl + 1) * pl) by lia. exact C.
      * cbn [covers fp_Index fp_Offset fp_Length]. rewrite !u32_id by (unfold is_u32; lia).
        repeat split; lia.
    + exists (mkFilePiece (u32 (b / pl)) 0 (u32 (b mod pl))). split.
      * rewrite app_comm_cons. apply last_snoc.
      * cbn [fp_Length]. rewrite u32_id by (unfold is_u32; lia). done.
Qed.

Lemma file_pieces_cover_witness :
  exists fps start, File_Offset (mkFile 30 [B "c"]) demoInfo = Ok start /\
    File_FilePieces (mkFile 30 [B "c"]) demoInfo = Ok fps /\
    covers 16 start fps (start + 30) /\
    exists fp, last fps = Some fp /\ (fp_Length fp = 0 <-> (start + 30) mod 16 = 0).
Proof.
  apply (file_pieces_cover demoInfo 2 (mkFile 30 [B "c"]) demoInfo_wf).
  - split; reflexivity.
  - reflexivity.
  - reflexivity.
  - intros j g Hj Hg. destruct j as [|[|j]]; [..|lia];
      vm_compute in Hg; injection Hg as <-; vm_compute; congruence.
  - simpl. lia.
Defined.

(** ** Blocks *)

(** The blocks follow each other from [start] to [stop] in piece [index]; each has at most
    16 KiB and all but the last exactly that. *)
Fixpoint tiles (index start : Z) (bs : list PieceBlock) (stop : Z) : Prop :=
  match bs with
  | [] => start = stop
  | b :: bs =>
      pb_Index b = index /\ pb_Offset b = start /\ 1 <= pb_Length b <= BlockSize /\
      (bs <> [] -> pb_Length b = BlockSize) /\ tiles index (start + pb_Length b) bs stop
  end.

Lemma blocks_loop_tiles fuel index offset rest :
  0 <= offset -> 0 <= rest -> offset + rest < 2 ^ 32 -> rest / BlockSize < Z.of_nat fuel ->
  tiles index offset (blocks_loop fuel index offset rest) (offset + rest).
Proof.
  revert offset rest. induction fuel as [|fuel IH]; intros offset rest Ho Hr Hs Hf.
  - assert (0 <= rest / BlockSize) by (apply Z.div_pos; [lia|done]). lia.
  - cbn [blocks_loop]. destruct (Z.ltb_spec 0 rest); [|simpl; lia].
    assert (BlockSize = 16384) as EB by done.
    destruct (Z.ltb_spec rest BlockSize) as [Hlt|Hge].
    + rewrite Z.sub_diag. cbn [tiles pb_Index pb_Offset pb_Length].
      assert (blocks_loop fuel index (u32 (offset + rest)) (u32 0) = []) as -> by (by destruct fuel).
      repeat split; try lia. done.
    + cbn [tiles pb_Index pb_Offset pb_Length]. repeat split; try lia.
      rewrite !u32_id by (unfold is_u32; lia).
      replace (offset + rest) with (offset + BlockSize + (rest - BlockSize)) by lia.
      apply IH; try lia. replace (rest - BlockSize) with (rest + (-1) * BlockSize) by lia.
      rewrite Z.div_add by lia. lia.
Qed.

(** The blocks of a piece range tile it: they follow each other from its offset to its
    end without gap or overlap, none is empty, none is longer than 16 KiB, and all but
    the last have exactly 16 KiB. *)
Theorem blocks_tile fp :
  is_u32 (fp_Offset fp) -> is_u32 (fp_Length fp) -> fp_Offset fp + fp_Length fp < 2 ^ 32 ->
  tiles (fp_Index fp) (fp_Offset fp) (Blocks fp) (fp_Offset fp + fp_Length fp).
Proof.
  intros [? _] [? _] ?. apply blocks_loop_tiles; try done.
  assert (0 <= fp_Length fp / BlockSize) by (apply Z.div_pos; [lia|done]). lia.
Qed.

(** They are in the order that [PieceBlocks] are sorted in. *)
Lemma tiles_sorted index start bs stop :
  tiles index start bs stop -> StronglySorted (fun a b => pb_Less a b = true) bs.
Proof.
  intros H. enough (StronglySorted (fun a b => pb_Less a b = true) bs /\
    Forall (fun b => pb_Index b = index /\ start <= pb_Offset b) bs) as [? _] by done.
  revert start H. induction bs as [|b bs IH]; intros start; cbn [tiles]; [by repeat constructor|].
  intros (Hi & Ho & Hl & _ & H). destruct (IH _ H) as [Hs Hf]. split.
  - constructor; [done|]. eapply Forall_impl; [exact Hf|]. intros c [Hc1 Hc2]. unfold pb_Less.
    rewrite Hi, Hc1, Z.ltb_irrefl, Z.eqb_refl. by replace (pb_Offset b <? pb_Offset c) with true by lia.
  - constructor; [split; [done|lia]|]. eapply Forall_impl; [exact Hf|]. intros c [? ?]. split; [done|lia].
Qed.
Lemma blocks_sorted fp :
  is_u32 (fp_Offset fp) -> is_u32 (fp_Length fp) -> fp_Offset fp + fp_Length fp < 2 ^ 32 ->
  StronglySorted (fun a b => pb_Less a b = true) (Blocks fp).
Proof. intros. eapply tiles_sorted. by apply blocks_tile. Qed.

Lemma blocks_tile_witness : tiles 3 100 (Blocks (mkFilePiece 3 100 40000)) 40100.
Proof. apply (blocks_tile (mkFilePiece 3 100 40000)); done. Defined.

(** ** Merging *)

(** How many of the ranges hold byte [o] of piece [i]. *)
Definition hits (i o : Z) (fp : FilePiece) : nat :=
  if (fp_Index fp =? i) && (fp_Offset fp <=? o) && (o <? fp_Offset fp + fp_Length fp) then 1 else 0.
Definition count (i o : Z) (fps : FilePieces) : nat := foldr (fun fp n => (hits i o fp + n)%nat) 0%nat fps.

Definition fp_ok (fp : FilePiece) : Prop :=
  0 <= fp_Offset fp /\ 0 <= fp_Length fp /\ fp_Offset fp + fp_Length fp < 2 ^ 32.

(** The order of [sort.Sort] with [Less]. *)
Definition fp_le (a b : FilePiece) : Prop := fp_Less b a = false.

(** Two neighbours of a merged list: in order, and not touching. *)
Definition separate (a b : FilePiece) : Prop :=
  fp_Index a < fp_Index b \/
  (fp_Index a = fp_Index b /\ fp_Offset a <= fp_Offset b /\ fp_Offset a + fp_Length a <> fp_Offset b).

Lemma fp_le_spec a b :
  fp_le a b <-> fp_Index a < fp_Index b \/ (fp_Index a = fp_Index b /\ fp_Offset a <= fp_Offset b).
Proof. unfold fp_le, fp_Less. lia. Qed.

Lemma count_app i o xs ys : count i o (xs ++ ys) = (count i o xs + count i o ys)%nat.
Proof. induction xs as [|x xs IH]; simpl; [done|]. rewrite IH. lia. Qed.
Lemma count_perm i o xs ys : xs ≡ₚ ys -> count i o xs = count i o ys.
Proof. induction 1; simpl; lia. Qed.

(** Two touching ranges hold what their union holds. *)
Lemma hits_join i o index offset l1 l2 :
  0 <= l1 -> 0 <= l2 ->
  hits i o (mkFilePiece index offset (l1 + l2)) =
  (hits i o (mkFilePiece index offset l1) + hits i o (mkFilePiece index (offset + l1) l2))%nat.
Proof. intros. unfold hits. simpl. split_if; lia. Qed.

Definition group (index : Z) (fps : FilePieces) : Prop :=
  Forall (fun fp => fp_ok fp /\ fp_Index fp = index) fps.

Lemma group_one fp : fp_ok fp -> group (fp_Index fp) [fp].
Proof. intros H. constructor; [done|constructor]. Qed.

Lemma merge_loop_count i o index offset length fpset results :
  fp_ok (mkFilePiece index offset length) -> group index fpset ->
  count i o (merge_loop index offset length fpset results) =
  (count i o results + hits i o (mkFilePiece index offset length) + count i o fpset)%nat.
Proof.
  intros Hok G. revert offset length results Hok.
  induction G as [|[x off l] fpset [Hx E] G IH]; intros offset length results Hok; cbn [merge_loop].
  - rewrite count_app. simpl. lia.
  - simpl in E. subst x. destruct Hok as (H1 & H2 & H3), Hx as (H4 & H5 & H6). simpl in *.
    rewrite u32_id by (unfold is_u32; lia).
    destruct (Z.eqb_spec (offset + length) off) as [<-|].
    + rewrite u32_id by (unfold is_u32; lia). rewrite IH by (repeat split; simpl; lia).
      rewrite hits_join by lia. lia.
    + rewrite IH by (repeat split; simpl; lia). rewrite count_app. simpl. lia.
Qed.

Lemma merge_count i o index fpset results :
  group index fpset ->
  count i o (merge fpset results) = (count i o results + count i o fpset)%nat.
Proof.
  intros G. destruct G as [|[x off l] [|fp fpset] [Hx E] G]; simpl in *.
  - lia.
  - rewrite count_app. simpl. lia.
  - subst x. pose proof (merge_loop_count i o index off l (fp :: fpset) results Hx G) as C.
    cbn [merge_loop] in C. rewrite C. simpl. lia.
Qed.

Lemma Merge_loop_count i o curindex cur fps results :
  group curindex cur -> Forall fp_ok fps ->
  count i o (Merge_loop curindex cur fps results) =
  (count i o results + count i o cur + count i o fps)%nat.
Proof.
  intros G H. revert curindex cur results G.
  induction H as [|fp fps Hf H IH]; intros curindex cur results G; cbn [Merge_loop].
  - rewrite (merge_count _ _ curindex) by done. simpl. lia.
  - destruct (Z.eqb_spec (fp_Index fp) curindex) as [E|]; cbn [negb].
    + rewrite IH; [rewrite count_app; simpl; lia|].
      apply Forall_app. split; [done|]. subst. by apply group_one.
    + rewrite IH by (by apply group_one). rewrite (merge_count _ _ curindex) by done. simpl. lia.
Qed.

(** *** The order of a merged list *)

Lemma Sorted_app_last R (l : FilePieces) a b :
  Sorted R (l ++ [a]) -> R a b -> Sorted R (l ++ [a; b]).
Proof.
  induction l as [|x l IH]; simpl; intros S HR.
  - repeat constructor. done.
  - inversion S as [|? ? S1 H1]; subst. constructor; [by apply IH|].
    destruct l; simpl in *; inversion H1; by constructor.
Qed.

(** Only the place of the last range matters for what comes before it. *)
Lemma Sorted_separate_last l index offset n m :
  Sorted separate (l ++ [mkFilePiece index offset n]) -> Sorted separate (l ++ [mkFilePiece index offset m]).
Proof.
  induction l as [|x l IH]; simpl; intros S; [repeat constructor|].
  inversion S as [|? ? S1 H1]; subst. constructor; [by apply IH|].
  destruct l; simpl in *; inversion H1; subst; by constructor.
Qed.

Lemma merge_loop_separate index offset length fpset results :
  fp_ok (mkFilePiece index offset length) -> group index fpset ->
  Sorted fp_le (mkFilePiece index offset length :: fpset) ->
  Sorted separate (results ++ [mkFilePiece index offset length]) ->
  exists l n o, merge_loop index offset length fpset results = l ++ [mkFilePiece index o n] /\
    Sorted separate (l ++ [mkFilePiece index o n]).
Proof.
  intros Hok G. revert offset length results Hok.
  induction G as [|[x off l] fpset [Hx E] G IH]; intros offset length results Hok S1 S2; cbn [merge_loop].
  - by exists results, length, offset.
  - simpl in E. subst x. destruct Hok as (H1 & H2 & H3), Hx as (H4 & H5 & H6). simpl in *.
    inversion S1 as [|? ? S1' L1]; subst. inversion L1 as [|? ? L]; subst.
    apply fp_le_spec in L. simpl in L.
    rewrite u32_id by (unfold is_u32; lia).
    destruct (Z.eqb_spec (offset + length) off) as [<-|Hne].
    + rewrite u32_id by (unfold is_u32; lia). apply IH.
      * repeat split; simpl; lia.
      * inversion S1' as [|? ? S3 L3]; subst. constructor; [done|].
        destruct L3 as [|y ys L3]; constructor. rewrite fp_le_spec in *. simpl in *. lia.
      * by eapply Sorted_separate_last.
    + apply IH; [repeat split; simpl; lia|done|].
      rewrite <- app_assoc. apply Sorted_app_last; [done|]. right. simpl. lia.
Qed.

Lemma merge_separate fp cur results :
  group (fp_Index fp) (fp :: cur) -> Sorted fp_le (fp :: cur) -> Sorted separate (results ++ [fp]) ->
  exists l last, merge (fp :: cur) results = l ++ [last] /\ fp_Index last = fp_Index fp /\
    Sorted separate (l ++ [last]).
Proof.
  intros G S1 S2. destruct cur as [|fp' cur]; [by exists results, fp|].
  apply Forall_cons in G as [[Hok _] G]. destruct fp as [index offset length]. simpl in *.
  destruct (merge_loop_separate index offset length (fp' :: cur) results Hok G S1 S2)
    as (l & n & o & E & S). exists l, (mkFilePiece index o n). by split.
Qed.

#[export] Instance fp_le_trans : Transitive fp_le.
Proof. intros a b c. rewrite !fp_le_spec. lia. Qed.
#[export] Instance fp_le_total : Total fp_le.
Proof. intros a b. rewrite !fp_le_spec. lia. Qed.
#[export] Instance fp_le_dec : RelDecision fp_le.
Proof. intros a b. unfold fp_le. apply _. Defined.

Lemma Merge_loop_separate fp cur fps results :
  group (fp_Index fp) (fp :: cur) -> Forall fp_ok fps -> StronglySorted fp_le ((fp :: cur) ++ fps) ->
  Sorted separate (results ++ [fp]) ->
  Sorted separate (Merge_loop (fp_Index fp) (fp :: cur) fps results).
Proof.
  intros G H. revert fp cur results G.
  induction H as [|x fps Hx H IH]; intros fp cur results G S1 S2; cbn [Merge_loop].
  all: assert (Sorted fp_le (fp :: cur)) as S1' by (by eapply StronglySorted_Sorted, StronglySorted_app_1_l).
  all: destruct (merge_separate fp cur results G S1' S2) as (l & la & Em & El & S).
  - by rewrite Em.
  - destruct (Z.eqb_spec (fp_Index x) (fp_Index fp)) as [E|NE]; cbn [negb].
    + change ((fp :: cur) ++ [x]) with (fp :: (cur ++ [x])). apply IH; [| |done].
      * rewrite app_comm_cons. apply Forall_app. split; [done|]. rewrite <- E. by apply group_one.
      * by rewrite app_comm_cons, <- app_assoc.
    + rewrite Em. apply (IH x []); [by apply group_one|by eapply StronglySorted_app_1_r|].
      rewrite <- app_assoc. apply Sorted_app_last; [done|]. left. rewrite El.
      assert (fp_le fp x) as L by (eapply StronglySorted_app_1_elem_of; [exact S1|set_solver..]).
      apply fp_le_spec in L. lia.
Qed.

(** Merging keeps exactly the bytes: for whatever order [sort.Sort] gives equal
    elements, every byte of every piece lies in as many ranges of [Merge] as of its
    argument; and the result is in order, with no two neighbours that touch. *)
Theorem merge_pieces (sort_Sort : FilePieces -> FilePieces) fps :
  (forall l, sort_Sort l ≡ₚ l) -> (forall l, Sorted fp_le (sort_Sort l)) -> Forall fp_ok fps ->
  (forall i o, count i o (Merge sort_Sort fps) = count i o fps) /\
  Sorted separate (Merge sort_Sort fps).
Proof.
  intros Hp Hs Hok. unfold Merge. destruct (Nat.ltb_spec (length fps) 2) as [Hl|Hl].
  { split; [done|]. destruct fps as [|x [|y fps]]; simpl in *; [repeat constructor..|lia]. }
  specialize (Hp fps). specialize (Hs fps). rewrite <- Hp in Hok.
  destruct (sort_Sort fps) as [|fp rest]; [apply Permutation_nil in Hp; by subst|].
  apply Forall_cons in Hok as [Hfp Hrest].
  cbn [Merge_loop]. rewrite Z.eqb_refl. cbn [negb app]. split.
  - intros i o. rewrite (Merge_loop_count i o) by (done || by apply group_one).
    rewrite <- (count_perm i o _ _ Hp). simpl. lia.
  - apply Merge_loop_separate; [by apply group_one|done| |repeat constructor].
    by apply (Sorted_StronglySorted _).
Qed.

Lemma merge_pieces_witness :
  let fps := [mkFilePiece 1 20 5; mkFilePiece 0 0 4; mkFilePiece 1 10 10] in
  (forall i o, count i o (Merge (merge_sort fp_le) fps) = count i o fps) /\
  Sorted separate (Merge (merge_sort fp_le) fps) /\
  Merge (merge_sort fp_le) fps = [mkFilePiece 0 0 4; mkFilePiece 1 10 15].
Proof.
  intros fps. destruct (merge_pieces (merge_sort fp_le) fps) as [H1 H2].
  - intros l. apply merge_sort_Permutation.
  - intros l. apply Sorted_merge_sort. apply _.
  - repeat (constructor; [by repeat split|]). constructor.
  - split; [exact H1|]. split; [exact H2|]. vm_compute. reflexivity.
Defined.

(** ** Piece hashes *)

(** The bytes of piece [i] of [data]. *)
Definition piece_bytes (data : bytes) (pl : Z) (i : nat) : bytes :=
  take (Z.to_nat pl) (drop (i * Z.to_nat pl) data).

(** The number of pieces of [n] bytes. *)
Definition num_pieces (n pl : Z) : Z := (n + pl - 1) / pl.

Definition hashes_of (data : bytes) (pl : Z) : Hashes :=
  map (fun i => Sha1.Sum (piece_bytes data pl i))
    (seq 0 (Z.to_nat (num_pieces (Z.of_nat (length data)) pl))).

Lemma num_pieces_step n pl : 0 < pl -> pl <= n -> num_pieces n pl = num_pieces (n - pl) pl + 1.
Proof.
  intros Hp Hn. unfold num_pieces.
  replace (n + pl - 1) with (n - pl + pl - 1 + 1 * pl) by lia. rewrite Z.div_add by lia. done.
Qed.

Lemma num_pieces_small n pl : 0 <= n < pl -> num_pieces n pl = if n =? 0 then 0 else 1.
Proof.
  intros Hn. unfold num_pieces. destruct (Z.eqb_spec n 0) as [->|].
  - apply Z.div_small. lia.
  - replace (n + pl - 1) with (n - 1 + 1 * pl) by lia. rewrite Z.div_add, Z.div_small by lia. done.
Qed.

Lemma NewHash_Sum m : NewHash (Sha1.Sum m) = Ok (Sha1.Sum m).
Proof.
  unfold NewHash. rewrite Sha1.length_Sum. cbn [Nat.ltb Nat.leb HashSize].
  rewrite take_ge by (by rewrite Sha1.length_Sum). rewrite copy_into_exact; [done|].
  by rewrite Sha1.length_Sum.
Qed.

Lemma hashes_of_step data pl :
  0 < pl -> pl <= Z.of_nat (length data) ->
  hashes_of data pl = Sha1.Sum (take (Z.to_nat pl) data) :: hashes_of (drop (Z.to_nat pl) data) pl.
Proof.
  intros Hp Hl. unfold hashes_of. rewrite num_pieces_step, length_drop by done.
  replace (Z.of_nat (length data - Z.to_nat pl)) with (Z.of_nat (length data) - pl) by lia.
  set (k := num_pieces (Z.of_nat (length data) - pl) pl).
  assert (0 <= k) by (apply Z.div_pos; lia).
  replace (Z.to_nat (k + 1)) with (S (Z.to_nat k)) by lia. cbn [seq map].
  f_equal. rewrite <- seq_shift, map_map. apply map_ext. intros i. unfold piece_bytes. by rewrite drop_drop.
Qed.

Lemma generate_loop_spec fuel data pl hs :
  0 < pl -> (length data < fuel)%nat ->
  generate_loop fuel (mkReader data EOF) pl hs = Ok (hs ++ hashes_of data pl).
Proof.
  intros Hp. revert data hs. induction fuel as [|fuel IH]; intros data hs Hf; [lia|].
  cbn [generate_loop]. unfold CopyNBuffer. cbn [rd_data rd_end].
  destruct (Z.leb_spec pl (Z.of_nat (length data))) as [Hle|Hgt].
  - destruct (Nat.ltb_spec 0 (length (take (Z.to_nat pl) data))) as [_|Hz];
      [|rewrite length_take in Hz; lia].
    rewrite NewHash_Sum. cbn [res_bind]. rewrite IH by (rewrite length_drop; lia).
    rewrite (hashes_of_step data) by done. by rewrite <- app_assoc.
  - unfold hashes_of. rewrite num_pieces_small by lia. destruct data as [|b data].
    + simpl. by rewrite app_nil_r.
    + rewrite NewHash_Sum. cbn [length Nat.ltb Nat.leb res_bind].
      destruct (Z.eqb_spec (Z.of_nat (S (length data))) 0); [lia|].
      change (Z.to_nat 1) with 1%nat. cbn [seq map]. unfold piece_bytes.
      rewrite Nat.mul_0_l, drop_0, take_ge by (simpl in *; lia). done.
Qed.

Lemma generate_loop_error fuel data pl hs msg :
  0 < pl -> (length data < fuel)%nat ->
  generate_loop fuel (mkReader data (Errorf msg)) pl hs = Err (Errorf msg).
Proof.
  intros Hp. revert data hs. induction fuel as [|fuel IH]; intros data hs Hf; [lia|].
  cbn [generate_loop]. unfold CopyNBuffer. cbn [rd_data rd_end].
  destruct (Z.leb_spec pl (Z.of_nat (length data))) as [Hle|Hgt]; rewrite NewHash_Sum.
  - destruct (0 <? _)%nat; cbn [res_bind]; apply IH; rewrite length_drop; lia.
  - by destruct (0 <? _)%nat.
Qed.

(** What the files hold, when each can be opened and is long enough. *)
Definition contents (open : File -> error + reader) (files : list File) (data : bytes) : Prop :=
  exists parts, data = concat parts /\
    Forall2 (fun f p => 0 <= f_Length f /\ length p = Z.to_nat (f_Length f) /\
                        exists r, open f = inr r /\ p = take (Z.to_nat (f_Length f)) (rd_data r)) files parts.

Lemma writeFiles_contents open files data :
  contents open files data <-> writeFiles open files = (data, None).
Proof.
  split.
  - intros (parts & -> & H). induction H as [|f p files parts (Hl & Hlen & r & Er & ->) _ IH]; [done|].
    cbn [writeFiles]. rewrite Er. unfold CopyNBuffer.
    rewrite length_take in Hlen. destruct (Z.leb_spec (f_Length f) (Z.of_nat (length (rd_data r)))); [|lia].
    rewrite length_take. destruct (Z.eqb_spec (Z.of_nat (Z.to_nat (f_Length f) `min` length (rd_data r))) (f_Length f)); [|lia].
    cbn [negb]. by rewrite IH.
  - revert data. induction files as [|f files IH]; intros data; cbn [writeFiles].
    + intros [= <-]. exists []. split; [done|constructor].
    + destruct (open f) as [|r] eqn:Er; [done|]. unfold CopyNBuffer.
      destruct (Z.leb_spec (f_Length f) (Z.of_nat (length (rd_data r)))) as [Hle|Hgt].
      2:{ destruct (Z.eqb_spec (Z.of_nat (length (rd_data r))) (f_Length f)); [lia|done]. }
      set (p := take (Z.to_nat (f_Length f)) (rd_data r)).
      destruct (Z.eqb_spec (Z.of_nat (length p)) (f_Length f)) as [E|]; [|done]. cbn [negb].
      destruct (writeFiles open files) as [rest [e|]]; [done|]. intros [= <-].
      destruct (IH rest eq_refl) as (parts & -> & H). exists (p :: parts).
      split; [done|]. constructor; [|done]. split; [lia|]. split; [lia|]. by exists r.
Qed.

Lemma writeFiles_error open files data e : writeFiles open files = (data, Some e) -> exists m, e = Errorf m.
Proof.
  revert data. induction files as [|f files IH]; intros data; cbn [writeFiles]; [done|].
  destruct (open f) as [|r]; [intros [= _ <-]; by eexists|].
  destruct (CopyNBuffer r (f_Length f)) as [[w r'] er].
  destruct (negb _); [intros [= _ <-]; by eexists|].
  destruct (writeFiles open files) as [rest err]. intros [= _ ->]. by eapply IH.
Qed.

Lemma GeneratePiecesFromFiles_eq open files pl :
  0 < pl ->
  GeneratePiecesFromFiles open files pl =
  match writeFiles open files with (data, None) => Ok (hashes_of data pl) | (_, Some e) => Err e end.
Proof.
  intros Hp. unfold GeneratePiecesFromFiles. destruct (Z.leb_spec pl 0); [lia|].
  destruct (writeFiles open files) as [data [e|]] eqn:E; unfold GeneratePieces;
    destruct (Z.leb_spec pl 0); try lia.
  - destruct (writeFiles_error _ _ _ _ E) as [m ->]. apply generate_loop_error; [done|simpl; lia].
  - by rewrite generate_loop_spec by (done || simpl; lia).
Qed.

Lemma contents_length open files data :
  contents open files data -> Z.of_nat (length data) = sum_len files.
Proof.
  intros (parts & -> & H). induction H as [|f p files parts (Hl & Hlen & _) _ IH]; [done|].
  cbn [concat]. rewrite length_app, sum_len_cons. lia.
Qed.

Lemma length_hashes_of data pl :
  length (hashes_of data pl) = Z.to_nat (num_pieces (Z.of_nat (length data)) pl).
Proof. unfold hashes_of. by rewrite length_map, length_seq. Qed.

Lemma hashes_of_lookup data pl i :
  0 <= i < num_pieces (Z.of_nat (length data)) pl ->
  hashes_of data pl !! Z.to_nat i = Some (Sha1.Sum (piece_bytes data pl (Z.to_nat i))).
Proof.
  intros Hi. etransitivity; [apply list_lookup_fmap|]. by rewrite lookup_seq_lt by lia.
Qed.

Lemma num_pieces_bounds n pl :
  0 < pl -> 0 <= n -> 0 <= num_pieces n pl /\ n <= num_pieces n pl * pl < n + pl.
Proof.
  intros Hp Hn. unfold num_pieces. pose proof (Z.div_mod (n + pl - 1) pl).
  pose proof (Z.mod_pos_bound (n + pl - 1) pl Hp).
  assert (0 <= (n + pl - 1) / pl) by (apply Z.div_pos; lia). lia.
Qed.

(** One piece of an [Info] whose hashes are those of [data]. *)
Lemma piece_correct info data i :
  info_wf info -> 0 < i_PieceLength info -> TotalLength info + i_PieceLength info < 2 ^ 63 ->
  Z.of_nat (length data) = TotalLength info -> i_Pieces info = hashes_of data (i_PieceLength info) ->
  CountPieces info = num_pieces (TotalLength info) (i_PieceLength info) ->
  0 <= i < CountPieces info ->
  exists p, Info_Piece info i = Ok p /\ 0 < Piece_Length p <= i_PieceLength info /\
    0 <= Piece_Offset p /\ Piece_Offset p + Piece_Length p <= Z.of_nat (length data) /\
    Piece_Hash p =
      Ok (Sha1.Sum (take (Z.to_nat (Piece_Length p)) (drop (Z.to_nat (Piece_Offset p)) data))).
Proof.
  intros W Hp Hb Hd Hh Hc Hi. exists (mkPiece info i). unfold Info_Piece.
  destruct (Z.leb_spec (CountPieces info) i); [lia|]. split; [done|].
  destruct (num_pieces_bounds (TotalLength info) (i_PieceLength info)) as (B1 & B2 & B3); [done|lia|].
  rewrite <- Hc in B1, B2, B3. set (pl := i_PieceLength info) in *. set (n := CountPieces info) in *.
  assert (i * pl <= (n - 1) * pl) by (apply Z.mul_le_mono_nonneg_r; lia).
  assert (0 <= i * pl) by (apply Z.mul_nonneg_nonneg; lia).
  unfold Piece_Length, Piece_Offset, Piece_Hash. cbn [p_info p_index]. fold n pl.
  rewrite (i64_id (i * pl)) by (unfold is_i64; lia).
  destruct (Z.ltb_spec i 0); [lia|].
  rewrite Hh, hashes_of_lookup by (rewrite Hd; fold pl; lia). unfold piece_bytes. fold pl.
  replace (Z.to_nat (i * pl)) with (Z.to_nat i * Z.to_nat pl)%nat by (rewrite Z2Nat.inj_mul; lia).
  destruct (Z.eqb_spec i (n - 1)) as [->|Hne].
  - rewrite i64_id by (unfold is_i64; lia). repeat split; try lia. do 2 f_equal.
    rewrite !take_ge; [done|rewrite length_drop; nia..].
  - assert (i * pl <= (n - 2) * pl) by (apply Z.mul_le_mono_nonneg_r; lia). repeat split; lia.
Qed.

(** [C36] The hashes in a torrent are the hashes of its pieces: when every file can be opened
    and has its length, [GeneratePiecesFromFiles] succeeds, and in an [Info] with these
    hashes there is one for each of the [ceil(total/pieceLength)] pieces, and [Piece(i)]
    names, by [Offset] and [Length], exactly the bytes that its [Hash] is the SHA-1 of.  In
    every other case it returns an error. *)
Theorem generate_pieces open info :
  info_wf info -> 0 < i_PieceLength info -> TotalLength info + i_PieceLength info < 2 ^ 63 ->
  (forall data, contents open (AllFiles info) data ->
     exists hs, GeneratePiecesFromFiles open (AllFiles info) (i_PieceLength info) = Ok hs /\
     (i_Pieces info = hs ->
      CountPieces info = num_pieces (TotalLength info) (i_PieceLength info) /\
      forall i, 0 <= i < CountPieces info ->
        exists p, Info_Piece info i = Ok p /\ 0 < Piece_Length p <= i_PieceLength info /\
          0 <= Piece_Offset p /\ Piece_Offset p + Piece_Length p <= Z.of_nat (length data) /\
          Piece_Hash p =
            Ok (Sha1.Sum (take (Z.to_nat (Piece_Length p)) (drop (Z.to_nat (Piece_Offset p)) data))))) /\
  ((forall data, ~ contents open (AllFiles info) data) ->
     exists e, GeneratePiecesFromFiles open (AllFiles info) (i_PieceLength info) = Err e).
Proof.
  intros W Hp Hb. rewrite GeneratePiecesFromFiles_eq by done. split.
  - intros data C. pose proof (contents_length _ _ _ C) as Hd.
    rewrite <- (TotalLength_sum _ W) in Hd.
    apply writeFiles_contents in C. rewrite C. eexists. split; [done|]. intros Hh.
    assert (Hc : CountPieces info = num_pieces (TotalLength info) (i_PieceLength info)).
    { destruct (num_pieces_bounds (TotalLength info) (i_PieceLength info)); [done|lia|].
      unfold CountPieces. rewrite Hh, length_hashes_of, Hd. lia. }
    split; [done|]. intros i Hi. by apply piece_correct.
  - intros Hno. destruct (writeFiles open (AllFiles info)) as [data [e|]] eqn:E; [by eexists|].
    apply writeFiles_contents in E. by destruct (Hno data).
Qed.

Definition demoOpen (f : File) : error + reader :=
  inr (mkReader (replicate (Z.to_nat (f_Length f)) x2a) EOF).

Lemma generate_pieces_witness :
  exists hs, GeneratePiecesFromFiles demoOpen (AllFiles demoInfo) 16 = Ok hs /\
    let info := mkInfo (B "d") 16 hs 0 (i_Files demoInfo) in
    CountPieces info = 3 /\
    exists p, Info_Piece info 2 = Ok p /\ 0 < Piece_Length p <= 16 /\
      0 <= Piece_Offset p /\ Piece_Offset p + Piece_Length p <= 40 /\
      Piece_Hash p =
        Ok (Sha1.Sum (take (Z.to_nat (Piece_Length p)) (drop (Z.to_nat (Piece_Offset p)) (replicate 40 x2a)))).
Proof.
  set (hs := hashes_of (replicate 40 x2a) 16).
  set (info := mkInfo (B "d") 16 hs 0 (i_Files demoInfo)).
  assert (C : contents demoOpen (AllFiles info) (replicate 40 x2a)).
  { apply writeFiles_contents. vm_compute. reflexivity. }
  destruct (generate_pieces demoOpen info) as [G _].
  - exact demoInfo_wf.
  - reflexivity.
  - vm_compute. reflexivity.
  - destruct (G _ C) as (hs' & E & K). exists hs'. split; [exact E|].
    assert (hs' = hs) as ->.
    { apply (inj Ok). rewrite <- E, GeneratePiecesFromFiles_eq by reflexivity.
      apply writeFiles_contents in C. by rewrite C. }
    destruct (K eq_refl) as [Hn Hi]. split; [exact Hn|]. apply Hi. rewrite Hn. split; [lia|reflexivity].
Defined.
