(* ===== verification/TorrentIO.v ===== *)
(** * Reading and writing the data of a torrent (metainfo/reader.go, writer.go)

    The [os] calls of the two files work on [FS], the regular files by name.  A handle is
    the name it was opened under: files are neither removed nor renamed while they are open.
    [faults] says which calls fail: a read, a write or an open can fail for any reason the
    operating system has, a read or a write after some of its bytes. *)

From S2P Require Import Prelude GoBytes GoNet GoCrypto Bencode Codec Hash Info.

(** ** Package [os] *)

Abbreviation FS := (gmap bytes bytes).

Record faults : Type := mkFaults {
  open_fault : bytes -> option error;
  mkdir_fault : bytes -> option error;
  read_fault : bytes -> Z -> Z -> option (nat * error);
  write_fault : bytes -> Z -> bytes -> option (nat * error);
}.
Definition no_faults : faults :=
  mkFaults (fun _ => None) (fun _ => None) (fun _ _ _ => None) (fun _ _ _ => None).

Section Files.
Variable F : faults.

Definition errNegativeOffset : error := Errorf "negative offset".
Definition ErrNotExist : error := Errorf "file does not exist".

Definition os_Open (fs : FS) (name : bytes) : option error :=
  match open_fault F name with
  | Some e => Some e
  | None => match fs !! name with Some _ => None | None => Some ErrNotExist end
  end.

(** [os.OpenFile(name, O_WRONLY|O_CREATE, mode)]. *)
Definition os_OpenFile (fs : FS) (name : bytes) : FS * option error :=
  match open_fault F name with
  | Some e => (fs, Some e)
  | None => (<[name := default [] (fs !! name)]> fs, None)
  end.

(** [File.ReadAt] into a buffer of [len] bytes: what was read, and the error. *)
Definition file_ReadAt (fs : FS) (name : bytes) (len off : Z) : bytes * option error :=
  if off <? 0 then ([], Some errNegativeOffset)
  else
    let got := take (Z.to_nat len) (drop (Z.to_nat off) (default [] (fs !! name))) in
    match read_fault F name len off with
    | Some (k, e) => (take k got, Some e)
    | None => (got, if Z.of_nat (length got) <? len then Some EOF else None)
    end.

(** A write behind the end fills the gap with zeros. *)
Definition write_at (c : bytes) (off : nat) (p : bytes) : bytes :=
  let c := c ++ replicate (off - length c) x00 in
  take off c ++ p ++ drop (off + length p) c.

Definition file_WriteAt (fs : FS) (name : bytes) (p : bytes) (off : Z) : FS * nat * option error :=
  if off <? 0 then (fs, O, Some errNegativeOffset)
  else
    let put q := match q with
                 | [] => fs
                 | _ => <[name := write_at (default [] (fs !! name)) (Z.to_nat off) q]> fs
                 end in
    match write_fault F name off p with
    | Some (k, e) => (put (take k p), length (take k p), Some e)
    | None => (put p, length p, None)
    end.

(** [filepath.Dir]: everything up to the last separator, cleaned. *)
Fixpoint upto_last (c : byte) (s : bytes) : bytes :=
  match s with
  | [] => []
  | b :: s => match upto_last c s with
              | [] => if bool_decide (b = c) then [b] else []
              | l => b :: l
              end
  end.
Definition filepath_Dir (path : bytes) : bytes := filepath_Clean (upto_last Separator path).

(** ** The reader *)

Record treader : Type := mkTReader { tr_info : Info; tr_root : bytes; tr_files : gset bytes }.
Definition NewReader (rootDir : bytes) (info : Info) : treader := mkTReader info rootDir ∅.
Definition reader_Info (r : treader) : Info := tr_info r.
Definition reader_Close (r : treader) : treader := mkTReader (tr_info r) (tr_root r) ∅.

Definition reader_open (fs : FS) (r : treader) (filename : bytes) : treader * option error :=
  if bool_decide (filename ∈ tr_files r) then (r, None)
  else match os_Open fs filename with
       | Some e => (r, Some e)
       | None => (mkTReader (tr_info r) (tr_root r) ({[filename]} ∪ tr_files r), None)
       end.

(** The loop of [ReadAt]: [p] are the bytes read so far; a round that does not end the loop
    reads at least one. *)
Fixpoint ReadAt_loop (fuel : nat) (fs : FS) (r : treader) (len : Z) (p : bytes) (offset : Z)
    : treader * bytes * outcome :=
  match fuel with
  | O => (r, p, NoFuel)
  | S fuel =>
      let n := Z.of_nat (length p) in
      if negb (n <? len) then (r, p, Done)
      else
        match GetFileByOffset (tr_info r) offset with
        | Panic => (r, p, Panicked)
        | Err e => (r, p, Fail e)
        | Ok (file, fileOffset) =>
            if (f_Length file =? 0) || (f_Length file =? fileOffset) then (r, p, Fail EOF)
            else
              let pend := i64 (n + i64 (f_Length file - fileOffset)) in
              let pend := if len <? pend then len else pend in
              let filename := File_PathWithPrefix file (tr_root r) (tr_info r) in
              let '(r, err) := reader_open fs r filename in
              match err with
              | Some e => (r, p, Fail e)
              | None =>
                  if pend <? n then (r, p, Panicked)
                  else
                    let '(q, err) := file_ReadAt fs filename (pend - n) fileOffset in
                    match err with
                    | Some e => (r, p ++ q, Fail e)
                    | None => ReadAt_loop fuel fs r len (p ++ q) (i64 (offset + Z.of_nat (length q)))
                    end
              end
        end
  end.

(** [ReadAt(p, offset)] with [len(p) = len]: the bytes read (their number is [n]), the error. *)
Definition ReadAt (fs : FS) (r : treader) (len offset : Z) : treader * bytes * outcome :=
  ReadAt_loop (S (Z.to_nat len)) fs r len [] offset.
Definition ReadBlock (fs : FS) (r : treader) (pieceIndex pieceOffset len : Z) : treader * bytes * outcome :=
  ReadAt fs r len (PieceOffset (tr_info r) pieceIndex pieceOffset).

(** ** The writer *)

Record twriter : Type := mkTWriter { tw_info : Info; tw_root : bytes; tw_mode : Z; tw_files : gset bytes }.
Definition NewWriter (rootDir : bytes) (info : Info) (fileMode : Z) : twriter :=
  mkTWriter info rootDir (if fileMode =? 0 then 384 else fileMode) ∅.
Definition writer_Info (w : twriter) : Info := tw_info w.
Definition writer_Close (w : twriter) : twriter := mkTWriter (tw_info w) (tw_root w) (tw_mode w) ∅.

Definition writer_open (fs : FS) (w : twriter) (filename : bytes) : FS * twriter * option error :=
  if bool_decide (filename ∈ tw_files w) then (fs, w, None)
  else match mkdir_fault F (filepath_Dir filename) with
       | Some e => (fs, w, Some e)
       | None =>
           let '(fs, err) := os_OpenFile fs filename in
           match err with
           | Some e => (fs, w, Some e)
           | None => (fs, mkTWriter (tw_info w) (tw_root w) (tw_mode w) ({[filename]} ∪ tw_files w), None)
           end
       end.

(** The loop of [WriteAt]: [p] is what is left to write, [n] what has been written. *)
Fixpoint WriteAt_loop (fuel : nat) (fs : FS) (w : twriter) (n : nat) (p : bytes) (offset : Z)
    : FS * twriter * nat * outcome :=
  match fuel with
  | O => (fs, w, n, NoFuel)
  | S fuel =>
      if (length p =? 0)%nat then (fs, w, n, Done)
      else
        match GetFileByOffset (tw_info w) offset with
        | Panic => (fs, w, n, Panicked)
        | Err e => (fs, w, n, Fail e)
        | Ok (file, fileOffset) =>
            if (f_Length file =? 0) || (f_Length file =? fileOffset) then (fs, w, n, Fail ErrShortWrite)
            else
              let _len := Z.of_nat n + Z.of_nat (length p) in
              let len := i64 (i64 (f_Length file - fileOffset) + Z.of_nat n) in
              if negb (_len <? len) && (len <=? Z.of_nat n) then (fs, w, n, Done)
              else
                let len := if _len <? len then _len else len in
                let filename := File_PathWithPrefix file (tw_root w) (tw_info w) in
                let '(fs, w, err) := writer_open fs w filename in
                match err with
                | Some e => (fs, w, n, Fail e)
                | None =>
                    let '(fs, m, err) :=
                      file_WriteAt fs filename (take (Z.to_nat (len - Z.of_nat n)) p) fileOffset in
                    match err with
                    | Some e => (fs, w, (n + m)%nat, Fail e)
                    | None => WriteAt_loop fuel fs w (n + m) (drop m p) (i64 (offset + Z.of_nat m))
                    end
                end
        end
  end.

Definition WriteAt (fs : FS) (w : twriter) (p : bytes) (offset : Z) : FS * twriter * nat * outcome :=
  WriteAt_loop (S (length p)) fs w O p offset.
Definition WriteBlock (fs : FS) (w : twriter) (pieceIndex pieceOffset : Z) (p : bytes)
    : FS * twriter * nat * outcome :=
  WriteAt fs w p (PieceOffset (tw_info w) pieceIndex pieceOffset).
End Files.

Definition rw_demo : Info := mkInfo (B "test_rw") 8 [] 0
  [mkFile 3 [B "file1"]; mkFile 0 [B "empty"]; mkFile 4 [B "dir"; B "file2"]; mkFile 5 [B "file3"]].

Example rw_ex :
  let '(fs, _, n, o) := WriteAt no_faults ∅ (NewWriter [] rw_demo 0) (B "abcdefghijkl") 0 in
  (n, o) = (12%nat, Done) /\ fs !! B "test_rw/dir/file2" = Some (B "defg") /\
  snd (fst (ReadAt no_faults fs (NewReader [] rw_demo) 6 2)) = B "cdefgh" /\
  snd (fst (ReadBlock no_faults fs (NewReader [] rw_demo) 1 1 5)) = B "jkl".
Proof. vm_compute. repeat split. Qed.
