(* ===== verification/TorrentIOThms.v ===== *)
(** * Theorems about reading and writing the data of a torrent

    The files of a torrent, one after the other, are one sequence of bytes ([torrent_byte]).
    The writer and the reader refine writing to and reading from that sequence. *)

From S2P Require Import Prelude GoBytes GoNet GoCrypto Bencode Codec Hash Info InfoThms TorrentIO.

Lemma lookup_map {A C} (f : A -> C) l i : map f l !! i = f <$> l !! i.
Proof. exact (list_lookup_fmap f l i). Qed.

Section Flat.
Variables (info : Info) (root : bytes).

Definition path_of (f : File) : bytes := File_PathWithPrefix f root info.

(** Byte [o] of the torrent as it is on disk. *)
Fixpoint torrent_byte_loop (fs : FS) (files : list File) (o : Z) : option byte :=
  match files with
  | [] => None
  | f :: files =>
      if o <? f_Length f
      then if 0 <=? o then default [] (fs !! path_of f) !! Z.to_nat o else None
      else torrent_byte_loop fs files (o - f_Length f)
  end.
Definition torrent_byte (fs : FS) (o : Z) : option byte := torrent_byte_loop fs (AllFiles info) o.

(** Byte [o] of the torrent is byte [k] of file [f], the [i]-th. *)
Definition at_byte (o : Z) (i : nat) (f : File) (k : Z) : Prop :=
  AllFiles info !! i = Some f /\ sum_len (take i (AllFiles info)) + k = o /\ 0 <= k < f_Length f.

Hypothesis W : info_wf info.

Lemma torrent_byte_loop_at fs files i f k :
  Forall (fun f => 0 <= f_Length f) files -> files !! i = Some f -> 0 <= k < f_Length f ->
  torrent_byte_loop fs files (sum_len (take i files) + k) = default [] (fs !! path_of f) !! Z.to_nat k.
Proof.
  intros H. revert i. induction H as [|g files Hg Hfs IH]; intros i Hi Hk; [done|].
  destruct i as [|i]; cbn [lookup list_lookup] in Hi.
  - injection Hi as ->. cbn [take sum_len foldr torrent_byte_loop]. rewrite Z.add_0_l.
    destruct (Z.ltb_spec k (f_Length f)); [|lia].
    destruct (Z.leb_spec 0 k); [done|lia].
  - rewrite firstn_cons, sum_len_cons. cbn [torrent_byte_loop].
    pose proof (sum_len_nonneg _ (Forall_take _ i _ Hfs)).
    destruct (Z.ltb_spec (f_Length g + sum_len (take i files) + k) (f_Length g)); [lia|].
    rewrite <- (IH i) by done. f_equal. lia.
Qed.

Lemma torrent_byte_at fs o i f k :
  at_byte o i f k -> torrent_byte fs o = default [] (fs !! path_of f) !! Z.to_nat k.
Proof. intros (Hi & <- & Hk). apply torrent_byte_loop_at; [apply W|done..]. Qed.

Lemma torrent_byte_loop_found fs files o b :
  Forall (fun f => 0 <= f_Length f) files -> torrent_byte_loop fs files o = Some b ->
  exists i f k, files !! i = Some f /\ sum_len (take i files) + k = o /\ 0 <= k < f_Length f.
Proof.
  intros H. revert o. induction H as [|g files Hg Hfs IH]; intros o E; [done|].
  cbn [torrent_byte_loop] in E. destruct (Z.ltb_spec o (f_Length g)).
  - destruct (Z.leb_spec 0 o); [|done]. exists 0%nat, g, o. simpl. repeat split; lia.
  - destruct (IH _ E) as (i & f & k & Hi & Hs & Hk). exists (S i), f, k.
    rewrite firstn_cons, sum_len_cons. repeat split; [done|lia..].
Qed.

Lemma torrent_byte_found fs o b : torrent_byte fs o = Some b -> exists i f k, at_byte o i f k.
Proof. intros E. apply torrent_byte_loop_found in E; [|apply W]. done. Qed.

(** What [GetFileByOffset] returns inside the torrent. *)
Lemma get_file_at o :
  0 <= o < TotalLength info ->
  exists i f k file, at_byte o i f k /\ GetFileByOffset info o = Ok (file, k) /\
    f_Length file = f_Length f /\ path_of file = path_of f.
Proof.
  intros Ho. pose proof W as [Hn Hs]. rewrite (TotalLength_sum _ W) in Ho.
  unfold GetFileByOffset, at_byte, path_of, File_PathWithPrefix, AllFiles in *.
  destruct (IsDir info) eqn:D; cbn [negb].
  - destruct (getFile_loop_spec (i_Files info) (mkFile 0 []) o Hn) as [H _];
      [intros E; unfold IsDir in D; by rewrite E in D|lia|].
    destruct H as (i & f & k & -> & Hi & Hk & Hr & He); [lia|]. exists i, f, k, f.
    split; [|done]. split; [done|]. split; [done|]. destruct (Z.eq_dec k (f_Length f)) as [E|]; [|lia].
    apply He in E. lia.
  - simpl in Ho. destruct (Z.ltb_spec (i_Length info) o); [lia|].
    exists 0%nat, (mkFile (i_Length info) []), o, (mkFile (i_Length info) [i_Name info]). simpl.
    repeat split; lia.
Qed.

Lemma get_file_end :
  exists file, GetFileByOffset info (TotalLength info) = Ok (file, f_Length file).
Proof.
  pose proof W as [Hn Hs]. pose proof (sum_len_nonneg _ Hn) as Hp. rewrite (TotalLength_sum _ W).
  unfold GetFileByOffset, AllFiles in *. destruct (IsDir info) eqn:D; cbn [negb].
  - destruct (getFile_loop_spec (i_Files info) (mkFile 0 []) (sum_len (i_Files info)) Hn) as [H _];
      [intros E; unfold IsDir in D; by rewrite E in D|lia|].
    destruct H as (i & f & k & -> & Hi & Hk & Hr & _); [lia|]. exists f. do 2 f_equal.
    rewrite <- (take_drop_middle _ _ _ Hi) in Hk at 2. rewrite sum_len_app, sum_len_cons in Hk.
    pose proof (sum_len_nonneg _ (Forall_drop _ (S i) _ Hn)). lia.
  - cbn [sum_len foldr f_Length] in *. rewrite Z.add_0_r. rewrite Z.ltb_irrefl.
    by exists (mkFile (i_Length info) [i_Name info]).
Qed.

Lemma at_byte_total o i f k : at_byte o i f k -> o - k + f_Length f <= TotalLength info /\ 0 <= o - k.
Proof.
  intros (Hi & Hs & Hk). pose proof (sum_take _ _ _ W Hi). lia.
Qed.

(** ** Writing *)

Lemma write_at_lookup c k q x :
  write_at c k q !! x =
  if bool_decide (k <= x < k + length q)%nat then q !! (x - k)%nat
  else (c ++ replicate (k - length c) x00) !! x.
Proof.
  unfold write_at. set (c' := c ++ replicate (k - length c) x00).
  assert (k <= length c')%nat as Hc by (unfold c'; rewrite length_app, length_replicate; lia).
  assert (length (take k c') = k) as Ht by (rewrite length_take; lia).
  case_bool_decide as D.
  - rewrite lookup_app_r, Ht by lia. by rewrite lookup_app_l by lia.
  - destruct (decide (x < k)%nat).
    + rewrite lookup_app_l by lia. by rewrite lookup_take_lt by lia.
    + rewrite lookup_app_r, lookup_app_r, Ht, lookup_drop by lia. f_equal. lia.
Qed.

(** [fs'] is [fs] with [p] written at [offset] of the torrent. *)
Definition written (fs fs' : FS) (p : bytes) (offset : Z) : Prop :=
  (forall j b, p !! j = Some b -> torrent_byte fs' (offset + Z.of_nat j) = Some b) /\
  (forall o b, ~ offset <= o < offset + Z.of_nat (length p) ->
     torrent_byte fs o = Some b -> torrent_byte fs' o = Some b) /\
  (forall name, name ∉ map path_of (AllFiles info) -> fs' !! name = fs !! name).

Lemma written_nil fs offset : written fs fs [] offset.
Proof. by split; [|split]. Qed.

Lemma written_trans fs fs1 fs2 p q offset :
  written fs fs1 p offset -> written fs1 fs2 q (offset + Z.of_nat (length p)) ->
  written fs fs2 (p ++ q) offset.
Proof.
  intros (A1 & A2 & A3) (B1 & B2 & B3). split; [|split].
  - intros j b Hj. apply lookup_app_Some in Hj as [Hj|[Hl Hj]].
    + apply B2; [apply lookup_lt_Some in Hj; lia|]. by apply A1.
    + apply B1 in Hj. rewrite <- Hj. f_equal. lia.
  - intros o b Ho E. rewrite length_app in Ho. apply B2; [lia|]. apply A2; [lia|done].
  - intros name Hn. by rewrite B3, A3.
Qed.

Hypothesis distinct : NoDup (map path_of (AllFiles info)).

Lemma path_of_inj i j f g :
  AllFiles info !! i = Some f -> AllFiles info !! j = Some g -> path_of f = path_of g -> i = j.
Proof.
  intros Hi Hj E. eapply NoDup_lookup; [exact distinct|..].
  - rewrite lookup_map. by rewrite Hi.
  - rewrite lookup_map. rewrite Hj. simpl. by rewrite E.
Qed.

Lemma written_step fs offset i f k q :
  at_byte offset i f k -> k + Z.of_nat (length q) <= f_Length f ->
  written fs (<[path_of f := write_at (default [] (fs !! path_of f)) (Z.to_nat k) q]> fs) q offset.
Proof.
  intros Ha Hq. pose proof Ha as (Hi & Hs & Hk). split; [|split].
  - intros j b Hj. pose proof (lookup_lt_Some _ _ _ Hj).
    rewrite (torrent_byte_at _ _ i f (k + Z.of_nat j)) by (split; [done|split; lia]).
    rewrite lookup_insert_eq. cbn [default id]. rewrite write_at_lookup, bool_decide_eq_true_2 by lia.
    rewrite <- Hj. f_equal. lia.
  - intros o b Ho E. destruct (torrent_byte_found _ _ _ E) as (i' & f' & k' & Ha').
    rewrite (torrent_byte_at _ _ _ _ _ Ha') in E. rewrite (torrent_byte_at _ _ _ _ _ Ha'). destruct Ha' as (Hi' & Hs' & Hk').
    destruct (decide (path_of f = path_of f')) as [Ep|Ep]; [|by rewrite lookup_insert_ne].
    pose proof (path_of_inj _ _ _ _ Hi Hi' Ep) as <-. rewrite Hi in Hi'. injection Hi' as <-.
    rewrite lookup_insert_eq. cbn [default id]. rewrite write_at_lookup, bool_decide_eq_false_2 by lia.
    by apply lookup_app_l_Some.
  - intros name Hn. apply lookup_insert_ne. intros <-. apply Hn.
    apply list_elem_of_lookup. exists i. rewrite lookup_map. by rewrite Hi.
Qed.

Lemma writer_open_ok fs w name :
  exists fs' w', writer_open no_faults fs w name = (fs', w', None) /\
    tw_info w' = tw_info w /\ tw_root w' = tw_root w /\
    (fs' = fs \/ fs' = <[name := default [] (fs !! name)]> fs).
Proof.
  unfold writer_open, os_OpenFile. case_bool_decide; cbn [no_faults mkdir_fault open_fault].
  - exists fs, w. auto.
  - eexists _, _. split; [done|]. cbn. auto.
Qed.

Lemma file_WriteAt_ok fs name q off :
  q <> [] -> 0 <= off ->
  file_WriteAt no_faults fs name q off
  = (<[name := write_at (default [] (fs !! name)) (Z.to_nat off) q]> fs, length q, None).
Proof. intros Hq Ho. unfold file_WriteAt. destruct (Z.ltb_spec off 0); [lia|]. by destruct q. Qed.

(** Creating an empty file changes no byte. *)
Lemma written_open (fs fs' : FS) name :
  fs' = fs \/ fs' = <[name := default [] (fs !! name)]> fs ->
  default [] (fs' !! name) = default [] (fs !! name) /\
  forall c, <[name := c]> fs' = <[name := c]> fs.
Proof.
  intros [->| ->]; [done|]. split; [by rewrite lookup_insert_eq|]. intros c. by rewrite insert_insert_eq.
Qed.

(** [rest] is what does not fit behind [p]. *)
Definition fits (p rest : bytes) (offset : Z) : Prop :=
  if (length rest =? 0)%nat then offset + Z.of_nat (length p) <= TotalLength info
  else offset + Z.of_nat (length p) = TotalLength info.
Definition ended (rest : bytes) (e : error) : outcome := if (length rest =? 0)%nat then Done else Fail e.

Lemma fits_split p q rest offset :
  fits (p ++ q) rest offset -> fits q rest (offset + Z.of_nat (length p)).
Proof. unfold fits. rewrite length_app. destruct (_ =? _)%nat; lia. Qed.
Lemma fits_le p rest offset : fits p rest offset -> offset + Z.of_nat (length p) <= TotalLength info.
Proof. unfold fits. destruct (_ =? _)%nat; lia. Qed.
(** What one round can write does not reach into [rest]. *)
Lemma fits_min p rest offset a :
  fits p rest offset -> offset + a <= TotalLength info ->
  Z.min a (Z.of_nat (length (p ++ rest))) = Z.min a (Z.of_nat (length p)).
Proof. unfold fits. rewrite length_app. destruct (Nat.eqb_spec (length rest) 0); lia. Qed.

Lemma WriteAt_loop_flat fuel fs w n p rest offset :
  tw_info w = info -> tw_root w = root -> (length p < fuel)%nat ->
  Z.of_nat n <= offset -> fits p rest offset ->
  exists fs' w', WriteAt_loop no_faults fuel fs w n (p ++ rest) offset
                 = (fs', w', (n + length p)%nat, ended rest ErrShortWrite) /\
    tw_info w' = info /\ tw_root w' = root /\ written fs fs' p offset.
Proof.
  revert fs w n p offset. induction fuel as [|fuel IH]; intros fs w n p offset Hi Hr Hf Hn Ht; [lia|].
  cbn [WriteAt_loop]. destruct (Nat.eqb_spec (length p) 0) as [E|E].
  { apply nil_length_inv in E as ->. rewrite Nat.add_0_r. cbn [app]. exists fs, w.
    split; [|auto using written_nil]. unfold ended, fits in *. destruct (length rest =? 0)%nat; [done|].
    simpl in Ht. rewrite Z.add_0_r in Ht. rewrite Hi, Ht. destruct get_file_end as (file & ->).
    by rewrite Z.eqb_refl, orb_true_r. }
  pose proof (fits_le _ _ _ Ht) as Htot.
  assert ((length (p ++ rest) =? 0)%nat = false) as -> by (apply Nat.eqb_neq; rewrite length_app; lia).
  rewrite Hi, Hr. destruct (get_file_at offset ltac:(lia)) as (i & f & k & file & Ha & -> & El & Ep).
  destruct (at_byte_total _ _ _ _ Ha) as [Hb1 Hb2]. pose proof Ha as (_ & _ & Hk). pose proof (proj2 W) as Hs.
  rewrite <- (TotalLength_sum _ W) in Hs. rewrite El.
  destruct (Z.eqb_spec (f_Length f) 0); [lia|]. destruct (Z.eqb_spec (f_Length f) k); [lia|]. cbn [orb].
  rewrite !i64_id by (rewrite ?i64_id; unfold is_i64; lia).
  fold (path_of file). rewrite Ep. set (m := Z.min (f_Length f - k) (Z.of_nat (length p))).
  destruct (writer_open_ok fs w (path_of f)) as (fs1 & w1 & Eo & I1 & I2 & Ef).
  destruct (written_open fs fs1 (path_of f) Ef) as [Ef1 Ef2].
  destruct (Z.leb_spec (f_Length f - k + Z.of_nat n) (Z.of_nat n)); [lia|]. rewrite andb_false_r, Eo.
  pose proof (fits_min p rest offset (f_Length f - k) Ht ltac:(lia)) as Hm. fold m in Hm.
  set (q := take (Z.to_nat m) p) in *.
  assert (length q = Z.to_nat m) as Hq by (unfold q; rewrite length_take; lia).
  assert (take (Z.to_nat ((if Z.of_nat n + Z.of_nat (length (p ++ rest)) <? f_Length f - k + Z.of_nat n
    then Z.of_nat n + Z.of_nat (length (p ++ rest)) else f_Length f - k + Z.of_nat n) - Z.of_nat n)) (p ++ rest) = q) as ->.
  { unfold q. rewrite <- (take_app_le p rest) by lia. f_equal.
    destruct (Z.ltb_spec (Z.of_nat n + Z.of_nat (length (p ++ rest))) (f_Length f - k + Z.of_nat n)); lia. }
  rewrite file_WriteAt_ok by (lia || (intros E'; rewrite E' in Hq; simpl in Hq; lia)). rewrite Ef1, Ef2.
  rewrite i64_id by (unfold is_i64; lia).
  assert (p = q ++ drop (length q) p) as Ep' by (unfold q at 1; rewrite Hq; symmetry; apply take_drop).
  rewrite drop_app_le by lia.
  destruct (IH (<[path_of f := write_at (default [] (fs !! path_of f)) (Z.to_nat k) q]> fs) w1
              (n + length q)%nat (drop (length q) p) (offset + Z.of_nat (length q)))
    as (fs' & w' & -> & I1' & I2' & Hw); [congruence|congruence|rewrite ?length_drop; lia|lia| |].
  { apply fits_split. by rewrite <- Ep'. }
  exists fs', w'. rewrite length_drop. split; [do 2 f_equal; lia|]. split; [done|]. split; [done|].
  rewrite Ep'. eapply written_trans; [|exact Hw]. eapply written_step; [exact Ha|lia].
Qed.

(** ** Reading *)

Lemma reader_open_ok fs r name :
  is_Some (fs !! name) ->
  exists r', reader_open no_faults fs r name = (r', None) /\ tr_info r' = tr_info r /\ tr_root r' = tr_root r.
Proof.
  intros [c Hc]. unfold reader_open, os_Open. cbn [no_faults open_fault]. rewrite Hc.
  case_bool_decide; eauto.
Qed.

(** The bytes [d] are on disk at [offset] of the torrent. *)
Definition holds (fs : FS) (d : bytes) (offset : Z) : Prop :=
  forall j b, d !! j = Some b -> torrent_byte fs (offset + Z.of_nat j) = Some b.

Lemma holds_file fs d offset i f k :
  at_byte offset i f k -> holds fs d offset ->
  let m := Z.min (f_Length f - k) (Z.of_nat (length d)) in
  take (Z.to_nat m) (drop (Z.to_nat k) (default [] (fs !! path_of f))) = take (Z.to_nat m) d.
Proof.
  intros Ha H m. apply list_eq. intros j. destruct (decide (j < Z.to_nat m)%nat) as [Hj|Hj].
  - rewrite !lookup_take_lt, lookup_drop by done.
    destruct (lookup_lt_is_Some_2 d j) as [b Hb]; [lia|]. rewrite Hb. apply H in Hb as Hb'.
    destruct Ha as (Hi & Hs & Hk).
    rewrite (torrent_byte_at _ _ i f (k + Z.of_nat j)) in Hb' by (split; [done|split; lia]).
    rewrite <- Hb'. f_equal. lia.
  - by rewrite !lookup_take_ge by lia.
Qed.

Lemma ReadAt_loop_flat fuel fs r p d rest offset :
  tr_info r = info -> tr_root r = root -> (length d < fuel)%nat ->
  Z.of_nat (length p) <= offset -> fits d rest offset -> holds fs d offset ->
  exists r', ReadAt_loop no_faults fuel fs r (Z.of_nat (length p + length (d ++ rest))) p offset
             = (r', p ++ d, ended rest EOF) /\ tr_info r' = info /\ tr_root r' = root.
Proof.
  revert r p d offset. induction fuel as [|fuel IH]; intros r p d offset Hi Hr Hf Hn Ht Hd; [lia|].
  cbn [ReadAt_loop]. destruct (Nat.eqb_spec (length d) 0) as [E|E].
  { apply nil_length_inv in E as ->. rewrite app_nil_r. cbn [app]. exists r. split; [|done].
    unfold ended, fits in *. destruct (Nat.eqb_spec (length rest) 0).
    { destruct (Z.ltb_spec (Z.of_nat (length p)) (Z.of_nat (length p + length rest))); [lia|done]. }
    simpl in Ht. rewrite Z.add_0_r in Ht.
    destruct (Z.ltb_spec (Z.of_nat (length p)) (Z.of_nat (length p + length rest))); [cbn [negb]|lia].
    rewrite Hi, Ht. destruct get_file_end as (file & ->). by rewrite Z.eqb_refl, orb_true_r. }
  pose proof (fits_le _ _ _ Ht) as Htot. pose proof (length_app d rest) as Ha1.
  destruct (Z.ltb_spec (Z.of_nat (length p)) (Z.of_nat (length p + length (d ++ rest)))); [cbn [negb]|lia].
  rewrite Hi, Hr.
  destruct (get_file_at offset ltac:(lia)) as (i & f & k & file & Ha & -> & El & Ep).
  destruct (at_byte_total _ _ _ _ Ha) as [Hb1 Hb2]. pose proof Ha as (_ & _ & Hk). pose proof (proj2 W) as Hs.
  rewrite <- (TotalLength_sum _ W) in Hs. rewrite El.
  destruct (Z.eqb_spec (f_Length f) 0); [lia|]. destruct (Z.eqb_spec (f_Length f) k); [lia|]. cbn [orb].
  rewrite !i64_id by (rewrite ?i64_id; unfold is_i64; lia).
  fold (path_of file). rewrite Ep. set (m := Z.min (f_Length f - k) (Z.of_nat (length d))).
  pose proof (holds_file fs d offset i f k Ha Hd) as Hq. fold m in Hq.
  assert (is_Some (fs !! path_of f)) as Hsome.
  { destruct (fs !! path_of f); [by eexists|]. apply (f_equal length) in Hq.
    cbn [default] in Hq. rewrite drop_nil, take_nil, length_take in Hq. simpl in Hq. lia. }
  destruct (reader_open_ok fs r (path_of f) Hsome) as (r1 & -> & I1 & I2).
  pose proof (fits_min d rest offset (f_Length f - k) Ht ltac:(lia)) as Hm. fold m in Hm.
  set (pend := if Z.of_nat (length p + length (d ++ rest)) <? Z.of_nat (length p) + (f_Length f - k) then _ else _).
  assert (pend - Z.of_nat (length p) = m) as Em.
  { unfold pend. destruct (Z.ltb_spec (Z.of_nat (length p + length (d ++ rest))) (Z.of_nat (length p) + (f_Length f - k))); lia. }
  clearbody pend. destruct (Z.ltb_spec pend (Z.of_nat (length p))); [lia|]. rewrite Em.
  unfold file_ReadAt. destruct (Z.ltb_spec k 0); [lia|]. cbn [no_faults read_fault]. rewrite Hq.
  set (q := take (Z.to_nat m) d). assert (length q = Z.to_nat m) as Eq by (unfold q; rewrite length_take; lia).
  destruct (Z.ltb_spec (Z.of_nat (length q)) m); [lia|]. rewrite i64_id by (unfold is_i64; lia).
  assert (d = q ++ drop (Z.to_nat m) d) as Ed by (symmetry; apply take_drop).
  destruct (IH r1 (p ++ q) (drop (Z.to_nat m) d) (offset + Z.of_nat (length q))) as (r' & Er & J1 & J2);
    rewrite ?length_app, ?length_drop; [congruence|congruence|lia..| | |].
  { apply fits_split. by rewrite <- Ed. }
  { intros j b Hj. rewrite lookup_drop in Hj. apply Hd in Hj. rewrite <- Hj. f_equal. lia. }
  exists r'. rewrite <- app_assoc, <- Ed in Er. split; [|done].
  rewrite <- Er. f_equal. rewrite !length_app, length_drop. lia.
Qed.
End Flat.

(** The files of the torrent have different names on disk. *)
Definition distinct_paths (info : Info) (root : bytes) : Prop :=
  NoDup (map (path_of info root) (AllFiles info)).

(** What of [p] lies inside the torrent when it starts at [offset]. *)
Definition inside (info : Info) (p : bytes) (offset : Z) : bytes := take (Z.to_nat (TotalLength info - offset)) p.
Definition end_of (info : Info) (p : bytes) (offset : Z) (e : error) : outcome :=
  if offset + Z.of_nat (length p) <=? TotalLength info then Done else Fail e.

Lemma inside_fits info p offset e :
  0 <= offset <= TotalLength info ->
  exists rest, p = inside info p offset ++ rest /\ fits info (inside info p offset) rest offset /\
    ended rest e = end_of info p offset e.
Proof.
  intros Ho. exists (drop (Z.to_nat (TotalLength info - offset)) p). unfold inside, fits, ended, end_of.
  rewrite length_take, length_drop. split; [by rewrite take_drop|].
  destruct (Z.leb_spec (offset + Z.of_nat (length p)) (TotalLength info)).
  - destruct (Nat.eqb_spec (length p - Z.to_nat (TotalLength info - offset)) 0); [|lia]. split; [lia|done].
  - destruct (Nat.eqb_spec (length p - Z.to_nat (TotalLength info - offset)) 0); [lia|]. split; [lia|done].
Qed.

(** [C38] The writer implements one sequence of bytes on top of the files of a torrent: for
    every offset inside the torrent, [WriteAt] writes the bytes that lie inside it, across as
    many files as it takes, and creates what is missing; the bytes are then on disk at their
    offsets, every other byte of the torrent keeps its value and every other file its contents.
    What lies behind the end is not written and reported as a short write. *)
Theorem write_at_flat info root fs w p offset :
  info_wf info -> distinct_paths info root -> tw_info w = info -> tw_root w = root ->
  0 <= offset <= TotalLength info ->
  exists fs' w', WriteAt no_faults fs w p offset
                 = (fs', w', length (inside info p offset), end_of info p offset ErrShortWrite) /\
    tw_info w' = info /\ tw_root w' = root /\ written info root fs fs' (inside info p offset) offset.
Proof.
  intros W D Hi Hr Ho. destruct (inside_fits info p offset ErrShortWrite Ho) as (rest & Ep & Hf & <-).
  set (q := inside info p offset) in *. clearbody q. subst p.
  apply (WriteAt_loop_flat info root W D); [done|done|rewrite length_app; lia|lia|done].
Qed.

(** [C39] The reader reads that sequence: when the bytes [d] (those inside the torrent) are on
    disk at an offset, [ReadAt] of that many bytes returns exactly them, across file borders,
    and reports the end of the torrent if it was asked for more. *)
Theorem read_at_flat info root fs r d offset :
  info_wf info -> tr_info r = info -> tr_root r = root ->
  0 <= offset <= TotalLength info -> holds info root fs (inside info d offset) offset ->
  exists r', ReadAt no_faults fs r (Z.of_nat (length d)) offset
             = (r', inside info d offset, end_of info d offset EOF) /\
    tr_info r' = info /\ tr_root r' = root.
Proof.
  intros W Hi Hr Ho Hd. destruct (inside_fits info d offset EOF Ho) as (rest & Ed & Hf & <-).
  set (q := inside info d offset) in *. clearbody q. subst d.
  apply (ReadAt_loop_flat info root W _ fs r [] q rest); [done|done| |simpl; lia|done|done].
  rewrite length_app. lia.
Qed.

Definition rw_writer : twriter := NewWriter (B "/data") rw_demo 0.
Definition rw_reader : treader := NewReader (B "/data") rw_demo.
Lemma rw_demo_wf : info_wf rw_demo.
Proof. split; [repeat constructor; simpl; lia|vm_compute; done]. Qed.
Lemma rw_demo_distinct : distinct_paths rw_demo (B "/data").
Proof. apply (bool_decide_unpack _). vm_compute. exact I. Qed.

Lemma write_at_flat_witness :
  exists fs' w', WriteAt no_faults ∅ rw_writer (B "xyzuvw") 8 = (fs', w', 4%nat, Fail ErrShortWrite) /\
    tw_info w' = rw_demo /\ tw_root w' = B "/data" /\ written rw_demo (B "/data") ∅ fs' (B "xyzu") 8.
Proof.
  exact (write_at_flat rw_demo (B "/data") ∅ rw_writer (B "xyzuvw") 8 rw_demo_wf rw_demo_distinct
    eq_refl eq_refl ltac:(vm_compute; split; discriminate)).
Defined.

Definition rw_disk : FS :=
  list_to_map [(B "/data/test_rw/file1", B "abc"); (B "/data/test_rw/dir/file2", B "defg");
               (B "/data/test_rw/file3", B "hijkl")].

Lemma read_at_flat_witness :
  exists r', ReadAt no_faults rw_disk rw_reader 12 2 = (r', B "cdefghijkl", Fail EOF) /\
    tr_info r' = rw_demo /\ tr_root r' = B "/data".
Proof.
  apply (read_at_flat rw_demo (B "/data") rw_disk rw_reader (B "cdefghijkl??") 2 rw_demo_wf eq_refl eq_refl).
  - vm_compute. split; discriminate.
  - intros j b Hj. do 10 (destruct j as [|j]; [revert Hj; vm_compute; exact id|]). destruct j; discriminate Hj.
Defined.

Lemma written_holds info root fs fs' p offset : written info root fs fs' p offset -> holds info root fs' p offset.
Proof. intros (H & _). exact H. Qed.
Lemma written_keeps info root fs fs' p offset d o :
  written info root fs fs' p offset -> holds info root fs d o ->
  o + Z.of_nat (length d) <= offset \/ offset + Z.of_nat (length p) <= o -> holds info root fs' d o.
Proof.
  intros (_ & H & _) Hd Ho j b Hj. apply H; [|by apply Hd]. apply lookup_lt_Some in Hj. lia.
Qed.
Lemma inside_all info p offset : offset + Z.of_nat (length p) <= TotalLength info -> inside info p offset = p.
Proof. intros H. apply firstn_all2. lia. Qed.

Lemma WriteAt_inside info root fs w p offset :
  info_wf info -> distinct_paths info root -> tw_info w = info -> tw_root w = root ->
  0 <= offset -> offset + Z.of_nat (length p) <= TotalLength info ->
  exists fs' w', WriteAt no_faults fs w p offset = (fs', w', length p, Done) /\
    tw_info w' = info /\ tw_root w' = root /\ written info root fs fs' p offset.
Proof.
  intros W D Hi Hr Ho Ht. unfold WriteAt.
  destruct (WriteAt_loop_flat info root W D (S (length p)) fs w 0 p [] offset) as (fs' & w' & E & H);
    [done|done|lia|lia|exact Ht|].
  rewrite app_nil_r in E. by exists fs', w'.
Qed.

Lemma ReadAt_inside info root fs r d offset :
  info_wf info -> tr_info r = info -> tr_root r = root ->
  0 <= offset -> offset + Z.of_nat (length d) <= TotalLength info -> holds info root fs d offset ->
  exists r', ReadAt no_faults fs r (Z.of_nat (length d)) offset = (r', d, Done).
Proof.
  intros W Hi Hr Ho Ht Hd. unfold ReadAt.
  destruct (ReadAt_loop_flat info root W (S (Z.to_nat (Z.of_nat (length d)))) fs r [] d [] offset)
    as (r' & E & _); [done|done|lia|simpl; lia|exact Ht|done|].
  rewrite app_nil_r in E. by exists r'.
Qed.

(** A block that was written is read back: after [WriteBlock] of a block of a piece, and
    after any other block that does not overlap it has been written too, [ReadBlock] of the
    same piece, offset and length returns the bytes that were written, whatever the files
    were before and however many of them the two blocks touch. *)
Theorem read_after_write info root fs w r i1 o1 p1 i2 o2 p2 :
  info_wf info -> distinct_paths info root ->
  tw_info w = info -> tw_root w = root -> tr_info r = info -> tr_root r = root ->
  let a1 := PieceOffset info i1 o1 in
  let a2 := PieceOffset info i2 o2 in
  0 <= a1 -> a1 + Z.of_nat (length p1) <= TotalLength info ->
  0 <= a2 -> a2 + Z.of_nat (length p2) <= TotalLength info ->
  a1 + Z.of_nat (length p1) <= a2 \/ a2 + Z.of_nat (length p2) <= a1 ->
  exists fs1 w1 fs2 w2 r',
    WriteBlock no_faults fs w i1 o1 p1 = (fs1, w1, length p1, Done) /\
    WriteBlock no_faults fs1 w1 i2 o2 p2 = (fs2, w2, length p2, Done) /\
    ReadBlock no_faults fs2 r i1 o1 (Z.of_nat (length p1)) = (r', p1, Done).
Proof.
  intros W D Hi Hr Hi' Hr' a1 a2 H1 T1 H2 T2 Hd. unfold WriteBlock, ReadBlock.
  rewrite Hi, Hi'. fold a1.
  destruct (WriteAt_inside info root fs w p1 a1) as (fs1 & w1 & E1 & I1 & R1 & W1); [done..|].
  destruct (WriteAt_inside info root fs1 w1 p2 a2) as (fs2 & w2 & E2 & I2 & R2 & W2); [done..|].
  destruct (ReadAt_inside info root fs2 r p1 a1) as (r' & E3); [done..| |].
  { eapply written_keeps; [exact W2|by eapply written_holds|lia]. }
  exists fs1, w1, fs2, w2, r'. rewrite I1. by fold a2.
Qed.

Lemma read_after_write_witness :
  exists fs1 w1 fs2 w2 r',
    WriteBlock no_faults ∅ rw_writer 0 2 (B "CDEF") = (fs1, w1, 4%nat, Done) /\
    WriteBlock no_faults fs1 w1 1 0 (B "IJKL") = (fs2, w2, 4%nat, Done) /\
    ReadBlock no_faults fs2 rw_reader 0 2 4 = (r', B "CDEF", Done).
Proof.
  apply (read_after_write rw_demo (B "/data") ∅ rw_writer rw_reader 0 2 (B "CDEF") 1 0 (B "IJKL")
           rw_demo_wf rw_demo_distinct eq_refl eq_refl eq_refl eq_refl).
  all: try (vm_compute; discriminate).
  left. vm_compute. discriminate.
Defined.

Lemma get_file_past info f k :
  info_wf info -> IsDir info = true -> last (i_Files info) = Some f -> 0 < k <= f_Length f ->
  TotalLength info + k < 2 ^ 63 ->
  GetFileByOffset info (TotalLength info + k) = Ok (f, k).
Proof.
  intros W D Hl Hk Hs. rewrite (TotalLength_sum _ W) in *. destruct W as [Hn _].
  pose proof (sum_len_nonneg _ Hn). unfold GetFileByOffset, AllFiles in *. rewrite D in *. cbn [negb].
  destruct (getFile_loop_spec (i_Files info) (mkFile 0 []) (sum_len (i_Files info) + k) Hn) as [_ G];
    [by intros E; rewrite E in Hl|lia|].
  destruct G as (f' & Hl' & ->); [lia|]. rewrite Hl in Hl'. injection Hl' as <-.
  rewrite Z.add_simpl_l. destruct (Z.ltb_spec (f_Length f) k); [lia|done].
Qed.

(** Behind the end of a directory torrent the reader does not report the end: an offset
    that exceeds the torrent by less than the length of the last file is taken as an offset in
    that file, so the reader delivers its bytes a second time. *)
Theorem read_behind_end info root fs r f k b :
  info_wf info -> IsDir info = true -> tr_info r = info -> tr_root r = root ->
  last (i_Files info) = Some f -> 0 < k < f_Length f -> TotalLength info + k < 2 ^ 63 ->
  default [] (fs !! path_of info root f) !! Z.to_nat k = Some b ->
  exists r', ReadAt no_faults fs r 1 (TotalLength info + k) = (r', [b], Done).
Proof.
  intros W D Hi Hr Hl Hk Hs Hb. unfold ReadAt. change (S (Z.to_nat 1)) with 2%nat.
  cbn [ReadAt_loop length Z.of_nat]. rewrite Hi, Hr, (get_file_past info f k) by (done || lia).
  destruct (Z.eqb_spec (f_Length f) 0); [lia|]. destruct (Z.eqb_spec (f_Length f) k); [lia|].
  cbn [orb Z.ltb Z.compare negb].
  assert (f_Length f < 2 ^ 63) as Hf.
  { pose proof W as [Hn Hs']. rewrite (TotalLength_sum _ W) in Hs. unfold AllFiles in *. rewrite D in *.
    apply last_Some in Hl as [l El]. rewrite El, sum_len_app in Hs. rewrite El in Hn.
    apply Forall_app in Hn as [Hn _]. pose proof (sum_len_nonneg _ Hn). simpl in Hs. lia. }
  rewrite !i64_id by (rewrite ?i64_id; unfold is_i64; lia). fold (path_of info root f).
  destruct (reader_open_ok fs r (path_of info root f)) as (r1 & -> & _).
  { destruct (fs !! path_of info root f); [by eexists|done]. }
  change (Z.of_nat 0) with 0. rewrite !Z.add_0_l. cbn [Z.ltb Z.compare negb].
  assert ((if 1 <? f_Length f - k then 1 else f_Length f - k) = 1) as ->.
  { destruct (Z.ltb_spec 1 (f_Length f - k)); lia. }
  cbn [Z.ltb Z.compare]. unfold file_ReadAt. destruct (Z.ltb_spec k 0); [lia|].
  rewrite (drop_S _ b) by done. cbn. by exists r1.
Qed.

Lemma read_behind_end_witness :
  exists r', ReadAt no_faults rw_disk rw_reader 1 (12 + 2) = (r', B "j", Done).
Proof.
  apply (read_behind_end rw_demo (B "/data") rw_disk rw_reader (mkFile 5 [B "file3"]) 2 "j"%byte
           rw_demo_wf eq_refl eq_refl eq_refl eq_refl); [split; reflexivity|reflexivity|reflexivity].
Defined.
