(* ===== verification/Downloader.v ===== *)
(** * The torrent downloader (downloader/torrent.go)

    One download is a conversation over a [PeerConn]: dial, handshake, extended handshake,
    and a loop over the messages of the peer that puts the "info" part together.  Parameters:
    what dialling gives ([dial]: the bytes the peer will send, or an error), how the socket
    writes ([connWrite]) and whether the downloader has been closed when a message has been
    read ([closed], by the number of the round).  The goroutine [requestPieces] only writes:
    the loop records its start, and [requestPieces] says what it sends.

    The channels are queues; sending on a full channel blocks. *)

From S2P Require Import Prelude GoBytes GoNet GoCrypto GoTime Bencode Codec Hash PeerMessage PeerConn.

Definition BlockSize : Z := 16384.
Definition ExtendedMessageNameMetadata : bytes := B "ut_metadata".
Definition UtMetadataExtendedMsgTypeRequest : Z := 0.

Record request : Type := mkRequest { rq_Host : bytes; rq_Port : Z; rq_InfoHash : Hash }.

Record TorrentResponse : Type := mkTorrentResponse {
  tr_Host : bytes;
  tr_Port : Z;
  tr_PeerID : Hash;
  tr_InfoHash : Hash;
  tr_InfoBytes : bytes;
}.

(** [TorrentDownloaderConfig]; [DialTimeout] and [ErrorLog] do not change what is done. *)
Record TorrentDownloaderConfig : Type := mkTDConfig {
  td_ID : Hash;
  td_BlockSize : Z;
  td_WorkerNum : Z;
}.
(** [set]; [random] is [NewRandomHash()]. *)
Definition TorrentDownloaderConfig_set (conf : option TorrentDownloaderConfig) (random : Hash)
    : TorrentDownloaderConfig :=
  let c := default (mkTDConfig zeroHash 0 0) conf in
  mkTDConfig
    (if Hash_IsZero (td_ID c) then random else td_ID c)
    (if td_BlockSize c <=? 0 then BlockSize else td_BlockSize c)
    (if td_WorkerNum c <=? 0 then 128 else td_WorkerNum c).

(** [d_ondht] says whether a callback is set; [d_exit] whether [exit] is closed. *)
Record TorrentDownloader : Type := mkTD {
  d_conf : TorrentDownloaderConfig;
  d_exit : bool;
  d_requests : list request;
  d_responses : list TorrentResponse;
  d_ondht : bool;
  d_ebits : ExtensionBits;
  d_ehmsg : ExtendedHandshakeMsg;
}.

Definition metadata_ehmsg : ExtendedHandshakeMsg :=
  mkExtHandshake [(ExtendedMessageNameMetadata, 1)] [] 0 0 [] [] [] 0.

Definition NewTorrentDownloader (c : option TorrentDownloaderConfig) (random : Hash) : TorrentDownloader :=
  mkTD (TorrentDownloaderConfig_set c random) false [] [] false
    (default zeroExtensionBits (ExtensionBits_Set zeroExtensionBits ExtensionBitExtended)) metadata_ehmsg.

(** [None] when the channel is full and the call waits for a worker. *)
Definition Request (d : TorrentDownloader) (host : bytes) (port : Z) (infohash : Hash)
    : res (option TorrentDownloader) :=
  if Hash_IsZero infohash then Panic
  else if Z.of_nat (length (d_requests d)) <? td_WorkerNum (d_conf d)
  then Ok (Some (mkTD (d_conf d) (d_exit d) (d_requests d ++ [mkRequest host port infohash])
                   (d_responses d) (d_ondht d) (d_ebits d) (d_ehmsg d)))
  else Ok None.

Definition Response (d : TorrentDownloader) : list TorrentResponse := d_responses d.

Definition Close (d : TorrentDownloader) : TorrentDownloader :=
  if d_exit d then d
  else mkTD (d_conf d) true (d_requests d) (d_responses d) (d_ondht d) (d_ebits d) (d_ehmsg d).

Definition OnDHTNode (d : TorrentDownloader) (cb : bool) : TorrentDownloader :=
  mkTD (d_conf d) (d_exit d) (d_requests d) (d_responses d) cb
    (default (d_ebits d)
       ((if cb then ExtensionBits_Set else ExtensionBits_Unset) (d_ebits d) ExtensionBitDHT))
    (d_ehmsg d).

(** ** One download *)

Inductive event : Type :=
  | EvDHTNode (host : bytes) (port : Z)
  | EvRequestPieces (utMetadataID piecesNum : Z)
  | EvRespond (r : TorrentResponse).

(** The variables of the loop; [None] is the nil slice. *)
Record progress : Type := mkProgress {
  p_pieces : option (list bytes);
  p_piecesNum : Z;
  p_metadataSize : Z;
  p_utmetadataID : Z;
}.
Definition progress0 : progress := mkProgress None 0 0 0.

(** How a round of the loop ends: with [continue] (or by falling out of the switch), or with
    a return or a panic. *)
Inductive round : Type :=
  | Continue (p : progress) (evs : list event)
  | Return (evs : list event) (o : outcome).

(** The size of a slice header, and the largest allocation of the runtime (amd64). *)
Definition sliceHeader : Z := 24.
Definition maxAlloc : Z := 2 ^ 48.
Definition make_pieces (piecesNum : Z) : option (list bytes) :=
  if (piecesNum <? 0) || (maxAlloc <? sliceHeader * piecesNum) then None
  else Some (replicate (Z.to_nat piecesNum) []).

Section Download.
Variable d : TorrentDownloader.
Variables (host : bytes) (port : Z) (infohash : Hash).

Definition pieces_of (metadataSize : Z) : Z :=
  let piecesNum := i64 (metadataSize / td_BlockSize (d_conf d)) in
  if negb (metadataSize mod td_BlockSize (d_conf d) =? 0) then i64 (piecesNum + 1) else piecesNum.

Definition on_handshake (p : progress) (payload : bytes) : round :=
  if 0 <? p_utmetadataID p then Return [] (Fail (Errorf "rehandshake from the peer"))
  else
    let '(ehmsg, o) := ExtHandshake_Decode zeroExtHandshake payload in
    match o with
    | Done =>
        let utmetadataID := default 0 (assoc ExtendedMessageNameMetadata (eh_M ehmsg)) in
        if utmetadataID =? 0 then Return [] (Fail (Errorf "the peer does not support ut_metadata"))
        else
          let metadataSize := eh_MetadataSize ehmsg in
          let piecesNum := pieces_of metadataSize in
          match make_pieces piecesNum with
          | None => Return [] Panicked
          | Some pieces =>
              Continue (mkProgress (Some pieces) piecesNum metadataSize utmetadataID)
                [EvRequestPieces utmetadataID piecesNum]
          end
    | o => Return [] o
    end.

(** A piece is missing as long as it is empty. *)
Definition finished (pieces : list bytes) : bool := forallb (fun piece => negb (length piece =? 0)%nat) pieces.

Definition on_data (peerID : Hash) (p : progress) (payload : bytes) : round :=
  match p_pieces p with
  | None => Return [] Done
  | Some pieces =>
      let '(utmsg, o) := DecodeFromPayload (mkUtMetadata 0 0 0 []) payload in
      match o with
      | Done =>
          if negb (um_MsgType utmsg =? UtMetadataExtendedMsgTypeData) then Continue p []
          else
            let pieceLen := Z.of_nat (length (um_Data utmsg)) in
            let lastPiece := um_Piece utmsg =? i64 (p_piecesNum p - 1) in
            if (negb lastPiece && negb (pieceLen =? i64 (td_BlockSize (d_conf d)))) ||
               (lastPiece && negb (pieceLen =? i64 (p_metadataSize p mod td_BlockSize (d_conf d))))
            then Return [] Done
            else if (um_Piece utmsg <? 0) || (Z.of_nat (length pieces) <=? um_Piece utmsg)
            then Return [] Panicked
            else
              let pieces := <[Z.to_nat (um_Piece utmsg) := um_Data utmsg]> pieces in
              if finished pieces then
                let metadataInfo := concat pieces in
                if bool_decide (infohash = Sha1.Sum metadataInfo)
                then Return [EvRespond (mkTorrentResponse host port peerID infohash metadataInfo)] Done
                else Return [] Done
              else Continue (mkProgress (Some pieces) (p_piecesNum p) (p_metadataSize p) (p_utmetadataID p)) []
      | o => Return [] o
      end
  end.

(** What a round does with the message it has read. *)
Definition on_message (peerID : Hash) (p : progress) (msg : Message) : round :=
  if pm_Keepalive msg then Continue p []
  else if pm_Type msg =? MTypeExtended then
    if pm_ExtendedID msg =? ExtendedIDHandshake then on_handshake p (pm_ExtendedPayload msg)
    else if pm_ExtendedID msg =? 1 then on_data peerID p (pm_ExtendedPayload msg)
    else Continue p []
  else if pm_Type msg =? MTypePort then
    Continue p (if d_ondht d then [EvDHTNode host (pm_Port msg)] else [])
  else Continue p [].

Fixpoint download_loop (fuel : nat) (closed : nat -> bool) (n : nat) (conn : PeerConn) (p : progress)
    : list event * outcome :=
  match fuel with
  | O => ([], NoFuel)
  | S fuel =>
      let '(conn, msg, o) := ReadMsg conn in
      match o with
      | Done =>
          if closed n then ([], Done)
          else
            match on_message (pc_PeerID conn) p msg with
            | Return evs o => (evs, o)
            | Continue p evs =>
                let '(evs', o) := download_loop fuel closed (S n) conn p in (evs ++ evs', o)
            end
      | o => ([], o)
      end
  end.

Section IO.
Variable dial : bytes -> res bytes.
Variable connWrite : bytes -> nat * option error.

Definition set_ExtBits (pc : PeerConn) (bits : ExtensionBits) : PeerConn :=
  mkPeerConn (pc_in pc) (pc_out pc) (pc_InfoHash pc) (pc_ID pc) bits (pc_PeerID pc)
    (pc_PeerExtBits pc) (pc_PeerStage pc) (pc_Choked pc) (pc_Interested pc) (pc_PeerChoked pc)
    (pc_PeerInterested pc) (pc_MaxLength pc) (pc_Fasts pc) (pc_Suggests pc) (pc_BitField pc)
    (pc_ExtHandshake pc).

Definition download (closed : nat -> bool) : list event * outcome :=
  let addr := JoinHostPort host (format_uint 10 port) in
  match dial addr with
  | Ok input =>
      let conn := set_ExtBits (NewPeerConn input (td_ID (d_conf d)) infohash) (d_ebits d) in
      let '(conn, err) := PeerConn_Handshake conn in
      match err with
      | Some e => ([], Fail e)
      | None =>
          if negb (IsSupportExtended (pc_PeerExtBits conn))
          then ([], Fail (Errorf "the remote peer does not support Extended"))
          else
            match SendExtHandshakeMsg connWrite None conn (d_ehmsg d) with
            | Ok (conn, None) => download_loop (S (length (pc_in conn))) closed 0 conn progress0
            | Ok (_, Some e) | Err e => ([], Fail e)
            | Panic => ([], Panicked)
            end
      end
  | Err _ => ([], Fail (Errorf "fail to dial"))
  | Panic => ([], Panicked)
  end.

(** [requestPieces]: piece after piece, until a write fails. *)
Fixpoint requestPieces_loop (conn : PeerConn) (utMetadataID : Z) (idx : list Z) : PeerConn * outcome :=
  match idx with
  | [] => (conn, Done)
  | i :: idx =>
      match EncodeToBytes (mkUtMetadata UtMetadataExtendedMsgTypeRequest i 0 []) with
      | Ok payload =>
          let '(conn, err) := WriteMsg connWrite None conn
            (set_Extended (msgOf MTypeExtended) utMetadataID payload) in
          match err with
          | Some _ => (conn, Done)
          | None => requestPieces_loop conn utMetadataID idx
          end
      | _ => (conn, Panicked)
      end
  end.
Definition requestPieces (conn : PeerConn) (utMetadataID piecesNum : Z) : PeerConn * outcome :=
  requestPieces_loop conn utMetadataID (indexes (Z.to_nat piecesNum)).
End IO.
End Download.

(** ** The workers *)

(** One turn of a worker's loop.  When [exit] is closed and a request waits, Go chooses
    either ([prefer_exit]). *)
Inductive turn : Type :=
  | Waits
  | Returns
  | Served (d : TorrentDownloader) (r : request) (evs : list event) (o : outcome).

Definition responses_of (evs : list event) : list TorrentResponse :=
  flat_map (fun e => match e with EvRespond r => [r] | _ => [] end) evs.

Definition worker (dial : bytes -> res bytes) (connWrite : bytes -> nat * option error)
    (closed : nat -> bool) (prefer_exit : bool) (d : TorrentDownloader) : turn :=
  if d_exit d && prefer_exit then Returns
  else
    match d_requests d with
    | [] => if d_exit d then Returns else Waits
    | r :: requests =>
        let '(evs, o) := download d (rq_Host r) (rq_Port r) (rq_InfoHash r) dial connWrite closed in
        Served (mkTD (d_conf d) (d_exit d) requests (d_responses d ++ responses_of evs)
                  (d_ondht d) (d_ebits d) (d_ehmsg d)) r evs o
    end.

Example new_downloader_bits :
  d_ebits (NewTorrentDownloader None zeroHash) = [x00; x00; x00; x00; x00; x10; x00; x00].
Proof. vm_compute. reflexivity. Qed.
