(* ===== verification/DownloaderThms.v ===== *)
(** * Theorems about the torrent downloader

    Whatever a peer sends, only an "info" part with the requested hash is delivered, and at
    most once; a peer that serves every piece gets the download done, in any order of the
    pieces; an "info" part whose size is a multiple of the block is never delivered. *)

From S2P Require Import Prelude GoBytes GoNet GoCrypto GoTime Bencode BencodeRoundtrip BencodeStruct Codec Hash.
From S2P Require Import PeerMessage PeerMessageThms PeerConn PeerConnThms PeerExtThms Downloader.

(** ** Safety *)

Lemma responses_of_app x y : responses_of (x ++ y) = responses_of x ++ responses_of y.
Proof. apply flat_map_app. Qed.

Section Safety.
Variables (host : bytes) (port : Z) (infohash : Hash).

(** What a delivered response says. *)
Definition verified (r : TorrentResponse) : Prop :=
  tr_Host r = host /\ tr_Port r = port /\ tr_InfoHash r = infohash /\ Sha1.Sum (tr_InfoBytes r) = infohash.

(** Nothing is delivered, or one verified response and a normal return. *)
Definition one_verified (evs : list event) (o : outcome) : Prop :=
  responses_of evs = [] \/ exists r, responses_of evs = [r] /\ verified r /\ o = Done.

Definition round_safe (x : round) : Prop :=
  match x with
  | Continue _ evs => responses_of evs = []
  | Return evs o => one_verified evs o /\ o <> NoFuel
  end.

End Safety.

Lemma Decode_fuel d t v d' v' o : Decode d t v = (d', v', o) -> o <> NoFuel.
Proof. intros E. apply BencodeFacts.Decode_spec in E as (_ & _ & E). apply E. lia. Qed.

Lemma DecodeFromPayload_fuel um b um' o : DecodeFromPayload um b = (um', o) -> o <> NoFuel.
Proof.
  unfold DecodeFromPayload. destruct (Decode _ _ _) as [[d' v] o'] eqn:E. apply Decode_fuel in E.
  repeat case_match; naive_solver.
Qed.

Lemma ExtHandshake_Decode_fuel m b m' o : ExtHandshake_Decode m b = (m', o) -> o <> NoFuel.
Proof.
  unfold ExtHandshake_Decode, DecodeBytes. destruct (Decode _ _ _) as [[d' v] o'] eqn:E.
  apply Decode_fuel in E. naive_solver.
Qed.

Lemma on_handshake_safe d host port infohash p payload :
  round_safe host port infohash (on_handshake d p payload).
Proof.
  unfold on_handshake. destruct (_ <? _); [by split; [left|]|].
  destruct (ExtHandshake_Decode _ _) as [m o] eqn:E. apply ExtHandshake_Decode_fuel in E.
  destruct o; try (by split; [left|]). destruct (_ =? 0); [by split; [left|]|].
  destruct (make_pieces _); [done|by split; [left|]].
Qed.

Lemma on_data_safe d host port infohash id p payload :
  round_safe host port infohash (on_data d host port infohash id p payload).
Proof.
  unfold on_data. destruct (p_pieces p) as [ps|]; [|by split; [left|]].
  destruct (DecodeFromPayload _ _) as [um o] eqn:E. apply DecodeFromPayload_fuel in E.
  destruct o; try (by split; [left|]). destruct (negb _); [done|]. cbv zeta.
  destruct (_ || _); [by split; [left|]|]. destruct (_ || _); [by split; [left|]|].
  destruct (finished _); [|done]. case_bool_decide as H; [|by split; [left|]].
  split; [|done]. right. eexists. split; [done|]. by repeat split.
Qed.

Lemma on_message_safe d host port infohash id p msg :
  round_safe host port infohash (on_message d host port infohash id p msg).
Proof.
  unfold on_message. destruct (pm_Keepalive msg); [done|]. destruct (_ =? _).
  - destruct (_ =? _); [apply on_handshake_safe|]. destruct (_ =? _); [apply on_data_safe|done].
  - destruct (_ =? _); [by destruct (d_ondht d)|done].
Qed.

Lemma loop_safe d host port infohash closed fuel n conn p evs o :
  (length (pc_in conn) < fuel)%nat ->
  download_loop d host port infohash fuel closed n conn p = (evs, o) ->
  one_verified host port infohash evs o /\ o <> NoFuel.
Proof.
  revert n conn p evs. induction fuel as [|fuel IH]; intros n conn p evs Hf; [lia|]. cbn [download_loop].
  destruct (ReadMsg conn) as [[conn' msg] o'] eqn:E. pose proof (ReadMsg_fuel _ _ _ _ E) as Ho.
  destruct o'; try (intros [= <- <-]; split; [by left|naive_solver]).
  apply ReadMsg_Done in E as [El _]. destruct (closed n); [intros [= <- <-]; by split; [left|]|].
  pose proof (on_message_safe d host port infohash (pc_PeerID conn') p msg) as Hm.
  destruct (on_message _ _ _ _ _ _ _) as [p' evs1|evs1 o1].
  - destruct (download_loop _ _ _ _ _ _ _ _ _) as [evs2 o2] eqn:E2. intros [= <- <-].
    assert (responses_of (evs1 ++ evs2) = responses_of evs2) as Ee by (rewrite responses_of_app; by rewrite Hm).
    apply IH in E2; [|lia]. unfold one_verified in *. by rewrite Ee.
  - by intros [= <- <-].
Qed.

Lemma download_safe d host port infohash dial connWrite closed evs o :
  download d host port infohash dial connWrite closed = (evs, o) ->
  one_verified host port infohash evs o /\ o <> NoFuel.
Proof.
  unfold download. destruct (dial _) as [input|e|]; try (intros [= <- <-]; by split; [left|]).
  destruct (PeerConn_Handshake _) as [c1 [e|]]; [intros [= <- <-]; by split; [left|]|].
  destruct (negb _); [intros [= <- <-]; by split; [left|]|].
  destruct (SendExtHandshakeMsg _ _ _ _) as [[c2 [e|]]|e|]; try (intros [= <- <-]; by split; [left|]).
  apply loop_safe. lia.
Qed.

(** ** The downloader as a whole *)

Section System.
Variables (dial : bytes -> res bytes) (connWrite : bytes -> nat * option error).

(** What can happen to a downloader: its methods, a turn of a worker, and the client taking a
    response.  A turn that panics ends the program. *)
Inductive dstep (d : TorrentDownloader) : TorrentDownloader -> Prop :=
  | step_Request host port infohash d' : Request d host port infohash = Ok (Some d') -> dstep d d'
  | step_Close : dstep d (Close d)
  | step_OnDHTNode cb : dstep d (OnDHTNode d cb)
  | step_worker closed prefer_exit d' r evs o :
      worker dial connWrite closed prefer_exit d = Served d' r evs o -> o <> Panicked -> dstep d d'
  | step_receive r rest :
      d_responses d = r :: rest ->
      dstep d (mkTD (d_conf d) (d_exit d) (d_requests d) rest (d_ondht d) (d_ebits d) (d_ehmsg d)).

(** The bits of the downloader: Extended always, DHT exactly when a callback is set. *)
Definition downloader_bits (ondht : bool) : ExtensionBits :=
  [x00; x00; x00; x00; x00; x10; x00; if ondht then x01 else x00].

Record downloader_ok (d : TorrentDownloader) : Prop := {
  ok_responses : Forall (fun r => Sha1.Sum (tr_InfoBytes r) = tr_InfoHash r /\ tr_InfoHash r <> zeroHash)
                   (d_responses d);
  ok_requests : Forall (fun r => rq_InfoHash r <> zeroHash) (d_requests d);
  ok_queue : Z.of_nat (length (d_requests d)) <= td_WorkerNum (d_conf d);
  ok_workers : 0 < td_WorkerNum (d_conf d);
  ok_block : 0 < td_BlockSize (d_conf d);
  ok_bits : d_ebits d = downloader_bits (d_ondht d);
  ok_ehmsg : d_ehmsg d = metadata_ehmsg;
}.

Lemma downloader_ok_new c random : downloader_ok (NewTorrentDownloader c random).
Proof.
  split; simpl; try done; try (by constructor).
  all: unfold TorrentDownloaderConfig_set, BlockSize; simpl; destruct (Z.leb_spec (td_WorkerNum (default (mkTDConfig zeroHash 0 0) c)) 0);
    destruct (Z.leb_spec (td_BlockSize (default (mkTDConfig zeroHash 0 0) c)) 0); lia.
Qed.

Lemma worker_ok closed prefer_exit d d' r evs o :
  worker dial connWrite closed prefer_exit d = Served d' r evs o -> downloader_ok d -> downloader_ok d'.
Proof.
  unfold worker. destruct (_ && _); [done|]. destruct (d_requests d) as [|r1 rs] eqn:Er; [by destruct (d_exit d)|].
  destruct (download _ _ _ _ _ _ _) as [evs1 o1] eqn:E. apply download_safe in E as [E _].
  intros [= <- <- <- <-] []. rewrite Er in *. apply Forall_cons in ok_requests0 as [Hr Hrs].
  split; simpl in *; try done; [|lia].
  apply Forall_app. split; [done|]. destruct E as [->|(r & -> & (_ & _ & Hi & Hs) & _)]; constructor; [|done].
  by rewrite Hi.
Qed.

Lemma dstep_ok d d' : dstep d d' -> downloader_ok d -> downloader_ok d'.
Proof.
  intros [host port infohash d1 E| |cb|closed pe d1 r evs o E _|r rest E] H.
  - unfold Request in E. unfold Hash_IsZero in E. case_bool_decide as Hz; [done|].
    destruct (Z.ltb_spec (Z.of_nat (length (d_requests d))) (td_WorkerNum (d_conf d))); [|done].
    injection E as <-. destruct H. split; simpl; try done.
    + apply Forall_app. split; [done|]. by constructor.
    + rewrite length_app. simpl. lia.
  - unfold Close. destruct (d_exit d); [done|]. by destruct H; split.
  - destruct H. split; try done. simpl. rewrite ok_bits0. by destruct cb, (d_ondht d).
  - by eapply worker_ok.
  - destruct H. rewrite E in *. apply Forall_cons in ok_responses0 as [_ ?]. by split.
Qed.

(** [C25] Whatever peers send, whenever it is closed and however requests, callbacks and
    workers interleave: every response a downloader holds for its client carries bytes whose
    SHA-1 is the requested hash, which is never zero; at most [WorkerNum] requests wait;
    and its handshakes announce the extension protocol, and DHT exactly while a callback is set. *)
Theorem downloader_invariant c random d :
  rtc dstep (NewTorrentDownloader c random) d -> downloader_ok d.
Proof.
  intros H. assert (downloader_ok (NewTorrentDownloader c random)) as H0 by apply downloader_ok_new.
  revert H0. induction H; eauto using dstep_ok.
Qed.

(** [C26] One download delivers nothing, or a single response, the one asked for, as the last
    thing it does: host and port of the request, the id of the handshake behind the socket,
    and bytes that hash to the requested hash; and it always comes to an end, one round per
    message at most. *)
Theorem download_delivers_verified d host port infohash closed evs o :
  download d host port infohash dial connWrite closed = (evs, o) ->
  o <> NoFuel /\
  (responses_of evs = [] \/
   exists r, responses_of evs = [r] /\ o = Done /\ tr_Host r = host /\ tr_Port r = port /\
     tr_InfoHash r = infohash /\ Sha1.Sum (tr_InfoBytes r) = infohash).
Proof.
  intros E. apply download_safe in E as [[E|(r & E & (H1 & H2 & H3 & H4) & ->)] Ho]; (split; [done|]).
  - by left.
  - right. by exists r.
Qed.
End System.

(** ** Talking to a peer *)

(** A message as it goes over the wire: the fields of its type and no others, and short
    enough for the reader of a connection. *)
Record sendable (m : Message) : Prop := {
  sd_typed : typed m;
  sd_index : index_lost (pm_Type m) = false;
  sd_fields : relevant m = m;
  sd_short : Z.of_nat (length (Message_Encode m)) - 4 <= 256 * 1024 }.

Definition stream (ms : list Message) : bytes := concat (map Message_Encode ms).
Definition late (m : Message) : Prop := first_only (pm_Type m) = false.

(** The peer of [conn] is going to send [ms] and then [rest]. *)
Record talk (conn : PeerConn) (ms : list Message) (rest : bytes) (peerID : Hash) : Prop := {
  tk_in : pc_in conn = stream ms ++ rest;
  tk_max : pc_MaxLength conn = 256 * 1024;
  tk_id : pc_PeerID conn = peerID;
  tk_sendable : Forall sendable ms;
  tk_stage : if IsHandshook (pc_PeerStage conn) then Forall late (tail ms) else Forall late ms }.

Lemma talk_read conn m ms rest peerID :
  talk conn (m :: ms) rest peerID ->
  exists conn', ReadMsg conn = (conn', m, Done) /\ talk conn' ms rest peerID.
Proof.
  intros [Hin Hmax Hid Hs Hst]. apply Forall_cons in Hs as [[Ht Hi Hf Hl] Hs].
  unfold ReadMsg. rewrite Hin, Hmax. unfold stream. cbn [map concat]. rewrite <- app_assoc.
  rewrite Message_Decode_encode by (done || lia). rewrite Hf.
  fold (first_only (pm_Type m)). cbn [pc_PeerStage pc_set_io].
  destruct (IsHandshook (pc_PeerStage conn)) eqn:Hh; cbn [negb andb].
  - rewrite andb_false_r. eexists. split; [done|]. by split.
  - apply Forall_cons in Hst as [Hm Hst]. unfold late in Hm. rewrite Hm. cbn [andb].
    eexists. split; [done|]. split; try done. simpl. rewrite Hh. done.
Qed.

(** The conversation itself: the loop of [download] on the messages, [None] when it is still
    running after the last of them. *)
Fixpoint converse (d : TorrentDownloader) (host : bytes) (port : Z) (infohash peerID : Hash)
    (p : progress) (ms : list Message) : option (list event * outcome) :=
  match ms with
  | [] => None
  | m :: ms =>
      match on_message d host port infohash peerID p m with
      | Return evs o => Some (evs, o)
      | Continue p evs =>
          option_map (fun x => (evs ++ fst x, snd x)) (converse d host port infohash peerID p ms)
      end
  end.

Lemma loop_converse d host port infohash fuel n conn p ms rest peerID x :
  talk conn ms rest peerID -> (length (pc_in conn) < fuel)%nat ->
  converse d host port infohash peerID p ms = Some x ->
  download_loop d host port infohash fuel (fun _ => false) n conn p = x.
Proof.
  revert n conn p ms x. induction fuel as [|fuel IH]; intros n conn p ms x Ht Hf E; [lia|].
  destruct ms as [|m ms]; [done|]. cbn [converse download_loop] in *.
  apply talk_read in Ht as (conn' & Er & Ht). rewrite Er. pose proof (tk_id _ _ _ _ Ht) as ->.
  apply ReadMsg_Done in Er as [Hl _].
  destruct (on_message _ _ _ _ _ _ _) as [p' evs|evs o]; [|by injection E].
  destruct (converse _ _ _ _ _ _ ms) as [[evs' o]|] eqn:Ec; [|done].
  rewrite (IH (S n) conn' p' ms (evs', o)) by (done || lia). by injection E.
Qed.

(** A peer that can be reached, answers the handshake for [infohash] with the extension bit
    and then sends [ms]. *)
Record reachable_peer (dial : bytes -> res bytes) (host : bytes) (port : Z) (infohash peerID : Hash)
    (bits : ExtensionBits) (ms : list Message) (rest : bytes) : Prop := {
  rp_dial : dial (JoinHostPort host (format_uint 10 port)) =
    Ok (handshake_bytes (mkHandshakeMsg bits peerID infohash) ++ stream ms ++ rest);
  rp_wf : hm_wf (mkHandshakeMsg bits peerID infohash);
  rp_infohash : infohash <> zeroHash;
  rp_extended : IsSupportExtended bits = true;
  rp_sendable : Forall sendable ms;
  rp_first : Forall late (tail ms) }.

Definition good_socket : bytes -> nat * option error := fun b => (length b, None).

Lemma metadata_ehmsg_wf : ExtHandshake_wf metadata_ehmsg.
Proof.
  split; try (unfold is_u16; simpl; lia); try done.
  - apply (bool_decide_unpack _). vm_compute. exact I.
  - by repeat constructor.
  - by left.
  - by left.
  - by left.
Qed.

Lemma download_converse d dial host port infohash peerID bits ms rest x :
  downloader_ok d -> reachable_peer dial host port infohash peerID bits ms rest ->
  converse d host port infohash peerID progress0 ms = Some x ->
  download d host port infohash dial good_socket (fun _ => false) = x.
Proof.
  intros Hd [Hdial Hwf Hz Hext Hs Hf] E. unfold download. rewrite Hdial.
  set (input := _ ++ _). edestruct (PeerConn_Handshake_client (set_ExtBits (NewPeerConn input (td_ID (d_conf d)) infohash) (d_ebits d)))
    as (c & Ec & Hin & Hst & Hmax & Hid & Hbits); [done|done|exact Hz|exact Hwf|reflexivity|].
  rewrite Ec, Hbits, Hext. cbn [negb]. unfold SendExtHandshakeMsg.
  rewrite (ok_ehmsg _ Hd), (ExtHandshake_enc _ metadata_ehmsg_wf). unfold SendExtMsg, WriteMsg, good_socket.
  rewrite (proj2 (Nat.ltb_ge _ _)) by done.
  eapply loop_converse; [|lia|exact E]. split; try done. simpl. by rewrite Hst.
Qed.

(** ** Putting the pieces together *)

Definition payload_of (x : res bytes) : bytes := match x with Ok b => b | _ => [] end.

(** The messages of a peer that serves [data]: its extended handshake, and one block under
    the id the downloader has announced for "ut_metadata". *)
Definition ext_handshake_msg (eh : ExtendedHandshakeMsg) : Message :=
  set_Extended (msgOf MTypeExtended) ExtendedIDHandshake
    (payload_of (EncodeBytes ExtHandshakeT (ExtHandshake_val eh))).
Definition metadata_msg (um : UtMetadataExtendedMsg) : Message :=
  set_Extended (msgOf MTypeExtended) 1 (payload_of (EncodeToBytes um)).
Definition block (B : Z) (data : bytes) (i : nat) : bytes :=
  take (Z.to_nat B) (drop (i * Z.to_nat B) data).
Definition data_msg (B : Z) (data : bytes) (i : nat) (total : Z) : Message :=
  metadata_msg (mkUtMetadata UtMetadataExtendedMsgTypeData (Z.of_nat i) total (block B data i)).

(** Messages the downloader passes over, at any time... *)
Definition quiet (m : Message) : Prop :=
  pm_Keepalive m = true \/ pm_Type m <> MTypeExtended \/
  (pm_ExtendedID m <> ExtendedIDHandshake /\ pm_ExtendedID m <> 1).

(** ...and, after the extended handshake, also requests and rejections of pieces. *)
Inductive useful (B : Z) (data : bytes) (num : nat) : Message -> Prop :=
  | useful_quiet m : quiet m -> useful B data num m
  | useful_other um :
      UtMetadata_wf um -> um_MsgType um <> UtMetadataExtendedMsgTypeData -> useful B data num (metadata_msg um)
  | useful_data i total : (i < num)%nat -> is_u64 total -> useful B data num (data_msg B data i total).

Lemma blocks_concat B data n : 0 < B ->
  concat (map (block B data) (seq 0 n)) = take (n * Z.to_nat B) data.
Proof.
  intros HB. induction n as [|n IH]; [done|].
  rewrite seq_S, map_app, concat_app, IH. cbn [map concat]. rewrite app_nil_r. unfold block. simpl.
  rewrite take_take_drop. f_equal. lia.
Qed.

Lemma assoc_perm {A} (k : bytes) (l l' : list (bytes * A)) :
  l ≡ₚ l' -> NoDup (map fst l') -> assoc k l = assoc k l'.
Proof.
  induction 1 as [|[k1 v1] l l' _ IH|[k1 v1] [k2 v2] l|l l1 l2 H1 IH1 H2 IH2]; intros Hnd; simpl in *.
  - done.
  - apply NoDup_cons in Hnd as [_ Hnd]. by rewrite IH.
  - apply NoDup_cons in Hnd as [Hk _]. do 2 case_bool_decide; try done. subst. set_solver.
  - rewrite IH1, IH2; [done|done|]. by rewrite H2.
Qed.

Section Assembly.
Variables (d : TorrentDownloader) (host : bytes) (port : Z) (peerID : Hash) (data : bytes) (id : Z).
Let B : Z := td_BlockSize (d_conf d).
Let size : Z := Z.of_nat (length data).
Let num : nat := Z.to_nat (size / B + 1).
Hypothesis HB : 0 < B < 2 ^ 63.
Hypothesis Hmod : size mod B <> 0.
Hypothesis Halloc : 24 * (size / B + 1) <= maxAlloc.

Lemma num_bounds : Z.of_nat num = size / B + 1 /\ 0 <= size / B /\ Z.of_nat num < 2 ^ 47.
Proof.
  assert (0 <= size / B) by (apply Z.div_pos; unfold size; lia).
  unfold maxAlloc in Halloc. unfold num. lia.
Qed.

Lemma pieces_of_num : pieces_of d size = Z.of_nat num.
Proof.
  destruct num_bounds as (Hn & H0 & Hlt). unfold pieces_of. fold B.
  rewrite !i64_id by (unfold is_i64; rewrite ?i64_id by (unfold is_i64; lia); lia).
  destruct (Z.eqb_spec (size mod B) 0); [done|]. by rewrite Hn.
Qed.

Lemma make_pieces_num : make_pieces (Z.of_nat num) = Some (replicate num []).
Proof.
  destruct num_bounds as (Hn & H0 & Hlt). unfold make_pieces, sliceHeader. rewrite Nat2Z.id.
  destruct (Z.ltb_spec (Z.of_nat num) 0); [lia|].
  destruct (Z.ltb_spec maxAlloc (24 * Z.of_nat num)); [lia|done].
Qed.

Lemma length_block i : (i < num)%nat ->
  Z.of_nat (length (block B data i)) = if (Z.of_nat i =? Z.of_nat num - 1) then size mod B else B.
Proof.
  intros Hi. destruct num_bounds as (Hn & H0 & Hlt). unfold block. rewrite length_take, length_drop.
  assert (Hs : size = B * (size / B) + size mod B) by (apply Z.div_mod; lia).
  assert (Hm : 0 <= size mod B < B) by (apply Z.mod_pos_bound; lia).
  unfold size in *. destruct (Z.eqb_spec (Z.of_nat i) (Z.of_nat num - 1)); nia.
Qed.

(** The state of a download: piece [i] is its block or still missing. *)
Definition partial (ps : list bytes) : Prop :=
  length ps = num /\ forall i, (i < num)%nat -> ps !! i = Some [] \/ ps !! i = Some (block B data i).

Definition state (ps : list bytes) : progress := mkProgress (Some ps) (Z.of_nat num) size id.

Lemma block_nonempty i : (i < num)%nat -> block B data i <> [].
Proof.
  intros Hi E. apply length_block in Hi. rewrite E in Hi. simpl in Hi.
  destruct (_ =? _) in Hi; lia.
Qed.

Lemma finished_iff ps : partial ps ->
  finished ps = true <-> forall i, (i < num)%nat -> ps !! i = Some (block B data i).
Proof.
  intros [Hl Hp]. unfold finished. rewrite forallb_forall. split.
  - intros H i Hi. destruct (Hp i Hi) as [E|E]; [|done].
    apply list_elem_of_lookup_2, list_elem_of_In, H in E. done.
  - intros H x Hx. apply list_elem_of_In, list_elem_of_lookup in Hx as [i Hx].
    assert (Hi : (i < num)%nat) by (rewrite <- Hl; by eapply lookup_lt_Some).
    rewrite (H i Hi) in Hx. injection Hx as <-. pose proof (block_nonempty i Hi). by destruct (block B data i).
Qed.

Lemma finished_concat ps : partial ps -> finished ps = true -> concat ps = data.
Proof.
  intros Hp Hf. pose proof (proj1 (finished_iff ps Hp) Hf) as H. destruct Hp as [Hl _].
  assert (ps = map (block B data) (seq 0 num)) as ->.
  { apply list_eq. intros i. change (map ?f) with (fmap (M := list) f). rewrite list_lookup_fmap.
    destruct (decide (i < num)%nat) as [Hi|Hi].
    - rewrite H by done. rewrite lookup_seq_lt by done. done.
    - rewrite (lookup_ge_None_2 ps) by lia. rewrite lookup_seq_ge by lia. done. }
  rewrite blocks_concat by lia. apply firstn_all2. destruct num_bounds as (Hn & H0 & Hlt).
  pose proof (Z.div_mod size B). pose proof (Z.mod_pos_bound size B). unfold size in *. nia.
Qed.

Lemma partial_insert ps i : partial ps -> partial (<[i := block B data i]> ps).
Proof.
  intros [Hl Hp]. split; [by rewrite length_insert|]. intros j Hj.
  destruct (decide (i = j)) as [<-|]; [right; apply list_lookup_insert_eq; lia|].
  rewrite list_lookup_insert_ne by done. auto.
Qed.

Lemma quiet_round infohash p m : quiet m ->
  exists evs, on_message d host port infohash peerID p m = Continue p evs.
Proof.
  intros H. unfold on_message. destruct (pm_Keepalive m) eqn:Hk; [by eexists|].
  destruct (Z.eqb_spec (pm_Type m) MTypeExtended) as [Ht|]; [|destruct (_ =? _); by eexists].
  destruct H as [H|[H|[H1 H2]]]; [congruence|done|].
  rewrite (proj2 (Z.eqb_neq _ _) H1), (proj2 (Z.eqb_neq _ _) H2). by eexists.
Qed.

Lemma metadata_round infohash p um :
  on_message d host port infohash peerID p (metadata_msg um) =
  on_data d host port infohash peerID p (UtMetadata_payload (sent um)).
Proof. unfold metadata_msg. rewrite EncodeToBytes_payload. done. Qed.
Definition response : TorrentResponse := mkTorrentResponse host port peerID (Sha1.Sum data) data.

Lemma data_wf i total : (i < num)%nat -> is_u64 total ->
  UtMetadata_wf (mkUtMetadata UtMetadataExtendedMsgTypeData (Z.of_nat i) total (block B data i)).
Proof.
  intros Hi Ht. destruct num_bounds as (Hn & H0 & Hlt).
  split; simpl; [unfold is_u8, UtMetadataExtendedMsgTypeData; lia|unfold is_i64; lia|exact Ht].
Qed.

Lemma data_round ps i total : partial ps -> (i < num)%nat -> is_u64 total ->
  on_message d host port (Sha1.Sum data) peerID (state ps) (data_msg B data i total) =
  (let ps := <[i := block B data i]> ps in
   if finished ps then Return [EvRespond response] Done else Continue (state ps) []).
Proof.
  intros Hp Hi Ht. unfold data_msg. rewrite metadata_round. unfold on_data, state.
  cbn [p_pieces p_piecesNum p_metadataSize p_utmetadataID].
  unfold sent. cbn [um_MsgType]. rewrite Z.eqb_refl, DecodeFromPayload_payload by by apply data_wf.
  cbn [um_MsgType um_Piece um_Data]. rewrite Z.eqb_refl. cbn [negb]. cbv zeta.
  destruct num_bounds as (Hn & H0 & Hlt). fold B. rewrite length_block by done.
  assert (0 <= size mod B < B) by (apply Z.mod_pos_bound; lia).
  rewrite !i64_id by (unfold is_i64; lia). rewrite Nat2Z.id.
  assert (Hg : forall b : bool, (negb b && negb ((if b then size mod B else B) =? B)) ||
     (b && negb ((if b then size mod B else B) =? size mod B)) = false).
  { intros []; rewrite Z.eqb_refl; done. }
  rewrite Hg. destruct (Z.ltb_spec (Z.of_nat i) 0); [lia|].
  destruct Hp as [Hl Hp]. rewrite Hl. destruct (Z.leb_spec (Z.of_nat num) (Z.of_nat i)); [lia|]. cbn [orb].
  destruct (finished _) eqn:Hf; [|done]. apply finished_concat in Hf; [|by apply partial_insert; split].
  rewrite Hf, bool_decide_eq_true_2 by done. done.
Qed.

Lemma useful_round ps m : partial ps -> useful B data num m ->
  (exists evs, on_message d host port (Sha1.Sum data) peerID (state ps) m = Continue (state ps) evs) \/
  exists i total, (i < num)%nat /\ is_u64 total /\ m = data_msg B data i total.
Proof.
  intros Hp [m' Hq|um Hw Ht|i total Hi Ht].
  - left. by apply quiet_round.
  - left. exists []. rewrite metadata_round. unfold on_data, state. cbn [p_pieces].
    rewrite DecodeFromPayload_payload by by apply sent_wf. unfold sent. apply Z.eqb_neq in Ht.
    rewrite Ht. cbn [um_MsgType]. by rewrite Ht.
  - right. by exists i, total.
Qed.

Lemma converse_completes ps ms :
  partial ps -> finished ps = false -> Forall (useful B data num) ms ->
  (forall i, (i < num)%nat -> ps !! i = Some [] -> exists total, is_u64 total /\ data_msg B data i total ∈ ms) ->
  exists evs, converse d host port (Sha1.Sum data) peerID (state ps) ms = Some (evs ++ [EvRespond response], Done).
Proof.
  revert ps. induction ms as [|m ms IH]; intros ps Hp Hf Hu Hin.
  { assert (finished ps = true); [|congruence]. apply finished_iff; [done|]. intros i Hi.
    destruct Hp as [Hl Hp]. destruct (Hp i Hi) as [E|E]; [|done].
    destruct (Hin i Hi E) as (? & _ & ?). set_solver. }
  apply Forall_cons in Hu as [Hm Hu]. cbn [converse].
  destruct (useful_round ps m Hp Hm) as [[evs E]|(i & total & Hi & Ht & ->)].
  - rewrite E. destruct (IH ps Hp Hf Hu) as [evs' ->].
    + intros i Hi Hmiss. destruct (Hin i Hi Hmiss) as (total & Ht & [Em|]%elem_of_cons); [|by eauto].
      rewrite <- Em, data_round in E by done. cbv zeta in E. destruct (finished (<[_:=_]> ps)); [done|].
      injection E as E _. apply (f_equal (.!! i)) in E. rewrite Hmiss in E.
      rewrite list_lookup_insert_eq in E by (destruct Hp; lia). injection E as E.
      by apply block_nonempty in E.
    + exists (evs ++ evs'). cbn [option_map fst snd]. by rewrite app_assoc.
  - rewrite data_round by done. cbv zeta.
    destruct (finished (<[i := block B data i]> ps)) eqn:Hf'; [by exists []|].
    destruct (IH _ (partial_insert ps i Hp) Hf' Hu) as [evs' ->]; [|by exists evs'].
    intros j Hj Hmiss. destruct (decide (i = j)) as [<-|Hne].
    + rewrite list_lookup_insert_eq in Hmiss by (destruct Hp; lia). injection Hmiss as E. by apply block_nonempty in E.
    + rewrite list_lookup_insert_ne in Hmiss by done.
      destruct (Hin j Hj Hmiss) as (total' & Ht' & [Em|]%elem_of_cons); [|by eauto].
      pose proof (data_round ps i total Hp Hi Ht) as E. rewrite <- Em, data_round in E by done. cbv zeta in E.
      rewrite Hf' in E. destruct (finished (<[j := _]> ps)); [done|]. injection E as E.
      apply (f_equal (.!! j)) in E. rewrite list_lookup_insert_eq in E by (destruct Hp; lia).
      rewrite list_lookup_insert_ne, Hmiss in E by done. injection E as E. by apply block_nonempty in E.
Qed.

Lemma handshake_round infohash eh :
  ExtHandshake_wf eh -> id <> 0 -> assoc ExtendedMessageNameMetadata (eh_M eh) = Some id ->
  eh_MetadataSize eh = size ->
  on_message d host port infohash peerID progress0 (ext_handshake_msg eh) =
  Continue (state (replicate num [])) [EvRequestPieces id (Z.of_nat num)].
Proof.
  intros Hw Hid Ha Hsize. unfold ext_handshake_msg. rewrite ExtHandshake_enc by done.
  unfold on_message. cbn [payload_of pm_Keepalive pm_Type pm_ExtendedID pm_ExtendedPayload set_Extended msgOf set_Type zeroMessage].
  rewrite !Z.eqb_refl. unfold on_handshake. cbn [p_utmetadataID progress0 Z.ltb Z.compare].
  rewrite ExtHandshake_Decode_bytes by done. cbn [received_ext eh_M eh_MetadataSize].
  rewrite (assoc_perm _ _ (eh_M eh)), Ha by (by rewrite ?sort_by_key_perm || apply Hw). simpl default.
  unfold Datatypes.id. rewrite (proj2 (Z.eqb_neq _ _) Hid). rewrite Hsize, pieces_of_num, make_pieces_num. done.
Qed.

Lemma partial_start : partial (replicate num []).
Proof. split; [apply length_replicate|]. intros i Hi. left. by apply lookup_replicate_2. Qed.
Lemma start_unfinished : finished (replicate num []) = false.
Proof. destruct num_bounds as (Hn & H0 & Hlt). destruct num; [lia|done]. Qed.
End Assembly.

(** A peer with the "info" part [data]: it speaks the protocol, announces "ut_metadata" and the
    size, and sends every block at least once, in any order, between other messages. *)
Record serves (d : TorrentDownloader) (dial : bytes -> res bytes) (host : bytes) (port : Z)
    (peerID : Hash) (bits : ExtensionBits) (eh : ExtendedHandshakeMsg) (data : bytes)
    (before after : list Message) (rest : bytes) : Prop := {
  sv_peer : reachable_peer dial host port (Sha1.Sum data) peerID bits
              (before ++ ext_handshake_msg eh :: after) rest;
  sv_handshake : ExtHandshake_wf eh;
  sv_metadata : exists id, id <> 0 /\ assoc ExtendedMessageNameMetadata (eh_M eh) = Some id;
  sv_size : eh_MetadataSize eh = Z.of_nat (length data);
  sv_alloc : 24 * (Z.of_nat (length data) / td_BlockSize (d_conf d) + 1) <= maxAlloc;
  sv_before : Forall quiet before;
  sv_after : Forall (useful (td_BlockSize (d_conf d)) data
                (Z.to_nat (Z.of_nat (length data) / td_BlockSize (d_conf d) + 1))) after;
  sv_blocks : forall i, (i < Z.to_nat (Z.of_nat (length data) / td_BlockSize (d_conf d) + 1))%nat ->
    exists total, is_u64 total /\ data_msg (td_BlockSize (d_conf d)) data i total ∈ after }.

Lemma converse_quiet d host port infohash peerID p before ms x :
  Forall quiet before -> converse d host port infohash peerID p ms = Some x ->
  exists evs, converse d host port infohash peerID p (before ++ ms) = Some (evs ++ x.1, x.2).
Proof.
  intros Hq E. induction Hq as [|m before Hm _ [evs IH]]; [exists []; by destruct x|].
  destruct (quiet_round d host port peerID infohash p m Hm) as [evs1 Em].
  exists (evs1 ++ evs). cbn [app converse]. rewrite Em, IH. cbn [option_map fst snd]. by rewrite app_assoc.
Qed.

(** [C27] A download from a peer that serves the whole "info" part completes, with exactly its
    bytes: the pieces may come in any order, repeated, and between other messages, and what
    the peer would send later does not matter.  The size must not be a multiple of the block size: such an
    info part is never delivered ([multiple_of_block_never_delivered]).  The peer accepts the connection and
    the handshake, announces an id of "ut_metadata" other than 0 and the right size, for which the slice of
    pieces can be allocated, and nobody closes the downloader ([serves]). *)
Theorem download_completes d dial host port peerID bits eh data before after rest :
  downloader_ok d -> td_BlockSize (d_conf d) < 2 ^ 63 ->
  Z.of_nat (length data) mod td_BlockSize (d_conf d) <> 0 ->
  serves d dial host port peerID bits eh data before after rest ->
  exists evs,
    download d host port (Sha1.Sum data) dial good_socket (fun _ => false) =
    (evs ++ [EvRespond (mkTorrentResponse host port peerID (Sha1.Sum data) data)], Done).
Proof.
  intros Hd HB Hmod [Hp Hw (id & Hid & Ha) Hsize Halloc Hbe Haf Hbl].
  assert (HB' : 0 < td_BlockSize (d_conf d) < 2 ^ 63) by (split; [apply Hd|done]).
  destruct (converse_completes d host port peerID data id HB' Hmod Halloc
    (replicate (Z.to_nat (Z.of_nat (length data) / td_BlockSize (d_conf d) + 1)) []) after) as [evs E].
  - by apply partial_start.
  - by apply start_unfinished.
  - exact Haf.
  - intros i Hi _. by apply Hbl.
  - edestruct (converse_quiet d host port (Sha1.Sum data) peerID progress0 before
      (ext_handshake_msg eh :: after)) as [evs' E']; [exact Hbe| |].
    { cbn [converse]. rewrite (handshake_round d host port peerID data id) by done. by rewrite E. }
    cbn [option_map fst snd] in E'. rewrite !app_assoc in E'.
    eexists. by eapply download_converse.
Qed.

(** ** What is never delivered *)

Section Sizes.
Variables (d : TorrentDownloader) (host : bytes) (port : Z) (infohash : Hash).
Let B : Z := td_BlockSize (d_conf d).
Hypothesis HB : 0 < B < 2 ^ 63.

(** The pieces of a download have the length the code checks, or are missing. *)
Definition sized (p : progress) : Prop :=
  forall ps, p_pieces p = Some ps ->
    p_piecesNum p = Z.of_nat (length ps) /\ 24 * p_piecesNum p <= maxAlloc /\
    forall i x, ps !! i = Some x -> x <> [] ->
      Z.of_nat (length x) = if Z.of_nat i =? p_piecesNum p - 1 then p_metadataSize p mod B else B.

Lemma sized_concat (ps : list bytes) m : ps <> [] ->
  (forall i x, ps !! i = Some x ->
     Z.of_nat (length x) = if Z.of_nat i =? Z.of_nat (length ps) - 1 then m else B) ->
  Z.of_nat (length (concat ps)) = (Z.of_nat (length ps) - 1) * B + m.
Proof.
  destruct ps as [|l ps _] using rev_ind; [done|]. intros _ H. rewrite length_app in *. cbn [length] in *.
  assert (Hl : Z.of_nat (length l) = m).
  { rewrite (H (length ps) l) by by apply list_lookup_middle.
    rewrite (proj2 (Z.eqb_eq _ _)); [done|lia]. }
  assert (Hp : Forall (fun x => length x = Z.to_nat B) ps).
  { apply Forall_lookup. intros i x Hx. pose proof (lookup_lt_Some _ _ _ Hx).
    specialize (H i x). rewrite lookup_app_l in H by done. specialize (H Hx).
    rewrite (proj2 (Z.eqb_neq _ _)) in H by lia. lia. }
  rewrite concat_app, length_app, (length_concat_const (Z.to_nat B)) by done. cbn [concat].
  rewrite app_nil_r. lia.
Qed.

Lemma finished_nonempty ps i x : finished ps = true -> ps !! i = Some x -> x <> [].
Proof.
  unfold finished. rewrite forallb_forall. intros H Hx ->.
  by apply list_elem_of_lookup_2, list_elem_of_In, H in Hx.
Qed.

(** A round keeps [sized], and a delivered "info" part has not a multiple of the block. *)
Definition round_sized (x : round) : Prop :=
  match x with
  | Continue p _ => sized p
  | Return evs _ => forall r, r ∈ responses_of evs -> Z.of_nat (length (tr_InfoBytes r)) mod B <> 0
  end.

Lemma on_handshake_sized p payload : round_sized (on_handshake d p payload).
Proof.
  unfold on_handshake. destruct (_ <? _); [intros r Hr; by apply elem_of_nil in Hr|].
  destruct (ExtHandshake_Decode _ _) as [m o]. destruct o; try (intros r Hr; by apply elem_of_nil in Hr).
  destruct (_ =? 0); [intros r Hr; by apply elem_of_nil in Hr|].
  unfold make_pieces, sliceHeader. destruct (Z.ltb_spec (pieces_of d (eh_MetadataSize m)) 0);
    [intros r Hr; by apply elem_of_nil in Hr|].
  destruct (Z.ltb_spec maxAlloc (24 * pieces_of d (eh_MetadataSize m))); [intros r Hr; by apply elem_of_nil in Hr|].
  intros ps [= <-]. cbn [p_piecesNum p_metadataSize]. rewrite length_replicate. split; [lia|]. split; [done|].
  intros i x [-> _]%lookup_replicate. done.
Qed.

Lemma on_data_sized id p payload : sized p -> round_sized (on_data d host port infohash id p payload).
Proof.
  intros Hp. unfold on_data. destruct (p_pieces p) as [ps|] eqn:Eps; [|intros r Hr; by apply elem_of_nil in Hr].
  destruct (Hp ps Eps) as (Hn & Ha & Hs). unfold maxAlloc in Ha.
  destruct (DecodeFromPayload _ _) as [um o]. destruct o; try (intros r Hr; by apply elem_of_nil in Hr).
  destruct (negb _); [exact Hp|]. cbv zeta.
  assert (Hm : 0 <= p_metadataSize p mod B < B) by (apply Z.mod_pos_bound; lia).
  fold B. rewrite !i64_id by (unfold is_i64; lia).
  destruct (_ || _) eqn:Hlen; [intros r Hr; by apply elem_of_nil in Hr|].
  destruct (_ || (_ <=? _)) eqn:Hrange; [intros r Hr; by apply elem_of_nil in Hr|].
  apply orb_false_iff in Hrange as [Hlo%Z.ltb_ge Hhi%Z.leb_gt].
  set (ps' := <[_ := _]> ps).
  assert (Hs' : forall i x, ps' !! i = Some x -> x <> [] ->
    Z.of_nat (length x) = if Z.of_nat i =? p_piecesNum p - 1 then p_metadataSize p mod B else B).
  { intros i x. unfold ps'. destruct (decide (Z.to_nat (um_Piece um) = i)) as [<-|].
    - rewrite list_lookup_insert_eq by lia. intros [= <-] _. rewrite Z2Nat.id by done.
      destruct (um_Piece um =? p_piecesNum p - 1); cbn [negb andb orb] in Hlen;
        rewrite ?orb_false_r in Hlen; by apply negb_false_iff, Z.eqb_eq in Hlen.
    - rewrite list_lookup_insert_ne by done. apply Hs. }
  assert (Hl' : length ps' = length ps) by apply length_insert.
  assert (Hpos : (0 < length ps')%nat) by lia. clearbody ps'.
  destruct (finished ps') eqn:Hf.
  2:{ intros qs [= <-]. cbn [p_piecesNum p_metadataSize]. rewrite Hl'. by repeat split. }
  case_bool_decide; [|intros r Hr; by apply elem_of_nil in Hr].
  intros r Hr. cbn in Hr. apply list_elem_of_singleton in Hr as ->. cbn [tr_InfoBytes].
  pose proof (fun i x Hx => Hs' i x Hx (finished_nonempty ps' i x Hf Hx)) as Hall.
  rewrite Hn, <- Hl' in Hall. assert (Hne : ps' <> []) by (intros ->; simpl in Hpos; lia).
  rewrite (sized_concat ps' (p_metadataSize p mod B) Hne Hall).
  rewrite Z.add_comm, Z.mod_add by lia. rewrite Z.mod_mod by lia.
  destruct (lookup_lt_is_Some_2 ps' (length ps' - 1)) as [x Hx]; [lia|].
  pose proof (finished_nonempty _ _ _ Hf Hx). pose proof (Hall _ _ Hx) as Hlx.
  rewrite (proj2 (Z.eqb_eq _ _)) in Hlx by lia. rewrite <- Hlx. by destruct x.
Qed.

Lemma on_message_sized id p m : sized p -> round_sized (on_message d host port infohash id p m).
Proof.
  intros Hp. unfold on_message. destruct (pm_Keepalive m); [exact Hp|]. destruct (_ =? _).
  - destruct (_ =? _); [apply on_handshake_sized|]. destruct (_ =? _); [by apply on_data_sized|exact Hp].
  - by destruct (_ =? _).
Qed.

Lemma loop_sized fuel closed n conn p evs o r :
  sized p -> download_loop d host port infohash fuel closed n conn p = (evs, o) -> r ∈ responses_of evs ->
  Z.of_nat (length (tr_InfoBytes r)) mod B <> 0.
Proof.
  revert n conn p evs. induction fuel as [|fuel IH]; intros n conn p evs Hp; cbn [download_loop].
  { intros [= <- <-] Hr. by apply elem_of_nil in Hr. }
  destruct (ReadMsg conn) as [[conn' msg] o'].
  destruct o'; try (intros [= <- <-] Hr; by apply elem_of_nil in Hr).
  destruct (closed n); [intros [= <- <-] Hr; by apply elem_of_nil in Hr|].
  pose proof (on_message_sized (pc_PeerID conn') p msg Hp) as Hm.
  pose proof (on_message_safe d host port infohash (pc_PeerID conn') p msg) as Hsafe.
  destruct (on_message _ _ _ _ _ _ _) as [p' evs1|evs1 o1].
  - destruct (download_loop _ _ _ _ _ _ _ _ _) as [evs2 o2] eqn:E2. intros [= <- <-] Hr.
    rewrite responses_of_app in Hr. simpl in Hsafe. rewrite Hsafe in Hr. by eapply IH.
  - intros [= <- <-] Hr. by apply Hm.
Qed.
End Sizes.

(** An "info" part whose size is a multiple of the block is never delivered, whatever the
    peer sends: the code wants the last piece to have [size mod BlockSize] bytes, none then,
    and takes an empty piece for a missing one. *)
Theorem multiple_of_block_never_delivered d host port infohash dial connWrite closed evs o r :
  0 < td_BlockSize (d_conf d) < 2 ^ 63 ->
  download d host port infohash dial connWrite closed = (evs, o) ->
  r ∈ responses_of evs -> Z.of_nat (length (tr_InfoBytes r)) mod td_BlockSize (d_conf d) <> 0.
Proof.
  intros HB. unfold download. destruct (dial _) as [input|e|]; try (intros [= <- <-] Hr; by apply elem_of_nil in Hr).
  destruct (PeerConn_Handshake _) as [c1 [e|]]; [intros [= <- <-] Hr; by apply elem_of_nil in Hr|].
  destruct (negb _); [intros [= <- <-] Hr; by apply elem_of_nil in Hr|].
  destruct (SendExtHandshakeMsg _ _ _ _) as [[c2 [e|]]|e|]; try (intros [= <- <-] Hr; by apply elem_of_nil in Hr).
  by apply loop_sized.
Qed.

(** A peer can bring the program down: after an acceptable extended handshake, one "data"
    message of a full block for a piece outside the range indexes the slice of the pieces out
    of its bounds, and the panic is in a goroutine nothing recovers. *)
Theorem piece_out_of_range_panics d dial host port peerID bits eh data before um after rest id :
  downloader_ok d -> td_BlockSize (d_conf d) < 2 ^ 63 ->
  let num := Z.of_nat (length data) / td_BlockSize (d_conf d) + 1 in
  Z.of_nat (length data) mod td_BlockSize (d_conf d) <> 0 -> 24 * num <= maxAlloc ->
  reachable_peer dial host port (Sha1.Sum data) peerID bits
    (before ++ ext_handshake_msg eh :: metadata_msg um :: after) rest ->
  Forall quiet before -> ExtHandshake_wf eh ->
  assoc ExtendedMessageNameMetadata (eh_M eh) = Some id -> id <> 0 ->
  eh_MetadataSize eh = Z.of_nat (length data) ->
  UtMetadata_wf um -> um_MsgType um = UtMetadataExtendedMsgTypeData ->
  Z.of_nat (length (um_Data um)) = td_BlockSize (d_conf d) -> um_Piece um < 0 \/ num <= um_Piece um ->
  exists evs, download d host port (Sha1.Sum data) dial good_socket (fun _ => false) = (evs, Panicked).
Proof.
  intros Hd HB num Hmod Halloc Hp Hq Hw Ha Hid Hsize Hu Ht Hl Hr.
  assert (HB' : 0 < td_BlockSize (d_conf d) < 2 ^ 63) by (split; [apply Hd|done]).
  destruct (converse_quiet d host port (Sha1.Sum data) peerID progress0 before
    (ext_handshake_msg eh :: metadata_msg um :: after) ([EvRequestPieces id num], Panicked) Hq) as [evs E].
  2:{ eexists. by eapply download_converse. }
  cbn [converse]. rewrite (handshake_round d host port peerID data id) by done.
  destruct (num_bounds d data HB' Halloc) as (Hn & H0 & Hlt). rewrite Hn in Hlt.
  rewrite metadata_round. unfold on_data, state. cbn [p_pieces p_piecesNum p_metadataSize].
  unfold sent. rewrite Ht, Z.eqb_refl, DecodeFromPayload_payload by done.
  rewrite Ht, Z.eqb_refl. cbn [negb]. cbv zeta. rewrite Hl.
  rewrite !i64_id by (unfold is_i64; lia). rewrite Hn, length_replicate, Hn. fold num.
  destruct (Z.eqb_spec (um_Piece um) (num - 1)) as [|]; [unfold num in *; lia|].
  rewrite Z.eqb_refl. cbn [negb andb orb].
  assert ((um_Piece um <? 0) || (num <=? um_Piece um) = true) as ->.
  { apply orb_true_iff. destruct Hr; [left; by apply Z.ltb_lt|right; by apply Z.leb_le]. }
  done.
Qed.

(** What [requestPieces] sends on a socket that works: one request per piece, in order. *)
Definition request_msg (utMetadataID i : Z) : Message :=
  set_Extended (msgOf MTypeExtended) utMetadataID
    (UtMetadata_payload (mkUtMetadata UtMetadataExtendedMsgTypeRequest i 0 [])).

Lemma requestPieces_writes conn utMetadataID piecesNum :
  requestPieces good_socket conn utMetadataID piecesNum =
  (pc_set_io conn (pc_in conn)
     (pc_out conn ++ stream (map (request_msg utMetadataID) (indexes (Z.to_nat piecesNum)))), Done).
Proof.
  unfold requestPieces, stream. generalize (indexes (Z.to_nat piecesNum)). intros l.
  revert conn. induction l as [|i l IH]; intros conn; cbn [requestPieces_loop map concat].
  - rewrite app_nil_r. by destruct conn.
  - rewrite EncodeToBytes_payload. unfold WriteMsg, good_socket. fold good_socket. rewrite firstn_all.
    rewrite (proj2 (Nat.ltb_ge _ _)) by done. rewrite IH. cbn [pc_in pc_out pc_set_io].
    by rewrite <- app_assoc.
Qed.

(** ** A concrete download *)

(** Five bytes in blocks of two, last block first. *)
Definition d0 : TorrentDownloader := NewTorrentDownloader (Some (mkTDConfig (replicate 20 x01) 2 1)) zeroHash.
Definition data0 : bytes := B "abcde".
Definition bits0 : ExtensionBits := [x00; x00; x00; x00; x00; x10; x00; x00].
Definition eh0 : ExtendedHandshakeMsg := mkExtHandshake [(B "ut_metadata", 3)] [] 0 0 [] [] [] 5.
Definition before0 : list Message := [set_BitField (msgOf MTypeBitField) [xff]; set_Keepalive zeroMessage true].
Definition after0 : list Message :=
  [data_msg 2 data0 2 5; metadata_msg (mkUtMetadata 2 7 0 []); data_msg 2 data0 0 5; msgOf MTypeUnchoke;
   data_msg 2 data0 0 5; data_msg 2 data0 1 5; msgOf MTypeChoke].
Definition ms0 : list Message := before0 ++ ext_handshake_msg eh0 :: after0.
Definition bad0 : UtMetadataExtendedMsg := mkUtMetadata 1 9 5 (B "xx").
Definition ms1 : list Message := before0 ++ [ext_handshake_msg eh0; metadata_msg bad0].
Definition dial0 (ms : list Message) (addr : bytes) : res bytes :=
  if bool_decide (addr = B "10.0.0.1:6881")
  then Ok (handshake_bytes (mkHandshakeMsg bits0 (replicate 20 x02) (Sha1.Sum data0)) ++ stream ms ++ B "more")
  else Err (Errorf "refused").

Lemma eh0_wf : ExtHandshake_wf eh0.
Proof.
  split; try (unfold is_u16; simpl; lia); try done.
  - apply (bool_decide_unpack _). vm_compute. exact I.
  - by repeat constructor.
  - by left.
  - by left.
  - by left.
Qed.

Ltac messages0 :=
  lazymatch goal with
  | |- Forall _ (_ :: _) => apply Forall_cons; split; [|messages0]
  | |- _ => by constructor
  end.

Lemma sendable_compute m :
  typed m -> index_lost (pm_Type m) = false -> bool_decide (relevant m = m) = true ->
  (Z.of_nat (length (Message_Encode m)) - 4 <=? 256 * 1024) = true -> sendable m.
Proof. intros H1 H2 H3%bool_decide_eq_true H4%Z.leb_le. by split. Qed.

Lemma reachable0 ms :
  Forall sendable ms -> Forall late (tail ms) ->
  reachable_peer (dial0 ms) (B "10.0.0.1") 6881 (Sha1.Sum data0) (replicate 20 x02) bits0 ms (B "more").
Proof.
  intros H1 H2. split; [|split; [|split]| | |exact H1|exact H2].
  - unfold dial0. rewrite bool_decide_eq_true_2 by (vm_compute; reflexivity). reflexivity.
  - reflexivity.
  - reflexivity.
  - apply Sha1.length_Sum.
  - vm_compute. discriminate.
  - reflexivity.
Qed.

Lemma ms0_sendable : Forall sendable ms0 /\ Forall late (tail ms0).
Proof.
  unfold ms0, ms1, before0, after0. cbn [app tail].
  split; messages0.
  all: lazymatch goal with |- late _ => vm_compute; reflexivity | |- _ => apply sendable_compute end.
  all: lazymatch goal with |- typed _ => repeat split; vm_compute; by (discriminate || reflexivity) | |- _ => vm_compute; reflexivity end.
Qed.
Lemma ms1_sendable : Forall sendable ms1 /\ Forall late (tail ms1).
Proof.
  unfold ms0, ms1, before0, after0. cbn [app tail].
  split; messages0.
  all: lazymatch goal with |- late _ => vm_compute; reflexivity | |- _ => apply sendable_compute end.
  all: lazymatch goal with |- typed _ => repeat split; vm_compute; by (discriminate || reflexivity) | |- _ => vm_compute; reflexivity end.
Qed.

Lemma quiet0 : Forall quiet before0.
Proof. unfold before0. messages0; [right; left; vm_compute; discriminate|left; reflexivity]. Qed.

Lemma serves0 :
  serves d0 (dial0 ms0) (B "10.0.0.1") 6881 (replicate 20 x02) bits0 eh0 data0 before0 after0 (B "more").
Proof.
  split.
  - apply reachable0; apply ms0_sendable.
  - exact eh0_wf.
  - exists 3. split; [discriminate|reflexivity].
  - reflexivity.
  - vm_compute. discriminate.
  - exact quiet0.
  - change (Z.to_nat _) with 3%nat. unfold after0. messages0.
    all: lazymatch goal with
         | |- useful _ _ _ (data_msg _ _ _ _) => apply useful_data; [lia|unfold is_u64; lia]
         | |- useful _ _ _ (metadata_msg _) =>
             apply useful_other; [split; unfold is_u8, is_i64; simpl; lia|vm_compute; discriminate]
         | |- _ => apply useful_quiet; right; left; vm_compute; discriminate
         end.
  - change (Z.to_nat _) with 3%nat. intros i Hi. exists 5. split; [unfold is_u64; lia|].
    unfold after0. destruct i as [|[|[|i]]]; [| | |lia]; repeat first [apply list_elem_of_here|apply list_elem_of_further].
Qed.

Lemma download_completes_witness :
  exists evs,
    download d0 (B "10.0.0.1") 6881 (Sha1.Sum data0) (dial0 ms0) good_socket (fun _ => false) =
    (evs ++ [EvRespond (mkTorrentResponse (B "10.0.0.1") 6881 (replicate 20 x02) (Sha1.Sum data0) data0)], Done).
Proof.
  apply (download_completes d0 (dial0 ms0) (B "10.0.0.1") 6881 (replicate 20 x02) bits0 eh0 data0
    before0 after0 (B "more") (downloader_ok_new _ _)); [reflexivity|discriminate|exact serves0].
Defined.

Lemma piece_out_of_range_panics_witness :
  exists evs,
    download d0 (B "10.0.0.1") 6881 (Sha1.Sum data0) (dial0 ms1) good_socket (fun _ => false) = (evs, Panicked).
Proof.
  apply (piece_out_of_range_panics d0 (dial0 ms1) (B "10.0.0.1") 6881 (replicate 20 x02) bits0 eh0 data0
    before0 bad0 [] (B "more") 3 (downloader_ok_new _ _)); try reflexivity; try discriminate.
  - apply reachable0; apply ms1_sendable.
  - exact quiet0.
  - exact eh0_wf.
  - split; unfold is_u8, is_i64; simpl; lia.
  - right. vm_compute. discriminate.
Defined.

(** The same peer against a downloader that is closed after the second message. *)
Lemma download_delivers_verified_witness :
  exists evs o,
    download d0 (B "10.0.0.1") 6881 (Sha1.Sum data0) (dial0 ms0) good_socket (fun n => (1 <? n)%nat) = (evs, o) /\
    o <> NoFuel.
Proof.
  destruct (download d0 (B "10.0.0.1") 6881 (Sha1.Sum data0) (dial0 ms0) good_socket (fun n => (1 <? n)%nat))
    as [evs o] eqn:E.
  exists evs, o. split; [reflexivity|]. exact (proj1 (download_delivers_verified _ _ _ _ _ _ _ _ _ E)).
Defined.

Lemma multiple_of_block_never_delivered_witness :
  exists r, r ∈ responses_of (fst (download d0 (B "10.0.0.1") 6881 (Sha1.Sum data0) (dial0 ms0) good_socket
                                  (fun _ => false))) /\
    Z.of_nat (length (tr_InfoBytes r)) mod 2 <> 0.
Proof.
  exists (mkTorrentResponse (B "10.0.0.1") 6881 (replicate 20 x02) (Sha1.Sum data0) data0).
  assert (H : mkTorrentResponse (B "10.0.0.1") 6881 (replicate 20 x02) (Sha1.Sum data0) data0 ∈
    responses_of (fst (download d0 (B "10.0.0.1") 6881 (Sha1.Sum data0) (dial0 ms0) good_socket (fun _ => false)))).
  { replace (responses_of _) with
      [mkTorrentResponse (B "10.0.0.1") 6881 (replicate 20 x02) (Sha1.Sum data0) data0] by (vm_compute; reflexivity).
    set_solver. }
  split; [exact H|].
  refine (multiple_of_block_never_delivered d0 (B "10.0.0.1") 6881 (Sha1.Sum data0) (dial0 ms0) good_socket
    (fun _ => false) _ _ _ _ (surjective_pairing _) H).
  simpl. lia.
Defined.

Lemma downloader_invariant_witness :
  downloader_ok (OnDHTNode (Close d0) true).
Proof.
  apply (downloader_invariant (dial0 ms0) good_socket (Some (mkTDConfig (replicate 20 x01) 2 1)) zeroHash).
  eapply rtc_l; [apply step_Close|]. apply rtc_once. apply step_OnDHTNode.
Defined.
