(* ===== verification/FilePath.v ===== *)
(** * Cleaned paths (package [path/filepath], on Unix)

    [filepath_Clean] and [filepath_Join] of [Info], [filepath_Dir] of [TorrentIO], and here
    [filepath_Base] and [filepath_Rel], through the components of a path: [path_nf] is whether a path
    is rooted, with the stack of components that [Clean] ends with.  Two paths with the same
    normal form are the same place. *)

From S2P Require Import Prelude GoBytes GoNet Info TorrentIO.

Definition rooted (path : bytes) : bool := bool_decide (head path = Some Separator).

Fixpoint drop_seps (s : bytes) : bytes :=
  match s with
  | c :: s' => if bool_decide (c = Separator) then drop_seps s' else s
  | [] => []
  end.

(** [filepath.Base]: the last element, without the separators behind it. *)
Definition filepath_Base (path : bytes) : bytes :=
  if bool_decide (path = []) then B "."
  else
    let path := rev (drop_seps (rev path)) in
    let base := drop (length (upto_last Separator path)) path in
    if bool_decide (base = []) then [Separator] else base.

(** [strings.Split] of a cleaned path, without the "." of an empty one. *)
Definition clean_elems (path : bytes) : list bytes := clean_loop (rooted path) [] (split_path [] path).

Fixpoint strip_common (base targ : list bytes) : list bytes * list bytes :=
  match base, targ with
  | b :: base', t :: targ' => if bool_decide (b = t) then strip_common base' targ' else (base, targ)
  | _, _ => (base, targ)
  end.

(** [filepath.Rel]: the path from [basepath] to [targpath], found without the file system. *)
Definition filepath_Rel (basepath targpath : bytes) : error + bytes :=
  if bool_decide (filepath_Clean basepath = filepath_Clean targpath) then inr (B ".")
  else if negb (Bool.eqb (rooted basepath) (rooted targpath))
  then inl (Errorf "Rel: can't make relative")
  else
    match strip_common (clean_elems basepath) (clean_elems targpath) with
    | ([], t) => inr (join [Separator] t)
    | (b :: base, t) =>
        if bool_decide (b = B "..") && negb (bool_decide (t = []))
        then inl (Errorf "Rel: can't make relative")
        else inr (join [Separator] (map (fun _ => B "..") (b :: base) ++ t))
    end.

Example Base_ex : map filepath_Base [B "a/b"; B "a"; B "/"; B "a/b//"; B ""; B ".."]
  = [B "b"; B "a"; B "/"; B "b"; B "."; B ".."].
Proof. vm_compute. reflexivity. Qed.
Example Rel_ex : map (fun p => filepath_Rel (B "/a/b") (B p)) ["/a/b/c/d"%string; "/a/x"%string; "/a/b"%string; "c"%string]
  = [inr (B "c/d"); inr (B "../x"); inr (B "."); inl (Errorf "Rel: can't make relative")].
Proof. vm_compute. reflexivity. Qed.

(** ** Splitting and joining *)

Definition no_sep (s : bytes) : Prop := Separator ∉ s.
(** A name a file can have. *)
Definition name_ok (c : bytes) : Prop := c <> [] /\ c <> B "." /\ c <> B ".." /\ no_sep c.

#[export] Instance no_sep_dec s : Decision (no_sep s).
Proof. unfold no_sep. apply _. Defined.
#[export] Instance name_ok_dec c : Decision (name_ok c).
Proof. unfold name_ok. apply _. Defined.

Lemma elem_of_rev {A} (x : A) l : x ∈ rev l <-> x ∈ l.
Proof. by rewrite !list_elem_of_In, <- in_rev. Qed.

Lemma split_path_no_sep cur s : no_sep s -> split_path cur s = [rev cur ++ s].
Proof.
  unfold no_sep. revert cur. induction s as [|c s IH]; intros cur H; cbn [split_path].
  - by rewrite app_nil_r.
  - rewrite bool_decide_false by set_solver. rewrite IH by set_solver. simpl. by rewrite <- app_assoc.
Qed.

Lemma split_path_sep cur s t : split_path cur (s ++ Separator :: t) = split_path cur s ++ split_path [] t.
Proof.
  revert cur. induction s as [|c s IH]; intros cur; cbn [split_path app].
  - by rewrite bool_decide_true.
  - destruct (bool_decide (c = Separator)); rewrite IH; done.
Qed.

Lemma split_path_join es : es <> [] -> split_path [] (join [Separator] es) = concat (map (split_path []) es).
Proof.
  induction es as [|e es IH]; [done|]. intros _. destruct es as [|e' es].
  - cbn. by rewrite app_nil_r.
  - change (join [Separator] (e :: e' :: es)) with (e ++ Separator :: join [Separator] (e' :: es)).
    rewrite split_path_sep, IH by done. done.
Qed.

Lemma split_path_all_no_sep cs : Forall no_sep cs -> concat (map (split_path []) cs) = cs.
Proof. induction 1 as [|c cs H _ IH]; cbn; [done|]. by rewrite IH, split_path_no_sep. Qed.

Lemma split_path_parts cur s : no_sep cur -> Forall no_sep (split_path cur s).
Proof.
  unfold no_sep. revert cur. induction s as [|c s IH]; intros cur H; cbn [split_path].
  - constructor; [|done]. by rewrite elem_of_rev.
  - case_bool_decide; [constructor; [by rewrite elem_of_rev|apply IH; set_solver]|]. apply IH. set_solver.
Qed.

(** ** The normal form of a path *)

Definition clean_step (rooted : bool) (out : list bytes) (c : bytes) : list bytes :=
  if bool_decide (c = []) || bool_decide (c = B ".") then out
  else if bool_decide (c = B "..") then
    match out with
    | [] => if rooted then [] else [c]
    | top :: rest => if bool_decide (top = B "..") then c :: out else rest
    end
  else c :: out.

Lemma clean_loop_foldl r out cs : clean_loop r out cs = rev (foldl (clean_step r) out cs).
Proof. revert out. induction cs as [|c cs IH]; intros out; cbn [clean_loop foldl]; [done|]. apply IH. Qed.

Definition path_nf (path : bytes) : bool * list bytes :=
  (rooted path, foldl (clean_step (rooted path)) [] (split_path [] path)).

Definition render (nf : bool * list bytes) : bytes :=
  let p := join [Separator] (rev nf.2) in
  if nf.1 then Separator :: p else if bool_decide (p = []) then B "." else p.

Lemma Clean_render path : filepath_Clean path = render (path_nf path).
Proof. unfold filepath_Clean, render, path_nf. by rewrite clean_loop_foldl. Qed.

Lemma clean_elems_nf path : clean_elems path = rev (path_nf path).2.
Proof. unfold clean_elems. by rewrite clean_loop_foldl. Qed.

(** The stacks [Clean] builds: names on top of the ".." that lead out of a relative path. *)
Definition normal (r : bool) (out : list bytes) : Prop :=
  exists gs n, out = gs ++ replicate n (B "..") /\ Forall name_ok gs /\ (r = true -> n = O).

Lemma clean_step_name r out c : name_ok c -> clean_step r out c = c :: out.
Proof. intros (H1 & H2 & H3 & _). unfold clean_step. by rewrite !bool_decide_false. Qed.

Lemma foldl_names r out cs : Forall name_ok cs -> foldl (clean_step r) out cs = rev cs ++ out.
Proof.
  intros H. revert out. induction H as [|c cs Hc _ IH]; intros out; simpl; [done|].
  rewrite clean_step_name, IH by done. by rewrite <- app_assoc.
Qed.

Lemma normal_step r out c : normal r out -> no_sep c -> normal r (clean_step r out c).
Proof.
  intros (gs & n & -> & Hg & Hn) Hc. unfold clean_step.
  destruct (decide (c = [])) as [->|N1]; [by exists gs, n|].
  destruct (decide (c = B ".")) as [->|N2]; [by exists gs, n|].
  rewrite !(bool_decide_false (c = _)) by done || idtac. cbn [orb].
  case_bool_decide as N3.
  - subst c. destruct gs as [|g gs]; cbn [app].
    + destruct n as [|n]; cbn [replicate].
      * destruct r; [by exists [], 0%nat|by exists [], 1%nat].
      * rewrite bool_decide_true by done. exists [], (S (S n)). repeat split; [done|].
        intros E. by specialize (Hn E).
    + inversion Hg as [|? ? (_ & _ & G & _) Hg']; subst. rewrite bool_decide_false by done. by exists gs, n.
  - exists (c :: gs), n. repeat split; [|done]. by constructor.
Qed.

Lemma normal_foldl r out cs : normal r out -> Forall no_sep cs -> normal r (foldl (clean_step r) out cs).
Proof.
  intros H Hc. revert out H. induction Hc as [|c cs Hc _ IH]; intros out H; [done|]. by apply IH, normal_step.
Qed.

Lemma path_nf_normal path : normal (path_nf path).1 (path_nf path).2.
Proof. apply normal_foldl; [by exists [], 0%nat|]. apply split_path_parts. unfold no_sep. set_solver. Qed.

Lemma normal_again r out : normal r out -> foldl (clean_step r) [] (rev out) = out.
Proof.
  intros (gs & n & -> & Hg & Hn). rewrite rev_app_distr, foldl_app.
  rewrite foldl_names by (by apply Forall_rev). rewrite rev_involutive. f_equal.
  destruct r; [by rewrite Hn|]. clear.
  rewrite (rev_alt (replicate n _) : _ = reverse _), reverse_replicate.
  assert (forall m, foldl (clean_step false) (replicate m (B "..")) (replicate n (B "..")) = replicate (m + n) (B "..")) as H.
  { induction n as [|n IH]; intros m; cbn [replicate foldl]; [by rewrite Nat.add_0_r|].
    replace (clean_step false (replicate m (B "..")) (B "..")) with (replicate (S m) (B "..")) by (by destruct m).
    rewrite IH. f_equal. lia. }
  exact (H 0%nat).
Qed.

Lemma normal_part r out c : normal r out -> c ∈ out -> c <> [] /\ no_sep c.
Proof.
  intros (gs & n & -> & Hg & _) Hc. apply elem_of_app in Hc as [Hc|Hc].
  - rewrite Forall_forall in Hg. apply Hg in Hc as (H & _ & _ & K). done.
  - apply elem_of_replicate in Hc as [-> _]. split; [done|]. unfold no_sep. compute_done.
Qed.

Lemma join_cons_app e es : exists t, join [Separator] (e :: es) = e ++ t.
Proof. destruct es as [|e' es]; [exists []; symmetry; apply app_nil_r|eexists; reflexivity]. Qed.

Lemma rooted_join e es : e <> [] -> rooted (join [Separator] (e :: es)) = rooted e.
Proof. intros He. destruct (join_cons_app e es) as [t ->]. by destruct e. Qed.

(** The text of a normal form, by its three cases. *)
Lemma render_cases r out :
  normal r out ->
  (r = true /\ render (r, out) = Separator :: join [Separator] (rev out)) \/
  (r = false /\ out = [] /\ render (r, out) = B ".") \/
  (r = false /\ out <> [] /\ render (r, out) = join [Separator] (rev out) /\
   exists e es, rev out = e :: es /\ e <> [] /\ no_sep e).
Proof.
  intros N. destruct r; [by left|]. right. unfold render. cbn [fst snd].
  destruct out as [|c out]; [by left|]. right.
  assert (exists e es, rev (c :: out) = e :: es /\ e <> [] /\ no_sep e) as (e & es & E & He & Hs).
  { destruct (rev (c :: out)) as [|e es] eqn:E.
    - apply (f_equal length) in E. rewrite length_rev in E. done.
    - exists e, es. split; [done|]. apply (normal_part _ _ e N). rewrite <- elem_of_rev, E. set_solver. }
  rewrite E. destruct (join_cons_app e es) as [t Ht].
  rewrite bool_decide_false by (rewrite Ht; by destruct e).
  repeat split; try done. by exists e, es.
Qed.

Lemma path_nf_render r out : normal r out -> path_nf (render (r, out)) = (r, out).
Proof.
  intros N. assert (Forall no_sep (rev out)) as P.
  { apply Forall_forall. intros c Hc. rewrite elem_of_rev in Hc. by apply (normal_part _ _ c N). }
  destruct (render_cases _ _ N) as [(-> & ->)|[(-> & -> & ->)|(-> & Hne & -> & e & es & E & He & Hs)]].
  - unfold path_nf. replace (rooted _) with true by done. f_equal.
    change (Separator :: join [Separator] (rev out)) with ([] ++ Separator :: join [Separator] (rev out)).
    rewrite split_path_sep, foldl_app. cbn [split_path rev foldl].
    change (clean_step true [] []) with (@nil bytes).
    destruct (rev out) as [|c cs] eqn:E.
    + apply (f_equal length) in E. rewrite length_rev in E. by destruct out.
    + rewrite split_path_join, split_path_all_no_sep, <- E by done. by apply normal_again.
  - done.
  - unfold path_nf. rewrite E, rooted_join by done.
    replace (rooted e) with false.
    2:{ destruct e as [|b e]; [done|]. unfold rooted. symmetry. apply bool_decide_false. unfold no_sep in Hs. set_solver. }
    f_equal. rewrite <- E, split_path_join, split_path_all_no_sep by (done || by rewrite E). by apply normal_again.
Qed.

(** Cleaning does not change where a path leads, and does nothing the second time. *)
Lemma path_nf_Clean path : path_nf (filepath_Clean path) = path_nf path.
Proof.
  rewrite Clean_render, (surjective_pairing (path_nf path)). apply path_nf_render, path_nf_normal.
Qed.

Lemma Clean_Clean path : filepath_Clean (filepath_Clean path) = filepath_Clean path.
Proof. rewrite (Clean_render (filepath_Clean path)), path_nf_Clean. symmetry. apply Clean_render. Qed.

Lemma Clean_not_nil path : filepath_Clean path <> [].
Proof.
  rewrite Clean_render, (surjective_pairing (path_nf path)).
  destruct (render_cases _ _ (path_nf_normal path)) as [(_ & ->)|[(_ & _ & ->)|(_ & _ & -> & e & es & -> & He & _)]];
    try done.
  destruct (join_cons_app e es) as [t ->]. by destruct e.
Qed.

Lemma path_nf_join e es :
  e <> [] ->
  path_nf (join [Separator] (e :: es)) =
  (rooted e, foldl (clean_step (rooted e)) (path_nf e).2 (concat (map (split_path []) es))).
Proof.
  intros He. unfold path_nf at 1. rewrite rooted_join by done. f_equal.
  rewrite split_path_join by done. cbn [map concat]. by rewrite foldl_app.
Qed.

(** [filepath.Join] from a path: it is where the path leads, and then the names. *)
Lemma Join_names e cs :
  e <> [] -> Forall name_ok cs -> filepath_Join (e :: cs) = render (rooted e, rev cs ++ (path_nf e).2).
Proof.
  intros He Hc. cbn [filepath_Join]. rewrite bool_decide_false by done.
  rewrite Clean_render, path_nf_join by done. rewrite split_path_all_no_sep, foldl_names; [done|done|].
  eapply Forall_impl; [exact Hc|]. by intros c (_ & _ & _ & ?).
Qed.

Lemma normal_names r out cs : normal r out -> Forall name_ok cs -> normal r (rev cs ++ out).
Proof. intros N Hc. rewrite <- (foldl_names r) by done. apply normal_foldl; [done|].
  eapply Forall_impl; [exact Hc|]. by intros c (_ & _ & _ & ?).
Qed.

Lemma path_nf_Join e cs :
  e <> [] -> Forall name_ok cs -> path_nf (filepath_Join (e :: cs)) = (rooted e, rev cs ++ (path_nf e).2).
Proof.
  intros He Hc. rewrite Join_names by done.
  apply path_nf_render, normal_names; [|done]. apply (path_nf_normal e).
Qed.

Lemma Join_Join e cs ds :
  e <> [] -> Forall name_ok cs -> Forall name_ok ds ->
  filepath_Join (filepath_Join (e :: cs) :: ds) = filepath_Join (e :: cs ++ ds).
Proof.
  intros He Hc Hd. assert (filepath_Join (e :: cs) <> []) as Hj.
  { cbn [filepath_Join]. rewrite bool_decide_false by done. apply Clean_not_nil. }
  rewrite (Join_names (filepath_Join _)), (Join_names e (cs ++ ds)) by (done || by apply Forall_app).
  pose proof (path_nf_Join e cs He Hc) as E.
  replace (rooted (filepath_Join (e :: cs))) with (path_nf (filepath_Join (e :: cs))).1 by done.
  rewrite E. cbn [fst snd]. by rewrite rev_app_distr, app_assoc.
Qed.

(** ** Relative paths *)

Lemma strip_common_app cs ds : strip_common cs (cs ++ ds) = ([], ds).
Proof. induction cs as [|c cs IH]; simpl; [by destruct ds|]. by rewrite bool_decide_true. Qed.

Lemma Rel_names e cs :
  e <> [] -> Forall name_ok cs -> cs <> [] -> filepath_Rel e (filepath_Join (e :: cs)) = inr (join [Separator] cs).
Proof.
  intros He Hc Hne. pose proof (path_nf_Join e cs He Hc) as E.
  unfold filepath_Rel. rewrite bool_decide_false.
  2:{ intros H. apply (f_equal path_nf) in H. rewrite !path_nf_Clean, E in H. apply (f_equal snd) in H.
      apply (f_equal length) in H. cbn [snd] in H. rewrite length_app, length_rev in H.
      assert (length cs <> 0%nat) by (by destruct cs). lia. }
  replace (rooted (filepath_Join (e :: cs))) with (rooted e) by (symmetry; exact (f_equal fst E)).
  rewrite Bool.eqb_reflx. cbn [negb]. rewrite !clean_elems_nf, E. cbn [snd].
  by rewrite rev_app_distr, rev_involutive, strip_common_app.
Qed.

Lemma split_names cs : Forall name_ok cs -> cs <> [] -> split_path [] (join [Separator] cs) = cs.
Proof.
  intros Hc Hne. rewrite split_path_join, split_path_all_no_sep; [done| |done].
  eapply Forall_impl; [exact Hc|]. by intros c (_ & _ & _ & ?).
Qed.

(** ** Directory and base *)

Lemma upto_last_split s :
  (no_sep s /\ upto_last Separator s = []) \/
  exists u b, s = u ++ Separator :: b /\ no_sep b /\ upto_last Separator s = u ++ [Separator].
Proof.
  induction s as [|c s IH]; [left; split; [unfold no_sep; set_solver|done]|]. cbn [upto_last].
  destruct IH as [[Hs ->]|(u & b & -> & Hb & ->)].
  - case_bool_decide as Hc.
    + subst c. right. by exists [], s.
    + left. split; [|done]. unfold no_sep in *. set_solver.
  - right. exists (c :: u), b. split; [done|]. split; [done|]. by destruct u.
Qed.

Lemma drop_seps_end s c : c <> Separator -> drop_seps (rev (s ++ [c])) = rev (s ++ [c]).
Proof. intros Hc. rewrite rev_app_distr. cbn. by rewrite bool_decide_false. Qed.

Lemma join_snoc es c : exists t, join [Separator] (es ++ [c]) = t ++ c.
Proof.
  induction es as [|e es [t IH]]; [by exists []|].
  destruct es as [|e' es]; [exists (e ++ [Separator]); simpl; by rewrite <- app_assoc|].
  change (join [Separator] ((e :: e' :: es) ++ [c])) with (e ++ [Separator] ++ join [Separator] ((e' :: es) ++ [c])).
  rewrite IH. exists (e ++ [Separator] ++ t). by rewrite <- !app_assoc.
Qed.

Lemma join_ends r out u : normal r out -> join [Separator] (rev out) <> u ++ [Separator].
Proof.
  intros N. destruct out as [|c out]; [by destruct u|]. simpl.
  destruct (join_snoc (rev out) c) as [t ->].
  destruct (normal_part _ _ c N) as [Hc Hs]; [set_solver|].
  destruct (exists_last Hc) as (c' & x & ->). rewrite app_assoc. intros H.
  apply app_inj_2 in H as [_ [= ->]]; [|done]. unfold no_sep in Hs. set_solver.
Qed.

(** A cleaned path ends in a separator only when it is "/". *)
Lemma Clean_ends path u : filepath_Clean path = u ++ [Separator] -> u = [].
Proof.
  intros H. rewrite Clean_render, (surjective_pairing (path_nf path)) in H.
  pose proof (path_nf_normal path) as N.
  destruct (render_cases _ _ N) as [(_ & E)|[(_ & _ & E)|(_ & _ & E & _)]]; rewrite E in H.
  - destruct u as [|x u]; [done|]. injection H as _ H. by destruct (join_ends _ _ u N).
  - destruct u as [|? [|? u]]; done.
  - by destruct (join_ends _ _ u N).
Qed.

(** The directory and the base of a cleaned path, joined, lead to the path again. *)
Lemma Join_Dir_Base path cs :
  filepath_Clean path = path -> Forall name_ok cs ->
  filepath_Join (filepath_Dir path :: filepath_Base path :: cs) = filepath_Join (path :: cs).
Proof.
  intros Hp Hc. assert (Hne : path <> []) by (rewrite <- Hp; apply Clean_not_nil).
  assert (Hsep : Forall no_sep cs) by (eapply Forall_impl; [exact Hc|]; by intros c (_ & _ & _ & ?)).
  assert (Hd : filepath_Dir path <> []) by apply Clean_not_nil.
  rewrite (Join_names path) by done. cbn [filepath_Join].
  rewrite bool_decide_false by done. rewrite Clean_render, path_nf_join by done. f_equal.
  cbn [map concat]. rewrite foldl_app, split_path_all_no_sep, foldl_names by done.
  assert (K : rooted (filepath_Dir path) = rooted path /\
    foldl (clean_step (rooted path)) (path_nf (upto_last Separator path)).2 (split_path [] (filepath_Base path))
    = (path_nf path).2).
  { replace (rooted (filepath_Dir path)) with (rooted (upto_last Separator path))
      by (symmetry; exact (f_equal fst (path_nf_Clean _))).
    unfold filepath_Base. rewrite bool_decide_false by done.
    destruct (upto_last_split path) as [[Hs Hu]|(u & b & E & Hb & Hu)].
    - destruct (exists_last Hne) as (s & c & E). rewrite E, drop_seps_end by (unfold no_sep in Hs; set_solver).
      rewrite rev_involutive, <- E, Hu. cbn [length drop]. rewrite bool_decide_false by done. split; [|done].
      destruct path as [|x path]; [done|]. unfold rooted. symmetry. apply bool_decide_false.
      unfold no_sep in Hs. set_solver.
    - assert (R : rooted (upto_last Separator path) = rooted path) by (rewrite Hu, E; by destruct u).
      split; [done|]. unfold path_nf. cbn [snd]. rewrite R.
      destruct (decide (b = [])) as [->|Hb'].
      + assert (u = []) as -> by (apply (Clean_ends path); by rewrite Hp, E). by rewrite E.
      + destruct (exists_last Hb') as (b' & c & Eb).
        assert (P : rev (drop_seps (rev path)) = path).
        { rewrite E, Eb. change (Separator :: b' ++ [c]) with ((Separator :: b') ++ [c]). rewrite app_assoc.
          rewrite drop_seps_end by (subst b; unfold no_sep in Hb; set_solver). apply rev_involutive. }
        rewrite P, Hu, E. change (Separator :: b) with ([Separator] ++ b). rewrite app_assoc, drop_app_length.
        rewrite bool_decide_false by done. rewrite <- app_assoc. cbn [app].
        rewrite !split_path_sep, !foldl_app. done. }
  destruct K as [-> K]. f_equal. rewrite <- K.
  replace (path_nf (filepath_Dir path)) with (path_nf (upto_last Separator path)); [done|].
  symmetry. apply path_nf_Clean.
Qed.
