(* ===== verification/MakeInfo.v ===== *)
(** * Making the info of a file or directory (metainfo/info.go)

    [getAllInfoFiles] walks a directory and [NewInfoFromFilePath] puts the info of a torrent
    together.  What is found under a path is an [entry], a file or a directory with its entries in
    the order of their names; links and other special files are left out.  Parameters: what the path
    of the torrent is ([lstat]), the faults of the walk, the file system that files are opened in
    ([fs], with the faults of [TorrentIO]), and the order of equal elements in [sort.Sort].  What the
    code returns beside an error is left out. *)

From S2P Require Import Prelude GoBytes GoNet GoCrypto Bencode Codec Hash Info TorrentIO FilePath.

(** ** [filepath.Walk] *)

Inductive entry : Type :=
  | Regular (content : bytes)
  | Directory (entries : list (bytes * entry)).

Record FileInfo : Type := mkFileInfo { fi_IsDir : bool; fi_Size : Z }.
Definition stat_of (e : entry) : FileInfo :=
  match e with
  | Regular c => mkFileInfo false (Z.of_nat (length c))
  | Directory _ => mkFileInfo true 0
  end.

Section Walk.
(** Why a name cannot be looked up, or a directory not be read. *)
Variables (lstat_fault readdir_fault : bytes -> option error).
(** The callback gets the error if there is one. *)
Context {S : Type} (fn : bytes -> error + FileInfo -> S -> S * option error).

Section Names.
Variable walk : bytes -> entry -> S -> S * option error.
Variable path : bytes.
Fixpoint walk_names (es : list (bytes * entry)) (s : S) : S * option error :=
  match es with
  | [] => (s, None)
  | (name, e) :: es =>
      let filename := filepath_Join [path; name] in
      let '(s, err) := match lstat_fault filename with
                       | Some err => fn filename (inl err) s
                       | None => walk filename e s
                       end in
      match err with
      | Some _ => (s, err)
      | None => walk_names es s
      end
  end.
End Names.

Fixpoint walk (path : bytes) (e : entry) (s : S) : S * option error :=
  match e with
  | Regular _ => fn path (inr (stat_of e)) s
  | Directory es =>
      match readdir_fault path with
      | Some err => fn path (inl err) s
      | None =>
          let '(s, err1) := fn path (inr (stat_of e)) s in
          match err1 with
          | Some _ => (s, err1)
          | None => walk_names walk path es s
          end
      end
  end.

Definition Walk (lstat : bytes -> error + entry) (root : bytes) (s : S) : S * option error :=
  match lstat root with
  | inl err => fn root (inl err) s
  | inr e => walk root e s
  end.
End Walk.

(** ** [getAllInfoFiles] *)

(** The callback of the walk, with the files found so far. *)
Definition visit (rootDir path : bytes) (fi : error + FileInfo) (files : list File)
    : list File * option error :=
  match fi with
  | inl err => (files, Some err)
  | inr fi =>
      if fi_IsDir fi then (files, None)
      else
        match filepath_Rel rootDir path with
        | inl err => (files, Some (Errorf "error getting relative path"))
        | inr relPath =>
            let paths := split_path [] relPath in
            if existsb (fun name => bool_decide (name = B ".git")) paths then (files, None)
            else (files ++ [mkFile (fi_Size fi) paths], None)
        end
  end.

(** [files.Less] of file.go. *)
Definition File_String (f : File) : bytes := filepath_Join (f_Paths f).
Definition files_Less (f g : File) : bool := bytes_ltb (File_String f) (File_String g).

Section Make.
Variables (lstat_fault readdir_fault : bytes -> option error).
Variable lstat : bytes -> error + entry.
Variable F : faults.
Variable fs : FS.
Variable sort_Sort : list File -> list File.

Definition getAllInfoFiles (rootDir : bytes) : error + list File :=
  let '(files, err) := Walk lstat_fault readdir_fault (visit rootDir) lstat rootDir [] in
  match err with
  | Some e => inl e
  | None => if (length files =? 0)%nat then inl (Errorf "no files in the directory") else inr files
  end.

(** [os.Open], and what reading the file to its end gives. *)
Definition open_file (name : bytes) : error + reader :=
  match os_Open F fs name with
  | Some e => inl e
  | None =>
      let c := default [] (fs !! name) in
      inr match read_fault F name (Z.of_nat (length c)) 0 with
          | Some (k, e) => mkReader (take k c) e
          | None => mkReader c EOF
          end
  end.

(** The function [NewInfoFromFilePath] opens the files with. *)
Definition open_under (root : bytes) (file : File) : error + reader :=
  if (0 <? length (f_Paths file))%nat then open_file (filepath_Join (root :: f_Paths file))
  else open_file root.

Definition NewInfoFromFilePath (root : bytes) (pieceLength : Z) : res Info :=
  let root := filepath_Clean root in
  match lstat root with
  | inl err => Err err
  | inr e =>
      let found := if negb (fi_IsDir (stat_of e)) then inr ([], fi_Size (stat_of e))
                   else match getAllInfoFiles root with inl err => inl err | inr files => inr (files, 0) end in
      match found with
      | inl err => Err err
      | inr (files, size) =>
          let files := sort_Sort files in
          match GeneratePiecesFromFiles (open_under root) (AllFiles (mkInfo [] 0 [] size files)) pieceLength with
          | Ok pieces => Ok (mkInfo (filepath_Base root) pieceLength pieces size files)
          | Err _ => Err (Errorf "error generating pieces")
          | Panic => Panic
          end
      end
  end.
End Make.

(** The order of [sort.Sort] where no two elements are equal. *)
Definition files_le (f g : File) : Prop := files_Less g f = false.
#[export] Instance files_le_dec f g : Decision (files_le f g).
Proof. unfold files_le. apply _. Defined.

(** A directory with a repository in it, and its files on disk. *)
Definition demo_tree : entry := Directory
  [(B ".git", Directory [(B "HEAD", Regular (B "ref"))]);
   (B "a", Directory [(B "x", Regular (B "hello ")); (B "empty", Directory [])]);
   (B "a.txt", Regular (B "world"))].
Definition demo_disk : FS := <[B "/d/t/a/x" := B "hello "]> (<[B "/d/t/a.txt" := B "world"]> ∅).
Definition demo_make : bytes -> Z -> res Info :=
  NewInfoFromFilePath (fun _ => None) (fun _ => None)
    (fun p => if bool_decide (p = B "/d/t") then inr demo_tree else inl ErrNotExist)
    no_faults demo_disk (merge_sort files_le).

Example make_ex :
  res_map (fun i => (i_Name i, length (i_Pieces i), i_Files i)) (demo_make (B "/d//t/") 4)
  = Ok (B "t", 3%nat, [mkFile 5 [B "a.txt"]; mkFile 6 [B "a"; B "x"]]).
Proof. vm_compute. reflexivity. Qed.
