(* ===== verification/MakeInfoThms.v ===== *)
(** * Theorems about making the info of a file or directory

    The walk finds exactly the files of the directory that are not in a repository, and a torrent
    made from a directory verifies against that directory. *)

From S2P Require Import Prelude GoBytes GoNet GoCrypto Bencode Codec Hash Info InfoThms.
From S2P Require Import TorrentIO TorrentIOThms FilePath MakeInfo.

(** ** Directory trees *)

Lemma entry_ind' (P : entry -> Prop) :
  (forall c, P (Regular c)) -> (forall es, Forall (fun ne => P (snd ne)) es -> P (Directory es)) ->
  forall e, P e.
Proof.
  intros HR HD. fix IH 1. intros [c|es]; [apply HR|]. apply HD.
  induction es as [|ne es IHes]; constructor; [apply IH|exact IHes].
Qed.

(** Every name in the tree is one that a file can have. *)
Fixpoint entry_ok (e : entry) : bool :=
  match e with
  | Regular _ => true
  | Directory es => forallb (fun ne => bool_decide (name_ok (fst ne)) && entry_ok (snd ne)) es
  end.

Definition below (ps : list bytes) (pc : list bytes * bytes) : list bytes * bytes := (ps ++ fst pc, snd pc).

(** The files of a tree with their contents, by the names that lead to them. *)
Fixpoint regular_files (e : entry) : list (list bytes * bytes) :=
  match e with
  | Regular c => [([], c)]
  | Directory es => concat (map (fun ne => map (below [fst ne]) (regular_files (snd ne))) es)
  end.

Definition tracked (pc : list bytes * bytes) : Prop := B ".git" ∉ fst pc.
#[export] Instance tracked_dec pc : Decision (tracked pc).
Proof. unfold tracked. apply _. Defined.
Definition to_file (pc : list bytes * bytes) : File := mkFile (Z.of_nat (length (snd pc))) (fst pc).
Definition found (ps : list bytes) (e : entry) : list File :=
  map to_file (filter tracked (map (below ps) (regular_files e))).

Lemma below_app ps qs l : map (below ps) (map (below qs) l) = map (below (ps ++ qs)) l.
Proof. rewrite map_map. apply map_ext. intros [q c]. unfold below. simpl. by rewrite app_assoc. Qed.

Lemma found_directory ps es :
  found ps (Directory es) = concat (map (fun ne => found (ps ++ [fst ne]) (snd ne)) es).
Proof.
  unfold found. cbn [regular_files]. induction es as [|ne es IH]; [done|].
  cbn [map concat]. rewrite map_app, filter_app, map_app, IH. f_equal. by rewrite below_app.
Qed.

(** ** The walk *)

Section Found.
Variables (lstat : bytes -> error + entry) (root : bytes).
Hypothesis root_clean : filepath_Clean root = root.
Abbreviation nofault := (fun _ : bytes => @None error).

Lemma root_not_nil : root <> [].
Proof. rewrite <- root_clean. apply Clean_not_nil. Qed.

Lemma visit_regular ps c files :
  Forall name_ok ps -> ps <> [] ->
  visit root (filepath_Join (root :: ps)) (inr (stat_of (Regular c))) files = (files ++ found ps (Regular c), None).
Proof.
  intros Hp Hne. pose proof root_not_nil. cbn [visit stat_of fi_IsDir fi_Size].
  rewrite Rel_names, split_names by done. unfold found. cbn [regular_files map below fst snd].
  unfold below. cbn [fst snd]. rewrite app_nil_r, filter_cons, filter_nil. unfold tracked at 1. cbn [fst].
  destruct (existsb _ ps) eqn:E.
  - apply existsb_exists in E as (n & Hn & ->%bool_decide_eq_true). apply list_elem_of_In in Hn.
    rewrite decide_False by (intros H'; by apply H'). cbn [map]. by rewrite app_nil_r.
  - rewrite decide_True; [done|]. intros Hin. apply not_true_iff_false in E. apply E, existsb_exists.
    exists (B ".git"). split; [by apply list_elem_of_In|by apply bool_decide_eq_true].
Qed.

Lemma walk_found e ps files :
  entry_ok e = true -> Forall name_ok ps -> (ps = [] -> exists es, e = Directory es) ->
  walk nofault nofault (visit root) (filepath_Join (root :: ps)) e files = (files ++ found ps e, None).
Proof.
  pose proof root_not_nil. revert ps files.
  induction e as [c|es IH] using entry_ind'; intros ps files Hok Hps Hd; cbn [walk].
  - apply visit_regular; [done|]. intros ->. by destruct (Hd eq_refl).
  - cbn [visit stat_of fi_IsDir]. rewrite found_directory. clear Hd. revert files.
    induction IH as [|[n e] es IHe _ IHes]; intros files; cbn [walk_names map concat fst snd];
      [by rewrite app_nil_r|].
    cbn [entry_ok forallb fst snd] in Hok. apply andb_true_iff in Hok as [[Hn He]%andb_true_iff Hok].
    apply bool_decide_eq_true in Hn. cbn [snd] in IHe.
    assert (Forall name_ok [n]) as Hn1 by (by constructor).
    rewrite Join_Join, IHe; [|done|by apply Forall_app|by destruct ps|done..].
    rewrite IHes by done. by rewrite app_assoc.
Qed.

Lemma getAllInfoFiles_found es :
  lstat root = inr (Directory es) -> entry_ok (Directory es) = true ->
  getAllInfoFiles nofault nofault lstat root =
  if (length (found [] (Directory es)) =? 0)%nat then inl (Errorf "no files in the directory")
  else inr (found [] (Directory es)).
Proof.
  intros Hl Hok. unfold getAllInfoFiles, Walk. rewrite Hl.
  replace root with (filepath_Join [root]) at 2.
  2:{ cbn [filepath_Join join]. by rewrite bool_decide_false by apply root_not_nil. }
  rewrite walk_found; [done|done|done|by eexists].
Qed.
End Found.

(** ** The info *)

(** The files of the tree [e] are on disk under [root]. *)
Definition on_disk (fs : FS) (root : bytes) (e : entry) : Prop :=
  forall ps c, (ps, c) ∈ regular_files e -> fs !! filepath_Join (root :: ps) = Some c.

(** Files are on disk with their contents, at the paths that [name] gives them. *)
Definition stored (fs : FS) (name : File -> bytes) (f : File) (c : bytes) : Prop :=
  f_Length f = Z.of_nat (length c) /\ fs !! name f = Some c.

Definition disk_name (root : bytes) (f : File) : bytes := filepath_Join (root :: f_Paths f).

Lemma stored_all fs name files :
  Forall (fun f => exists c, stored fs name f c) files -> exists cs, Forall2 (stored fs name) files cs.
Proof.
  induction 1 as [|f files [c Hc] _ [cs IH]]; [exists []; constructor|]. exists (c :: cs). by constructor.
Qed.

Lemma found_stored fs root e :
  on_disk fs root e -> Forall (fun f => exists c, stored fs (disk_name root) f c) (found [] e).
Proof.
  intros H. apply Forall_forall. intros f Hf.
  apply list_elem_of_In, in_map_iff in Hf as ((ps & c) & <- & Hf).
  apply list_elem_of_In, list_elem_of_filter in Hf as [_ Hf].
  apply list_elem_of_In, in_map_iff in Hf as ((ps' & c') & [= -> ->] & Hf%list_elem_of_In).
  exists c. split; [done|]. by apply H.
Qed.

Lemma stored_open fs root f c :
  filepath_Clean root = root -> stored fs (disk_name root) f c ->
  open_under no_faults fs root f = inr (mkReader c EOF).
Proof.
  intros Hr [_ Hc].
  assert (open_under no_faults fs root f = open_file no_faults fs (disk_name root f)) as ->.
  { unfold open_under, disk_name. destruct (f_Paths f) as [|p ps]; [|done].
    cbn [length Nat.ltb Nat.leb filepath_Join join].
    rewrite bool_decide_false by (rewrite <- Hr; apply Clean_not_nil). by rewrite Hr. }
  unfold open_file, os_Open. cbn [no_faults open_fault read_fault]. by rewrite Hc.
Qed.

Lemma stored_contents fs root files cs :
  filepath_Clean root = root -> Forall2 (stored fs (disk_name root)) files cs ->
  contents (open_under no_faults fs root) files (concat cs).
Proof.
  intros Hr H. exists cs. split; [done|]. eapply Forall2_impl; [exact H|].
  intros f c Hc. pose proof Hc as [Hl _]. rewrite Hl, Nat2Z.id. split; [lia|]. split; [done|].
  eexists. split; [by apply stored_open|]. by rewrite firstn_all.
Qed.

Lemma stored_bytes fs info dir files cs o :
  Forall2 (stored fs (path_of info dir)) files cs -> 0 <= o ->
  torrent_byte_loop info dir fs files o = concat cs !! Z.to_nat o.
Proof.
  intros H. revert o. induction H as [|f c files cs [Hl Hc] _ IH]; intros o Ho; [done|].
  cbn [torrent_byte_loop concat]. rewrite Hc, Hl. cbn [default].
  destruct (Z.ltb_spec o (Z.of_nat (length c))).
  - destruct (Z.leb_spec 0 o); [|lia]. by rewrite lookup_app_l by lia.
  - rewrite IH, lookup_app_r by lia. f_equal. lia.
Qed.

Lemma stored_holds fs info dir cs a d k :
  Forall2 (stored fs (path_of info dir)) (AllFiles info) cs -> 0 <= a ->
  d = take k (drop (Z.to_nat a) (concat cs)) -> holds info dir fs d a.
Proof.
  intros H Ha -> j b Hj. unfold torrent_byte. rewrite (stored_bytes fs info dir _ cs) by (done || lia).
  apply lookup_take_Some in Hj as [Hj _]. rewrite lookup_drop in Hj. rewrite <- Hj. f_equal. lia.
Qed.

(** The reader in the parent directory finds the files the info was made from. *)
Lemma path_of_root root info f :
  filepath_Clean root = root -> i_Name info = filepath_Base root -> Forall name_ok (f_Paths f) ->
  (IsDir info = false -> f_Paths f = []) ->
  path_of info (filepath_Dir root) f = disk_name root f.
Proof.
  intros Hr Hn Hf Hd. unfold path_of, File_PathWithPrefix, disk_name. rewrite Hn.
  destruct (IsDir info); [by apply Join_Dir_Base|]. rewrite (Hd eq_refl). by apply Join_Dir_Base.
Qed.

Lemma found_names e ps :
  entry_ok e = true -> Forall name_ok ps -> Forall (fun f => Forall name_ok (f_Paths f)) (found ps e).
Proof.
  revert ps. induction e as [c|es IH] using entry_ind'; intros ps Hok Hps.
  - unfold found. cbn [regular_files map below fst snd]. rewrite filter_cons, filter_nil. unfold below. cbn [fst snd].
    rewrite app_nil_r. destruct (decide _); repeat constructor; done.
  - rewrite found_directory.
    induction IH as [|[n e] es IHe _ IHes]; [constructor|].
    cbn [entry_ok forallb fst snd] in Hok. apply andb_true_iff in Hok as [[Hn He]%andb_true_iff Hok].
    apply bool_decide_eq_true in Hn. cbn [map concat fst snd].
    apply Forall_app. split; [|by apply IHes]. apply IHe; [done|].
    apply Forall_app. split; [done|]. by constructor.
Qed.

Lemma found_regular c : found [] (Regular c) = [mkFile (Z.of_nat (length c)) []].
Proof. done. Qed.

Lemma found_nonneg ps e : Forall (fun f => 0 <= f_Length f) (found ps e).
Proof. apply Forall_map, Forall_true. intros pc. simpl. lia. Qed.

Lemma sum_len_perm fs gs : fs ≡ₚ gs -> sum_len fs = sum_len gs.
Proof. induction 1; rewrite ?sum_len_cons; lia. Qed.

(** The info of a tree, before its pieces are hashed. *)
Lemma tree_info sort_Sort e :
  (forall l, sort_Sort l ≡ₚ l) -> (forall l, Sorted files_le (sort_Sort l)) -> found [] e <> [] ->
  let size := match e with Regular c => Z.of_nat (length c) | Directory _ => 0 end in
  let files := sort_Sort (match e with Regular _ => [] | Directory _ => found [] e end) in
  forall name pl pieces,
    let info := mkInfo name pl pieces size files in
    AllFiles info ≡ₚ found [] e /\ Sorted files_le (AllFiles info) /\
    (IsDir info = false -> Forall (fun f => f_Paths f = []) (AllFiles info)).
Proof.
  intros Hp Hs Hne size files name pl pieces info. unfold AllFiles, IsDir. cbn [info i_Files i_Length].
  subst files size. destruct e as [c|es].
  - assert (sort_Sort [] = []) as -> by (apply Permutation_nil; symmetry; apply Hp).
    cbn [length Nat.eqb negb]. rewrite found_regular. repeat split; repeat constructor.
  - assert (length (sort_Sort (found [] (Directory es))) <> 0%nat) as Hl.
    { rewrite (Permutation_length (Hp _)). by destruct (found [] (Directory es)). }
    apply Nat.eqb_neq in Hl. rewrite Hl. cbn [negb]. repeat split; [apply Hp|apply Hs|done].
Qed.

Lemma NewInfo_eq lstat fs sort_Sort root0 pl e :
  lstat (filepath_Clean root0) = inr e -> entry_ok e = true -> found [] e <> [] ->
  NewInfoFromFilePath (fun _ => None) (fun _ => None) lstat no_faults fs sort_Sort root0 pl =
  let root := filepath_Clean root0 in
  let size := match e with Regular c => Z.of_nat (length c) | Directory _ => 0 end in
  let files := sort_Sort (match e with Regular _ => [] | Directory _ => found [] e end) in
  match GeneratePiecesFromFiles (open_under no_faults fs root) (AllFiles (mkInfo [] 0 [] size files)) pl with
  | Ok pieces => Ok (mkInfo (filepath_Base root) pl pieces size files)
  | Err _ => Err (Errorf "error generating pieces")
  | Panic => Panic
  end.
Proof.
  intros Hl Hok Hne. unfold NewInfoFromFilePath. rewrite Hl. destruct e as [c|es]; [done|].
  cbn [stat_of fi_IsDir negb]. rewrite (getAllInfoFiles_found _ _ (Clean_Clean root0) es Hl Hok).
  destruct (found [] (Directory es)) eqn:E; [done|]. done.
Qed.

(** A piece of an info whose files are stored is read back. *)
Lemma read_piece fs dir info cs i :
  info_wf info -> 0 < i_PieceLength info -> TotalLength info + i_PieceLength info < 2 ^ 63 ->
  Forall2 (stored fs (path_of info dir)) (AllFiles info) cs ->
  i_Pieces info = hashes_of (concat cs) (i_PieceLength info) ->
  Z.of_nat (length (concat cs)) = TotalLength info ->
  CountPieces info = num_pieces (TotalLength info) (i_PieceLength info) ->
  0 <= i < CountPieces info ->
  exists p d r', Info_Piece info i = Ok p /\ Piece_Hash p = Ok (Sha1.Sum d) /\
    ReadBlock no_faults fs (NewReader dir info) i 0 (Piece_Length p) = (r', d, Done).
Proof.
  intros W Hp Hb Hs Hh Hl Hc Hi.
  destruct (piece_correct info (concat cs) i) as (p & Ep & Hlen & Ho & Hin & Hash); [done..|].
  set (d := take (Z.to_nat (Piece_Length p)) (drop (Z.to_nat (Piece_Offset p)) (concat cs))) in Hash.
  assert (Hd : Z.of_nat (length d) = Piece_Length p) by (unfold d; rewrite length_take, length_drop; lia).
  assert (Eo : PieceOffset info i 0 = Piece_Offset p).
  { unfold Info_Piece in Ep. destruct (_ <=? _); [done|]. injection Ep as <-.
    unfold Piece_Offset, PieceOffset in *. cbn [p_info p_index] in *. rewrite Z.add_0_r. apply i64_id.
    unfold is_i64. lia. }
  exists p, d. unfold ReadBlock. cbn [tr_info NewReader]. rewrite Eo, <- Hd.
  destruct (ReadAt_inside info dir fs (NewReader dir info) d (Piece_Offset p)) as [r' E]; [done..|lia| |].
  { by eapply stored_holds. }
  by exists r'.
Qed.

(** [C37] A torrent made from a file or a directory verifies against it.  [NewInfoFromFilePath]
    takes every regular file of the tree that is not under a ".git", in the order of the paths,
    and hashes their bytes; a reader of the parent directory then reads, for every piece of
    the info, exactly the bytes whose SHA-1 is the hash of the piece. *)
Theorem made_info_verifies fs lstat sort_Sort root0 pl e :
  (forall l, sort_Sort l ≡ₚ l) -> (forall l, Sorted files_le (sort_Sort l)) ->
  let root := filepath_Clean root0 in
  lstat root = inr e -> entry_ok e = true -> on_disk fs root e -> found [] e <> [] ->
  0 < pl -> sum_len (found [] e) + pl < 2 ^ 63 ->
  exists info,
    NewInfoFromFilePath (fun _ => None) (fun _ => None) lstat no_faults fs sort_Sort root0 pl = Ok info /\
    i_Name info = filepath_Base root /\ i_PieceLength info = pl /\
    AllFiles info ≡ₚ found [] e /\ Sorted files_le (AllFiles info) /\
    CountPieces info = num_pieces (sum_len (found [] e)) pl /\
    forall i, 0 <= i < CountPieces info ->
      exists p d r', Info_Piece info i = Ok p /\ Piece_Hash p = Ok (Sha1.Sum d) /\
        ReadBlock no_faults fs (NewReader (filepath_Dir root) info) i 0 (Piece_Length p) = (r', d, Done).
Proof.
  intros Hperm Hsort root Hl Hok Hdisk Hne Hp Hb.
  pose proof (tree_info sort_Sort e Hperm Hsort Hne) as T. cbn zeta in T.
  rewrite (NewInfo_eq _ _ _ _ _ e) by done. cbn zeta. fold root.
  set (size := match e with Regular c => _ | Directory _ => _ end) in *.
  set (files := sort_Sort _) in *.
  assert (Hr : filepath_Clean root = root) by apply Clean_Clean.
  assert (Hst : exists cs, Forall2 (stored fs (disk_name root)) (AllFiles (mkInfo [] 0 [] size files)) cs).
  { apply stored_all. destruct (T [] 0 []) as [T1 _]. rewrite T1. by apply found_stored. }
  destruct Hst as [cs Hcs].
  pose proof (stored_contents _ _ _ _ Hr Hcs) as C. pose proof (contents_length _ _ _ C) as Hlen.
  rewrite GeneratePiecesFromFiles_eq by done. apply writeFiles_contents in C. rewrite C.
  set (info := mkInfo _ _ _ _ _). exists info.
  destruct (T (filepath_Base root) pl (hashes_of (concat cs) pl)) as (T1 & T2 & T3). fold info in T1, T2, T3.
  change (AllFiles (mkInfo [] 0 [] size files)) with (AllFiles info) in Hcs, Hlen.
  assert (W : info_wf info).
  { split; [|rewrite (sum_len_perm _ _ T1); lia]. rewrite T1. apply found_nonneg. }
  pose proof (TotalLength_sum _ W) as Ht. rewrite (sum_len_perm _ _ T1) in Hlen, Ht.
  assert (Hn : CountPieces info = num_pieces (sum_len (found [] e)) pl).
  { unfold CountPieces, info. cbn [i_Pieces]. rewrite length_hashes_of, Hlen.
    destruct (num_pieces_bounds (sum_len (found [] e)) pl); [done|lia|]. lia. }
  do 6 (split; [done|]). intros i Hi.
  apply (read_piece fs (filepath_Dir root) info cs i); [done|done|rewrite Ht; done| |done|lia|by rewrite Ht|done].
  pose proof (found_names e [] Hok (Forall_nil_2 _)) as Hnames. rewrite <- T1 in Hnames.
  apply Forall2_same_length_lookup. apply Forall2_same_length_lookup in Hcs as [HL Hcs]. split; [done|].
  intros j f c Hf Hc. destruct (Hcs j f c Hf Hc) as [H1 H2]. split; [done|].
  rewrite (path_of_root root); [done|done|done| |].
  - rewrite Forall_forall in Hnames. apply Hnames. by apply list_elem_of_lookup_2 in Hf.
  - intros Hd. specialize (T3 Hd). rewrite Forall_forall in T3. apply T3. by apply list_elem_of_lookup_2 in Hf.
Qed.

#[export] Instance files_le_total : Total files_le.
Proof.
  intros f g. unfold files_le, files_Less. destruct (bytes_ltb (File_String g) (File_String f)) eqn:E; [|by left].
  right. apply not_true_iff_false. rewrite bytes_ltb_lt. apply bytes_ltb_lt in E.
  intros H. by destruct (bytes_lt_irrefl _ (bytes_lt_trans _ _ _ E H)).
Qed.

Lemma files_sorted l : merge_sort files_le l ≡ₚ l /\ Sorted files_le (merge_sort files_le l).
Proof. split; [apply merge_sort_Permutation|apply (Sorted_merge_sort files_le)]. Qed.

Definition demo_lstat (p : bytes) : error + entry :=
  if bool_decide (p = B "/d/t") then inr demo_tree else inl ErrNotExist.
Definition demo_root_disk : FS := <[B "/d/t/.git/HEAD" := B "ref"]> demo_disk.

Lemma demo_on_disk : on_disk demo_root_disk (B "/d/t") demo_tree.
Proof.
  assert (H : Forall (fun pc => demo_root_disk !! filepath_Join (B "/d/t" :: fst pc) = Some (snd pc))
                (regular_files demo_tree)) by (repeat constructor).
  intros ps c Hpc. rewrite Forall_forall in H. exact (H _ Hpc).
Qed.

Lemma made_info_verifies_witness :
  exists info,
    NewInfoFromFilePath (fun _ => None) (fun _ => None) demo_lstat no_faults demo_root_disk
      (merge_sort files_le) (B "/d//t/") 4 = Ok info /\
    i_Name info = B "t" /\ i_PieceLength info = 4 /\
    AllFiles info ≡ₚ [mkFile 6 [B "a"; B "x"]; mkFile 5 [B "a.txt"]] /\ Sorted files_le (AllFiles info) /\
    CountPieces info = 3 /\
    forall i, 0 <= i < CountPieces info ->
      exists p d r', Info_Piece info i = Ok p /\ Piece_Hash p = Ok (Sha1.Sum d) /\
        ReadBlock no_faults demo_root_disk (NewReader (B "/d") info) i 0 (Piece_Length p) = (r', d, Done).
Proof.
  exact (made_info_verifies demo_root_disk demo_lstat (merge_sort files_le) (B "/d//t/") 4 demo_tree
           (fun l => proj1 (files_sorted l)) (fun l => proj2 (files_sorted l)) eq_refl eq_refl demo_on_disk
           ltac:(vm_compute; discriminate) eq_refl eq_refl).
Defined.
