(* ===== verification/GoURL.v ===== *)
(** * URLs and query strings (package [net/url])

    [Values] is the map from a key to its values.  [Parse] is modelled as far as its callers
    use it: the scheme and the query.  What it says about the authority and the path of a
    hierarchical URL is the argument [hier]. *)

From S2P Require Import Prelude GoBytes GoNet GoCrypto Bencode BencodeRoundtrip.

(** ** Strings *)

(** [strings.Cut] with a separator of one byte. *)
Definition Cut (s : bytes) (sep : byte) : bytes * bytes :=
  match IndexByte s sep with
  | Some i => (take i s, drop (S i) s)
  | None => (s, [])
  end.

Fixpoint split_on (sep : byte) (s : bytes) : list bytes :=
  match s with
  | [] => [[]]
  | c :: s =>
      if bool_decide (c = sep) then [] :: split_on sep s
      else match split_on sep s with x :: xs => (c :: x) :: xs | [] => [[c]] end
  end.

Lemma Cut_app a sep b : sep ∉ a -> Cut (a ++ sep :: b) sep = (a, b).
Proof.
  intros H. unfold Cut. rewrite IndexByte_app by done. rewrite take_app_length.
  f_equal. replace (S (length a)) with (length a + 1)%nat by lia. by rewrite drop_app_add.
Qed.
Lemma Cut_none a sep : sep ∉ a -> Cut a sep = (a, []).
Proof. intros H. unfold Cut. by rewrite IndexByte_None. Qed.

Lemma split_on_none sep s : sep ∉ s -> split_on sep s = [s].
Proof.
  induction s as [|c s IH]; intros H; simpl; [done|]. apply not_elem_of_cons in H as [Hc H].
  rewrite bool_decide_eq_false_2 by done. by rewrite IH.
Qed.
Lemma split_on_app sep s rest : sep ∉ s -> split_on sep (s ++ sep :: rest) = s :: split_on sep rest.
Proof.
  induction s as [|c s IH]; intros H; simpl; [by rewrite bool_decide_eq_true_2|].
  apply not_elem_of_cons in H as [Hc H]. rewrite bool_decide_eq_false_2 by done. by rewrite IH.
Qed.
Lemma split_on_behind sep s rest : split_on sep (s ++ sep :: rest) = split_on sep s ++ split_on sep rest.
Proof.
  induction s as [|c s IH]; cbn [app split_on]; [by rewrite bool_decide_eq_true_2|]. rewrite IH.
  case_bool_decide; [done|]. assert (Hne : split_on sep s <> []) by (destruct s; cbn; (by repeat case_match)).
  by destruct (split_on sep s).
Qed.
(** A byte that [Cut] finds. *)
Lemma Cut_found s sep : sep ∈ s -> exists a b, s = a ++ sep :: b /\ (sep ∉ a) /\ Cut s sep = (a, b).
Proof.
  intros Hin. assert (exists a b, s = a ++ sep :: b /\ sep ∉ a) as (a & b & -> & Ha).
  { induction s as [|c s IH]; [by apply elem_of_nil in Hin|]. destruct (decide (c = sep)) as [->|Hc].
    - exists [], s. split; [done|apply not_elem_of_nil].
    - apply elem_of_cons in Hin as [?|Hin]; [by destruct Hc|]. destruct (IH Hin) as (a & b & -> & Ha).
      exists (c :: a), b. split; [done|]. by apply not_elem_of_cons. }
  exists a, b. split; [done|]. split; [done|]. by apply Cut_app.
Qed.
Lemma split_on_join sep l : l <> [] -> Forall (fun s => sep ∉ s) l -> split_on sep (join [sep] l) = l.
Proof.
  intros Hl H. induction H as [|s l Hs H IH]; [done|]. destruct l as [|s' l].
  - simpl. by apply split_on_none.
  - change (join [sep] (s :: s' :: l)) with (s ++ [sep] ++ join [sep] (s' :: l)). cbn [app].
    rewrite split_on_app by done. by rewrite IH.
Qed.

(** ** Escaping in the query component *)

Definition is_lower (c : byte) : bool := (97 <=? b2z c) && (b2z c <=? 122).
Definition is_upper (c : byte) : bool := (65 <=? b2z c) && (b2z c <=? 90).
Definition shouldEscape (c : byte) : bool :=
  negb (is_lower c || is_upper c || is_digit c || existsb (fun x => bool_decide (c = x)) (B "-_.~")).
Definition upperhex (z : Z) : byte := if z <? 10 then z2b (48 + z) else z2b (55 + z).
Definition escape_byte (c : byte) : bytes :=
  if bool_decide (c = " "%byte) then B "+"
  else if shouldEscape c then ["%"%byte; upperhex (Z.shiftr (b2z c) 4); upperhex (Z.land (b2z c) 15)]
  else [c].
Definition QueryEscape (s : bytes) : bytes := flat_map escape_byte s.

(** [unescape]; [plus] says whether ['+'] is a space (in a query, not in a fragment). *)
Fixpoint unescape (plus : bool) (s : bytes) : option bytes :=
  match s with
  | [] => Some []
  | c :: t =>
      if bool_decide (c = "%"%byte) then
        match t with
        | a :: b :: t =>
            match unhex a, unhex b with
            | Some x, Some y => option_map (cons (z2b (16 * x + y))) (unescape plus t)
            | _, _ => None
            end
        | _ => None
        end
      else option_map (cons (if plus && bool_decide (c = "+"%byte) then " "%byte else c)) (unescape plus t)
  end.
Definition QueryUnescape : bytes -> option bytes := unescape true.

Lemma unescape_byte c s : unescape true (escape_byte c ++ s) = option_map (cons c) (unescape true s).
Proof. destruct c; reflexivity. Qed.
Lemma QueryUnescape_Escape s : QueryUnescape (QueryEscape s) = Some s.
Proof.
  unfold QueryUnescape, QueryEscape. induction s as [|c s IH]; [done|]. cbn [flat_map].
  by rewrite unescape_byte, IH.
Qed.

(** The bytes of an escaped string. *)
Definition query_safe (c : byte) : bool :=
  negb (shouldEscape c) || bool_decide (c = "%"%byte) || bool_decide (c = "+"%byte).
Lemma escape_byte_safe c : forallb query_safe (escape_byte c) = true.
Proof. by destruct c. Qed.
Lemma QueryEscape_safe s : forallb query_safe (QueryEscape s) = true.
Proof. induction s as [|c s IH]; [done|]. cbn [QueryEscape flat_map]. by rewrite forallb_app, escape_byte_safe. Qed.
Lemma not_in_safe c s : query_safe c = false -> forallb query_safe s = true -> c ∉ s.
Proof.
  intros Hc Hs Hin. rewrite forallb_forall in Hs. apply list_elem_of_In in Hin.
  rewrite (Hs c Hin) in Hc. done.
Qed.

(** ** [Values] *)

Abbreviation Values := (gmap bytes (list bytes)).
Implicit Types vs : Values.

Definition Values_values vs (key : bytes) : list bytes := default [] (vs !! key).
Definition Values_Get vs (key : bytes) : bytes := default [] (head (Values_values vs key)).
Definition Values_Set vs (key value : bytes) : Values := <[key := [value]]> vs.
Definition Values_Add vs (key value : bytes) : Values := <[key := Values_values vs key ++ [value]]> vs.
Definition Values_Del vs (key : bytes) : Values := delete key vs.

Definition pairs_of (l : list (bytes * list bytes)) : list (bytes * bytes) :=
  flat_map (fun kv => map (pair (fst kv)) (snd kv)) l.
Definition encode_pair (kv : bytes * bytes) : bytes := QueryEscape (fst kv) ++ B "=" ++ QueryEscape (snd kv).
(** [Encode]: sorted by key. *)
Definition Values_Encode vs : bytes :=
  join (B "&") (map encode_pair (pairs_of (sort_by_key (map_to_list vs)))).

(** One round of [parseQuery]: a part that cannot be read is passed over; only the first such
    error is reported, which [URL.Query] ignores. *)
Definition parse_pair (vs : Values) (part : bytes) : Values :=
  if ContainsByte part ";"%byte then vs
  else if bool_decide (part = []) then vs
  else
    let '(key, value) := Cut part "="%byte in
    match QueryUnescape key, QueryUnescape value with
    | Some key, Some value => Values_Add vs key value
    | _, _ => vs
    end.
Definition ParseQuery (query : bytes) : Values := foldl parse_pair ∅ (split_on "&"%byte query).

(** *** Encoding and parsing back *)

Lemma encode_pair_safe kv :
  ("&"%byte ∉ encode_pair kv) /\ (";"%byte ∉ encode_pair kv) /\ encode_pair kv <> [].
Proof.
  unfold encode_pair. destruct kv as [k v]. cbn [fst snd].
  pose proof (QueryEscape_safe k) as Hk. pose proof (QueryEscape_safe v) as Hv.
  assert (forall c, query_safe c = false -> c <> "="%byte -> c ∉ (QueryEscape k ++ B "=" ++ QueryEscape v)) as H.
  { intros c Hc Hne. rewrite !not_elem_of_app. split; [by eapply not_in_safe|]. split; [|by eapply not_in_safe].
    by apply not_elem_of_cons, conj; [|apply not_elem_of_nil]. }
  split; [by apply H|]. split; [by apply H|]. by destruct (QueryEscape k).
Qed.

Lemma parse_encode_pair vs kv : parse_pair vs (encode_pair kv) = Values_Add vs (fst kv) (snd kv).
Proof.
  destruct (encode_pair_safe kv) as (H1 & H2 & H3). unfold parse_pair.
  rewrite (proj2 (ContainsByte_false _ _) H2), bool_decide_eq_false_2 by done.
  unfold encode_pair. change (B "=" ++ ?x) with ("="%byte :: x).
  rewrite Cut_app by (eapply not_in_safe; [done|apply QueryEscape_safe]). by rewrite !QueryUnescape_Escape.
Qed.

Lemma parse_pairs vs l :
  foldl parse_pair vs (map encode_pair l) = foldl (fun vs kv => Values_Add vs (fst kv) (snd kv)) vs l.
Proof.
  revert vs. induction l as [|kv l IH]; intros vs; [done|]. cbn [map foldl]. by rewrite parse_encode_pair.
Qed.
Lemma split_pairs l : l <> [] -> split_on "&"%byte (join (B "&") (map encode_pair l)) = map encode_pair l.
Proof.
  intros Hl. apply split_on_join; [by destruct l|]. apply Forall_map, Forall_forall. intros x _.
  by apply encode_pair_safe.
Qed.

Lemma ParseQuery_pairs l :
  ParseQuery (join (B "&") (map encode_pair l)) = foldl (fun vs kv => Values_Add vs (fst kv) (snd kv)) ∅ l.
Proof.
  unfold ParseQuery. destruct l as [|kv l]; [done|]. by rewrite split_pairs, parse_pairs by done.
Qed.

Lemma Add_list vs k l : l <> [] ->
  foldl (fun vs kv => Values_Add vs (fst kv) (snd kv)) vs (map (pair k) l) = <[k := Values_values vs k ++ l]> vs.
Proof.
  intros Hl. revert vs Hl. induction l as [|v l IH]; intros vs Hl; [done|]. cbn [map foldl fst snd].
  destruct l as [|v' l]; [done|]. rewrite IH by done. unfold Values_Add, Values_values.
  rewrite lookup_insert_eq, insert_insert_eq. cbn [default]. unfold id. by rewrite <- app_assoc.
Qed.

Lemma Add_pairs vs (l : list (bytes * list bytes)) :
  NoDup (map fst l) -> Forall (fun kv => snd kv <> [] /\ vs !! fst kv = None) l ->
  foldl (fun vs kv => Values_Add vs (fst kv) (snd kv)) vs (pairs_of l) = list_to_map l ∪ vs.
Proof.
  revert vs. induction l as [|[k x] l IH]; intros vs Hnd Hl; cbn [pairs_of flat_map map fst snd] in *.
  - symmetry. apply (left_id_L ∅ (∪)).
  - apply NoDup_cons in Hnd as [Hk Hnd]. apply Forall_cons in Hl as [[Hx Hv] Hl]. cbn [fst snd] in *.
    rewrite foldl_app, Add_list by done. unfold Values_values. rewrite Hv. cbn [default app].
    fold (pairs_of l). rewrite IH; [|done|].
    + rewrite list_to_map_cons, <- insert_union_l. symmetry. apply insert_union_r. apply not_elem_of_list_to_map_1. exact Hk.
    + apply Forall_forall. intros kv Hin. rewrite Forall_forall in Hl. destruct (Hl kv Hin) as [H1 H2].
      split; [done|]. rewrite lookup_insert_ne; [done|]. intros ->. apply Hk. by apply list_elem_of_fmap_2.
Qed.

(** Every key has a value: the others leave no trace in a query. *)
Definition Values_full vs : Prop := map_Forall (fun _ l => l <> []) vs.

(** The pairs of [vs] on top of other keys. *)
Lemma Add_Encode vs vs0 : Values_full vs -> vs ##ₘ vs0 ->
  foldl (fun vs kv => Values_Add vs (fst kv) (snd kv)) vs0 (pairs_of (sort_by_key (map_to_list vs))) = vs ∪ vs0.
Proof.
  intros H Hd. assert (sort_by_key (map_to_list vs) ≡ₚ map_to_list vs) as Hp by apply sort_by_key_perm.
  rewrite Add_pairs.
  - f_equal. rewrite (list_to_map_proper _ (map_to_list vs)); [apply list_to_map_to_list| |done].
    rewrite Hp. apply NoDup_fst_map_to_list.
  - change (map fst) with (fmap (M := list) (@fst bytes (list bytes))). rewrite Hp. apply NoDup_fst_map_to_list.
  - rewrite Hp. apply Forall_forall. intros [k l] Hin%elem_of_map_to_list. split; [by apply (H k)|].
    by eapply map_disjoint_Some_l.
Qed.

Lemma ParseQuery_Encode vs : Values_full vs -> ParseQuery (Values_Encode vs) = vs.
Proof.
  intros H. unfold Values_Encode. rewrite ParseQuery_pairs, Add_Encode by (done || apply map_disjoint_empty_r).
  apply map_union_empty.
Qed.

(** The same behind another query. *)
Lemma ParseQuery_behind q vs : Values_full vs -> vs <> ∅ -> vs ##ₘ ParseQuery q ->
  ParseQuery (q ++ B "&" ++ Values_Encode vs) = vs ∪ ParseQuery q.
Proof.
  intros H Hne Hd. unfold ParseQuery at 1, Values_Encode. change (B "&" ++ ?x) with ("&"%byte :: x).
  rewrite split_on_behind, foldl_app. fold (ParseQuery q).
  rewrite split_pairs, parse_pairs; [by apply Add_Encode|].
  intros E. apply Hne. apply map_to_list_empty_iff. destruct (map_to_list vs) as [|[k l] rest] eqn:El; [done|].
  assert (Hkl : (k, l) ∈ sort_by_key ((k, l) :: rest)) by (rewrite sort_by_key_perm; set_solver).
  exfalso. assert (Hin : (k, l) ∈ map_to_list vs) by (rewrite El; set_solver).
  apply elem_of_map_to_list in Hin. apply H in Hin. destruct l as [|v l]; [done|].
  assert (Hkv : (k, v) ∈ pairs_of (sort_by_key ((k, v :: l) :: rest))); [|rewrite E in Hkv; by apply elem_of_nil in Hkv].
  unfold pairs_of. apply list_elem_of_In, in_flat_map. exists (k, v :: l). split; [by apply list_elem_of_In|].
  by left.
Qed.

Lemma ParseQuery_app part vs : "&"%byte ∉ part -> Values_full vs -> vs <> ∅ -> vs ##ₘ parse_pair ∅ part ->
  ParseQuery (part ++ B "&" ++ Values_Encode vs) = vs ∪ parse_pair ∅ part.
Proof.
  intros Hp H Hne Hd. assert (ParseQuery part = parse_pair ∅ part) as E.
  { unfold ParseQuery. by rewrite split_on_none. }
  rewrite <- E in *. by apply ParseQuery_behind.
Qed.

(** What is escaped has no other separators. *)
Lemma not_in_Encode c vs : query_safe c = false -> c <> "="%byte -> c <> "&"%byte -> c ∉ Values_Encode vs.
Proof.
  intros Hc He Ha. unfold Values_Encode. induction (pairs_of _) as [|kv l IH]; [by apply not_elem_of_nil|].
  assert (c ∉ encode_pair kv) as Hkv.
  { unfold encode_pair. rewrite !not_elem_of_app. split; [by eapply not_in_safe, QueryEscape_safe|].
    split; [|by eapply not_in_safe, QueryEscape_safe]. by apply not_elem_of_cons, conj; [|apply not_elem_of_nil]. }
  cbn [map]. destruct l as [|kv' l]; [done|]. change (join (B "&") (encode_pair kv :: map encode_pair (kv' :: l)))
    with (encode_pair kv ++ B "&" ++ join (B "&") (map encode_pair (kv' :: l))).
  rewrite !not_elem_of_app. split; [done|]. split; [|exact IH]. by apply not_elem_of_cons, conj; [|apply not_elem_of_nil].
Qed.

(** ** [Parse] *)

Record URL : Type := mkURL { u_Scheme : bytes; u_RawQuery : bytes }.
Definition URL_Query (u : URL) : Values := ParseQuery (u_RawQuery u).

Definition is_letter (c : byte) : bool := is_lower c || is_upper c.
Definition to_lower (c : byte) : byte := if is_upper c then z2b (b2z c + 32) else c.
Definition stringContainsCTLByte (s : bytes) : bool :=
  existsb (fun c => (b2z c <? 32) || (b2z c =? 127)) s.

(** [getScheme]: the scheme and the rest. *)
Fixpoint getScheme_loop (seen : bytes) (s : bytes) : res (option (bytes * bytes)) :=
  match s with
  | [] => Ok None
  | c :: s =>
      if is_letter c then getScheme_loop (seen ++ [c]) s
      else if is_digit c || existsb (fun x => bool_decide (c = x)) (B "+-.") then
        if bool_decide (seen = []) then Ok None else getScheme_loop (seen ++ [c]) s
      else if bool_decide (c = ":"%byte) then
        if bool_decide (seen = []) then Err (Errorf "missing protocol scheme") else Ok (Some (seen, s))
      else Ok None
  end.
Definition getScheme (rawURL : bytes) : res (bytes * bytes) :=
  res_map (default ([], rawURL)) (getScheme_loop [] rawURL).

Section Parse.
(** The checks of the authority and the path: [hier scheme rest]. *)
Variable hier : bytes -> bytes -> option error.

Definition parse_url (rawURL : bytes) : res URL :=
  if stringContainsCTLByte rawURL then Err (Errorf "net/url: invalid control character in URL")
  else if bool_decide (rawURL = B "*") then Ok (mkURL [] [])
  else
    let! '(scheme, rest) := getScheme rawURL in
    let scheme := map to_lower scheme in
    let '(rest, query) := Cut rest "?"%byte in
    if negb (HasPrefix rest (B "/")) && negb (bool_decide (scheme = [])) then Ok (mkURL scheme query)
    else match hier scheme rest with Some e => Err e | None => Ok (mkURL scheme query) end.

Definition URL_Parse (rawURL : bytes) : res URL :=
  let '(u, frag) := Cut rawURL "#"%byte in
  let! url := parse_url u in
  match unescape false frag with
  | Some _ => Ok url
  | None => Err (Errorf "invalid URL escape")
  end.
End Parse.

(** A "magnet:?query" URI is taken apart as it should. *)
Definition printable (c : byte) : bool := (32 <=? b2z c) && (b2z c <? 127) && negb (bool_decide (c = "#"%byte)).
Lemma URL_Parse_magnet hier query :
  forallb printable query = true -> URL_Parse hier (B "magnet:?" ++ query) = Ok (mkURL (B "magnet") query).
Proof.
  intros H. assert (forall c, printable c = true -> (b2z c <? 32) || (b2z c =? 127) = false /\ c <> "#"%byte) as Hp.
  { intros c. unfold printable. rewrite !andb_true_iff, negb_true_iff, bool_decide_eq_false, orb_false_iff.
    rewrite Z.leb_le, !Z.ltb_lt, Z.ltb_ge, Z.eqb_neq. intros [[? ?] ?]. repeat split; (done || lia). }
  rewrite forallb_forall in H. unfold URL_Parse.
  rewrite Cut_none by (intros [Hin|Hin]%elem_of_app; [set_solver|apply list_elem_of_In, H, Hp in Hin; naive_solver]).
  unfold parse_url, stringContainsCTLByte. rewrite existsb_app.
  assert (existsb (fun c => (b2z c <? 32) || (b2z c =? 127)) query = false) as ->.
  { apply not_true_iff_false. rewrite existsb_exists. intros (c & Hin & Hc). apply H, Hp in Hin as [Hin _].
    by rewrite Hin in Hc. }
  change (existsb _ (B "magnet:?")) with false. cbn [orb]. rewrite bool_decide_eq_false_2 by done.
  change (getScheme (B "magnet:?" ++ query)) with (Ok (B "magnet", "?"%byte :: query)). cbn [res_bind].
  pose proof (Cut_app [] "?"%byte query (not_elem_of_nil _)) as E. cbn [app] in E. rewrite E. reflexivity.
Qed.
