(* ===== verification/Torrent.v ===== *)
(** * Torrent files and magnet links (metainfo/metainfo.go, addr_host.go, magnet.go)

    Host addresses, announce and URL lists, the ".torrent" file with its codec, and magnet
    links.  Files are those of [TorrentIO], URLs those of [GoURL] ([hier] as there). *)

From S2P Require Import Prelude GoBytes GoNet GoCrypto Bencode Codec Hash Info TorrentIO GoURL.

(** ** Host addresses (addr_host.go) *)

Record HostAddr : Type := NewHostAddr { ha_Host : bytes; ha_Port : Z }.
#[export] Instance HostAddr_eq_dec : EqDecision HostAddr.
Proof. solve_decision. Defined.
Definition zeroHostAddr : HostAddr := NewHostAddr [] 0.

Definition ParseHostAddr (s : bytes) : res HostAddr :=
  let! '(host, port) := SplitHostPort s in
  let! p := parse_uint 16 port in Ok (NewHostAddr host p).

Definition HostAddr_String (a : HostAddr) : bytes :=
  if ha_Port a =? 0 then ha_Host a else JoinHostPort (ha_Host a) (format_uint 10 (ha_Port a)).

Definition HostAddr_Equal (a o : HostAddr) : bool :=
  (ha_Port a =? ha_Port o) && bool_decide (ha_Host a = ha_Host o).

Definition HostAddr_MarshalBencode (a : HostAddr) : res bytes :=
  match Encode (TSlice TIface) (VSlice [VIface (Some (VString (ha_Host a))); VIface (Some (VUint (ha_Port a)))]) with
  | (b, Done) => Ok b
  | (_, Fail e) => Err e
  | _ => Panic
  end.

(** [decode]: an index or a type assertion that fails is a panic, which it turns into an error;
    the host may have been set by then. *)
Definition errPanic : error := Errorf "runtime error".
Definition HostAddr_decode (a : HostAddr) (vs : list gval) : recv HostAddr :=
  match vs !! 0%nat with
  | Some (VIface (Some (VString host))) =>
      let a := NewHostAddr host (ha_Port a) in
      match vs !! 1%nat with
      | Some (VIface (Some (VInt port))) => (NewHostAddr host (u16 port), Done)
      | _ => (a, Fail errPanic)
      end
  | _ => (a, Fail errPanic)
  end.

Definition HostAddr_UnmarshalBencode (a : HostAddr) (b : bytes) : recv HostAddr :=
  match Decode (NewDecoder b) TIface (VIface None) with
  | (_, VIface (Some (VString v)), Done) =>
      match ParseHostAddr v with
      | Ok a => (a, Done)
      | Err e => (zeroHostAddr, Fail e)
      | Panic => (a, Panicked)
      end
  | (_, VIface (Some (VSlice vs)), Done) => HostAddr_decode a vs
  | (_, _, Done) => (a, Fail (Errorf "unsupported type"))
  | (_, _, o) => (a, o)
  end.

(** ** Announces (metainfo.go, internal/helper/slice.go) *)

Definition ContainsString (ss : list bytes) (s : bytes) : bool := existsb (fun v => bool_decide (v = s)) ss.

Definition AnnounceList : Type := list (list bytes).
Definition unique_step (announces : list bytes) (v : bytes) : list bytes :=
  if negb (bool_decide (v = [])) && negb (ContainsString announces v) then announces ++ [v] else announces.
Definition Unique (al : AnnounceList) : list bytes :=
  foldl (fun announces tier => foldl unique_step announces tier) [] al.

(** ** URL lists *)

Definition URLList : Type := list bytes.
Definition FullURL (us : URLList) (index : nat) (name : bytes) : res bytes :=
  match us !! index with
  | Some url => Ok (if HasSuffix url (B "/") then url ++ name else url)
  | None => Panic
  end.
Definition URLList_MarshalBencode (us : URLList) : res bytes :=
  EncodeBytes (TSlice TString) (VSlice (map VString us)).

Fixpoint strings_of (vs : list gval) : option (list bytes) :=
  match vs with
  | [] => Some []
  | VIface (Some (VString s)) :: vs => option_map (cons s) (strings_of vs)
  | _ => None
  end.
Definition URLList_UnmarshalBencode (us : URLList) (b : bytes) : recv URLList :=
  match DecodeBytes b TIface (VIface None) with
  | (VIface (Some (VString s)), Done) => ([s], Done)
  | (VIface (Some (VSlice vs)), Done) =>
      match strings_of vs with
      | Some urls => (urls, Done)
      | None => (us, Fail (Errorf "the element of 'url-list' is not string"))
      end
  | (_, Done) => (us, Fail (Errorf "invalid 'url-lsit'"))
  | (_, o) => (us, o)
  end.

(** ** Magnet links (magnet.go) *)

Record Magnet : Type := mkMagnet {
  mg_InfoHash : Hash;
  mg_Trackers : list bytes;
  mg_DisplayName : bytes;
  mg_Params : Values;
}.

Definition xtPrefix : bytes := B "urn:btih:".

Definition Magnet_Peers (m : Magnet) : res (list HostAddr) :=
  res_mapM ParseHostAddr (List.filter (fun v => negb (bool_decide (v = []))) (Values_values (mg_Params m) (B "x.pe"))).

Definition magnet_values (m : Magnet) : Values :=
  let vs := foldl (fun vs tr => Values_Add vs (B "tr") tr) (mg_Params m) (mg_Trackers m) in
  if bool_decide (mg_DisplayName m = []) then vs else Values_Add vs (B "dn") (mg_DisplayName m).
(** [u.String()] for a URL with a scheme and a query only is [scheme:?query]. *)
Definition Magnet_String (m : Magnet) : bytes :=
  let vs := magnet_values m in
  B "magnet:?" ++ B "xt=" ++ xtPrefix ++ Hash_HexString (mg_InfoHash m) ++
  (if (size vs =? 0)%nat then [] else B "&" ++ Values_Encode vs).

Definition parseInfohash (xt : bytes) : res Hash :=
  if negb (HasPrefix xt xtPrefix) then Err (Errorf "bad xt parameter prefix")
  else
    let encoded := drop (length xtPrefix) xt in
    if (length encoded =? 40)%nat then
      let '(d, ok) := hex_decode encoded in
      if negb ok then Err (Errorf "error decoding xt")
      else if negb (length d =? 20)%nat then Panic else Ok (copy_into zeroHash d)
    else if (length encoded =? 32)%nat then
      match base32_decode encoded with
      | None => Err (Errorf "error decoding xt")
      | Some d => if negb (length d =? 20)%nat then Panic else Ok (copy_into zeroHash d)
      end
    else Err (Errorf "unhandled xt parameter encoding").

Definition dropFirst (vs : Values) (key : bytes) : Values :=
  match Values_values vs key with
  | [] | [_] => Values_Del vs key
  | _ :: sl => <[key := sl]> vs
  end.

Definition ParseMagnetURI (hier : bytes -> bytes -> option error) (uri : bytes) : res Magnet :=
  match URL_Parse hier uri with
  | Err _ => Err (Errorf "error parsing uri")
  | Panic => Panic
  | Ok u =>
      if negb (bool_decide (u_Scheme u = B "magnet")) then Err (Errorf "unexpected scheme")
      else
        let q := URL_Query u in
        match parseInfohash (Values_Get q (B "xt")) with
        | Err _ => Err (Errorf "error parsing infohash")
        | Panic => Panic
        | Ok ih =>
            let q := dropFirst q (B "xt") in
            let dn := Values_Get q (B "dn") in
            let q := dropFirst q (B "dn") in
            let trackers := Values_values q (B "tr") in
            Ok (mkMagnet ih trackers dn (Values_Del q (B "tr")))
        end
  end.

(** ** Reflected types *)

Definition val_HostAddr (v : gval) : HostAddr :=
  match v with VStruct [VString h; VUint p] => NewHostAddr h p | _ => zeroHostAddr end.
Definition HostAddr_val (a : HostAddr) : gval := VStruct [VString (ha_Host a); VUint (ha_Port a)].
Definition HostAddrT : gtype :=
  bencodeT val_HostAddr HostAddr_val
    (TStruct [exported (B "Host") [] TString; exported (B "Port") [] (TUint 16)])
    HostAddr_UnmarshalBencode HostAddr_MarshalBencode.

Definition val_strings (v : gval) : list bytes :=
  match v with VSlice l => map (fun v => match v with VString s => s | _ => [] end) l | _ => [] end.
Definition strings_val (l : list bytes) : gval := VSlice (map VString l).
Definition URLListT : gtype :=
  bencodeT val_strings strings_val (TSlice TString) URLList_UnmarshalBencode URLList_MarshalBencode.

Definition val_Hashes (v : gval) : Hashes :=
  match v with VSlice l => map (fun v => match v with VBytes s => s | _ => [] end) l | _ => [] end.
Definition Hashes_val (hs : Hashes) : gval := VSlice (map VBytes hs).
Definition HashesT : gtype :=
  bencodeT val_Hashes Hashes_val (TSlice (TArray 20 (TUint 8))) Hashes_UnmarshalBencode Hashes_MarshalBencode.

Definition FileT : gtype := TStruct [
  exported (B "Length") (B "length") (TInt 64);
  exported (B "Paths") (B "path") (TSlice TString)].
Definition File_val (f : File) : gval := VStruct [VInt (f_Length f); strings_val (f_Paths f)].
Definition val_File (v : gval) : File :=
  match v with VStruct [VInt n; p] => mkFile n (val_strings p) | _ => mkFile 0 [] end.

Definition InfoT : gtype := TStruct [
  exported (B "Name") (B "name") TString;
  exported (B "PieceLength") (B "piece length") (TInt 64);
  exported (B "Pieces") (B "pieces") HashesT;
  exported (B "Length") (B "length,omitempty") (TInt 64);
  exported (B "Files") (B "files,omitempty") (TSlice FileT)].
Definition Info_val (i : Info) : gval :=
  VStruct [VString (i_Name i); VInt (i_PieceLength i); Hashes_val (i_Pieces i); VInt (i_Length i);
           VSlice (map File_val (i_Files i))].
Definition zeroInfo : Info := mkInfo [] 0 [] 0 [].
Definition val_Info (v : gval) : Info :=
  match v with
  | VStruct [VString n; VInt pl; p; VInt l; VSlice fs] => mkInfo n pl (val_Hashes p) l (map val_File fs)
  | _ => zeroInfo
  end.

(** ** [MetaInfo] *)

Record MetaInfo : Type := mkMetaInfo {
  mi_InfoBytes : bytes;
  mi_Announce : bytes;
  mi_AnnounceList : AnnounceList;
  mi_Nodes : list HostAddr;
  mi_URLList : URLList;
  mi_CreationDate : Z;
  mi_Comment : bytes;
  mi_CreatedBy : bytes;
  mi_Encoding : bytes;
}.
Definition zeroMetaInfo : MetaInfo := mkMetaInfo [] [] [] [] [] 0 [] [] [].

Definition MetaInfoT : gtype := TStruct [
  exported (B "InfoBytes") (B "info") TRaw;
  exported (B "Announce") (B "announce,omitempty") TString;
  exported (B "AnnounceList") (B "announce-list,omitempty") (TSlice (TSlice TString));
  exported (B "Nodes") (B "nodes,omitempty") (TSlice HostAddrT);
  exported (B "URLList") (B "url-list,omitempty") URLListT;
  exported (B "CreationDate") (B "creation date,omitempty") (TInt 64);
  exported (B "Comment") (B "comment,omitempty") TString;
  exported (B "CreatedBy") (B "created by,omitempty") TString;
  exported (B "Encoding") (B "encoding,omitempty") TString].
Definition MetaInfo_val (m : MetaInfo) : gval :=
  VStruct [VBytes (mi_InfoBytes m); VString (mi_Announce m); VSlice (map strings_val (mi_AnnounceList m));
           VSlice (map HostAddr_val (mi_Nodes m)); strings_val (mi_URLList m); VInt (mi_CreationDate m);
           VString (mi_Comment m); VString (mi_CreatedBy m); VString (mi_Encoding m)].
Definition val_MetaInfo (v : gval) : MetaInfo :=
  match v with
  | VStruct [VBytes info; VString ann; VSlice al; VSlice ns; us; VInt d; VString c; VString by_; VString e] =>
      mkMetaInfo info ann (map val_strings al) (map val_HostAddr ns) (val_strings us) d c by_ e
  | _ => zeroMetaInfo
  end.

(** [Load] from a reader that delivers [input]; bytes behind the dictionary are not looked at. *)
Definition Load (input : bytes) : recv MetaInfo :=
  match Decode (NewDecoder input) (TPtr MetaInfoT) (VPtr (Some (MetaInfo_val zeroMetaInfo))) with
  | (_, VPtr (Some v), o) => (val_MetaInfo v, o)
  | (_, _, o) => (zeroMetaInfo, o)
  end.
Definition LoadFromFile (F : faults) (fs : FS) (filename : bytes) : recv MetaInfo :=
  match os_Open F fs filename with
  | Some e => (zeroMetaInfo, Fail e)
  | None => Load (default [] (fs !! filename))
  end.
(** [Write]: what reaches the writer. *)
Definition MetaInfo_Write (mi : MetaInfo) : bytes * outcome := Encode MetaInfoT (MetaInfo_val mi).

Definition Announces (mi : MetaInfo) : AnnounceList :=
  if (0 <? length (mi_AnnounceList mi))%nat then mi_AnnounceList mi
  else if bool_decide (mi_Announce mi = []) then [] else [[mi_Announce mi]].

Definition MetaInfo_InfoHash (mi : MetaInfo) : Hash := NewHashFromBytes (mi_InfoBytes mi).
Definition MetaInfo_Info (mi : MetaInfo) : recv Info :=
  let '(v, o) := DecodeBytes (mi_InfoBytes mi) InfoT (Info_val zeroInfo) in (val_Info v, o).

Definition MetaInfo_Magnet (mi : MetaInfo) (displayName : bytes) (infoHash : Hash) : Magnet :=
  mkMagnet
    (if Hash_IsZero infoHash then MetaInfo_InfoHash mi else infoHash)
    (Unique (Announces mi))
    (if bool_decide (displayName = []) then i_Name (MetaInfo_Info mi).1 else displayName)
    ∅.
