(* ===== verification/TorrentThms.v ===== *)
(** * Theorems about torrent files, host addresses and magnet links

    A written torrent file is read back, with the same info hash and the same "info" part; host
    addresses and magnet links survive both of their forms; [Unique] keeps each announce once. *)

From S2P Require Import Prelude GoBytes GoNet GoCrypto Bencode BencodeFacts BencodeRoundtrip Codec.
From S2P Require Import BencodeStruct BencodeIface Hash CodecThms Info TorrentIO GoURL Torrent.

(** ** Host addresses *)

(** A host without brackets, as in every legal address. *)
Record HostAddr_wf (a : HostAddr) : Prop := {
  ha_short : short (ha_Host a);
  ha_open : "["%byte ∉ ha_Host a; ha_close : "]"%byte ∉ ha_Host a;
  ha_u16 : is_u16 (ha_Port a) }.

Lemma port_chars p c : 0 <= p -> is_digit c = false -> c ∉ format_uint 10 p.
Proof. intros Hp Hc. by apply digit_not_in; [apply format_uint_digits|]. Qed.

Lemma ParseHostAddr_String a : HostAddr_wf a -> ha_Port a <> 0 -> ParseHostAddr (HostAddr_String a) = Ok a.
Proof.
  intros [Hs Ho Hc Hp] Hz. unfold HostAddr_String, ParseHostAddr. apply Z.eqb_neq in Hz. rewrite Hz.
  unfold is_u16 in Hp. rewrite SplitHostPort_Join by (done || (by apply port_chars; [lia|])).
  cbn [res_bind]. rewrite parse_format_uint by lia. by destruct a.
Qed.

Definition HostAddr_bytes (host : bytes) (port : Z) : bytes := listing [str host; int port].

Lemma HostAddr_marshal a : HostAddr_MarshalBencode a = Ok (HostAddr_bytes (ha_Host a) (ha_Port a)).
Proof.
  unfold HostAddr_MarshalBencode, Encode.
  assert (enc_as (TSlice TIface) (VSlice [iface (VString (ha_Host a)); iface (VUint (ha_Port a))])
            (HostAddr_bytes (ha_Host a) (ha_Port a))) as H.
  { apply enc_as_slice. repeat constructor.
    - eapply enc_iface; [reflexivity|done|apply enc_as_string].
    - eapply enc_iface; [reflexivity|done|apply enc_as_uint]. }
  pose proof (H _ (Nat.lt_succ_diag_r _)) as E. unfold iface in E. by rewrite E.
Qed.

Lemma raw_as_HostAddr host port : short host -> raw_as (HostAddr_bytes host port).
Proof. intros H. apply raw_as_list. apply Forall_cons_2; [by apply raw_as_str|]. apply Forall_cons_2; [apply raw_as_int|constructor]. Qed.

Lemma HostAddr_unmarshal_list old host port :
  short host -> is_i64 port ->
  HostAddr_UnmarshalBencode old (HostAddr_bytes host port) = (NewHostAddr host (u16 port), Done).
Proof.
  intros Hh Hp. unfold HostAddr_UnmarshalBencode.
  assert (dec_as TIface (VIface None) (HostAddr_bytes host port)
    (iface (VSlice [iface (VString host); iface (VInt port)]))) as H.
  { apply iface_list. apply Forall2_cons_2; [by apply iface_string|].
    apply Forall2_cons_2; [by apply iface_int|constructor]. }
  destruct (Decode_as _ _ _ _ [] H) as (d' & E & _). rewrite app_nil_r in E. rewrite E. done.
Qed.

Lemma HostAddr_unmarshal_string old s :
  short s -> HostAddr_UnmarshalBencode old (str s) =
  match ParseHostAddr s with
  | Ok a => (a, Done) | Err e => (zeroHostAddr, Fail e) | Panic => (old, Panicked) end.
Proof.
  intros Hs. unfold HostAddr_UnmarshalBencode.
  destruct (Decode_as _ _ _ _ [] (iface_string (VIface None) s Hs)) as (d' & E & _).
  rewrite app_nil_r in E. by rewrite E.
Qed.

(** A host address survives its bencoded list and, when it has a port, the string form,
    with IPv6 hosts in brackets.  The two readers disagree on ports out of range: a string is
    refused there, a list silently gives the port modulo 2^16. *)
Theorem host_addr_codec old a port :
  HostAddr_wf a -> short (HostAddr_String a) -> is_i64 port ->
  (exists b, HostAddr_MarshalBencode a = Ok b /\ HostAddr_UnmarshalBencode old b = (a, Done)) /\
  (ha_Port a <> 0 -> HostAddr_UnmarshalBencode old (str (HostAddr_String a)) = (a, Done)) /\
  HostAddr_UnmarshalBencode old (listing [str (ha_Host a); int port]) = (NewHostAddr (ha_Host a) (u16 port), Done).
Proof.
  intros Hw Hs Hp. destruct (Hw) as [Hh _ _ Hu]. split; [|split].
  - exists (HostAddr_bytes (ha_Host a) (ha_Port a)). split; [apply HostAddr_marshal|].
    unfold is_u16 in Hu. rewrite HostAddr_unmarshal_list by (done || (unfold is_i64; lia)).
    rewrite u16_id by done. by destruct a.
  - intros Hz. rewrite HostAddr_unmarshal_string, ParseHostAddr_String by done. done.
  - by apply HostAddr_unmarshal_list.
Qed.

Lemma host_addr_codec_witness :
  HostAddr_UnmarshalBencode zeroHostAddr (str (B "[2001:db8::1]:6881")) = (NewHostAddr (B "2001:db8::1") 6881, Done) /\
  HostAddr_UnmarshalBencode zeroHostAddr (listing [str (B "2001:db8::1"); int 72417]) =
    (NewHostAddr (B "2001:db8::1") 6881, Done).
Proof.
  assert (HostAddr_wf (NewHostAddr (B "2001:db8::1") 6881)) as H.
  { split; [unfold short; simpl; lia|apply (bool_decide_unpack _); vm_compute; exact I
           |apply (bool_decide_unpack _); vm_compute; exact I|unfold is_u16; simpl; lia]. }
  destruct (host_addr_codec zeroHostAddr (NewHostAddr (B "2001:db8::1") 6881) 72417 H) as (_ & H1 & H2);
    [unfold short; simpl; lia|unfold is_i64; lia|].
  split; [exact (H1 ltac:(discriminate))|exact H2].
Defined.

(** ** Announces *)

Definition listed (al : AnnounceList) (v : bytes) : Prop := v <> [] /\ exists tier, tier ∈ al /\ v ∈ tier.

Lemma ContainsString_iff ss s : ContainsString ss s = true <-> s ∈ ss.
Proof.
  unfold ContainsString. rewrite existsb_exists. setoid_rewrite bool_decide_eq_true.
  setoid_rewrite <- list_elem_of_In. naive_solver.
Qed.

Lemma unique_tier acc tier :
  NoDup acc -> NoDup (foldl unique_step acc tier) /\
  (forall v, v ∈ foldl unique_step acc tier <-> v ∈ acc \/ (v <> [] /\ v ∈ tier)) /\
  exists new, foldl unique_step acc tier = acc ++ new /\ sublist new tier.
Proof.
  revert acc. induction tier as [|v tier IH]; intros acc Hnd; cbn [foldl].
  - split; [done|]. split; [set_solver|]. exists []. by rewrite app_nil_r.
  - unfold unique_step at 2 4 6. destruct (negb (bool_decide (v = [])) && negb (ContainsString acc v)) eqn:E.
    + apply andb_true_iff in E as [Hv Hc]. apply negb_true_iff, bool_decide_eq_false in Hv.
      apply negb_true_iff in Hc. assert (v ∉ acc) as Hin by (rewrite <- ContainsString_iff; by rewrite Hc).
      destruct (IH (acc ++ [v])) as (H1 & H2 & new & H3 & H4).
      { apply NoDup_app. split; [done|]. split; [set_solver|apply NoDup_singleton]. }
      split; [done|]. split; [intros x; rewrite H2; set_solver|].
      exists (v :: new). rewrite H3, <- app_assoc. split; [done|]. by constructor.
    + destruct (IH acc Hnd) as (H1 & H2 & new & H3 & H4). split; [done|]. split.
      * intros x. rewrite H2. apply andb_false_iff in E as [E|E]; apply negb_false_iff in E;
          [apply bool_decide_eq_true in E|apply ContainsString_iff in E]; set_solver.
      * exists new. split; [done|]. by constructor.
Qed.

(** [Unique]: every announce once, in the order of first occurrence, without empty ones. *)
Lemma Unique_spec al :
  NoDup (Unique al) /\ (forall v, v ∈ Unique al <-> listed al v) /\ sublist (Unique al) (concat al).
Proof.
  unfold Unique, listed. assert (forall acc, NoDup acc ->
    let u := foldl (fun announces tier => foldl unique_step announces tier) acc al in
    NoDup u /\ (forall v, v ∈ u <-> v ∈ acc \/ (v <> [] /\ exists tier, tier ∈ al /\ v ∈ tier)) /\
    exists new, u = acc ++ new /\ sublist new (concat al)) as H.
  { induction al as [|tier al IH]; intros acc Hnd; cbn [foldl concat].
    - split; [done|]. split; [set_solver|]. exists []. by rewrite app_nil_r.
    - destruct (unique_tier acc tier Hnd) as (H1 & H2 & new & H3 & H4).
      destruct (IH _ H1) as (I1 & I2 & new' & I3 & I4). split; [done|]. split.
      + intros v. rewrite I2, H2. set_solver.
      + exists (new ++ new'). rewrite I3, H3, <- app_assoc. split; [done|]. by apply sublist_app. }
  destruct (H [] (NoDup_nil_2)) as (H1 & H2 & new & H3 & H4). split; [done|]. split; [|by rewrite H3].
  intros v. rewrite H2. set_solver.
Qed.

(** ** The "info" part *)

Record File_wf (f : File) : Prop := { fl_len : is_i64 (f_Length f); fl_paths : Forall short (f_Paths f) }.
Record Info_wf (i : Info) : Prop := {
  if_name : short (i_Name i); if_plen : is_i64 (i_PieceLength i);
  if_hashes : Forall Hash_wf (i_Pieces i); if_pieces : short (concat (i_Pieces i));
  if_len : is_i64 (i_Length i); if_files : Forall File_wf (i_Files i) }.

Lemma Hashes_enc hs : enc_as HashesT (Hashes_val hs) (str (concat hs)).
Proof.
  apply bencodeT_enc. assert (val_Hashes (Hashes_val hs) = hs) as ->.
  { unfold Hashes_val, val_Hashes. rewrite map_map. apply map_id. }
  done.
Qed.

Lemma Hashes_dec hs :
  Forall Hash_wf hs -> short (concat hs) -> dec_as HashesT (Hashes_val []) (str (concat hs)) (Hashes_val hs).
Proof.
  intros H Hs. apply bencodeT_dec; [by apply raw_as_str|]. rewrite Hashes_UnmarshalBencode_str by done.
  pose proof (list_enc_mod (A := Hash) hs H) as Hm. unfold list_enc in Hm. cbn [fc_enc fc_size Hash_codec] in Hm.
  unfold Hash_WriteBinary in Hm. rewrite map_id in Hm. change (Z.of_nat HashSize) with 20 in Hm. rewrite Hm.
  cbn [Z.eqb]. by rewrite chunks_concat by (unfold HashSize; done || lia).
Qed.

Definition File_entries (f : File) : list (bytes * bytes) :=
  [(B "length", int (f_Length f)); (B "path", listing (map str (f_Paths f)))].

Lemma File_enc f : enc_as FileT (File_val f) (dictionary (File_entries f)).
Proof.
  intros [|k] Hk; [lia|]. apply enc_as_struct.
  assert (sort_by_key (readStruct FileT (File_val f)) =
    [(B "length", (TInt 64, VInt (f_Length f))); (B "path", (TSlice TString, strings_val (f_Paths f)))])
    as E by reflexivity.
  unfold FileT in E. rewrite E. unfold File_entries, File_val, strings_val in *. cbn [depth foldr] in Hk.
  entries; [apply enc_as_int|apply strings_enc].
Qed.

Lemma File_dec f : File_wf f -> dec_as FileT (File_val (mkFile 0 [])) (dictionary (File_entries f)) (File_val f).
Proof.
  intros []. apply dec_as_struct. unfold File_entries, File_val. repeat fill.
  all: first [apply dec_as_int; [lia|exact fl_len0]|by apply strings_dec|done].
Qed.

Definition Info_entries (i : Info) : list (bytes * bytes) :=
  opt (length (i_Files i) =? 0)%nat (B "files", listing (map (fun f => dictionary (File_entries f)) (i_Files i))) ++
  opt (i_Length i =? 0) (B "length", int (i_Length i)) ++
  (B "name", str (i_Name i)) :: (B "piece length", int (i_PieceLength i)) ::
  (B "pieces", str (concat (i_Pieces i))) :: [].
Definition Info_bytes (i : Info) : bytes := dictionary (Info_entries i).

Lemma Info_sorted i :
  sort_by_key (readStruct InfoT (Info_val i)) =
  opt (length (i_Files i) =? 0)%nat (B "files", (TSlice FileT, VSlice (map File_val (i_Files i)))) ++
  opt (i_Length i =? 0) (B "length", (TInt 64, VInt (i_Length i))) ++
  (B "name", (TString, VString (i_Name i))) :: (B "piece length", (TInt 64, VInt (i_PieceLength i))) ::
  (B "pieces", (HashesT, Hashes_val (i_Pieces i))) :: [].
Proof.
  destruct i as [n pl p l fs]. unfold Info_val. cbn [i_Name i_PieceLength i_Pieces i_Length i_Files].
  rewrite <- (length_map File_val fs). set (vs := map File_val fs). set (hs := Hashes_val p).
  transitivity (sort_by_key (
    (B "name", (TString, VString n)) :: (B "piece length", (TInt 64, VInt pl)) ::
    (B "pieces", (HashesT, hs)) :: opt (l =? 0) (B "length", (TInt 64, VInt l)) ++
    opt (length vs =? 0)%nat (B "files", (TSlice FileT, VSlice vs)) ++ [])); [reflexivity|].
  destruct (l =? 0), (length vs =? 0)%nat; reflexivity.
Qed.

Lemma files_enc fs :
  enc_as (TSlice FileT) (VSlice (map File_val fs)) (listing (map (fun f => dictionary (File_entries f)) fs)).
Proof. apply enc_as_slice. induction fs as [|f fs IH]; constructor; [apply File_enc|done]. Qed.
Lemma files_dec fs : Forall File_wf fs ->
  dec_as (TSlice FileT) (VSlice []) (listing (map (fun f => dictionary (File_entries f)) fs))
    (VSlice (map File_val fs)).
Proof. intros H. apply dec_as_slice. induction H; constructor; [by apply File_dec|done]. Qed.

Lemma Info_enc i : enc_as InfoT (Info_val i) (Info_bytes i).
Proof.
  intros [|k] Hk; [lia|]. apply enc_as_struct. rewrite Info_sorted.
  unfold Info_val, Hashes_val in *. cbn [depth foldr] in Hk. unfold Info_entries.
  entries; [apply files_enc|apply enc_as_int|apply enc_as_string|apply enc_as_int|apply Hashes_enc].
Qed.

Lemma Info_dec i : Info_wf i -> dec_as InfoT (Info_val zeroInfo) (Info_bytes i) (Info_val i).
Proof.
  intros []. apply dec_as_struct. unfold Info_entries. repeat fill.
  all: first [by apply dec_as_string|by apply Hashes_dec|by apply files_dec
             |by apply dec_as_int; [lia|]|idtac].
  all: destruct i as [n pl p l fs]; cbn [i_Name i_PieceLength i_Pieces i_Length i_Files] in *; omitted.
Qed.

Lemma raw_as_listing (es : list bytes) : Forall raw_as es -> raw_as (listing es).
Proof. apply raw_as_list. Qed.
Lemma raw_as_strings l : Forall short l -> raw_as (listing (map str l)).
Proof. intros H. apply raw_as_list, Forall_map. eapply Forall_impl; [exact H|]. intros x Hx. by apply raw_as_str. Qed.

Lemma raw_as_Info i : Info_wf i -> raw_as (Info_bytes i).
Proof.
  intros []. apply raw_as_dict. unfold Info_entries. repeat apply Forall_app_2; repeat apply Forall_cons_2.
  all: try (unfold opt; case_match; [constructor|apply Forall_cons_2; [|constructor]]); try constructor; try done.
  all: cbn [snd]; try apply raw_as_int; try by apply raw_as_str.
  apply raw_as_list, Forall_map. eapply Forall_impl; [exact if_files0|]. intros f [].
  apply raw_as_dict. repeat apply Forall_cons_2; [| |constructor]; (split; [done|]); cbn [snd].
  - apply raw_as_int.
  - by apply raw_as_strings.
Qed.

Lemma val_Info_val i : val_Info (Info_val i) = i.
Proof.
  destruct i as [n pl p l fs]. unfold Info_val, val_Info, Hashes_val, val_Hashes.
  cbn [i_Name i_PieceLength i_Pieces i_Length i_Files]. rewrite !map_map, map_id. f_equal.
  rewrite (map_ext _ id); [apply map_id|]. intros [len ps]. unfold val_File, File_val, strings_val, val_strings.
  cbn [f_Length f_Paths]. by rewrite map_map, map_id.
Qed.

(** ** Torrent files *)

Record MetaInfo_wf (m : MetaInfo) : Prop := {
  mi_ann_wf : short (mi_Announce m); mi_list_wf : Forall (Forall short) (mi_AnnounceList m);
  mi_nodes_wf : Forall (fun a => short (ha_Host a) /\ is_u16 (ha_Port a)) (mi_Nodes m);
  mi_urls_wf : Forall short (mi_URLList m); mi_date_wf : is_i64 (mi_CreationDate m);
  mi_comment_wf : short (mi_Comment m); mi_by_wf : short (mi_CreatedBy m); mi_enc_wf : short (mi_Encoding m) }.

Lemma tiers_enc al :
  enc_as (TSlice (TSlice TString)) (VSlice (map strings_val al)) (listing (map (fun t => listing (map str t)) al)).
Proof. apply enc_as_slice. induction al; constructor; [apply strings_enc|done]. Qed.
Lemma tiers_dec al : Forall (Forall short) al ->
  dec_as (TSlice (TSlice TString)) (VSlice []) (listing (map (fun t => listing (map str t)) al))
    (VSlice (map strings_val al)).
Proof. intros H. apply dec_as_slice. induction H; constructor; [by apply strings_dec|done]. Qed.

Definition nodes_bytes (ns : list HostAddr) : bytes :=
  listing (map (fun a => HostAddr_bytes (ha_Host a) (ha_Port a)) ns).
Lemma nodes_enc ns : enc_as (TSlice HostAddrT) (VSlice (map HostAddr_val ns)) (nodes_bytes ns).
Proof.
  apply enc_as_slice. induction ns as [|a ns IH]; constructor; [|done].
  apply bencodeT_enc. replace (val_HostAddr (HostAddr_val a)) with a by (by destruct a). apply HostAddr_marshal.
Qed.
Lemma nodes_dec ns : Forall (fun a => short (ha_Host a) /\ is_u16 (ha_Port a)) ns ->
  dec_as (TSlice HostAddrT) (VSlice []) (nodes_bytes ns) (VSlice (map HostAddr_val ns)).
Proof.
  intros H. apply dec_as_slice. induction H as [|a ns [Hh Hp] _ IH]; constructor; [|done].
  apply bencodeT_dec; [by apply raw_as_HostAddr|]. unfold is_u16 in Hp.
  rewrite HostAddr_unmarshal_list by (done || (unfold is_i64; lia)).
  rewrite u16_id by done. by destruct a.
Qed.

Lemma val_strings_val l : val_strings (strings_val l) = l.
Proof. unfold val_strings, strings_val. by rewrite map_map, map_id. Qed.

Lemma urls_enc us : enc_as URLListT (strings_val us) (listing (map str us)).
Proof.
  apply bencodeT_enc. rewrite val_strings_val. apply EncodeBytes_as, strings_enc.
Qed.
Lemma strings_of_ifaces l : strings_of (map (fun s => iface (VString s)) l) = Some l.
Proof. induction l as [|s l IH]; [done|]. cbn [map strings_of]. unfold iface at 1. by rewrite IH. Qed.
Lemma urls_dec us v0 : Forall short us -> dec_as URLListT v0 (listing (map str us)) (strings_val us).
Proof.
  intros H. apply bencodeT_dec; [by apply raw_as_strings|]. unfold URLList_UnmarshalBencode.
  rewrite (DecodeBytes_as TIface (VIface None) _ (iface (VSlice (map (fun s => iface (VString s)) us)))).
  - unfold iface at 1. by rewrite strings_of_ifaces.
  - apply iface_list. induction H; constructor; [by apply iface_string|done].
Qed.

Definition MetaInfo_entries (m : MetaInfo) : list (bytes * bytes) :=
  opt (length (mi_Announce m) =? 0)%nat (B "announce", str (mi_Announce m)) ++
  opt (length (mi_AnnounceList m) =? 0)%nat
    (B "announce-list", listing (map (fun t => listing (map str t)) (mi_AnnounceList m))) ++
  opt (length (mi_Comment m) =? 0)%nat (B "comment", str (mi_Comment m)) ++
  opt (length (mi_CreatedBy m) =? 0)%nat (B "created by", str (mi_CreatedBy m)) ++
  opt (mi_CreationDate m =? 0) (B "creation date", int (mi_CreationDate m)) ++
  opt (length (mi_Encoding m) =? 0)%nat (B "encoding", str (mi_Encoding m)) ++
  (B "info", mi_InfoBytes m) ::
  opt (length (mi_Nodes m) =? 0)%nat (B "nodes", nodes_bytes (mi_Nodes m)) ++
  opt (length (mi_URLList m) =? 0)%nat (B "url-list", listing (map str (mi_URLList m))) ++ [].

Lemma MetaInfo_sorted m :
  sort_by_key (readStruct MetaInfoT (MetaInfo_val m)) =
  opt (length (mi_Announce m) =? 0)%nat (B "announce", (TString, VString (mi_Announce m))) ++
  opt (length (mi_AnnounceList m) =? 0)%nat
    (B "announce-list", (TSlice (TSlice TString), VSlice (map strings_val (mi_AnnounceList m)))) ++
  opt (length (mi_Comment m) =? 0)%nat (B "comment", (TString, VString (mi_Comment m))) ++
  opt (length (mi_CreatedBy m) =? 0)%nat (B "created by", (TString, VString (mi_CreatedBy m))) ++
  opt (mi_CreationDate m =? 0) (B "creation date", (TInt 64, VInt (mi_CreationDate m))) ++
  opt (length (mi_Encoding m) =? 0)%nat (B "encoding", (TString, VString (mi_Encoding m))) ++
  (B "info", (TRaw, VBytes (mi_InfoBytes m))) ::
  opt (length (mi_Nodes m) =? 0)%nat (B "nodes", (TSlice HostAddrT, VSlice (map HostAddr_val (mi_Nodes m)))) ++
  opt (length (mi_URLList m) =? 0)%nat (B "url-list", (URLListT, strings_val (mi_URLList m))) ++ [].
Proof.
  destruct m as [i an al ns us d c cb e]. unfold MetaInfo_val, strings_val at 2 4.
  cbn [mi_InfoBytes mi_Announce mi_AnnounceList mi_Nodes mi_URLList mi_CreationDate mi_Comment mi_CreatedBy mi_Encoding].
  rewrite <- (length_map strings_val al), <- (length_map HostAddr_val ns), <- (length_map VString us).
  set (val := map strings_val al). set (vns := map HostAddr_val ns). set (vus := map VString us).
  transitivity (sort_by_key (
    (B "info", (TRaw, VBytes i)) :: opt (length an =? 0)%nat (B "announce", (TString, VString an)) ++
    opt (length val =? 0)%nat (B "announce-list", (TSlice (TSlice TString), VSlice val)) ++
    opt (length vns =? 0)%nat (B "nodes", (TSlice HostAddrT, VSlice vns)) ++
    opt (length vus =? 0)%nat (B "url-list", (URLListT, VSlice vus)) ++
    opt (d =? 0) (B "creation date", (TInt 64, VInt d)) ++
    opt (length c =? 0)%nat (B "comment", (TString, VString c)) ++
    opt (length cb =? 0)%nat (B "created by", (TString, VString cb)) ++
    opt (length e =? 0)%nat (B "encoding", (TString, VString e)) ++ [])); [reflexivity|].
  destruct (length an =? 0)%nat, (length val =? 0)%nat, (length vns =? 0)%nat, (length vus =? 0)%nat, (d =? 0),
    (length c =? 0)%nat, (length cb =? 0)%nat, (length e =? 0)%nat; reflexivity.
Qed.

Lemma MetaInfo_enc m : enc_as MetaInfoT (MetaInfo_val m) (dictionary (MetaInfo_entries m)).
Proof.
  intros [|k] Hk; [lia|]. apply enc_as_struct. rewrite MetaInfo_sorted.
  unfold MetaInfo_val, strings_val at 2 in Hk. unfold strings_val at 2. cbn [depth foldr] in Hk.
  unfold MetaInfo_entries. entries.
  - apply enc_as_string.
  - apply tiers_enc.
  - apply enc_as_string.
  - apply enc_as_string.
  - apply enc_as_int.
  - apply enc_as_string.
  - apply enc_as_raw.
  - apply nodes_enc.
  - apply urls_enc.
Qed.

Lemma MetaInfo_dec m : MetaInfo_wf m -> raw_as (mi_InfoBytes m) ->
  dec_as MetaInfoT (MetaInfo_val zeroMetaInfo) (dictionary (MetaInfo_entries m)) (MetaInfo_val m).
Proof.
  intros [] Hr. apply dec_as_struct. unfold MetaInfo_entries. repeat fill.
  all: first [by apply dec_as_string|by apply tiers_dec|by apply nodes_dec|by apply urls_dec
             |by apply dec_as_raw|by apply dec_as_int; [lia|]|idtac].
  all: destruct m as [i an al ns us d c cb e];
    cbn [mi_InfoBytes mi_Announce mi_AnnounceList mi_Nodes mi_URLList mi_CreationDate mi_Comment mi_CreatedBy mi_Encoding] in *;
    omitted.
Qed.

Lemma val_MetaInfo_val m : val_MetaInfo (MetaInfo_val m) = m.
Proof.
  destruct m as [i an al ns us d c cb e]. unfold MetaInfo_val, val_MetaInfo.
  cbn [mi_InfoBytes mi_Announce mi_AnnounceList mi_Nodes mi_URLList mi_CreationDate mi_Comment mi_CreatedBy mi_Encoding].
  rewrite val_strings_val, !map_map. f_equal.
  - rewrite (map_ext _ id); [apply map_id|]. apply val_strings_val.
  - rewrite (map_ext _ id); [apply map_id|]. by intros [].
Qed.

(** [C4] A torrent file survives being written and loaded, from a reader or from a file, with
    every field: the announces by tier, the nodes, the URLs, and above all the "info" part byte
    by byte, so that the info hash stays; and [Info] finds in it the files and the piece
    hashes that were put there.  What follows the dictionary in the input does not matter. *)
Theorem metainfo_roundtrip m info rest :
  MetaInfo_wf m -> Info_wf info -> EncodeBytes InfoT (Info_val info) = Ok (mi_InfoBytes m) ->
  exists b, MetaInfo_Write m = (b, Done) /\ Load (b ++ rest) = (m, Done) /\
    (forall F fs name, open_fault F name = None -> fs !! name = Some b ->
       LoadFromFile F fs name = (m, Done)) /\
    MetaInfo_Info m = (info, Done).
Proof.
  intros Hm Hi Hb. rewrite (EncodeBytes_as _ _ _ (Info_enc info)) in Hb. injection Hb as Hb.
  assert (Hl : forall rest, Load (dictionary (MetaInfo_entries m) ++ rest) = (m, Done)).
  { intros rest'. unfold Load. assert (raw_as (mi_InfoBytes m)) as Hr by (rewrite <- Hb; by apply raw_as_Info).
    destruct (Decode_as _ _ _ _ rest' (dec_as_ptr _ _ _ _ (MetaInfo_dec m Hm Hr))) as (d' & E & _).
    unfold MetaInfoT in *. rewrite E. by rewrite val_MetaInfo_val. }
  exists (dictionary (MetaInfo_entries m)). split; [|split; [apply Hl|split]].
  - unfold MetaInfo_Write, Encode. apply MetaInfo_enc. lia.
  - intros F fs name Ho Hf. unfold LoadFromFile, os_Open. rewrite Ho, Hf. cbn [default]. unfold id.
    pose proof (Hl []) as E. by rewrite app_nil_r in E.
  - unfold MetaInfo_Info. rewrite <- Hb, (DecodeBytes_as _ _ _ _ (Info_dec info Hi)). by rewrite val_Info_val.
Qed.

Definition info0 : Info :=
  mkInfo (B "album") 16384 [replicate 20 x01; replicate 20 x02] 0 [mkFile 20000 [B "cd1"; B "a.ogg"]; mkFile 5 [B "b"]].
Definition meta0 : MetaInfo :=
  mkMetaInfo (Info_bytes info0) (B "http://t/announce") [[B "http://t/announce"; B "udp://u:80"]; [B "udp://u:80"]]
    [NewHostAddr (B "router.bt") 6881] [B "http://seed/"] 1600000000 (B "c") [] (B "UTF-8").

Lemma info0_wf : Info_wf info0.
Proof.
  split; try (unfold short, is_i64; simpl; lia).
  - repeat constructor.
  - repeat (apply Forall_cons_2; [split; [unfold is_i64; simpl; lia|repeat (apply Forall_cons_2; [unfold short; simpl; lia|]);
      constructor]|]). constructor.
Qed.
Lemma meta0_wf : MetaInfo_wf meta0.
Proof.
  split; try (unfold short, is_i64; simpl; lia).
  - repeat (apply Forall_cons_2; [repeat (apply Forall_cons_2; [unfold short; simpl; lia|]); constructor|]). constructor.
  - apply Forall_cons_2; [split; [unfold short|unfold is_u16]; simpl; lia|constructor].
  - apply Forall_cons_2; [unfold short; simpl; lia|constructor].
Qed.

Lemma metainfo_roundtrip_witness :
  exists b, MetaInfo_Write meta0 = (b, Done) /\ Load (b ++ B "tail") = (meta0, Done) /\
    LoadFromFile no_faults {[B "x.torrent" := b]} (B "x.torrent") = (meta0, Done).
Proof.
  destruct (metainfo_roundtrip meta0 info0 (B "tail") meta0_wf info0_wf (EncodeBytes_as _ _ _ (Info_enc info0)))
    as (b & H1 & H2 & H3 & _).
  exists b. split; [exact H1|]. split; [exact H2|]. apply H3; [reflexivity|apply lookup_singleton_eq].
Defined.

(** ** Magnet links *)

(** The keys the link has a field for are not among the other parameters, and a parameter has
    a value. *)
Record Magnet_wf (m : Magnet) : Prop := {
  mg_hash : Hash_wf (mg_InfoHash m);
  mg_xt : mg_Params m !! B "xt" = None; mg_dn : mg_Params m !! B "dn" = None; mg_tr : mg_Params m !! B "tr" = None;
  mg_full : Values_full (mg_Params m) }.

Definition with_trackers (m : Magnet) : Values :=
  match mg_Trackers m with [] => mg_Params m | l => <[B "tr" := l]> (mg_Params m) end.
Definition with_name (m : Magnet) : Values :=
  match mg_DisplayName m with [] => with_trackers m | n => <[B "dn" := [n]]> (with_trackers m) end.

Lemma magnet_values_eq m : Magnet_wf m -> magnet_values m = with_name m.
Proof.
  intros []. unfold magnet_values, with_name.
  assert (foldl (fun vs tr => Values_Add vs (B "tr") tr) (mg_Params m) (mg_Trackers m) = with_trackers m) as ->.
  { unfold with_trackers. destruct (mg_Trackers m) as [|t l] eqn:E; [done|].
    assert (forall vs l, foldl (fun vs tr => Values_Add vs (B "tr") tr) vs l =
      foldl (fun vs kv => Values_Add vs (fst kv) (snd kv)) vs (map (pair (B "tr")) l)) as Hf.
    { intros vs l'. revert vs. induction l' as [|x l' IH]; intros vs; [done|]. cbn [foldl map fst snd]. apply IH. }
    rewrite Hf, Add_list by done. unfold Values_values. by rewrite mg_tr0. }
  destruct (mg_DisplayName m) eqn:E; [done|]. rewrite bool_decide_eq_false_2 by done.
  unfold Values_Add, Values_values. assert (with_trackers m !! B "dn" = None) as ->; [|done].
  unfold with_trackers. destruct (mg_Trackers m); [done|]. by rewrite lookup_insert_ne.
Qed.

Lemma with_name_full m : Magnet_wf m -> Values_full (with_name m) /\ with_name m !! B "xt" = None.
Proof.
  intros []. assert (Values_full (with_trackers m) /\ with_trackers m !! B "xt" = None) as [H1 H2].
  { unfold with_trackers. destruct (mg_Trackers m); [done|]. split; [by apply map_Forall_insert_2|].
    by rewrite lookup_insert_ne. }
  unfold with_name. destruct (mg_DisplayName m); [done|]. split; [by apply map_Forall_insert_2|].
  by rewrite lookup_insert_ne.
Qed.

Definition xt_value (h : Hash) : bytes := xtPrefix ++ Hash_HexString h.

Definition xt_char (c : byte) : bool := is_lower c || is_digit c || bool_decide (c = ":"%byte).

Lemma xt_value_chars h : forallb xt_char (xt_value h) = true.
Proof.
  unfold xt_value, Hash_HexString, hex_string. rewrite forallb_app. apply andb_true_iff. split; [done|].
  induction h as [|c h IH]; [done|]. cbn [map concat]. rewrite forallb_app, IH, andb_true_r. by destruct c.
Qed.

Lemma xt_char_not c s : xt_char c = false -> forallb xt_char s = true -> c ∉ s.
Proof.
  intros Hc Hs Hin. rewrite forallb_forall in Hs. apply list_elem_of_In, Hs in Hin. by rewrite Hin in Hc.
Qed.

Lemma unescape_plain s : forallb xt_char s = true -> unescape true s = Some s.
Proof.
  induction s as [|c s IH]; [done|]. cbn [forallb]. intros [Hc Hs]%andb_true_iff. cbn [unescape].
  rewrite bool_decide_eq_false_2 by (by intros ->). rewrite bool_decide_eq_false_2 by (by intros ->).
  cbn [andb]. by rewrite IH.
Qed.

Definition xt_part (h : Hash) : bytes := B "xt=" ++ xt_value h.
Lemma xt_part_not h c : c ∉ B "xt=" -> xt_char c = false -> c ∉ xt_part h.
Proof. intros H1 H2. apply not_elem_of_app. split; [done|]. eapply xt_char_not; [done|apply xt_value_chars]. Qed.

Lemma parse_xt h : parse_pair ∅ (xt_part h) = {[B "xt" := [xt_value h]]}.
Proof.
  unfold parse_pair. rewrite (proj2 (ContainsByte_false _ _)) by (by apply xt_part_not; [apply (bool_decide_unpack _)|]).
  rewrite bool_decide_eq_false_2 by done. unfold xt_part.
  change (B "xt=" ++ xt_value h) with (B "xt" ++ "="%byte :: xt_value h).
  rewrite Cut_app by (by apply (bool_decide_unpack _)). unfold QueryUnescape.
  rewrite (unescape_plain (xt_value h)) by apply xt_value_chars.
  change (unescape true (B "xt")) with (Some (B "xt")). cbv iota.
  unfold Values_Add, Values_values. by rewrite lookup_empty.
Qed.

Lemma HasPrefix_app p s : HasPrefix (p ++ s) p = true.
Proof. induction p as [|c p IH]; [by destruct s|]. cbn [HasPrefix app]. by rewrite bool_decide_eq_true_2. Qed.

Lemma parseInfohash_xt h : Hash_wf h -> parseInfohash (xt_value h) = Ok h.
Proof.
  intros Hh. unfold parseInfohash, xt_value. rewrite HasPrefix_app. cbn [negb].
  rewrite drop_app_length. unfold Hash_HexString. rewrite length_hex_string, Hh. cbn [HashSize Nat.mul Nat.add Nat.eqb].
  rewrite hex_decode_string. cbn [negb]. rewrite Hh. cbn [HashSize Nat.eqb negb]. f_equal.
  apply copy_into_exact. by rewrite Hh.
Qed.

Lemma Get_single vs k v : vs !! k = Some [v] -> Values_Get vs k = v.
Proof. unfold Values_Get, Values_values. by intros ->. Qed.
Lemma dropFirst_single vs k v : vs !! k = Some [v] -> dropFirst vs k = delete k vs.
Proof. unfold dropFirst, Values_values. by intros ->. Qed.
Lemma Get_none vs k : vs !! k = None -> Values_Get vs k = [].
Proof. unfold Values_Get, Values_values. by intros ->. Qed.
Lemma dropFirst_none vs k : vs !! k = None -> dropFirst vs k = vs.
Proof. unfold dropFirst, Values_values, Values_Del. intros E. rewrite E. cbn. by apply delete_id. Qed.

Lemma magnet_query_values m : Magnet_wf m ->
  ParseQuery (xt_part (mg_InfoHash m) ++
    (if (size (with_name m) =? 0)%nat then [] else B "&" ++ Values_Encode (with_name m))) =
  <[B "xt" := [xt_value (mg_InfoHash m)]]> (with_name m).
Proof.
  intros Hw. destruct (with_name_full m Hw) as [Hf Hx].
  assert (Hamp : "&"%byte ∉ xt_part (mg_InfoHash m)) by (by apply xt_part_not; [apply (bool_decide_unpack _)|]).
  destruct (Nat.eqb_spec (size (with_name m)) 0) as [E|E].
  - apply map_size_empty_inv in E. rewrite E, app_nil_r. unfold ParseQuery.
    rewrite split_on_none by done. cbn [foldl]. apply parse_xt.
  - rewrite ParseQuery_app; [|done|done|by intros E'; rewrite E' in E|].
    + rewrite parse_xt. rewrite <- insert_union_singleton_r by done. done.
    + rewrite parse_xt. by apply map_disjoint_singleton_r.
Qed.

Lemma printable_safe c : query_safe c = true -> printable c = true.
Proof. by destruct c. Qed.
Lemma printable_xt c : xt_char c = true -> printable c = true.
Proof. by destruct c. Qed.
Lemma forallb_impl {A} (p q : A -> bool) l : (forall x, p x = true -> q x = true) -> forallb p l = true -> forallb q l = true.
Proof. intros H. rewrite !forallb_forall. auto. Qed.

Lemma Encode_printable vs : forallb printable (Values_Encode vs) = true.
Proof.
  unfold Values_Encode. induction (pairs_of _) as [|kv l IH]; [done|].
  assert (forallb printable (encode_pair kv) = true) as Hkv.
  { unfold encode_pair. rewrite !forallb_app. cbn [forallb]. change (printable "="%byte) with true.
    by rewrite !(forallb_impl query_safe printable _ printable_safe (QueryEscape_safe _)). }
  cbn [map]. destruct l as [|kv' l]; [done|]. change (join (B "&") (encode_pair kv :: map encode_pair (kv' :: l)))
    with (encode_pair kv ++ B "&" ++ join (B "&") (map encode_pair (kv' :: l))).
  rewrite !forallb_app, Hkv, IH. done.
Qed.

(** [C5] A magnet link is parsed back from its text: the infohash, the display name, the trackers
    in their order and every other parameter with all its values, whatever bytes they contain;
    in particular the link [Magnet] makes from a torrent file. *)
Theorem magnet_roundtrip hier m :
  Magnet_wf m -> ParseMagnetURI hier (Magnet_String m) = Ok m.
Proof.
  intros Hw. unfold Magnet_String. rewrite magnet_values_eq by done. cbv zeta.
  set (query := B "xt=" ++ _). assert (query = xt_part (mg_InfoHash m) ++
    (if (size (with_name m) =? 0)%nat then [] else B "&" ++ Values_Encode (with_name m))) as Eq.
  { unfold query, xt_part, xt_value. by rewrite <- !app_assoc. }
  unfold ParseMagnetURI. rewrite URL_Parse_magnet.
  2:{ rewrite Eq, forallb_app. unfold xt_part. rewrite forallb_app.
      rewrite (forallb_impl xt_char printable _ printable_xt (xt_value_chars _)). cbn [forallb andb].
      destruct (_ =? _)%nat; [done|]. by rewrite forallb_app, Encode_printable. }
  cbn [u_Scheme]. rewrite bool_decide_eq_true_2 by done. cbn [negb]. unfold URL_Query. cbn [u_RawQuery].
  rewrite Eq, magnet_query_values by done. cbv zeta.
  rewrite (Get_single _ (B "xt") (xt_value (mg_InfoHash m))) by apply lookup_insert_eq.
  rewrite parseInfohash_xt by apply Hw. cbv zeta.
  rewrite (dropFirst_single _ (B "xt") (xt_value (mg_InfoHash m))) by apply lookup_insert_eq.
  rewrite delete_insert_id by apply (with_name_full m Hw).
  assert (Ht : Values_values (with_trackers m) (B "tr") = mg_Trackers m /\
    Values_Del (with_trackers m) (B "tr") = mg_Params m /\ with_trackers m !! B "dn" = None).
  { destruct Hw. unfold Values_values, Values_Del, with_trackers. destruct (mg_Trackers m).
    - rewrite mg_tr0. split; [done|]. split; [by apply delete_id|done].
    - rewrite lookup_insert_eq. split; [done|]. split; [by apply delete_insert_id|by rewrite lookup_insert_ne]. }
  destruct Ht as (H1 & H2 & H3). unfold with_name. destruct (mg_DisplayName m) as [|c name] eqn:En.
  - rewrite Get_none, dropFirst_none, H1, H2 by done. rewrite <- En. by destruct m.
  - rewrite (Get_single _ (B "dn") (c :: name)), (dropFirst_single _ (B "dn") (c :: name)) by apply lookup_insert_eq.
    rewrite delete_insert_id, H1, H2 by done. rewrite <- En. by destruct m.
Qed.

Definition magnet0 : Magnet :=
  mkMagnet (mg_InfoHash (MetaInfo_Magnet meta0 [] zeroHash)) [B "http://t/announce?x=1&y=2"; B "udp://u:80"] (B "album #1 100%")
    {[B "x.pe" := [B "10.0.0.1:6881"; B "[::1]:80"]]}.

Lemma magnet_roundtrip_witness :
  let hier := fun _ _ : bytes => Some (Errorf "invalid port") in
  ParseMagnetURI hier (Magnet_String (MetaInfo_Magnet meta0 [] zeroHash)) = Ok (MetaInfo_Magnet meta0 [] zeroHash) /\
  ParseMagnetURI hier (Magnet_String magnet0) = Ok magnet0.
Proof.
  intros hier. split; apply magnet_roundtrip; split.
  - apply NewHashFromBytes_wf.
  - reflexivity.
  - reflexivity.
  - reflexivity.
  - apply map_Forall_empty.
  - apply NewHashFromBytes_wf.
  - reflexivity.
  - reflexivity.
  - reflexivity.
  - apply map_Forall_singleton. discriminate.
Defined.

(** A link whose base32 hash is padded (or contains line breaks) has the length the code asks
    for and fewer than twenty bytes: parsing it panics instead of returning an error. *)
Lemma magnet_padded_base32_panics hier :
  ParseMagnetURI hier (B "magnet:?xt=urn:btih:AAAAAAAAAAAAAAAAAAAAAAAAAA======") = Panic.
Proof.
  unfold ParseMagnetURI. change (B "magnet:?xt=urn:btih:AAAAAAAAAAAAAAAAAAAAAAAAAA======")
    with (B "magnet:?" ++ B "xt=urn:btih:AAAAAAAAAAAAAAAAAAAAAAAAAA======").
  rewrite URL_Parse_magnet by reflexivity. vm_compute. reflexivity.
Qed.
