(* ===== verification/HttpTracker.v ===== *)
(** * The HTTP tracker (tracker/httptracker/http.go, http_peer.go)

    Announce requests as query strings, peers and responses as bencode, and the client.  The
    HTTP transport is the argument [do]: the body of the response to a GET of a URL, or the
    error (of making the request or of the transport). *)

From S2P Require Import Prelude GoBytes GoNet GoCrypto Bencode Codec Hash MetaAddr Krpc GoURL.

(** ** Requests *)

Record AnnounceRequest : Type := mkAnnounceRequest {
  ar_InfoHash : Hash;
  ar_PeerID : Hash;
  ar_Uploaded : Z;
  ar_Downloaded : Z;
  ar_Left : Z;
  ar_Port : Z;
  ar_IP : bytes;
  ar_Event : Z;
  ar_Compact : bool;
  ar_NumWant : Z;
  ar_Key : Z;
}.
Definition zeroAnnounceRequest : AnnounceRequest :=
  mkAnnounceRequest zeroHash zeroHash 0 0 0 0 [] 0 false 0 0.

Definition set_if (b : bool) (key value : bytes) (vs : Values) : Values :=
  if b then Values_Set vs key value else vs.
Definition AnnounceRequest_ToQuery (r : AnnounceRequest) : Values :=
  let vs : Values := ∅ in
  let vs := Values_Set vs (B "info_hash") (ar_InfoHash r) in
  let vs := Values_Set vs (B "peer_id") (ar_PeerID r) in
  let vs := Values_Set vs (B "uploaded") (format_int (ar_Uploaded r)) in
  let vs := Values_Set vs (B "downloaded") (format_int (ar_Downloaded r)) in
  let vs := Values_Set vs (B "left") (format_int (ar_Left r)) in
  let vs := set_if (negb (bool_decide (ar_IP r = []))) (B "ip") (ar_IP r) vs in
  let vs := set_if (0 <? ar_Event r) (B "event") (format_int (ar_Event r)) vs in
  let vs := set_if (0 <? ar_Port r) (B "port") (format_uint 10 (ar_Port r)) vs in
  let vs := set_if (negb (ar_NumWant r =? 0)) (B "numwant") (format_uint 10 (u64 (ar_NumWant r))) vs in
  let vs := set_if (negb (ar_Key r =? 0)) (B "key") (format_int (ar_Key r)) vs in
  Values_Set vs (B "compact") (if ar_Compact r then B "1" else B "0").

(** The optional parameters: [p] reads the text, [set] stores the number. *)
Definition from_param (vs : Values) (key : bytes) (p : bytes -> res Z)
    (set : AnnounceRequest -> Z -> AnnounceRequest) (r : AnnounceRequest)
    (next : AnnounceRequest -> recv AnnounceRequest) : recv AnnounceRequest :=
  let s := Values_Get vs key in
  if bool_decide (s = []) then next r
  else match p s with
       | Ok v => next (set r v)
       | Err e => (r, Fail e)
       | Panic => (r, Panicked)
       end.
(** The required ones. *)
Definition must_param (vs : Values) (key : bytes) (set : AnnounceRequest -> Z -> AnnounceRequest)
    (r : AnnounceRequest) (next : AnnounceRequest -> recv AnnounceRequest) : recv AnnounceRequest :=
  match parse_int 64 (Values_Get vs key) with
  | Ok v => next (set r v)
  | Err e => (r, Fail e)
  | Panic => (r, Panicked)
  end.

Section Setters.
Variable r : AnnounceRequest.
Definition ar_set_hashes (h id : Hash) : AnnounceRequest :=
  mkAnnounceRequest h id (ar_Uploaded r) (ar_Downloaded r) (ar_Left r) (ar_Port r) (ar_IP r) (ar_Event r)
    (ar_Compact r) (ar_NumWant r) (ar_Key r).
Definition ar_set_Uploaded (z : Z) : AnnounceRequest :=
  mkAnnounceRequest (ar_InfoHash r) (ar_PeerID r) z (ar_Downloaded r) (ar_Left r) (ar_Port r) (ar_IP r)
    (ar_Event r) (ar_Compact r) (ar_NumWant r) (ar_Key r).
Definition ar_set_Downloaded (z : Z) : AnnounceRequest :=
  mkAnnounceRequest (ar_InfoHash r) (ar_PeerID r) (ar_Uploaded r) z (ar_Left r) (ar_Port r) (ar_IP r)
    (ar_Event r) (ar_Compact r) (ar_NumWant r) (ar_Key r).
Definition ar_set_Left (z : Z) : AnnounceRequest :=
  mkAnnounceRequest (ar_InfoHash r) (ar_PeerID r) (ar_Uploaded r) (ar_Downloaded r) z (ar_Port r) (ar_IP r)
    (ar_Event r) (ar_Compact r) (ar_NumWant r) (ar_Key r).
Definition ar_set_Event (z : Z) : AnnounceRequest :=
  mkAnnounceRequest (ar_InfoHash r) (ar_PeerID r) (ar_Uploaded r) (ar_Downloaded r) (ar_Left r) (ar_Port r)
    (ar_IP r) (u32 z) (ar_Compact r) (ar_NumWant r) (ar_Key r).
Definition ar_set_Port (z : Z) : AnnounceRequest :=
  mkAnnounceRequest (ar_InfoHash r) (ar_PeerID r) (ar_Uploaded r) (ar_Downloaded r) (ar_Left r) (u16 z)
    (ar_IP r) (ar_Event r) (ar_Compact r) (ar_NumWant r) (ar_Key r).
Definition ar_set_NumWant (z : Z) : AnnounceRequest :=
  mkAnnounceRequest (ar_InfoHash r) (ar_PeerID r) (ar_Uploaded r) (ar_Downloaded r) (ar_Left r) (ar_Port r)
    (ar_IP r) (ar_Event r) (ar_Compact r) (i32 z) (ar_Key r).
Definition ar_set_Key (z : Z) : AnnounceRequest :=
  mkAnnounceRequest (ar_InfoHash r) (ar_PeerID r) (ar_Uploaded r) (ar_Downloaded r) (ar_Left r) (ar_Port r)
    (ar_IP r) (ar_Event r) (ar_Compact r) (ar_NumWant r) (i32 z).
Definition ar_set_rest (ip : bytes) (compact : bool) : AnnounceRequest :=
  mkAnnounceRequest (ar_InfoHash r) (ar_PeerID r) (ar_Uploaded r) (ar_Downloaded r) (ar_Left r) (ar_Port r)
    ip (ar_Event r) compact (ar_NumWant r) (ar_Key r).
End Setters.

Definition AnnounceRequest_FromQuery (r : AnnounceRequest) (vs : Values) : recv AnnounceRequest :=
  let '(h, o) := Hash_FromString (ar_InfoHash r) (Values_Get vs (B "info_hash")) in
  let r := ar_set_hashes r h (ar_PeerID r) in
  match o with
  | Done =>
      let '(id, o) := Hash_FromString (ar_PeerID r) (Values_Get vs (B "peer_id")) in
      let r := ar_set_hashes r h id in
      match o with
      | Done =>
          must_param vs (B "uploaded") ar_set_Uploaded r (fun r =>
          must_param vs (B "downloaded") ar_set_Downloaded r (fun r =>
          must_param vs (B "left") ar_set_Left r (fun r =>
          from_param vs (B "event") (parse_uint 64) ar_set_Event r (fun r =>
          from_param vs (B "port") (parse_uint 64) ar_set_Port r (fun r =>
          from_param vs (B "numwant") (parse_uint 64) ar_set_NumWant r (fun r =>
          from_param vs (B "key") (parse_int 64) ar_set_Key r (fun r =>
            let compact := Values_Get vs (B "compact") in
            (ar_set_rest r (Values_Get vs (B "ip"))
               (if bool_decide (compact = B "1") then true
                else if bool_decide (compact = B "0") then false else ar_Compact r), Done))))))))
      | o => (r, o)
      end
  | o => (r, o)
  end.

(** ** Peers (http_peer.go) *)

Record Peer : Type := mkPeer { pe_ID : bytes; pe_IP : bytes; pe_Port : Z }.
#[export] Instance Peer_eq_dec : EqDecision Peer.
Proof. solve_decision. Defined.
Definition errInvalidPeer : error := Errorf "invalid bt peer information format".

Definition PeerT : gtype := TStruct [
  exported (B "ID") (B "peer id") TString;
  exported (B "IP") (B "ip") TString;
  exported (B "Port") (B "port") (TUint 16)].
Definition Peer_val (p : Peer) : gval := VStruct [VString (pe_ID p); VString (pe_IP p); VUint (pe_Port p)].
Definition val_Peer (v : gval) : Peer :=
  match v with VStruct [VString i; VString ip; VUint p] => mkPeer i ip p | _ => mkPeer [] [] 0 end.
Definition Peers_val (ps : list Peer) : gval := VSlice (map Peer_val ps).
Definition val_Peers (v : gval) : list Peer := match v with VSlice l => map val_Peer l | _ => [] end.

Definition Peers : Type := list Peer.
Definition peer_of_addr (a : CompactAddr) : Peer := mkPeer [] (IP_String (ca_IP a)) (ca_Port a).

Definition peer_of_iface (v : gval) : res Peer :=
  match v with
  | VIface (Some (VMap m)) =>
      match assoc (B "peer id") m with
      | Some (VIface (Some (VString pid))) =>
          match assoc (B "ip") m with
          | Some (VIface (Some (VString ip))) =>
              match assoc (B "port") m with
              | Some (VIface (Some (VInt port))) => Ok (mkPeer pid ip (u16 port))
              | _ => Err errInvalidPeer
              end
          | _ => Err errInvalidPeer
          end
      | _ => Err errInvalidPeer
      end
  | _ => Err errInvalidPeer
  end.

Definition Peers_UnmarshalBencode (ps : Peers) (b : bytes) : recv Peers :=
  match DecodeBytes b TIface (VIface None) with
  | (VIface (Some (VString vs)), Done) =>
      match CompactIPv4Addrs_UnmarshalBinary [] vs with
      | (addrs, Done) => (map peer_of_addr addrs, Done)
      | (_, o) => (ps, o)
      end
  | (VIface (Some (VSlice vs)), Done) => set_on_ok ps (res_mapM peer_of_iface vs)
  | (_, Done) => (ps, Fail errInvalidPeer)
  | (_, o) => (ps, o)
  end.

Definition compact_peer (p : Peer) : res CompactAddr :=
  let ip := To4 (default [] (ParseIP (pe_IP p))) in
  if (length ip =? 0)%nat then Err errInvalidPeer else Ok (mkCompactAddr ip (pe_Port p)).
Definition marshalCompactBencode (ps : Peers) : res bytes :=
  let! addrs := res_mapM compact_peer ps in CompactIPv4Addrs_MarshalBencode addrs.
Definition Peers_MarshalBencode (ps : Peers) : res bytes :=
  match marshalCompactBencode ps with
  | Ok b => Ok b
  | Panic => Panic
  | Err _ => EncodeBytes (TSlice PeerT) (Peers_val ps)
  end.

Definition Peers6 : Type := list Peer.
Definition Peers6_UnmarshalBencode (ps : Peers6) (b : bytes) : recv Peers6 :=
  match DecodeBytes b TString (VString []) with
  | (VString s, Done) =>
      match CompactIPv6Addrs_UnmarshalBinary [] s with
      | (addrs, Done) => (map peer_of_addr addrs, Done)
      | (_, o) => (ps, o)
      end
  | (_, o) => (ps, o)
  end.
Definition compact_peer6 (p : Peer) : res CompactAddr :=
  match ParseIP (pe_IP p) with
  | None => Err errInvalidPeer
  | Some ip => Ok (mkCompactAddr ip (pe_Port p))
  end.
Definition Peers6_MarshalBencode (ps : Peers6) : res bytes :=
  let! addrs := res_mapM compact_peer6 ps in CompactIPv6Addrs_MarshalBencode addrs.

Definition PeersT : gtype :=
  bencodeT val_Peers Peers_val (TSlice PeerT) Peers_UnmarshalBencode Peers_MarshalBencode.
Definition Peers6T : gtype :=
  bencodeT val_Peers Peers_val (TSlice PeerT) Peers6_UnmarshalBencode Peers6_MarshalBencode.

(** ** Responses *)

Record AnnounceResponse : Type := mkAnnounceResponse {
  as_FailureReason : bytes;
  as_Interval : Z;
  as_Peers : Peers;
  as_Peers6 : Peers6;
  as_Complete : Z;
  as_Incomplete : Z;
  as_TrackerID : bytes;
}.
Definition zeroAnnounceResponse : AnnounceResponse := mkAnnounceResponse [] 0 [] [] 0 0 [].
Definition AnnounceResponseT : gtype := TStruct [
  exported (B "FailureReason") (B "failure reason,omitempty") TString;
  exported (B "Interval") (B "interval,omitempty") (TUint 32);
  exported (B "Peers") (B "peers,omitempty") PeersT;
  exported (B "Peers6") (B "peers6,omitempty") Peers6T;
  exported (B "Complete") (B "complete,omitempty") (TUint 32);
  exported (B "Incomplete") (B "incomplete,omitempty") (TUint 32);
  exported (B "TrackerID") (B "tracker id,omitempty") TString].
Definition AnnounceResponse_val (r : AnnounceResponse) : gval :=
  VStruct [VString (as_FailureReason r); VUint (as_Interval r); Peers_val (as_Peers r); Peers_val (as_Peers6 r);
           VUint (as_Complete r); VUint (as_Incomplete r); VString (as_TrackerID r)].
Definition val_AnnounceResponse (v : gval) : AnnounceResponse :=
  match v with
  | VStruct [VString f; VUint i; ps; ps6; VUint c; VUint n; VString t] =>
      mkAnnounceResponse f i (val_Peers ps) (val_Peers ps6) c n t
  | _ => zeroAnnounceResponse
  end.

Record ScrapeResponseResult : Type := mkScrapeResult { sr_Complete : Z; sr_Incomplete : Z; sr_Downloaded : Z }.
Definition ScrapeResultT : gtype := TStruct [
  exported (B "Complete") (B "complete") (TUint 32);
  exported (B "Incomplete") (B "incomplete") (TUint 32);
  exported (B "Downloaded") (B "downloaded") (TUint 32)].
Definition ScrapeResult_val (r : ScrapeResponseResult) : gval :=
  VStruct [VUint (sr_Complete r); VUint (sr_Incomplete r); VUint (sr_Downloaded r)].
Definition val_ScrapeResult (v : gval) : ScrapeResponseResult :=
  match v with VStruct [VUint c; VUint i; VUint d] => mkScrapeResult c i d | _ => mkScrapeResult 0 0 0 end.

(** [Files] is a map: the list of its entries in the order of iteration. *)
Record ScrapeResponse : Type := mkScrapeResponse {
  sp_FailureReason : bytes;
  sp_Files : list (Hash * ScrapeResponseResult);
}.
Definition zeroScrapeResponse : ScrapeResponse := mkScrapeResponse [] [].
Definition hash_key (k : bytes) : res bytes := to_res (Hash_FromString zeroHash k).
Definition ScrapeResponseT : gtype := TStruct [
  exported (B "FailureReason") (B "failure_reason,omitempty") TString;
  exported (B "Files") (B "files,omitempty") (TMap (Some hash_key) ScrapeResultT)].
Definition ScrapeResponse_val (r : ScrapeResponse) : gval :=
  VStruct [VString (sp_FailureReason r); VMap (map (fun kv => (fst kv, ScrapeResult_val (snd kv))) (sp_Files r))].
Definition val_ScrapeResponse (v : gval) : ScrapeResponse :=
  match v with
  | VStruct [VString f; VMap m] => mkScrapeResponse f (map (fun kv => (fst kv, val_ScrapeResult (snd kv))) m)
  | _ => zeroScrapeResponse
  end.

(** [bencode.NewDecoder(r).Decode(x)] for a pointer [x] to a struct. *)
Definition decode_struct {A : Type} (t : gtype) (put : A -> gval) (get : gval -> A) (a : A) (input : bytes) : recv A :=
  match Decode (NewDecoder input) (TPtr t) (VPtr (Some (put a))) with
  | (_, VPtr (Some v), o) => (get v, o)
  | (_, _, o) => (a, o)
  end.
Definition ScrapeResponse_DecodeFrom : ScrapeResponse -> bytes -> recv ScrapeResponse :=
  decode_struct ScrapeResponseT ScrapeResponse_val val_ScrapeResponse.
Definition ScrapeResponse_EncodeTo (sr : ScrapeResponse) : bytes * outcome :=
  Encode ScrapeResponseT (ScrapeResponse_val sr).

(** ** The client *)

Record Client : Type := mkClient { cl_ID : Hash; cl_AnnounceURL : bytes; cl_ScrapeURL : bytes }.

(** [strings.Replace(s, old, new, -1)] for a non-empty [old]; [skip] bytes belong to a match. *)
Fixpoint ReplaceAll (old new : bytes) (skip : nat) (s : bytes) : bytes :=
  match s with
  | [] => []
  | c :: s' =>
      match skip with
      | S skip => ReplaceAll old new skip s'
      | O => if HasPrefix s old then new ++ ReplaceAll old new (length old - 1) s'
             else c :: ReplaceAll old new O s'
      end
  end.
Definition NewClient (id : Hash) (announceURL scrapeURL : bytes) (random : Hash) : Client :=
  mkClient (if Hash_IsZero id then random else id) announceURL
    (if bool_decide (scrapeURL = []) then ReplaceAll (B "announce") (B "scrape") O announceURL else scrapeURL).
Definition Client_String (t : Client) : bytes := cl_AnnounceURL t.
Definition Client_Close (t : Client) : outcome := Done.

Definition request_url (u : bytes) (vs : Values) : bytes :=
  if ContainsByte u "?"%byte then u ++ B "&" ++ Values_Encode vs else u ++ B "?" ++ Values_Encode vs.

Section Client.
Variable do : bytes -> res bytes.

Definition Client_send {A : Type} (u : bytes) (vs : Values) (decode : A -> bytes -> recv A) (r : A) : recv A :=
  match do (request_url u vs) with
  | Ok body => decode r body
  | Err e => (r, Fail e)
  | Panic => (r, Panicked)
  end.

Definition Client_Announce (t : Client) (req : AnnounceRequest) : recv AnnounceResponse :=
  if Hash_IsZero (ar_InfoHash req) then (zeroAnnounceResponse, Panicked)
  else
    let req := ar_set_hashes req (ar_InfoHash req) (cl_ID t) in
    Client_send (cl_AnnounceURL t) (AnnounceRequest_ToQuery req)
      (decode_struct AnnounceResponseT AnnounceResponse_val val_AnnounceResponse) zeroAnnounceResponse.

Definition Client_Scrape (t : Client) (infohashes : list Hash) : recv ScrapeResponse :=
  Client_send (cl_ScrapeURL t) {[B "info_hash" := infohashes]} ScrapeResponse_DecodeFrom zeroScrapeResponse.
End Client.

Example replace_scrape :
  ReplaceAll (B "announce") (B "scrape") 0 (B "http://t/x/announce.php?announce")
  = B "http://t/x/scrape.php?scrape".
Proof. vm_compute. reflexivity. Qed.
