(* ===== verification/HttpTrackerThms.v ===== *)
(** * Theorems about the HTTP tracker

    Announce requests survive their query string, peers and responses their bencoded form, and
    an announce or a scrape goes from the client to a server and back. *)

From S2P Require Import Prelude GoBytes GoNet GoCrypto Bencode BencodeFacts BencodeRoundtrip Codec.
From S2P Require Import BencodeStruct BencodeIface Hash MetaAddr Krpc GoURL HttpTracker.

(** ** Queries *)

Lemma Get_Set vs k v k' : Values_Get (Values_Set vs k v) k' = if bool_decide (k = k') then v else Values_Get vs k'.
Proof.
  unfold Values_Get, Values_values, Values_Set. case_bool_decide as H.
  - subst. by rewrite lookup_insert_eq.
  - by rewrite lookup_insert_ne.
Qed.
Lemma Get_set_if b vs k v k' :
  Values_Get (set_if b k v vs) k' = if b && bool_decide (k = k') then v else Values_Get vs k'.
Proof. destruct b; [apply Get_Set|done]. Qed.
Lemma Get_empty k : Values_Get ∅ k = [].
Proof. done. Qed.

Lemma full_Set vs k v : Values_full vs -> Values_full (Values_Set vs k v).
Proof. intros H. by apply map_Forall_insert_2. Qed.
Lemma full_set_if b vs k v : Values_full vs -> Values_full (set_if b k v vs).
Proof. destruct b; [apply full_Set|done]. Qed.
#[local] Hint Resolve full_Set full_set_if map_Forall_empty : core.

Lemma ToQuery_full r : Values_full (AnnounceRequest_ToQuery r).
Proof. unfold AnnounceRequest_ToQuery. cbv zeta. repeat (apply full_Set || apply full_set_if). apply map_Forall_empty. Qed.

(** The parameters that an announce may have. *)
Definition announce_keys : list bytes :=
  [B "info_hash"; B "peer_id"; B "uploaded"; B "downloaded"; B "left"; B "event"; B "port"; B "numwant"; B "key";
   B "compact"; B "ip"].
Definition keys_in (keys : list bytes) (vs : Values) : Prop := forall k, is_Some (vs !! k) -> k ∈ keys.
Lemma keys_in_Set keys vs k v : bool_decide (k ∈ keys) = true -> keys_in keys vs -> keys_in keys (Values_Set vs k v).
Proof.
  intros Hk H k'. unfold Values_Set. destruct (decide (k = k')) as [->|Hne]; [by apply bool_decide_eq_true in Hk|].
  rewrite lookup_insert_ne by done. apply H.
Qed.
Lemma keys_in_set_if keys b vs k v :
  bool_decide (k ∈ keys) = true -> keys_in keys vs -> keys_in keys (set_if b k v vs).
Proof. destruct b; [apply keys_in_Set|done]. Qed.
Lemma ToQuery_keys r : keys_in announce_keys (AnnounceRequest_ToQuery r).
Proof.
  unfold AnnounceRequest_ToQuery. cbv zeta.
  repeat ((apply keys_in_Set; [by vm_compute|]) || (apply keys_in_set_if; [by vm_compute|])).
  intros k [l E]. by rewrite lookup_empty in E.
Qed.
(** [FromQuery] looks at nothing else. *)
Lemma FromQuery_ext r vs vs' :
  Forall (fun k => Values_Get vs k = Values_Get vs' k) announce_keys ->
  AnnounceRequest_FromQuery r vs = AnnounceRequest_FromQuery r vs'.
Proof.
  intros H. unfold announce_keys in H. repeat (apply Forall_cons_1 in H as [? H]).
  unfold AnnounceRequest_FromQuery, must_param, from_param.
  repeat match goal with E : Values_Get vs ?k = _ |- _ => rewrite !E; clear E end. done.
Qed.

(** The Go types of the fields; [Left] and the others may be negative. *)
Record AnnounceRequest_wf (r : AnnounceRequest) : Prop := {
  arw_hash : Hash_wf (ar_InfoHash r); arw_id : Hash_wf (ar_PeerID r);
  arw_up : is_i64 (ar_Uploaded r); arw_down : is_i64 (ar_Downloaded r); arw_left : is_i64 (ar_Left r);
  arw_port : is_u16 (ar_Port r); arw_event : is_u32 (ar_Event r);
  arw_want : is_i32 (ar_NumWant r); arw_key : is_i32 (ar_Key r) }.

(** Decides which of the (concrete) keys are the same. *)
Ltac decide_keys :=
  repeat match goal with
         | |- context [bool_decide (B ?a = B ?b)] =>
             let v := eval vm_compute in (bool_decide (B a = B b)) in
             change (bool_decide (B a = B b)) with v
         end; rewrite ?andb_true_r, ?andb_false_r; cbv iota.
Ltac query_get :=
  unfold AnnounceRequest_ToQuery; cbv zeta; rewrite ?Get_Set, ?Get_set_if, ?Get_empty; decide_keys.

Lemma Get_info_hash r : Values_Get (AnnounceRequest_ToQuery r) (B "info_hash") = ar_InfoHash r.
Proof. by query_get. Qed.
Lemma Get_peer_id r : Values_Get (AnnounceRequest_ToQuery r) (B "peer_id") = ar_PeerID r.
Proof. by query_get. Qed.
Lemma Get_uploaded r : Values_Get (AnnounceRequest_ToQuery r) (B "uploaded") = format_int (ar_Uploaded r).
Proof. by query_get. Qed.
Lemma Get_downloaded r : Values_Get (AnnounceRequest_ToQuery r) (B "downloaded") = format_int (ar_Downloaded r).
Proof. by query_get. Qed.
Lemma Get_left r : Values_Get (AnnounceRequest_ToQuery r) (B "left") = format_int (ar_Left r).
Proof. by query_get. Qed.
Lemma Get_event r : Values_Get (AnnounceRequest_ToQuery r) (B "event") =
  if 0 <? ar_Event r then format_int (ar_Event r) else [].
Proof. by query_get. Qed.
Lemma Get_port r : Values_Get (AnnounceRequest_ToQuery r) (B "port") =
  if 0 <? ar_Port r then format_uint 10 (ar_Port r) else [].
Proof. by query_get. Qed.
Lemma Get_numwant r : Values_Get (AnnounceRequest_ToQuery r) (B "numwant") =
  if negb (ar_NumWant r =? 0) then format_uint 10 (u64 (ar_NumWant r)) else [].
Proof. by query_get. Qed.
Lemma Get_key r : Values_Get (AnnounceRequest_ToQuery r) (B "key") =
  if negb (ar_Key r =? 0) then format_int (ar_Key r) else [].
Proof. by query_get. Qed.
Lemma Get_ip r : Values_Get (AnnounceRequest_ToQuery r) (B "ip") = ar_IP r.
Proof. query_get. by case_bool_decide. Qed.
Lemma Get_compact r : Values_Get (AnnounceRequest_ToQuery r) (B "compact") = if ar_Compact r then B "1" else B "0".
Proof. by query_get. Qed.

Lemma format_int_nonempty z : format_int z <> [].
Proof. unfold format_int. destruct (z <? 0); [done|apply format_uint_nonempty]. Qed.

Lemma must_param_ok vs key set r next z :
  Values_Get vs key = format_int z -> is_i64 z -> must_param vs key set r next = next (set r z).
Proof. intros E Hz. unfold must_param. unfold is_i64 in Hz. by rewrite E, parse_format_int by lia. Qed.

(** A parameter that is left out when it is zero. *)
Lemma from_param_ok vs key p (set : AnnounceRequest -> Z -> AnnounceRequest) r next (b : bool) s z :
  Values_Get vs key = (if b then s else []) -> s <> [] -> p s = Ok z -> (b = false -> set r z = r) ->
  from_param vs key p set r next = next (set r z).
Proof.
  intros E Hs Hp Hb. unfold from_param. rewrite E. destruct b.
  - rewrite bool_decide_eq_false_2 by done. by rewrite Hp.
  - rewrite bool_decide_eq_true_2 by done. by rewrite Hb.
Qed.

(** Keeps the receiver in the form of a record of values. *)
Ltac flat :=
  cbv beta; unfold ar_set_hashes, ar_set_Uploaded, ar_set_Downloaded, ar_set_Left;
  unfold zeroAnnounceRequest;
  cbn [ar_InfoHash ar_PeerID ar_Uploaded ar_Downloaded ar_Left ar_Port ar_IP ar_Event ar_Compact ar_NumWant ar_Key].

Lemma FromQuery_ToQuery r : AnnounceRequest_wf r ->
  AnnounceRequest_FromQuery zeroAnnounceRequest (AnnounceRequest_ToQuery r) = (r, Done).
Proof.
  intros [Hh Hi Hu Hd Hl Hp He Hw Hk]. unfold AnnounceRequest_FromQuery.
  rewrite Get_info_hash, Get_peer_id, Get_compact, Get_ip.
  assert (Hz : Hash_wf zeroHash) by apply length_replicate.
  cbn [ar_InfoHash ar_PeerID zeroAnnounceRequest]. rewrite Hash_FromString_id by done.
  cbn [ar_set_hashes ar_PeerID]. rewrite Hash_FromString_id by done. cbv zeta. flat.
  erewrite must_param_ok by (apply Get_uploaded || done). flat.
  erewrite must_param_ok by (apply Get_downloaded || done). flat.
  erewrite must_param_ok by (apply Get_left || done). flat.
  unfold is_u32, is_u16, is_i32 in *.
  erewrite (from_param_ok _ _ _ ar_set_Event); [|apply Get_event|apply format_int_nonempty|apply parse_uint_format; lia|].
  2:{ destruct (Z.ltb_spec 0 (ar_Event r)); [discriminate|]. intros _. replace (ar_Event r) with 0 by lia. reflexivity. }
  flat.
  erewrite (from_param_ok _ _ _ ar_set_Port); [|apply Get_port|apply format_uint_nonempty|apply parse_format_uint; lia|].
  2:{ destruct (Z.ltb_spec 0 (ar_Port r)); [discriminate|]. intros _. replace (ar_Port r) with 0 by lia. reflexivity. }
  flat.
  erewrite (from_param_ok _ _ _ ar_set_NumWant);
    [|apply Get_numwant|apply format_uint_nonempty|apply parse_format_uint; apply u64_range|].
  2:{ destruct (Z.eqb_spec (ar_NumWant r) 0) as [->|]; [reflexivity|discriminate]. }
  flat.
  erewrite (from_param_ok _ _ _ ar_set_Key); [|apply Get_key|apply format_int_nonempty|apply parse_format_int; lia|].
  2:{ destruct (Z.eqb_spec (ar_Key r) 0) as [->|]; [reflexivity|discriminate]. }
  flat.
  unfold ar_set_Event. flat. unfold ar_set_Port. flat. unfold ar_set_NumWant. flat. unfold ar_set_Key. flat.
  unfold ar_set_rest. flat.
  rewrite (u32_id (ar_Event r)), (u16_id (ar_Port r)), (i32_id (ar_Key r)) by (unfold is_u32, is_u16, is_i32; lia).
  assert (i32 (u64 (ar_NumWant r)) = ar_NumWant r) as ->.
  { unfold i32, u64. zdiv. }
  destruct r as [h i u d l p ip e c w k]. by destruct c.
Qed.

(** ** Peers *)

Definition ipv4_of (p : Peer) : IP := To4 (default [] (ParseIP (pe_IP p))).
Definition is_ipv4 (p : Peer) : bool := negb (length (ipv4_of p) =? 0)%nat.
Record Peer_wf (p : Peer) : Prop := {
  pw_id : short (pe_ID p); pw_ip : short (pe_IP p); pw_port : is_u16 (pe_Port p) }.

(** What arrives: when every peer has an IPv4 address, the addresses in their usual text and no
    ids; else the peers as they are. *)
Definition received_peers (ps : Peers) : Peers :=
  if forallb is_ipv4 ps then map (fun p => mkPeer [] (IP_String (ipv4_of p)) (pe_Port p)) ps else ps.

Definition Peer_bytes (p : Peer) : bytes :=
  dictionary [(B "ip", str (pe_IP p)); (B "peer id", str (pe_ID p)); (B "port", int (pe_Port p))].

Lemma Peer_enc p : enc_as PeerT (Peer_val p) (Peer_bytes p).
Proof.
  intros [|k] Hk; [lia|]. apply enc_as_struct.
  assert (sort_by_key (readStruct PeerT (Peer_val p)) =
    [(B "ip", (TString, VString (pe_IP p))); (B "peer id", (TString, VString (pe_ID p)));
     (B "port", (TUint 16, VUint (pe_Port p)))]) as E by reflexivity.
  unfold PeerT in E. rewrite E. unfold Peer_val in *. cbn [depth foldr] in Hk.
  entries; [apply enc_as_string|apply enc_as_string|apply enc_as_uint].
Qed.

Definition Peer_iface (p : Peer) : gval :=
  iface (VMap [(B "ip", iface (VString (pe_IP p))); (B "peer id", iface (VString (pe_ID p)));
               (B "port", iface (VInt (pe_Port p)))]).
Lemma Peer_dec p : Peer_wf p -> dec_as TIface (VIface None) (Peer_bytes p) (Peer_iface p).
Proof.
  intros [Hi Hip Hp]. unfold is_u16 in Hp. apply iface_dict.
  - apply Forall2_cons_2; [|apply Forall2_cons_2; [|apply Forall2_cons_2; [|constructor]]];
      (split; [done|split; [done|]]); cbn [snd].
    + by apply iface_string.
    + by apply iface_string.
    + apply iface_int. unfold is_i64. lia.
  - apply (bool_decide_unpack _). vm_compute. exact I.
Qed.
Lemma peer_of_Peer_iface p : Peer_wf p -> peer_of_iface (Peer_iface p) = Ok p.
Proof.
  intros []. unfold peer_of_iface, Peer_iface, iface. cbn [assoc].
  decide_keys. rewrite u16_id by done. by destruct p.
Qed.

Lemma raw_as_Peer p : Peer_wf p -> raw_as (Peer_bytes p).
Proof.
  intros []. apply raw_as_dict.
  repeat apply Forall_cons_2; [| | |constructor]; (split; [done|]); cbn [snd];
    [by apply raw_as_str|by apply raw_as_str|apply raw_as_int].
Qed.

(** The compact form, when there is one. *)
Lemma compact_peers ps :
  res_mapM compact_peer ps =
  if forallb is_ipv4 ps then Ok (map (fun p => mkCompactAddr (ipv4_of p) (pe_Port p)) ps) else Err errInvalidPeer.
Proof.
  induction ps as [|p ps IH]; [done|]. cbn [res_mapM forallb map]. unfold compact_peer at 1. cbv zeta.
  fold (ipv4_of p). unfold is_ipv4 at 1. destruct (length (ipv4_of p) =? 0)%nat; [done|]. cbn [res_bind negb andb].
  rewrite IH. by destruct (forallb is_ipv4 ps).
Qed.

Lemma ipv4_of_length p : is_ipv4 p = true -> length (ipv4_of p) = 4%nat.
Proof.
  unfold is_ipv4, ipv4_of. destruct (To4_length (default [] (ParseIP (pe_IP p)))) as [->|]; done.
Qed.
Lemma to_ipv4_compact ps : forallb is_ipv4 ps = true ->
  to_ipv4 (map (fun p => mkCompactAddr (ipv4_of p) (pe_Port p)) ps) =
  map (fun p => mkCompactAddr (ipv4_of p) (pe_Port p)) ps.
Proof.
  unfold to_ipv4. induction ps as [|p ps IH]; [done|]. cbn [forallb map]. intros [Hp Hps]%andb_true_iff.
  cbn [omap list_omap ca_IP ca_Port]. apply ipv4_of_length in Hp. rewrite To4_id by done. rewrite Hp.
  cbn [Nat.eqb]. f_equal. by apply IH.
Qed.

(** The encoding of a list of peers, in either form. *)
Lemma Peers_codec ps :
  Forall Peer_wf ps -> Z.of_nat (6 * length ps) < 2 ^ 31 ->
  exists e, Peers_MarshalBencode ps = Ok e /\ raw_as e /\
    forall old, Peers_UnmarshalBencode old e = (received_peers ps, Done).
Proof.
  intros Hw Hl. unfold Peers_MarshalBencode, marshalCompactBencode, received_peers. rewrite compact_peers.
  destruct (forallb is_ipv4 ps) eqn:E; cbn [res_bind].
  - destruct (ipv4_roundtrip [] (map (fun p => mkCompactAddr (ipv4_of p) (pe_Port p)) ps)) as (b & Eb & Hb & Du).
    { apply Forall_map. eapply Forall_impl; [exact Hw|]. by intros p []. }
    unfold CompactIPv4Addrs_MarshalBencode. rewrite Eb, enc_bytes_Ok.
    rewrite to_ipv4_compact in Hb, Du by done. rewrite length_map in Hb.
    exists (str b). split; [done|]. split; [apply raw_as_str; lia|]. intros old.
    unfold Peers_UnmarshalBencode. rewrite (DecodeBytes_as _ _ _ _ (iface_string (VIface None) b ltac:(unfold short; lia))).
    unfold iface. rewrite Du, map_map. done.
  - exists (listing (map Peer_bytes ps)). split; [|split].
    + apply EncodeBytes_as, enc_as_slice. clear. induction ps; constructor; [apply Peer_enc|done].
    + apply raw_as_list, Forall_map. eapply Forall_impl; [exact Hw|]. apply raw_as_Peer.
    + intros old. unfold Peers_UnmarshalBencode.
      rewrite (DecodeBytes_as TIface (VIface None) _ (iface (VSlice (map Peer_iface ps)))).
      2:{ apply iface_list. clear -Hw. induction Hw; constructor; [by apply Peer_dec|done]. }
      unfold iface. assert (res_mapM peer_of_iface (map Peer_iface ps) = Ok ps) as ->; [|done].
      clear -Hw. induction Hw as [|p ps Hp _ IH]; [done|]. cbn [map res_mapM].
      rewrite peer_of_Peer_iface by done. cbn [res_bind]. by rewrite IH.
Qed.

(** The peers of [Peers6] have addresses. *)
Definition has_ip (p : Peer) : Prop := exists ip, ParseIP (pe_IP p) = Some ip /\ legal_ip ip = true.
Definition ipv6_of (p : Peer) : IP := To16 (default [] (ParseIP (pe_IP p))).
Definition received_peers6 (ps : Peers6) : Peers6 :=
  map (fun p => mkPeer [] (IP_String (ipv6_of p)) (pe_Port p)) ps.

Lemma Peers6_codec ps :
  Forall Peer_wf ps -> Forall has_ip ps -> Z.of_nat (18 * length ps) < 2 ^ 31 ->
  exists e, Peers6_MarshalBencode ps = Ok e /\ raw_as e /\
    forall old, Peers6_UnmarshalBencode old e = (received_peers6 ps, Done).
Proof.
  intros Hw Hi Hl. set (addrs := map (fun p => mkCompactAddr (default [] (ParseIP (pe_IP p))) (pe_Port p)) ps).
  assert (res_mapM compact_peer6 ps = Ok addrs /\ forallb (fun a => legal_ip (ca_IP a)) addrs = true) as [Ea Hleg].
  { unfold addrs. clear -Hi. induction Hi as [|p ps (ip & Ep & Hip) _ [IH1 IH2]]; [done|]. cbn [res_mapM map forallb ca_IP].
    unfold compact_peer6 at 1. rewrite Ep, IH1, IH2. simpl. by rewrite Hip. }
  unfold Peers6_MarshalBencode. rewrite Ea. cbn [res_bind].
  destruct (ipv6_roundtrip [] addrs) as (b & Eb & Hb & Du); [|done|].
  { unfold addrs. apply Forall_map. eapply Forall_impl; [exact Hw|]. by intros p []. }
  unfold CompactIPv6Addrs_MarshalBencode. rewrite Eb, enc_bytes_Ok. unfold addrs in Hb. rewrite length_map in Hb.
  exists (str b). split; [done|]. split; [apply raw_as_str; lia|]. intros old.
  unfold Peers6_UnmarshalBencode. rewrite DecodeBytes_string by lia. rewrite Du. unfold to_ipv6, addrs.
  by rewrite !map_map.
Qed.

(** ** Responses *)

Record AnnounceResponse_wf (x : AnnounceResponse) : Prop := {
  asw_reason : short (as_FailureReason x); asw_interval : is_u32 (as_Interval x);
  asw_peers : Forall Peer_wf (as_Peers x); asw_len : Z.of_nat (6 * length (as_Peers x)) < 2 ^ 31;
  asw_peers6 : Forall Peer_wf (as_Peers6 x); asw_ip6 : Forall has_ip (as_Peers6 x);
  asw_len6 : Z.of_nat (18 * length (as_Peers6 x)) < 2 ^ 31;
  asw_complete : is_u32 (as_Complete x); asw_incomplete : is_u32 (as_Incomplete x);
  asw_tracker : short (as_TrackerID x) }.

Definition received_announce (x : AnnounceResponse) : AnnounceResponse :=
  mkAnnounceResponse (as_FailureReason x) (as_Interval x) (received_peers (as_Peers x))
    (received_peers6 (as_Peers6 x)) (as_Complete x) (as_Incomplete x) (as_TrackerID x).

(** The dictionary of a response whose peers are written [e] and [e6]. *)
Definition Response_entries (x : AnnounceResponse) (e e6 : bytes) : list (bytes * bytes) :=
  opt (as_Complete x =? 0) (B "complete", int (as_Complete x)) ++
  opt (length (as_FailureReason x) =? 0)%nat (B "failure reason", str (as_FailureReason x)) ++
  opt (as_Incomplete x =? 0) (B "incomplete", int (as_Incomplete x)) ++
  opt (as_Interval x =? 0) (B "interval", int (as_Interval x)) ++
  opt (length (as_Peers x) =? 0)%nat (B "peers", e) ++
  opt (length (as_Peers6 x) =? 0)%nat (B "peers6", e6) ++
  opt (length (as_TrackerID x) =? 0)%nat (B "tracker id", str (as_TrackerID x)) ++ [].

Lemma Response_sorted x :
  sort_by_key (readStruct AnnounceResponseT (AnnounceResponse_val x)) =
  opt (as_Complete x =? 0) (B "complete", (TUint 32, VUint (as_Complete x))) ++
  opt (length (as_FailureReason x) =? 0)%nat (B "failure reason", (TString, VString (as_FailureReason x))) ++
  opt (as_Incomplete x =? 0) (B "incomplete", (TUint 32, VUint (as_Incomplete x))) ++
  opt (as_Interval x =? 0) (B "interval", (TUint 32, VUint (as_Interval x))) ++
  opt (length (as_Peers x) =? 0)%nat (B "peers", (PeersT, Peers_val (as_Peers x))) ++
  opt (length (as_Peers6 x) =? 0)%nat (B "peers6", (Peers6T, Peers_val (as_Peers6 x))) ++
  opt (length (as_TrackerID x) =? 0)%nat (B "tracker id", (TString, VString (as_TrackerID x))) ++ [].
Proof.
  destruct x as [f i ps ps6 c n t]. unfold AnnounceResponse_val, Peers_val.
  cbn [as_FailureReason as_Interval as_Peers as_Peers6 as_Complete as_Incomplete as_TrackerID].
  rewrite <- (length_map Peer_val ps), <- (length_map Peer_val ps6).
  set (vps := map Peer_val ps). set (vps6 := map Peer_val ps6).
  transitivity (sort_by_key (
    opt (length f =? 0)%nat (B "failure reason", (TString, VString f)) ++
    opt (i =? 0) (B "interval", (TUint 32, VUint i)) ++
    opt (length vps =? 0)%nat (B "peers", (PeersT, VSlice vps)) ++
    opt (length vps6 =? 0)%nat (B "peers6", (Peers6T, VSlice vps6)) ++
    opt (c =? 0) (B "complete", (TUint 32, VUint c)) ++
    opt (n =? 0) (B "incomplete", (TUint 32, VUint n)) ++
    opt (length t =? 0)%nat (B "tracker id", (TString, VString t)) ++ [])); [reflexivity|].
  destruct (length f =? 0)%nat, (i =? 0), (length vps =? 0)%nat, (length vps6 =? 0)%nat, (c =? 0), (n =? 0),
    (length t =? 0)%nat; reflexivity.
Qed.

Lemma val_Peers_val ps : val_Peers (Peers_val ps) = ps.
Proof. unfold val_Peers, Peers_val. rewrite map_map, (map_ext _ id) by (by intros []). apply map_id. Qed.

Lemma received_peers_nil ps : (length ps =? 0)%nat = true -> received_peers ps = [].
Proof. by destruct ps. Qed.

Lemma Response_codec x : AnnounceResponse_wf x ->
  exists b, enc_as AnnounceResponseT (AnnounceResponse_val x) b /\
    dec_as AnnounceResponseT (AnnounceResponse_val zeroAnnounceResponse) b
      (AnnounceResponse_val (received_announce x)).
Proof.
  intros []. destruct (Peers_codec (as_Peers x)) as (e & Ee & Re & De); [done|done|].
  destruct (Peers6_codec (as_Peers6 x)) as (e6 & Ee6 & Re6 & De6); [done..|].
  exists (dictionary (Response_entries x e e6)). split.
  - intros [|k] Hk; [lia|]. apply enc_as_struct. rewrite Response_sorted.
    unfold AnnounceResponse_val, Peers_val in *. cbn [depth foldr] in Hk. unfold Response_entries. entries.
    + apply enc_as_uint.
    + apply enc_as_string.
    + apply enc_as_uint.
    + apply enc_as_uint.
    + apply bencodeT_enc. fold (Peers_val (as_Peers x)). by rewrite val_Peers_val.
    + apply bencodeT_enc. fold (Peers_val (as_Peers6 x)). by rewrite val_Peers_val.
    + apply enc_as_string.
  - apply dec_as_struct. unfold Response_entries. repeat fill.
    all: first [by apply dec_as_uint|by apply dec_as_string|by (apply bencodeT_dec; [done|apply De])
               |by (apply bencodeT_dec; [done|apply De6])|idtac].
    all: destruct x as [f i ps ps6 c n t]; unfold received_announce;
      cbn [as_FailureReason as_Interval as_Peers as_Peers6 as_Complete as_Incomplete as_TrackerID] in *; omitted.
Qed.

Lemma val_Response_val x : val_AnnounceResponse (AnnounceResponse_val x) = x.
Proof.
  destruct x as [f i ps ps6 c n t]. unfold AnnounceResponse_val, val_AnnounceResponse.
  cbn [as_FailureReason as_Interval as_Peers as_Peers6 as_Complete as_Incomplete as_TrackerID].
  by rewrite !val_Peers_val.
Qed.

(** *** Scrapes *)

Definition ScrapeResult_wf (x : ScrapeResponseResult) : Prop :=
  is_u32 (sr_Complete x) /\ is_u32 (sr_Incomplete x) /\ is_u32 (sr_Downloaded x).
Record ScrapeResponse_wf (x : ScrapeResponse) : Prop := {
  spw_reason : short (sp_FailureReason x); spw_keys : NoDup (map fst (sp_Files x));
  spw_files : Forall (fun kv => Hash_wf kv.1 /\ ScrapeResult_wf kv.2) (sp_Files x) }.

Definition ScrapeResult_bytes (x : ScrapeResponseResult) : bytes :=
  dictionary [(B "complete", int (sr_Complete x)); (B "downloaded", int (sr_Downloaded x));
              (B "incomplete", int (sr_Incomplete x))].
Lemma ScrapeResult_enc x : enc_as ScrapeResultT (ScrapeResult_val x) (ScrapeResult_bytes x).
Proof.
  intros [|k] Hk; [lia|]. apply enc_as_struct.
  assert (sort_by_key (readStruct ScrapeResultT (ScrapeResult_val x)) =
    [(B "complete", (TUint 32, VUint (sr_Complete x))); (B "downloaded", (TUint 32, VUint (sr_Downloaded x)));
     (B "incomplete", (TUint 32, VUint (sr_Incomplete x)))]) as E by reflexivity.
  unfold ScrapeResultT in E. rewrite E. unfold ScrapeResult_val in *. cbn [depth foldr] in Hk.
  entries; apply enc_as_uint.
Qed.
Lemma ScrapeResult_dec x : ScrapeResult_wf x ->
  dec_as ScrapeResultT (ScrapeResult_val (mkScrapeResult 0 0 0)) (ScrapeResult_bytes x) (ScrapeResult_val x).
Proof.
  intros (H1 & H2 & H3). apply dec_as_struct. unfold ScrapeResult_val. repeat fill.
  all: first [by apply dec_as_uint|reflexivity].
Qed.

Definition Files_bytes (l : list (Hash * ScrapeResponseResult)) : bytes :=
  dictionary (map (fun kv => (kv.1, ScrapeResult_bytes kv.2)) l).
Lemma Files_dec fs :
  NoDup (map fst fs) -> Forall (fun kv => Hash_wf kv.1 /\ ScrapeResult_wf kv.2) fs ->
  dec_as (TMap (Some hash_key) ScrapeResultT) (VMap []) (Files_bytes fs)
    (VMap (map (fun kv => (kv.1, ScrapeResult_val kv.2)) fs)).
Proof.
  intros Hnd H. apply dec_as_keyed.
  - clear Hnd. induction H as [|[h y] fs [Hh Hy] _ IH]; constructor; [|done].
    cbn [fst snd] in *. split; [done|]. assert (short h) as Hs by (unfold short, Hash_wf, HashSize in *; lia).
    split; [done|]. split; [|by apply ScrapeResult_dec].
    unfold keyer_ok, hash_key. by rewrite Hash_FromString_id by (done || apply length_replicate).
  - by rewrite map_map.
Qed.

Definition Scrape_entries (x : ScrapeResponse) : list (bytes * bytes) :=
  opt (length (sp_FailureReason x) =? 0)%nat (B "failure_reason", str (sp_FailureReason x)) ++
  opt (length (sp_Files x) =? 0)%nat (B "files", Files_bytes (sp_Files x)) ++ [].

Lemma Scrape_codec x : ScrapeResponse_wf x ->
  enc_as ScrapeResponseT (ScrapeResponse_val x) (dictionary (Scrape_entries x)) /\
  dec_as ScrapeResponseT (ScrapeResponse_val zeroScrapeResponse) (dictionary (Scrape_entries x)) (ScrapeResponse_val x).
Proof.
  intros []. destruct x as [f fs]. cbn [sp_FailureReason sp_Files] in *.
  unfold ScrapeResponse_val, Scrape_entries. cbn [sp_FailureReason sp_Files].
  set (vs := map (fun kv => (kv.1, ScrapeResult_val kv.2)) fs).
  assert (Hl : length fs = length vs) by (unfold vs; by rewrite length_map).
  split.
  - intros [|k] Hk; [lia|]. apply enc_as_struct.
    assert (sort_by_key (readStruct ScrapeResponseT (VStruct [VString f; VMap vs])) =
      opt (length f =? 0)%nat (B "failure_reason", (TString, VString f)) ++
      opt (length vs =? 0)%nat (B "files", (TMap (Some hash_key) ScrapeResultT, VMap vs)) ++ []) as E.
    { transitivity (sort_by_key (opt (length f =? 0)%nat (B "failure_reason", (TString, VString f)) ++
        opt (length vs =? 0)%nat (B "files", (TMap (Some hash_key) ScrapeResultT, VMap vs)) ++ [])); [reflexivity|].
      destruct (length f =? 0)%nat, (length vs =? 0)%nat; reflexivity. }
    unfold ScrapeResponseT in E. rewrite E, Hl. cbn [depth foldr] in Hk. entries; [apply enc_as_string|].
    apply enc_as_keyed. unfold vs. clear. induction fs as [|kv fs IH]; constructor; [|done].
    split; [done|]. split; [done|]. apply ScrapeResult_enc.
  - apply dec_as_struct. repeat fill.
    + by apply dec_as_string.
    + omitted.
    + by apply Files_dec.
    + destruct fs; [done|discriminate].
    + done.
Qed.

Lemma val_Scrape_val x : val_ScrapeResponse (ScrapeResponse_val x) = x.
Proof.
  destruct x as [f fs]. unfold ScrapeResponse_val, val_ScrapeResponse. cbn [sp_FailureReason sp_Files].
  f_equal. rewrite map_map. rewrite (map_ext _ id); [apply map_id|]. by intros [h []].
Qed.

(** ** Client and server *)

(** A server that reads the query of the requested URL (what is behind a "#" is not sent to it), and answers
    with what [handle] says. *)
Definition query_of (url : bytes) : Values := ParseQuery (snd (Cut (fst (Cut url "#"%byte)) "?"%byte)).
Definition body (x : wout) : res bytes :=
  match x with (b, Done) => Ok b | (_, Fail e) => Err e | _ => Panic end.
Definition announce_server (handle : AnnounceRequest -> AnnounceResponse) (url : bytes) : res bytes :=
  match AnnounceRequest_FromQuery zeroAnnounceRequest (query_of url) with
  | (req, Done) => body (Encode AnnounceResponseT (AnnounceResponse_val (handle req)))
  | (_, Fail e) => Err e
  | _ => Panic
  end.
Definition scrape_server (handle : list bytes -> ScrapeResponse) (url : bytes) : res bytes :=
  body (ScrapeResponse_EncodeTo (handle (Values_values (query_of url) (B "info_hash")))).

(** A URL that parameters with these names can be put behind: it has no fragment, and its own query, if it has
    one (a passkey, say), has none of them. *)
Record takes (keys : list bytes) (u : bytes) : Prop := {
  tk_fragment : "#"%byte ∉ u; tk_free : Forall (fun k => query_of u !! k = None) keys }.
Lemma takes_plain keys u : "#"%byte ∉ u -> "?"%byte ∉ u -> takes keys u.
Proof.
  intros Hf Hu. split; [done|]. apply Forall_true. intros k. unfold query_of. by rewrite (Cut_none u), Cut_none by done.
Qed.

Lemma query_of_request keys u vs :
  takes keys u -> keys_in keys vs -> Values_full vs -> vs <> ∅ -> query_of (request_url u vs) = vs ∪ query_of u.
Proof.
  intros [Hf Hu] Hk Hv Hne. rewrite Forall_forall in Hu.
  assert (Hd : vs ##ₘ query_of u).
  { apply map_disjoint_spec. intros k l l' E E'. specialize (Hu k (Hk k ltac:(by eexists))). congruence. }
  assert (Hfr : "#"%byte ∉ request_url u vs).
  { assert ("#"%byte ∉ Values_Encode vs) as He by by apply not_in_Encode. unfold request_url.
    destruct (ContainsByte u _); rewrite !not_elem_of_app; (split; [done|split; [|exact He]]);
      by apply not_elem_of_cons, conj; [|apply not_elem_of_nil]. }
  unfold query_of in Hd |- *. rewrite (Cut_none _ _ Hfr), (Cut_none _ _ Hf) in *. cbn [fst] in *. unfold request_url.
  destruct (ContainsByte u "?"%byte) eqn:C.
  - assert ("?"%byte ∈ u) as Hin.
    { apply not_false_iff_true in C. rewrite ContainsByte_false in C.
      destruct (decide ("?"%byte ∈ u)); [done|by destruct C]. }
    destruct (Cut_found _ _ Hin) as (a & q & -> & Ha & E). rewrite E in *. cbn [snd] in *.
    replace ((a ++ "?"%byte :: q) ++ B "&" ++ Values_Encode vs) with (a ++ "?"%byte :: (q ++ B "&" ++ Values_Encode vs))
      by (by rewrite <- app_assoc).
    rewrite Cut_app by done. by apply ParseQuery_behind.
  - apply ContainsByte_false in C. rewrite (Cut_none u) by done. change (B "?" ++ ?x) with ("?"%byte :: x).
    rewrite Cut_app by done. cbn [snd]. rewrite ParseQuery_Encode by done.
    change (ParseQuery []) with (∅ : Values). symmetry. apply map_union_empty.
Qed.
Lemma Get_query_of keys u vs k :
  takes keys u -> k ∈ keys -> Values_Get (vs ∪ query_of u) k = Values_Get vs k.
Proof.
  intros [_ Hu] Hk. rewrite Forall_forall in Hu. unfold Values_Get, Values_values.
  destruct (vs !! k) as [l|] eqn:E.
  - by rewrite (lookup_union_Some_l _ _ _ l).
  - by rewrite lookup_union_r, Hu.
Qed.
Lemma ToQuery_nonempty r : AnnounceRequest_ToQuery r <> ∅.
Proof. intros E. pose proof (Get_uploaded r) as H. rewrite E in H. by destruct (format_int_nonempty (ar_Uploaded r)). Qed.
Lemma announced_query u r : takes announce_keys u ->
  AnnounceRequest_FromQuery zeroAnnounceRequest (query_of (request_url u (AnnounceRequest_ToQuery r))) =
  AnnounceRequest_FromQuery zeroAnnounceRequest (AnnounceRequest_ToQuery r).
Proof.
  intros Hu. rewrite (query_of_request _ _ _ Hu (ToQuery_keys r) (ToQuery_full r) (ToQuery_nonempty r)).
  apply FromQuery_ext, Forall_forall. intros k Hk. by eapply Get_query_of.
Qed.

Lemma decode_struct_as {A : Type} fs (put : A -> gval) get a b v :
  dec_as (TStruct fs) (put a) b v -> decode_struct (TStruct fs) put get a b = (get v, Done).
Proof.
  intros H. unfold decode_struct. destruct (Decode_as _ _ _ _ [] (dec_as_ptr _ _ _ _ H)) as (d' & E & _).
  rewrite app_nil_r in E. by rewrite E.
Qed.

Lemma http_announce_served t req handle :
  AnnounceRequest_wf req -> Hash_wf (cl_ID t) -> ar_InfoHash req <> zeroHash -> takes announce_keys (cl_AnnounceURL t) ->
  let sent := ar_set_hashes req (ar_InfoHash req) (cl_ID t) in
  AnnounceResponse_wf (handle sent) ->
  Client_Announce (announce_server handle) t req = (received_announce (handle sent), Done).
Proof.
  intros Hw Hid Hz Hu sent Hx. unfold Client_Announce, Hash_IsZero. rewrite bool_decide_eq_false_2 by done.
  fold sent. unfold Client_send, announce_server. rewrite announced_query by done.
  rewrite FromQuery_ToQuery by (destruct Hw; by split).
  destruct (Response_codec _ Hx) as (b & He & Hd). unfold Encode. rewrite He by lia. cbn [body].
  unfold AnnounceResponseT in *. rewrite (decode_struct_as _ _ _ _ _ _ Hd). by rewrite val_Response_val.
Qed.

(** [C35] An announce over HTTP, end to end: what the client puts into the URL, behind a query that the URL has
    already or as its only one, is read by a server as the same request, with the id of the client; any
    bytes go through, and negative numbers do too: a negative [Left] is sent and read as it is, where the
    comment in the code says that [math.MaxInt64] is used.  And the client gets the response of the server,
    its peers in the form of [received_peers].  The infohash is not zero, the URL has no
    fragment, and its own query has none of the announce's parameters ([takes]). *)
Theorem http_announce_exchange t req handle :
  AnnounceRequest_wf req -> Hash_wf (cl_ID t) -> ar_InfoHash req <> zeroHash -> takes announce_keys (cl_AnnounceURL t) ->
  let sent := ar_set_hashes req (ar_InfoHash req) (cl_ID t) in
  AnnounceResponse_wf (handle sent) ->
  Client_Announce (announce_server handle) t req = (received_announce (handle sent), Done).
Proof. exact (http_announce_served t req handle). Qed.

Definition scrape_keys : list bytes := [B "info_hash"].
Lemma scrape_query keys u (hashes : list Hash) :
  B "info_hash" ∈ keys -> hashes <> [] -> takes keys u ->
  query_of (request_url u {[B "info_hash" := hashes]}) = {[B "info_hash" := hashes]} ∪ query_of u.
Proof.
  intros Hk Hh Hu. apply (query_of_request _ _ _ Hu).
  - intros k [l E]. apply lookup_singleton_Some in E as [<- _]. exact Hk.
  - by apply map_Forall_singleton.
  - apply map_non_empty_singleton.
Qed.
Lemma http_scrape_served t hashes handle :
  hashes <> [] -> takes scrape_keys (cl_ScrapeURL t) -> ScrapeResponse_wf (handle hashes) ->
  Client_Scrape (scrape_server handle) t hashes = (handle hashes, Done).
Proof.
  intros Hh Hu Hx. unfold Client_Scrape, Client_send, scrape_server.
  rewrite (scrape_query _ _ _ (list_elem_of_here _ _) Hh Hu). unfold Values_values at 1.
  rewrite (lookup_union_Some_l _ _ _ hashes) by apply lookup_singleton_eq. cbn [default]. unfold id.
  destruct (Scrape_codec _ Hx) as [He Hd]. unfold ScrapeResponse_EncodeTo, Encode. rewrite He by lia. cbn [body].
  unfold ScrapeResponse_DecodeFrom, ScrapeResponseT in *. rewrite (decode_struct_as _ _ _ _ _ _ Hd).
  by rewrite val_Scrape_val.
Qed.

(** A scrape over HTTP, end to end: the server sees the hashes in their order, and the client
    gets the result of every file, in whatever order the server walks its map. *)
Theorem http_scrape_exchange t hashes handle :
  hashes <> [] -> takes scrape_keys (cl_ScrapeURL t) -> ScrapeResponse_wf (handle hashes) ->
  Client_Scrape (scrape_server handle) t hashes = (handle hashes, Done).
Proof. exact (http_scrape_served t hashes handle). Qed.

Definition http_client : Client :=
  NewClient (replicate 20 x07) (B "http://tracker.example/announce?passkey=0a1b&user=%3F") [] zeroHash.
Definition http_request : AnnounceRequest :=
  mkAnnounceRequest (replicate 20 xff) (replicate 20 x01) 1 2 (-1) 6881 (B "h&=%") 2 true (-1) (-7).
Definition http_response : AnnounceResponse :=
  mkAnnounceResponse [] 1800 [mkPeer (B "id") (B "10.0.0.1") 6881; mkPeer (B "x") (B "seed.example") 80] [] 3 4 (B "t").

Lemma http_response_wf : AnnounceResponse_wf http_response.
Proof.
  split; try (unfold short, is_u32; simpl; lia); try (by constructor).
  apply Forall_cons_2; [|apply Forall_cons_2; [|constructor]]; split; unfold short, is_u16; simpl; lia.
Qed.

Lemma http_announce_exchange_witness :
  Client_Announce (announce_server (fun r => if ar_NumWant r =? -1 then http_response else zeroAnnounceResponse))
    http_client http_request = (http_response, Done).
Proof.
  apply (http_announce_exchange http_client http_request
    (fun r => if ar_NumWant r =? -1 then http_response else zeroAnnounceResponse)).
  - split; try reflexivity; unfold is_i64, is_u16, is_u32, is_i32; simpl; lia.
  - reflexivity.
  - discriminate.
  - split; [apply (bool_decide_unpack _); vm_compute; exact I|]. repeat constructor.
  - exact http_response_wf.
Defined.

Lemma http_scrape_exchange_witness :
  Client_Scrape (scrape_server (fun hs => mkScrapeResponse [] (map (fun h => (h, mkScrapeResult 1 2 3)) hs)))
    http_client [replicate 20 xff; replicate 20 x00] =
  (mkScrapeResponse [] [(replicate 20 xff, mkScrapeResult 1 2 3); (replicate 20 x00, mkScrapeResult 1 2 3)], Done).
Proof.
  apply (http_scrape_exchange http_client [replicate 20 xff; replicate 20 x00]
    (fun hs => mkScrapeResponse [] (map (fun h => (h, mkScrapeResult 1 2 3)) hs))).
  - discriminate.
  - split; [apply (bool_decide_unpack _); vm_compute; exact I|]. repeat constructor.
  - split; [unfold short; simpl; lia|apply (bool_decide_unpack _); vm_compute; exact I|].
    repeat (apply Forall_cons_2; [split; [reflexivity|unfold ScrapeResult_wf, is_u32; simpl; lia]|]). constructor.
Defined.

(** The entries of the files go out in the order of the map's iteration, which Go leaves open: the
    keys of the dictionary are not sorted, as BEP 3 wants them. *)
Lemma scrape_files_unsorted :
  fst (ScrapeResponse_EncodeTo (mkScrapeResponse []
    [(replicate 20 x62, mkScrapeResult 0 0 0); (replicate 20 x61, mkScrapeResult 0 0 0)])) =
  dictionary [(B "files", dictionary (map (fun c => (replicate 20 c, ScrapeResult_bytes (mkScrapeResult 0 0 0))) [x62; x61]))].
Proof. vm_compute. reflexivity. Qed.
