(* ===== verification/Tracker.v ===== *)
(** * The common tracker client (tracker/tracker.go, get_peers.go)

    One request and one response type over the HTTP and the UDP tracker.  Parameters: the
    transports of the two clients ([do]; [net_Write], [net_Read], [net_Now],
    [net_Close]), dialling UDP
    ([dial]: the local address, or an error), and what [net/url] says about the authority and the path
    of a URL ([hier], [url_Host], [url_RequestURI]). *)

From S2P Require Import Prelude GoBytes GoNet GoTime Bencode Codec Hash MetaAddr GoURL Torrent.
From S2P Require Import HttpTracker.
From S2P Require Import UdpTracker.

(** ** Requests and responses *)

Definition EventNone : Z := 0.
Definition Completed : Z := 1.
Definition Started : Z := 2.
Definition Stopped : Z := 3.

Record AnnounceRequest : Type := mkAnnounceRequest {
  ta_InfoHash : Hash;
  ta_PeerID : Hash;
  ta_Uploaded : Z;
  ta_Downloaded : Z;
  ta_Left : Z;
  ta_Event : Z;
  ta_IP : IP;
  ta_Key : Z;
  ta_NumWant : Z;
  ta_Port : Z;
}.

Definition ToHTTPAnnounceRequest (ar : AnnounceRequest) : HttpTracker.AnnounceRequest :=
  let ip := if negb (length (ta_IP ar) =? 0)%nat then IP_String (ta_IP ar) else [] in
  HttpTracker.mkAnnounceRequest (ta_InfoHash ar) (ta_PeerID ar) (ta_Uploaded ar) (ta_Downloaded ar)
    (ta_Left ar) (ta_Port ar) ip (ta_Event ar) true (ta_NumWant ar) (ta_Key ar).

Definition ToUDPAnnounceRequest (ar : AnnounceRequest) : UdpTracker.AnnounceRequest :=
  UdpTracker.mkAnnounceRequest (ta_InfoHash ar) (ta_PeerID ar) (ta_Downloaded ar) (ta_Left ar)
    (ta_Uploaded ar) (ta_Event ar) (ta_Key ar) (ta_NumWant ar) (ta_Port ar) [].

Record AnnounceResponse : Type := mkAnnounceResponse {
  tn_Interval : Z;
  tn_Leechers : Z;
  tn_Seeders : Z;
  tn_Addresses : list HostAddr;
}.

Definition FromHTTPAnnounceResponse (r : HttpTracker.AnnounceResponse) : AnnounceResponse :=
  mkAnnounceResponse (as_Interval r) (as_Incomplete r) (as_Complete r)
    (map (fun p => NewHostAddr (pe_IP p) (pe_Port p)) (as_Peers r) ++
     map (fun p => NewHostAddr (pe_IP p) (pe_Port p)) (as_Peers6 r)).

Definition FromUDPAnnounceResponse (r : UdpTracker.AnnounceResponse) : AnnounceResponse :=
  mkAnnounceResponse (an_Interval r) (an_Leechers r) (an_Seeders r)
    (map (fun a => NewHostAddr (IP_String (ca_IP a)) (ca_Port a)) (an_Addresses r)).

Record ScrapeResponseResult : Type := mkScrapeResult { ts_Seeders : Z; ts_Leechers : Z; ts_Completed : Z }.
Definition ScrapeResult_EncodeTo (r : ScrapeResponseResult) : bytes :=
  be_encode 4 (ts_Seeders r) ++ be_encode 4 (ts_Completed r) ++ be_encode 4 (ts_Leechers r).
Definition ScrapeResult_DecodeFrom (b : bytes) : res ScrapeResponseResult :=
  let! seeders := slice b 0 4 in
  let! completed := slice b 4 8 in
  let! leechers := slice b 8 12 in
  Ok (mkScrapeResult (be_decode seeders) (be_decode leechers) (be_decode completed)).

Definition ScrapeResponse : Type := gmap bytes ScrapeResponseResult.
Definition FromHTTPScrapeResponse (sr : ScrapeResponse) (r : HttpTracker.ScrapeResponse) : ScrapeResponse :=
  foldl (fun sr kv => <[fst kv := mkScrapeResult (sr_Complete (snd kv)) (sr_Incomplete (snd kv)) (sr_Downloaded (snd kv))]> sr)
    sr (sp_Files r).
(** The shorter of the two lists bounds the loop. *)
Definition FromUDPScrapeResponse (sr : ScrapeResponse) (hs : list Hash) (r : list UdpTracker.ScrapeResponse)
    : ScrapeResponse :=
  foldl (fun sr kv => <[fst kv := mkScrapeResult (sc_Seeders (snd kv)) (sc_Leechers (snd kv)) (sc_Completed (snd kv))]> sr)
    sr (combine hs r).

(** ** The interface [Client] *)

Class Client (C W : Type) : Type := {
  Announce : C -> W -> AnnounceRequest -> C * W * res AnnounceResponse;
  Scrape : C -> W -> list Hash -> C * W * res ScrapeResponse;
  String : C -> bytes;
  Close : C -> W -> W * outcome;
}.

(** ** [tclient] *)

Record tclient : Type := mktclient {
  tc_url : bytes;
  tc_http : option HttpTracker.Client;
  tc_udp : option UdpTracker.Client;
  tc_exts : list Extension;
}.

Section TClient.
Context {W : Type}.
Variable do : bytes -> res bytes.
Variable net_Write : W -> bytes -> W * nat * option error.
Variable net_Read : W -> nat -> W * (error + bytes).
Variable net_Now : W -> Z.
Variable net_Close : W -> W * option error.

Definition of_recv {A : Type} (x : recv A) : res A := to_res x.
Definition failure {A : Type} (reason : bytes) (x : A) : res A :=
  if bool_decide (reason = []) then Ok x else Err (Errorf (String.string_of_list_byte reason)).

Definition set_udp (c : tclient) (u : UdpTracker.Client) : tclient :=
  mktclient (tc_url c) (tc_http c) (Some u) (tc_exts c).
Definition with_exts (r : UdpTracker.AnnounceRequest) (exts : list Extension) : UdpTracker.AnnounceRequest :=
  UdpTracker.mkAnnounceRequest (UdpTracker.ar_InfoHash r) (UdpTracker.ar_PeerID r) (UdpTracker.ar_Downloaded r)
    (UdpTracker.ar_Left r) (UdpTracker.ar_Uploaded r) (UdpTracker.ar_Event r) (UdpTracker.ar_Key r)
    (UdpTracker.ar_NumWant r) (UdpTracker.ar_Port r) exts.

(** Without an HTTP and a UDP client the methods are called on a nil pointer. *)
Definition tclient_Announce (c : tclient) (w : W) (req : AnnounceRequest) : tclient * W * res AnnounceResponse :=
  match tc_http c with
  | Some h =>
      (c, w, let! r := of_recv (Client_Announce do h (ToHTTPAnnounceRequest req)) in
             failure (as_FailureReason r) (FromHTTPAnnounceResponse r))
  | None =>
      match tc_udp c with
      | Some u =>
          let '(u, w, x) := UdpTracker.Announce net_Write net_Read net_Now u w
                              (with_exts (ToUDPAnnounceRequest req) (tc_exts c)) in
          (set_udp c u, w, res_map FromUDPAnnounceResponse x)
      | None => (c, w, Panic)
      end
  end.

Definition tclient_Scrape (c : tclient) (w : W) (hs : list Hash) : tclient * W * res ScrapeResponse :=
  match tc_http c with
  | Some h =>
      (c, w, let! r := of_recv (Client_Scrape do h hs) in
             failure (sp_FailureReason r) (FromHTTPScrapeResponse ∅ r))
  | None =>
      match tc_udp c with
      | Some u =>
          let '(u, w, x) := UdpTracker.scrape net_Write net_Read net_Now u w hs in
          (set_udp c u, w, res_map (FromUDPScrapeResponse ∅ hs) x)
      | None => (c, w, Panic)
      end
  end.

Definition tclient_String (c : tclient) : bytes := tc_url c.
Definition tclient_Close (c : tclient) (w : W) : W * outcome :=
  match tc_http c with
  | Some h => (w, Client_Close h)
  | None =>
      match tc_udp c with
      | Some _ => let '(w, err) := net_Close w in (w, match err with Some e => Fail e | None => Done end)
      | None => (w, Panicked)
      end
  end.
#[export] Instance tclient_Client : Client tclient W := {|
  Announce := tclient_Announce; Scrape := tclient_Scrape; String := tclient_String; Close := tclient_Close |}.

(** *** [NewClient] and [GetPeers] *)

Variable hier : bytes -> bytes -> option error.
Variables url_Host url_RequestURI : bytes -> bytes.
Variable dial : bytes -> bytes -> res bytes.

(** An unknown scheme sets [err], but the last line returns nil in its place. *)
Definition NewClient (connURL : bytes) (id random : Hash) : res tclient :=
  let! u := URL_Parse hier connURL in
  let tc := mktclient connURL None None [] in
  if bool_decide (u_Scheme u ∈ [B "http"; B "https"]) then
    Ok (mktclient connURL (Some (HttpTracker.NewClient id connURL [] random)) None [])
  else if bool_decide (u_Scheme u ∈ [B "udp"; B "udp4"; B "udp6"]) then
    let! local := dial (u_Scheme u) (url_Host connURL) in
    let p := url_RequestURI connURL in
    Ok (mktclient connURL None (Some (UdpTracker.NewClient local id random))
          (if bool_decide (p = []) then [] else [NewURLData p]))
  else Ok tc.

Definition peers_request (infoHash : Hash) (totalLength : Z) : AnnounceRequest :=
  mkAnnounceRequest infoHash zeroHash 0 0 totalLength 0 [] 0 0 6881.
Definition GetPeers (w : W) (tracker : bytes) (nodeID infoHash : Hash) (totalLength : Z) (random : Hash)
    : W * res AnnounceResponse :=
  match NewClient tracker nodeID random with
  | Ok c => let '(_, w, x) := Announce c w (peers_request infoHash totalLength) in (w, x)
  | Err e => (w, Err e)
  | Panic => (w, Panic)
  end.
End TClient.
