(* ===== verification/TrackerThms.v ===== *)
(** * Theorems about the common tracker client

    An abstract tracker is a swarm: what it answers for an info hash.  A client that
    [NewClient] makes, for an HTTP or for a UDP URL, is the same implementation of it behind
    the interface [Client]: the same requests get the same responses. *)

From S2P Require Import Prelude GoBytes GoNet IPText GoTime Bencode Codec BencodeStruct Hash MetaAddr GoURL Torrent.
From S2P Require Import HttpTracker.
From S2P Require HttpTrackerThms.
From S2P Require Import UdpTracker UdpTrackerThms Tracker.

(** ** The specification *)

(** What is known of a torrent: peers with IPv4 addresses, and the counters. *)
Record torrent : Type := mkTorrent {
  to_interval : Z; to_leechers : Z; to_seeders : Z; to_completed : Z; to_peers : list CompactAddr }.
Definition peer_wf (a : CompactAddr) : Prop := length (ca_IP a) = 4%nat /\ is_u16 (ca_Port a).
(** A UDP client reads at most 2048 bytes. *)
Record torrent_wf (t : torrent) : Prop := {
  tow_interval : is_u32 (to_interval t); tow_leechers : is_u32 (to_leechers t);
  tow_seeders : is_u32 (to_seeders t); tow_completed : is_u32 (to_completed t);
  tow_peers : Forall peer_wf (to_peers t); tow_length : (20 + 6 * length (to_peers t) <= 2048)%nat }.

Definition announced (t : torrent) : AnnounceResponse :=
  mkAnnounceResponse (to_interval t) (to_leechers t) (to_seeders t)
    (map (fun a => NewHostAddr (IP_String (ca_IP a)) (ca_Port a)) (to_peers t)).
Definition scraped (t : torrent) : ScrapeResponseResult :=
  mkScrapeResult (to_seeders t) (to_leechers t) (to_completed t).

(** A request of the Go types, for a torrent. *)
Record announce_wf (r : AnnounceRequest) : Prop := {
  anw_hash : Hash_wf (ta_InfoHash r); anw_nonzero : ta_InfoHash r <> zeroHash; anw_id : Hash_wf (ta_PeerID r);
  anw_up : is_i64 (ta_Uploaded r); anw_down : is_i64 (ta_Downloaded r); anw_left : is_i64 (ta_Left r);
  anw_event : is_u32 (ta_Event r); anw_key : is_i32 (ta_Key r); anw_want : is_i32 (ta_NumWant r);
  anw_port : is_u16 (ta_Port r) }.

(** The requests a client is used for: announces, and scrapes of different torrents, as many
    as fit the 2048 bytes of a datagram. *)
Inductive request : Type :=
  | RAnnounce (r : AnnounceRequest)
  | RScrape (hs : list Hash).
Inductive reply : Type :=
  | YAnnounce (x : res AnnounceResponse)
  | YScrape (x : res ScrapeResponse).
Definition req_wf (q : request) : Prop :=
  match q with
  | RAnnounce r => announce_wf r
  | RScrape hs => Forall Hash_wf hs /\ hs <> [] /\ NoDup hs /\ (16 + 20 * length hs <= 2048)%nat
  end.
Definition answer (swarm : Hash -> torrent) (q : request) : reply :=
  match q with
  | RAnnounce r => YAnnounce (Ok (announced (swarm (ta_InfoHash r))))
  | RScrape hs => YScrape (Ok (list_to_map (map (fun h => (h, scraped (swarm h))) hs)))
  end.

(** A client at work: what it says to one request after the other. *)
Section Run.
Context {C W : Type} {cl : Client C W}.
Definition perform (c : C) (w : W) (q : request) : C * W * reply :=
  match q with
  | RAnnounce r => let '(c, w, x) := Announce c w r in (c, w, YAnnounce x)
  | RScrape hs => let '(c, w, x) := Scrape c w hs in (c, w, YScrape x)
  end.
Fixpoint run (c : C) (w : W) (qs : list request) : list reply :=
  match qs with
  | [] => []
  | q :: qs => let '(c, w, y) := perform c w q in y :: run c w qs
  end.

(** One step of the simulation, under an invariant of the client and its world, is enough. *)
Lemma run_answers (swarm : Hash -> torrent) (I : C -> W -> Prop) :
  (forall c w q, I c w -> req_wf q ->
    exists c' w', perform c w q = (c', w', answer swarm q) /\ I c' w') ->
  forall qs c w, I c w -> Forall req_wf qs -> run c w qs = map (answer swarm) qs.
Proof.
  intros Hstep qs c w HI Hq. revert c w HI. induction Hq as [|q qs Hq _ IH]; intros c w HI; [done|].
  destruct (Hstep c w q HI Hq) as (c' & w' & E & HI'). cbn [run map]. rewrite E. by rewrite (IH c' w').
Qed.
End Run.

(** ** The servers of a swarm *)

Section Swarm.
Variable swarm : Hash -> torrent.
Hypothesis swarm_wf : forall h, torrent_wf (swarm h).

Definition http_announced (r : HttpTracker.AnnounceRequest) : HttpTracker.AnnounceResponse :=
  let t := swarm (HttpTracker.ar_InfoHash r) in
  HttpTracker.mkAnnounceResponse [] (to_interval t) (map peer_of_addr (to_peers t)) [] (to_seeders t) (to_leechers t) [].
Definition http_scraped (hs : list Hash) : HttpTracker.ScrapeResponse :=
  HttpTracker.mkScrapeResponse [] (map (fun h => (h,
    HttpTracker.mkScrapeResult (to_seeders (swarm h)) (to_leechers (swarm h)) (to_completed (swarm h)))) hs).
(** The server knows an announce by the peer id. *)
Definition http_server (url : bytes) : res bytes :=
  if bool_decide (Values_Get (HttpTrackerThms.query_of url) (B "peer_id") = [])
  then HttpTrackerThms.scrape_server http_scraped url
  else HttpTrackerThms.announce_server http_announced url.

Definition udp_announced (t : torrent) : UdpTracker.AnnounceResponse :=
  UdpTracker.mkAnnounceResponse (to_interval t) (to_leechers t) (to_seeders t) (to_peers t).
Definition udp_scraped (t : torrent) : UdpTracker.ScrapeResponse :=
  UdpTracker.mkScrapeResponse (to_seeders t) (to_leechers t) (to_completed t).
Definition udp_handler : ServerHandler unit :=
  mkServerHandler _ (fun n _ => (n, None)) (fun n _ r => (n, inr (udp_announced (swarm (UdpTracker.ar_InfoHash r)))))
    (fun n _ hs => (n, inr (map (fun h => udp_scraped (swarm h)) hs))).

Lemma foldl_scraped {A : Type} (f : A -> ScrapeResponseResult) (g : Hash -> A) (hs : list bytes) (sr : ScrapeResponse) (h : bytes) :
  foldl (fun sr kv => <[fst kv := f (snd kv)]> sr) sr (map (fun h => (h, g h)) hs) !! h =
  if decide (h ∈ hs) then Some (f (g h)) else sr !! h.
Proof.
  revert sr. induction hs as [|k hs IH]; intros sr; [done|]. cbn [map foldl fst snd]. rewrite IH.
  destruct (decide (h ∈ hs)), (decide (h ∈ k :: hs)) as [Hin|Hni]; try set_solver.
  - apply elem_of_cons in Hin as [->|]; [|done]. apply lookup_insert_eq.
  - apply lookup_insert_ne. set_solver.
Qed.
Lemma scraped_map (hs : list bytes) (sr : ScrapeResponse) :
  (forall h : bytes, sr !! h = if decide (h ∈ hs) then Some (scraped (swarm h)) else None) ->
  sr = list_to_map (map (fun h => (h, scraped (swarm h))) hs).
Proof.
  intros H. apply map_eq. intros h. rewrite H. clear H.
  induction hs as [|k hs IH]; [done|]. cbn [map list_to_map foldr]. destruct (decide (h = k)) as [->|Hne].
  - rewrite decide_True by set_solver. symmetry. apply lookup_insert_eq.
  - transitivity (if decide (h ∈ hs) then Some (scraped (swarm h)) else None).
    + destruct (decide (h ∈ hs)) as [Hi|Hi]; [rewrite decide_True by set_solver|rewrite decide_False by set_solver]; done.
    + rewrite IH. symmetry. by apply lookup_insert_ne.
Qed.

Lemma combine_map {A B : Type} (f : A -> B) l : combine l (map f l) = map (fun x => (x, f x)) l.
Proof. induction l as [|x l IH]; [done|]. cbn. by rewrite IH. Qed.

(** *** HTTP *)

Lemma peer_of_addr_wf a : peer_wf a -> HttpTrackerThms.Peer_wf (peer_of_addr a).
Proof.
  intros [Hl Hp]. split; [done| |done]. pose proof (length_IP_String (ca_IP a) (or_introl Hl)).
  unfold short, peer_of_addr. cbn [pe_IP]. lia.
Qed.
Lemma ipv4_of_addr a : peer_wf a -> HttpTrackerThms.ipv4_of (peer_of_addr a) = ca_IP a.
Proof.
  intros [Hl _]. unfold HttpTrackerThms.ipv4_of, peer_of_addr. cbn [pe_IP].
  rewrite ParseIP_String by auto. by apply To4_To16.
Qed.
Lemma received_addrs l : Forall peer_wf l -> HttpTrackerThms.received_peers (map peer_of_addr l) = map peer_of_addr l.
Proof.
  intros H. unfold HttpTrackerThms.received_peers.
  destruct (forallb _ _); [|done]. rewrite map_map. apply map_ext_in. intros a Ha%list_elem_of_In.
  rewrite Forall_forall in H. by rewrite ipv4_of_addr by auto.
Qed.

Lemma http_announced_wf r : HttpTrackerThms.AnnounceResponse_wf (http_announced r).
Proof.
  destruct (swarm_wf (HttpTracker.ar_InfoHash r)). split; try done; cbn; try by constructor.
  - apply Forall_map. eapply Forall_impl; [done|]. apply peer_of_addr_wf.
  - rewrite length_map. lia.
Qed.
Lemma http_scraped_wf hs : Forall Hash_wf hs -> NoDup hs -> HttpTrackerThms.ScrapeResponse_wf (http_scraped hs).
Proof.
  intros Hh Hn. split; [done| |]; cbn.
  - rewrite map_map, map_id. done.
  - apply Forall_map. eapply Forall_impl; [exact Hh|]. intros h Hw. destruct (swarm_wf h). split; [done|split; [|split]; done].
Qed.
(** The tracker's URL may have a fragment-free query of its own, with other parameters than those of the client
    and than the [peer_id] the server looks at. *)
Definition announce_url : bytes -> Prop := HttpTrackerThms.takes HttpTrackerThms.announce_keys.
Definition scrape_url : bytes -> Prop := HttpTrackerThms.takes [B "info_hash"; B "peer_id"].
Lemma scrape_url_takes u : scrape_url u -> HttpTrackerThms.takes HttpTrackerThms.scrape_keys u.
Proof. intros [Hf Hk]. split; [done|]. apply Forall_cons_1 in Hk as [Hk _]. by apply Forall_singleton. Qed.
Lemma http_announce t r :
  announce_wf r -> Hash_wf (cl_ID t) -> announce_url (cl_AnnounceURL t) ->
  to_res (Client_Announce http_server t (ToHTTPAnnounceRequest r)) =
  Ok (http_announced (ToHTTPAnnounceRequest r)).
Proof.
  intros [] Hid Hu. set (req := ToHTTPAnnounceRequest r).
  assert (HttpTrackerThms.AnnounceRequest_wf req) as Hw by (by split).
  pose proof (HttpTrackerThms.http_announce_served t req http_announced Hw Hid anw_nonzero0 Hu (http_announced_wf _)) as E.
  unfold Client_Announce in *. destruct (Hash_IsZero _); [done|]. unfold Client_send in *.
  set (vs := AnnounceRequest_ToQuery _) in *.
  assert (http_server (request_url (cl_AnnounceURL t) vs) =
    HttpTrackerThms.announce_server http_announced (request_url (cl_AnnounceURL t) vs)) as ->.
  { unfold http_server, vs. rewrite (HttpTrackerThms.query_of_request _ _ _ Hu (HttpTrackerThms.ToQuery_keys _)
      (HttpTrackerThms.ToQuery_full _) (HttpTrackerThms.ToQuery_nonempty _)).
    rewrite (HttpTrackerThms.Get_query_of _ _ _ _ Hu) by (apply (bool_decide_unpack _); by vm_compute).
    rewrite HttpTrackerThms.Get_peer_id. cbn [ar_set_hashes HttpTracker.ar_PeerID].
    rewrite bool_decide_eq_false_2; [done|]. intros Hn. by rewrite Hn in Hid. }
  rewrite E. unfold HttpTrackerThms.received_announce. cbn [http_announced].
  change (swarm (HttpTracker.ar_InfoHash (ar_set_hashes req _ _))) with (swarm (HttpTracker.ar_InfoHash req)).
  unfold http_announced. cbn. rewrite received_addrs; [done|]. apply swarm_wf.
Qed.

Lemma http_scrape t hs :
  Forall Hash_wf hs -> hs <> [] -> NoDup hs -> scrape_url (cl_ScrapeURL t) ->
  to_res (Client_Scrape http_server t hs) = Ok (http_scraped hs).
Proof.
  intros Hh Hne Hn Hu.
  pose proof (HttpTrackerThms.http_scrape_served t hs http_scraped Hne (scrape_url_takes _ Hu) (http_scraped_wf hs Hh Hn)) as E.
  unfold Client_Scrape, Client_send in *. set (vs := {[_ := hs]}) in *.
  assert (http_server (request_url (cl_ScrapeURL t) vs) =
    HttpTrackerThms.scrape_server http_scraped (request_url (cl_ScrapeURL t) vs)) as ->.
  { unfold http_server, vs. rewrite (HttpTrackerThms.scrape_query _ _ _ (list_elem_of_here _ _) Hne Hu).
    rewrite (HttpTrackerThms.Get_query_of _ _ _ _ Hu) by (apply (bool_decide_unpack _); by vm_compute).
    rewrite bool_decide_eq_true_2; [done|]. reflexivity. }
  by rewrite E.
Qed.

(** *** The simulations *)

Context (raddr : UDPAddr) (now : Z).
Hypothesis raddr_ipv4 : length (ua_IP raddr) = 4%nat.
Definition swarm_client : Client tclient (world (H := unit)) :=
  tclient_Client http_server (w_Write udp_handler raddr now) w_Read (w_Now now) (fun w => (w, None)).

(** A client over HTTP: nothing changes. *)
Definition http_ready (c : tclient) (w : world (H := unit)) : Prop :=
  exists t, tc_http c = Some t /\ Hash_wf (cl_ID t) /\ announce_url (cl_AnnounceURL t) /\ scrape_url (cl_ScrapeURL t).
Lemma http_step c w q : http_ready c w -> req_wf q ->
  exists c' w', perform (cl := swarm_client) c w q = (c', w', answer swarm q) /\ http_ready c' w'.
Proof.
  intros HI Hq. exists c, w. split; [|done]. destruct HI as (t & Et & Hid & Hu & Hu').
  destruct q as [r|hs]; cbn [perform swarm_client Announce Scrape tclient_Client].
  - unfold tclient_Announce, of_recv. rewrite Et, http_announce by done. cbn [res_bind]. unfold failure. cbn.
    unfold FromHTTPAnnounceResponse, announced. cbn. by rewrite map_map, app_nil_r.
  - destruct Hq as (Hh & Hne & Hn & _). unfold tclient_Scrape, of_recv. rewrite Et, http_scrape by done.
    cbn [res_bind]. unfold failure. cbn [http_scraped sp_FailureReason]. rewrite bool_decide_eq_true_2 by done.
    unfold answer. do 3 f_equal. apply scraped_map. intros h. unfold FromHTTPScrapeResponse, http_scraped. cbn [sp_Files].
    exact (foldl_scraped (fun x => mkScrapeResult (sr_Complete x) (sr_Incomplete x) (sr_Downloaded x)) _ hs ∅ h).
Qed.

(** A client over UDP: it has a connection, or is about to make one. *)
Definition udp_ready (c : tclient) (w : world (H := unit)) : Prop :=
  tc_http c = None /\ Forall ext_wf (tc_exts c) /\ (length (concat (map ext_bytes (tc_exts c))) <= 1950)%nat /\
  exists u s c1 s1, tc_udp c = Some u /\ w = mkWorld s [] /\ link udp_handler raddr now u s c1 s1 /\
    Hash_wf (uc_id u) /\ uc_MaxBufSize u = maxBufSize /\ uc_ipv4 u = true.

Lemma link_again c s c1 s1 :
  link udp_handler raddr now c s c1 s1 ->
  let c' := snd (getTranID c1) in let s' := set_handler s1 tt in link udp_handler raddr now c' s' c' s'.
Proof.
  intros L. destruct (getConnectionID_link udp_handler raddr now _ _ _ _ L) as (_ & Hc & Hk & _).
  apply link_reuse; [|done|done]. destruct L as [h Hm E|Hm Hc' Hk']; [|done].
  cbn. unfold time_Sub. rewrite Z.sub_diag. done.
Qed.
Lemma udp_ready_again c u s c1 s1 :
  tc_http c = None -> Forall ext_wf (tc_exts c) -> (length (concat (map ext_bytes (tc_exts c))) <= 1950)%nat ->
  link udp_handler raddr now u s c1 s1 ->
  Hash_wf (uc_id u) -> uc_MaxBufSize u = maxBufSize -> uc_ipv4 u = true ->
  udp_ready (set_udp c (snd (getTranID c1))) (mkWorld (set_handler s1 tt) []).
Proof.
  intros Hh Hx Hl L Hid Hb H4. split; [done|split; [done|split; [done|]]].
  pose proof (link_again _ _ _ _ L) as L'.
  eexists _, _, _, _. split; [reflexivity|split; [reflexivity|split; [exact L'|]]].
  destruct L; done.
Qed.

Lemma ipv4_raddr : ipv4_addr raddr = true.
Proof.
  unfold ipv4_addr. rewrite To4_id by done. rewrite bool_decide_eq_false_2; [done|].
  intros E. by rewrite E in raddr_ipv4.
Qed.
Lemma udp_announced_wf t : torrent_wf t -> response_wf true (udp_announced t).
Proof.
  intros []. repeat (split; [assumption|]). eapply Forall_impl; [eassumption|]. intros a [Hl Hp]. split; [done|].
  cbn. rewrite To4_id by done. intros E. by rewrite E in Hl.
Qed.
Lemma announced_addrs t : torrent_wf t ->
  FromUDPAnnounceResponse (response_norm true (udp_announced t)) = announced t.
Proof.
  intros []. unfold FromUDPAnnounceResponse, announced, response_norm. cbn. f_equal. rewrite map_map.
  apply map_ext_in. intros a Ha%list_elem_of_In. rewrite Forall_forall in tow_peers0.
  destruct (tow_peers0 a Ha). cbn. by rewrite To4_id.
Qed.

Lemma udp_step c w q : udp_ready c w -> req_wf q ->
  exists c' w', perform (cl := swarm_client) c w q = (c', w', answer swarm q) /\ udp_ready c' w'.
Proof.
  intros (Hh & Hx & Hl & u & s & c1 & s1 & Eu & -> & L & Hid & Hb & H4) Hq.
  eexists _, _. split; [|by eapply udp_ready_again]. destruct q as [r|hs]; cbn [perform swarm_client Announce Scrape tclient_Client].
  - unfold tclient_Announce. rewrite Hh, Eu. destruct Hq.
    rewrite (udp_announce_served udp_handler raddr now u s c1 s1 _ (udp_announced (swarm (ta_InfoHash r))) tt L); rewrite ?ipv4_raddr.
    + cbn [res_map]. by rewrite announced_addrs.
    + by apply bool_decide_eq_false_2.
    + repeat (split; [assumption|]). assumption.
    + by destruct (us_handler s1).
    + by apply udp_announced_wf.
    + done.
    + unfold bufSize. rewrite Hb. destruct (swarm_wf (ta_InfoHash r)). change (Z.to_nat _) with 2048%nat. change (ip_len true) with 4%nat. cbn [an_Addresses udp_announced]. lia.
    + by left.
    + unfold exts_bytes. cbn. cbn in Hl. lia.
  - destruct Hq as (Hhs & Hne & Hn & Hlen). unfold tclient_Scrape. rewrite Hh, Eu.
    rewrite (udp_scrape_served udp_handler raddr now u s c1 s1 hs (map (fun h => udp_scraped (swarm h)) hs) tt L); try done.
    + cbn [res_map]. unfold answer. do 3 f_equal. apply scraped_map. intros h. unfold FromUDPScrapeResponse.
      rewrite combine_map.
      exact (foldl_scraped (fun x => mkScrapeResult (sc_Seeders x) (sc_Leechers x) (sc_Completed x)) _ hs ∅ h).
    + by destruct (us_handler s1).
    + apply Forall_map, Forall_true. intros h. destruct (swarm_wf h). split; [done|split; done].
    + unfold bufSize. rewrite Hb, length_map. change (Z.to_nat _) with 2048%nat. lia.
Qed.

(** *** Making a client *)

Lemma URLData_wf p : (length p <= 255)%nat -> ext_wf (NewURLData p).
Proof.
  intros Hp. split; [by vm_compute|split; [exact Hp|right]]. cbn. apply u8_id. unfold is_u8. lia.
Qed.

Context (hier : bytes -> bytes -> option error) (url_Host url_RequestURI : bytes -> bytes).
Context (dial : bytes -> bytes -> res bytes).

(** A URL that a client can be made for: an HTTP URL may have a query, free of the client's parameters,
    and so may the URL for scrapes that is made from it; a UDP socket has a local IPv4 address. *)
Definition http_schemes : list bytes := [B "http"; B "https"].
Definition udp_schemes : list bytes := [B "udp"; B "udp4"; B "udp6"].
Record url_wf (connURL : bytes) (u : URL) : Prop := {
  uw_parse : URL_Parse hier connURL = Ok u;
  uw_scheme : u_Scheme u ∈ http_schemes ++ udp_schemes;
  uw_query : u_Scheme u ∈ http_schemes ->
    announce_url connURL /\ scrape_url (ReplaceAll (B "announce") (B "scrape") 0 connURL);
  uw_uri : (length (url_RequestURI connURL) <= 255)%nat;
  uw_dial : u_Scheme u ∈ udp_schemes ->
    exists local, dial (u_Scheme u) (url_Host connURL) = Ok local /\ "."%byte ∈ local }.

Definition ready (c : tclient) (w : world (H := unit)) : Prop := http_ready c w \/ udp_ready c w.
Lemma ready_step c w q : ready c w -> req_wf q ->
  exists c' w', perform (cl := swarm_client) c w q = (c', w', answer swarm q) /\ ready c' w'.
Proof.
  intros [HI|HI] Hq; [destruct (http_step c w q HI Hq) as (c' & w' & ? & ?)|
    destruct (udp_step c w q HI Hq) as (c' & w' & ? & ?)]; exists c', w'; (split; [done|]); [by left|by right].
Qed.

Lemma NewClient_ready connURL u id random :
  url_wf connURL u -> Hash_wf id -> Hash_wf random -> Minute < time_Sub now zeroTime ->
  exists c, NewClient hier url_Host url_RequestURI dial connURL id random = Ok c /\
    ready c (mkWorld (NewServer tt) []).
Proof.
  intros [Hp Hs Hq Hu Hd] Hid Hr Hnow. unfold NewClient. rewrite Hp. cbn [res_bind].
  assert (forall b : bool, Hash_wf (if b then random else id)) as Hid' by by intros [].
  fold http_schemes. fold udp_schemes. case_bool_decide as Hh.
  - eexists. split; [done|]. left. eexists. split; [done|]. cbn. split; [apply Hid'|]. by apply Hq.
  - apply elem_of_app in Hs as [|Hs]; [done|]. rewrite bool_decide_eq_true_2 by done.
    destruct (Hd Hs) as (local & -> & Hdot). cbn [res_bind]. eexists. split; [done|]. right.
    split; [done|]. cbn [tc_exts tc_udp].
    assert (Forall ext_wf (if bool_decide (url_RequestURI connURL = []) then [] else [NewURLData (url_RequestURI connURL)])).
    { case_bool_decide; [constructor|by apply Forall_singleton, URLData_wf]. }
    split; [done|]. split.
    { case_bool_decide; cbn; [lia|]. rewrite app_nil_r. lia. }
    eexists _, _, _, _. split; [reflexivity|split; [reflexivity|]]. split; [by apply link_connect|].
    split; [apply Hid'|]. split; [done|]. apply existsb_exists. exists "."%byte.
    split; [by apply list_elem_of_In|]. by apply bool_decide_eq_true_2.
Qed.

(** [C34] The transport does not matter: a client that [NewClient] makes for the URL of a tracker, over HTTP
    or over UDP, answers a sequence of announces and scrapes with what the swarm
    knows, and so does [GetPeers]; the counters and the addresses are the same on both sides.  The swarm has
    peers with IPv4 addresses, no more than a datagram holds; UDP runs over IPv4, with a clock that stands still
    between two requests; an HTTP URL may have a query, which has none of the client's parameters, and no
    fragment ([url_wf]); scrapes are of one or more different torrents, and announces of a hash that is not zero
    ([req_wf]).  Over IPv6 the server refuses the client ([udp_announce_ipv6_refused]). *)
Theorem tracker_transports_agree connURL u id random :
  url_wf connURL u -> Hash_wf id -> Hash_wf random -> Minute < time_Sub now zeroTime ->
  let w := mkWorld (NewServer tt) [] in
  (exists c, NewClient hier url_Host url_RequestURI dial connURL id random = Ok c /\
    forall qs, Forall req_wf qs -> run (cl := swarm_client) c w qs = map (answer swarm) qs) /\
  (forall infoHash left, Hash_wf infoHash -> infoHash <> zeroHash -> is_i64 left ->
    exists w', GetPeers http_server (w_Write udp_handler raddr now) w_Read (w_Now now) (fun w => (w, None))
      hier url_Host url_RequestURI dial w connURL id infoHash left random = (w', Ok (announced (swarm infoHash)))).
Proof.
  intros Hu Hid Hr Hnow w. destruct (NewClient_ready _ _ _ _ Hu Hid Hr Hnow) as (c & Ec & Hc). split.
  - exists c. split; [done|]. intros qs. by apply (run_answers (cl := swarm_client) swarm ready ready_step).
  - intros infoHash left Hh Hz Hl. unfold GetPeers. rewrite Ec.
    destruct (ready_step c w (RAnnounce (peers_request infoHash left)) Hc) as (c' & w' & E & _).
    { by split. }
    cbn [perform] in E. change (Announce c w) with (Announce (Client := swarm_client) c w).
    destruct (Announce (Client := swarm_client) c w _) as [[c2 w2] x]. injection E as -> -> ->. by exists w'.
Qed.
End Swarm.

(** A URL with another scheme gives a client and no error, although [NewClient] builds the error
    [unknown url scheme]: the first announce or scrape, or closing the client, then calls a
    method of a nil UDP client and panics, in [GetPeers] too, whatever the transports do. *)
Theorem unknown_scheme_panics {W : Type} do (net_Write : W -> bytes -> W * nat * option error) net_Read net_Now net_Close
    hier url_Host url_RequestURI dial connURL u id random :
  URL_Parse hier connURL = Ok u -> u_Scheme u ∉ http_schemes ++ udp_schemes ->
  exists c, NewClient hier url_Host url_RequestURI dial connURL id random = Ok c /\
    (forall w r, tclient_Announce do net_Write net_Read net_Now c w r = (c, w, Panic)) /\
    (forall w hs, tclient_Scrape do net_Write net_Read net_Now c w hs = (c, w, Panic)) /\
    (forall w, tclient_Close net_Close c w = (w, Panicked)) /\
    forall w infoHash left,
      GetPeers do net_Write net_Read net_Now net_Close hier url_Host url_RequestURI dial w connURL id infoHash left random
      = (w, Panic).
Proof.
  intros Hp Hs. apply not_elem_of_app in Hs as [Hh Hu]. unfold GetPeers, NewClient. rewrite Hp. cbn [res_bind].
  fold http_schemes. fold udp_schemes. rewrite !bool_decide_eq_false_2 by done. by eexists.
Qed.

(** ** Witnesses *)

Definition demo_torrent (seeders : Z) : torrent :=
  mkTorrent 60 1 seeders 3 [mkCompactAddr [x0a; x00; x00; x01] 6881; mkCompactAddr [x01; x02; x03; x04] 80].
Definition demo_swarm (h : Hash) : torrent := demo_torrent (if bool_decide (h = replicate 20 x07) then 9 else 2).
Lemma demo_swarm_wf h : torrent_wf (demo_swarm h).
Proof.
  unfold demo_swarm. destruct (bool_decide _); split; cbn; try (unfold is_u32; lia).
  all: repeat apply Forall_cons_2; [| |constructor]; split; try done; unfold is_u16; simpl; lia.
Qed.
Definition demo_requests : list request :=
  [RAnnounce (peers_request (replicate 20 x07) (-1)); RScrape [replicate 20 x01; replicate 20 x07];
   RAnnounce (mkAnnounceRequest (replicate 20 xff) zeroHash 1 2 3 Started [x0a; x00; x00; x02] (-7) (-1) 6881)].
Lemma demo_requests_wf : Forall req_wf demo_requests.
Proof.
  repeat apply Forall_cons_2; [| | |constructor].
  - split; cbn; try done; unfold is_i64, is_u32, is_i32, is_u16; lia.
  - split; [by repeat constructor|]. split; [done|]. split; [|cbn; lia]. apply (bool_decide_unpack _). by vm_compute.
  - split; cbn; try done; unfold is_i64, is_u32, is_i32, is_u16; lia.
Qed.
Definition demo_hier (_ _ : bytes) : option error := None.
Definition demo_dial (_ _ : bytes) : res bytes := Ok (B "192.168.1.2:5000").
Definition demo_uri (_ : bytes) : bytes := B "/announce".
Lemma demo_url_wf connURL u :
  URL_Parse demo_hier connURL = Ok u -> u_Scheme u ∈ http_schemes ++ udp_schemes ->
  (u_Scheme u ∈ http_schemes -> announce_url connURL /\ scrape_url (ReplaceAll (B "announce") (B "scrape") 0 connURL)) ->
  url_wf demo_hier id demo_uri demo_dial connURL u.
Proof.
  intros Hp Hs Hq. split; [done..|cbn; lia|]. intros _. eexists. split; [reflexivity|].
  apply (bool_decide_unpack _). by vm_compute.
Qed.

(** The same requests over both transports. *)
Lemma tracker_transports_agree_witness :
  let now := 100 * Minute in
  let w := mkWorld (NewServer tt) [] in
  let client := swarm_client demo_swarm demoAddr now in
  let make u := NewClient demo_hier id demo_uri demo_dial u (replicate 20 x08) zeroHash in
  (exists c, make (B "http://t.example/announce?passkey=0a1b") = Ok c /\
    run (cl := client) c w demo_requests = map (answer demo_swarm) demo_requests) /\
  (exists c, make (B "udp://t.example:80/announce") = Ok c /\
    run (cl := client) c w demo_requests = map (answer demo_swarm) demo_requests).
Proof.
  intros now w client make. split.
  - destruct (tracker_transports_agree demo_swarm demo_swarm_wf demoAddr now eq_refl demo_hier id demo_uri demo_dial
      (B "http://t.example/announce?passkey=0a1b") (mkURL (B "http") (B "passkey=0a1b")) (replicate 20 x08) zeroHash) as [(c & Hc & Hr) _].
    + apply demo_url_wf; [by vm_compute|apply (bool_decide_unpack _); by vm_compute|]. intros _.
      split; (split; [apply (bool_decide_unpack _); by vm_compute|]); repeat (apply Forall_cons_2; [by vm_compute|]); constructor.
    + reflexivity.
    + reflexivity.
    + reflexivity.
    + exists c. split; [exact Hc|]. apply Hr. exact demo_requests_wf.
  - destruct (tracker_transports_agree demo_swarm demo_swarm_wf demoAddr now eq_refl demo_hier id demo_uri demo_dial
      (B "udp://t.example:80/announce") (mkURL (B "udp") []) (replicate 20 x08) zeroHash) as [(c & Hc & Hr) _].
    + apply demo_url_wf; [by vm_compute|apply (bool_decide_unpack _); by vm_compute|]. intros H. exfalso. revert H.
      apply (bool_decide_unpack _). by vm_compute.
    + reflexivity.
    + reflexivity.
    + reflexivity.
    + exists c. split; [exact Hc|]. apply Hr. exact demo_requests_wf.
Defined.

Lemma unknown_scheme_panics_witness :
  exists c, NewClient demo_hier id demo_uri demo_dial (B "wss://t.example/announce") zeroHash (replicate 20 x08) = Ok c /\
    forall w : unit, GetPeers (fun _ => Ok []) (fun w b => (w, length b, None)) (fun w _ => (w, inr [])) (fun _ => 0) (fun w => (w, None))
      demo_hier id demo_uri demo_dial w (B "wss://t.example/announce") zeroHash (replicate 20 x07) 1 (replicate 20 x08)
      = (w, Panic).
Proof.
  destruct (unknown_scheme_panics (fun _ => Ok []) (fun (w : unit) b => (w, length b, None)) (fun w _ => (w, inr []))
    (fun _ => 0) (fun w => (w, None)) demo_hier id demo_uri demo_dial (B "wss://t.example/announce") (mkURL (B "wss") []) zeroHash
    (replicate 20 x08)) as (c & Hc & _ & _ & _ & Hg).
  - vm_compute. reflexivity.
  - apply (bool_decide_unpack _). vm_compute. exact I.
  - exists c. split; [exact Hc|]. intros w. apply Hg.
Defined.
